(* ===== verification/_CoqProject ===== *)
-Q . S2P
Prelude.v
RustStr.v
CommandLine.v
Json.v
Enums.v
EsmClass.v
RegisteredDelivery.v
Config.v
Wire.v
Framing.v
FieldCodec.v
CodecSpec.v
Tables.v
Message.v
MessageSpec.v
MessageProps.v
ResponseProps.v
Instances.v
TimeFormat.v
DeliveryQueue.v
MemoryStorage.v
MemoryStorageProps.v
Handlers.v
Server.v
ServerProps.v
ServerSteps.v
ServerAsync.v
AsyncProps.v
Responses.v
Transactions.v
Receipts.v
ClientConnection.v
ClientLoop.v
ClientProps.v
ClientLoopProps.v
SmscClient.v
SmscClientProps.v
Handshake.v
Witnesses.v
ClientWitnesses.v
Texts.v
ConfigFiles.v
QueueSpec.v
Database.v
SqlStorage.v
SqlStorageProps.v
SqlRefinement.v
SqlInstance.v
SqlBehaviour.v
SqlWitnesses.v
RabbitStorage.v
RabbitProps.v
RabbitWitnesses.v
Redis.v
RedisStorage.v
RedisProps.v
RedisSave.v
RedisRefinement.v
RedisWitnesses.v
StorageFactory.v
Delivery.v
DeliveryProps.v
SqlDelivery.v
RedisDelivery.v
DeliveryWitnesses.v
Submission.v
SubmissionWitnesses.v
TransactionProps.v
TransactionWitnesses.v
RestListeners.v
IpWhitelists.v
IdGenerators.v
Alarm.v
Listener.v
Metrics.v
RestApi.v
Startup.v
ServerApi.v
Login.v
StartupWitnesses.v
