(* ===== verification/Prelude.v ===== *)
(** * REST SMPP Herald: a verification development

    The program is an SMPP 3.4/5.0 short-message centre and a client of such centres, both
    driven over REST (src/src/main.rs starts one or the other). A connection reads bytes
    from a socket, cuts them into PDUs, turns each PDU into a JSON value, handles it and
    writes a PDU made of a JSON value back. The development follows that path.

    ** The parts and where they are

    - [Prelude] (this file): results ([outcome], with the panic of a thread as a third
      case), the monad over a byte buffer, machine integers as [N] with their casts,
      big-endian bytes.
    - [RustStr], [Json]: the string functions of the Rust standard library the source
      calls, on UTF-8 bytes, and the values of serde_json it passes around (an object is a
      sorted list of pairs, as the map of serde_json is sorted).
    - [Enums], [EsmClass], [RegisteredDelivery], [Config]: the field-less enums
      (command_ids.rs, command_status.rs, npi.rs, ton.rs, service_type.rs,
      message_state.rs), the two composite octets and the configuration.
    - [Wire]: [SMPPMessage] and [SmppMessageBuffer] of message.rs, the byte half: readers,
      writers, header fields, cutting PDUs out of a stream. [Framing] proves them.
    - [FieldCodec]: one Module per codec of field_codec.rs; the trait object is the
      inductive type [FieldCodec.FieldCodec]. [CodecSpec] gives each codec its normal form.
    - [Tables]: the static tables of field_codec.rs and message.rs, entry by entry.
    - [Message]: the JSON half of message.rs. [MessageSpec] proves the round trip of whole
      messages, [MessageProps] what holds of arbitrary bytes.
    - [TimeFormat]: SMPP times (field_codec.rs, message_storage.rs).
    - [MemoryStorage]: [InMemoryMessageStorage] of message_storage.rs, its background task
      as the two ticks of its [select!]; [MemoryStorageProps] proves it.
    - [Handlers]: sequence numbers, the counter of message ids, authentication and the HTTP
      message handlers.
    - [Server]: src/src/smsc_server/. A handler is a computation over [world], the state
      the connections share (clients, counters, storage, what was written and spawned);
      the configuration and the answers of the outside are [Env]. The storage is used
      through the class [MessageStorage]. [ServerProps] is a small logic of what handlers
      write; [ServerSteps] shows each handler to be a sequence of steps of the shared
      state and proves the invariants of those steps. [ServerAsync] has the handlers as the
      [async] functions they are, which stop at the table of waiting transactions; with the
      answers at once they are those of [Server] ([handle_message_runs]). [AsyncProps] is the
      logic of such handlers.
    - [Responses]: the tables of waiting requests (transaction_response_manager.rs of the
      server, response_manager.rs of the client) as state machines; [Receipts]: the receipt
      urls of the client (delivery_receipt_manager.rs). [Transactions]: the connections of a
      server beside one another, [turn] one turn of a task and [execute] any sequence of
      turns; a [job] remembers the state its handler started in, so that what the handler is
      to do can be told from there. [TransactionProps] proves them.
    - [ClientConnection]: smsc_connection.rs. Its [SmscConnection.state] is the state of one
      connection (writer, sequence numbers, waiting requests, receipts, counters); a method
      is a computation over it, in a monad where waiting for a lock or a response can have
      no end ([None]). [ClientLoop]: the same connection with its concurrent requests.
      [ConnectionLoop.sys] is the read loop beside the requests that hold or wait for the
      writer and [step] one turn of either; [Reconnection] is the loop of [run] with the
      alarms it raises and clears. [ClientProps] and [ClientLoopProps] prove them.
    - [SmscClient]: smsc_connection_manager.rs (the choice of a connection) and the REST
      handlers of smsc_client.rs over [SmscClient.app], which is client_app_state.rs. All
      connections and the REST interface share one allocator of sequence numbers and one
      table of receipts, as the [Arc]s of the source do: the [pool] keeps them,
      [view] puts them into the state a connection works on and [on_connection] takes them
      back from it.
      [SmscClientProps] proves them; [Handshake] puts a client and a server together.
    - The storages outside the process stand for messages that wait for delivery:
      [QueueSpec] has these ([entry]), the operations of the interface and their results;
      [Texts] what the storages need of serde_json and chrono, as classes with laws.
    - [Database]: an SQL engine as a class with laws. [SqlStorage]: [SqlMessageStorage] of
      message_storage.rs, with the texts of its statements. [SqlStorageProps] relates a
      table to a list of messages, [SqlRefinement] states the operations on the list and
      proves the refinement, [SqlBehaviour] draws consequences. [SqlInstance] is an engine
      that meets the laws.
    - [Redis]: the commands of a Redis server as a class with laws. [RedisStorage]:
      [RedisMessageStorage]. [RedisProps] says what its keys stand for, a map from entry ids
      to messages, [RedisSave] what saving does to them, [RedisRefinement] is the
      refinement.
    - [RabbitStorage]: [RabbitMqMessageStorage] and the interface of its broker; the
      consumer is one turn of its loop. [RabbitProps] proves it.
    - [DeliveryQueue]: [DeliveryMessageInfo] and its manager, which nothing in the crate
      uses. [StorageFactory]: [create_message_storage].
    - [Delivery]: the background task of a storage beside the server, its tick
      ([delivery_tick]) and the class [WaitingQueue] of storages that keep a queue.
      [DeliveryProps] proves what becomes of a stored message against that class,
      [SqlDelivery] and [RedisDelivery] are its instances. [Submission] follows a submit_sm
      from its bytes through the storage to the deliver_sm.
    - [ConfigFiles]: what serde reads from a configuration file ([decoder]s), the loaders of
      main.rs and config.rs. [RestListeners]: [start_rest_listener] and [start_rest].
      [IpWhitelists], [IdGenerators], [Alarm], [Metrics]: ip_whitelist.rs, id_generator.rs,
      alarm.rs and metrics.rs, a class and its instances each. [Listener]: [start_listener]
      and [accept_loop] of the server. [RestApi], [ServerApi]: the routes of the client and
      of the server, and the requests to them.
    - [CommandLine]: the options and [init_logging] of main.rs.
    - [Startup]: main.rs and the two [start] functions, from the arguments to a running
      process ([main]). [Login] starts both sides and binds the one to the other.
    - [Instances], [Witnesses] and the files that end in [Witnesses]: concrete parameters,
      and for each theorem with hypotheses an input that meets them.

    ** What is shown

    - Framing: a stream is cut into the PDUs that were sent, whatever the reads; the drain
      loop runs for ever exactly on a zero length field.
    - Codecs and messages: encode then decode is the normal form, for each codec and for
      whole messages; the headers of the two forms agree; decoding never panics and ends.
    - Storage: each operation against a filter or an update of the whole map, the
      absence of panics and the invariant of non-empty lists.
    - Server: in every execution every request is answered once, with the response PDU of its
      own command id and sequence number ([answer_pdu] has the encoded value, which is empty
      for the five commands whose response this server cannot encode and for a submit_multi
      of more than 255 addresses, [unanswered]); a request in transaction mode is
      forwarded under one fresh number and answered with the status some other connection
      sent under that number, whoever that is, or with a failure after the time ran out
      ([transaction_done]); a response that comes before the sender waits for it is
      lost, and connections that wait for each other wait until their time runs
      out; a message reaches only a client whose range matches; a connection touches only its own
      registration; what store-and-forward refuses. Several theorems state behaviour the
      authors will not have meant: a failed bind registers the client, delivering a
      data_sm panics, delivered messages stay stored.
    - Waiting requests and receipts: a response reaches the task that waits for its number
      and no other; a receipt finds its url; what is lost and what is never removed.
    - Client: the bind of a client and the verdict of a server fit together; what the SMSC
      sends is answered once; a request gets the response to its number in every
      interleaving, if it decodes; round robin gives every connection its turn and fail_over
      the first; a REST request is written by the first connection of that order that can, under
      the next number of the shared allocator; under every id generator that does not repeat a
      stored id the REST store is a map by id, also as it is listed and asked. And
      again what will not be meant: the bind has no time limit, a request that holds the
      writer blocks the answer the SMSC waits for, no connections means a panic.
    - SQL storage: it refines a queue of messages over any engine that gives its statements
      their meaning; it cancels as the in-memory storage does; it delivers until accepted;
      a refused replacement has already deleted what it would have replaced.
    - Redis storage: it refines a map of messages over any server that means what Redis
      documents; in that map replace_sm does nothing. RabbitMQ storage: a turn of the
      consumer loses no message; cancelling and replacing are answered and have no effect.
    - Delivery queue: messages with a delivery time come out in order.
    - Submission and delivery: a submit_sm answered with success is stored and reaches a
      client bound for its address when the tick comes in time and all that is stored can be
      encoded, over every storage that is a queue; there a message for nobody is deleted (the
      in-memory storage keeps it); one that cannot be encoded is never delivered and keeps the rest back.
    - Configuration and start: the
      process that starts runs the listeners it was configured with, and a server whose only
      listener fails still runs; a whitelist guards every connection, and one that cannot be
      read lets nobody or everybody in, as its kind has it; a request reaches the handler of
      its method and path; the table of alarms alternates.
    - Services: the urls of an HTTP handler are asked in rotation, each starting one further
      than the last; distinct ids and sequence numbers.

    ** Parameters, bounds and fuel

    Code outside src/ is a parameter: Base64 ([Base64], with decode-after-encode as its
    law), the calendar of chrono ([Chrono]), regular expressions ([Regex]), HTTP answers,
    the iteration order of hash maps ([TlvOrder], [ClientOrder], the [order] arguments),
    JSON text ([JsonText]: a value reads back from its text), RFC 3339 text ([Rfc3339]:
    instants read back, and their texts compare as they do), the SQL engine
    ([SqlDatabase]: the meaning of the statements the storage issues, rows up to order), the
    Redis server ([RedisServer]: the documented effect of the commands used; a score is a
    whole number of milliseconds, which a double holds exactly), the AMQP broker
    ([AmqpBroker]: publish, deliver, ack, requeue) and [slice::binary_search]
    ([BinarySearch]: any place its documentation allows); files, the network, certificates,
    UUIDs, YAML text, the registry of metrics and the log are classes beside their use. The
    refinements hold while these
    answer; their failures are results of the same operations, without a promise about what
    is left.
    Integers are [N] with the casts of the source written out; arithmetic that the source
    does in [u32] or [u64] wraps; a duration or an instant out of the range of chrono is a
    panic. Two definitions have fuel: [decode_tlvs] with the length
    of its buffer (enough, since a turn consumes at least a tag) and [extract_loop], whose
    [None] is exactly the divergence of the source. A write to a socket succeeds whole or
    fails whole, and within one handler the clock is one instant.

    ** Not modelled

    The text parsers (YAML, JSON, percent escapes), the splitting of the command line, sockets,
    TLS, HTTP and the writing of the log are those of other crates and are parameters or left
    out. Of serde, the array form of a struct and the refusal of repeated keys are left out.
    A handler of the server meets one clock and sockets that answer alike from its start to its
    end, also when it waits in between. *)
From Stdlib Require Export NArith ZArith Lia.
From Stdlib Require Export Strings.Byte.
From stdpp Require Export base decidable option list list_numbers numbers strings gmap countable fin_maps sorting.

#[export] Set Default Goal Selector "!".

Abbreviation bytes := (list byte).

#[export] Instance byte_eq_decision : EqDecision byte := Byte.byte_eq_dec.

(** ** Results: [Result<T, E>] plus the abrupt end of a panicking thread. *)

Inductive outcome (E A : Type) : Type :=
| Ok (a : A)
| Err (e : E)
| Panic.
Arguments Ok {E A} a.
Arguments Err {E A} e.
Arguments Panic {E A}.

(** [std::io::ErrorKind], the variants the source uses. *)
Inductive ErrorKind : Type :=
| InvalidInput | InvalidData | NotFound | Other | TimedOut | NotConnected
| UnexpectedEof | ConnectionRefused.

#[export] Instance ErrorKind_eq_dec : EqDecision ErrorKind.
Proof. solve_decision. Defined.

(** [std::io::Error]: its kind and the message it was built with. *)
Record io_error : Type := IoError { err_kind : ErrorKind; err_msg : string }.

#[export] Instance io_error_eq_dec : EqDecision io_error.
Proof. solve_decision. Defined.

Abbreviation ioresult := (outcome io_error).

Definition io_err {A} (k : ErrorKind) (m : string) : ioresult A := Err (IoError k m).

#[export] Instance outcome_ret E : MRet (outcome E) := λ A a, Ok a.
#[export] Instance outcome_bind E : MBind (outcome E) := λ A B f m,
  match m with Ok a => f a | Err e => Err e | Panic => Panic end.
#[export] Instance outcome_fmap E : FMap (outcome E) := λ A B f m,
  match m with Ok a => Ok (f a) | Err e => Err e | Panic => Panic end.

#[export] Instance outcome_eq_dec E A `{EqDecision E, EqDecision A} :
  EqDecision (outcome E A).
Proof. solve_decision. Defined.

Definition is_ok {E A} (r : outcome E A) : bool :=
  match r with Ok _ => true | _ => false end.

(** [Result::map_err] *)
Definition map_err {E F A} (f : E → F) (r : outcome E A) : outcome F A :=
  match r with Ok a => Ok a | Err e => Err (f e) | Panic => Panic end.

(** [Option::ok_or_else] *)
Definition ok_or {E A} (e : E) (o : option A) : outcome E A :=
  match o with Some a => Ok a | None => Err e end.

(** ** Computations over a byte buffer ([&mut BytesMut])

    A fallible function that receives [&mut BytesMut] leaves the buffer in some
    state on every exit, errors included, so the buffer is threaded beside the
    result and not inside it. *)

Definition BufM (A : Type) : Type := bytes → ioresult A * bytes.

#[export] Instance BufM_ret : MRet BufM := λ A a buf, (Ok a, buf).
#[export] Instance BufM_bind : MBind BufM := λ A B f m buf,
  match m buf with
  | (Ok a, buf') => f a buf'
  | (Err e, buf') => (Err e, buf')
  | (Panic, buf') => (Panic, buf')
  end.

Definition BufM_fail {A} (k : ErrorKind) (m : string) : BufM A :=
  λ buf, (io_err k m, buf).

(** A result that needs no buffer, such as a slice that may panic. *)
Definition BufM_lift {A} (r : ioresult A) : BufM A := λ buf, (r, buf).

(** [option] readers run inside the monad, their [None] turned into an error. *)
Definition BufM_opt {A} (r : bytes → option A * bytes) (k : ErrorKind) (m : string) :
    BufM A :=
  λ buf, match r buf with
         | (Some a, buf') => (Ok a, buf')
         | (None, buf') => (io_err k m, buf')
         end.

Lemma BufM_bind_ok {A B} (m : BufM A) (f : A → BufM B) buf a buf' :
  m buf = (Ok a, buf') → (m ≫= f) buf = f a buf'.
Proof. intros H. unfold mbind, BufM_bind. by rewrite H. Qed.

(** [for x in xs { f(x, buf)?; }] *)
Fixpoint BufM_iter {A} (f : A → BufM unit) (xs : list A) : BufM unit :=
  match xs with
  | [] => mret tt
  | x :: xs' => f x ≫= λ _, BufM_iter f xs'
  end.

(** [for _ in 0..n { items.push(m(buf)?); }] *)
Fixpoint BufM_repeat {A} (n : nat) (m : BufM A) : BufM (list A) :=
  match n with
  | O => mret []
  | S n' => m ≫= λ x, BufM_repeat n' m ≫= λ xs, mret (x :: xs)
  end.

(** [f(buf).map_err(|_| e)], the buffer left as [f] leaves it. *)
Definition BufM_map_err {A} (k : ErrorKind) (msg : string) (m : BufM A) : BufM A :=
  λ buf, let '(r, buf') := m buf in (map_err (λ _, IoError k msg) r, buf').

(** A computation that appends [bs] and succeeds, from every buffer. *)
Definition appends (m : BufM unit) (bs : bytes) : Prop :=
  ∀ buf, m buf = (Ok tt, buf ++ bs).

(** A computation that reads exactly [bs], whatever follows, and returns [a]. *)
Definition parses {A} (m : BufM A) (bs : bytes) (a : A) : Prop :=
  ∀ rest, m (bs ++ rest) = (Ok a, rest).

Lemma appends_bind (m : BufM unit) (k : unit → BufM unit) bs cs :
  appends m bs → appends (k tt) cs → appends (m ≫= k) (bs ++ cs).
Proof.
  intros Hm Hk buf. rewrite (BufM_bind_ok _ _ _ _ _ (Hm buf)), Hk. by rewrite app_assoc.
Qed.

Lemma parses_bind {A B} (m : BufM A) (k : A → BufM B) a b bs cs :
  parses m bs a → parses (k a) cs b → parses (m ≫= k) (bs ++ cs) b.
Proof.
  intros Hm Hk rest. rewrite <-app_assoc, (BufM_bind_ok _ _ _ _ _ (Hm _)). apply Hk.
Qed.

Lemma parses_ret {A} (a : A) : parses (mret a) [] a.
Proof. intros rest. done. Qed.

Lemma appends_iter {A} (f : A → BufM unit) xs bss :
  Forall2 (λ x, appends (f x)) xs bss → appends (BufM_iter f xs) (concat bss).
Proof.
  induction 1 as [|x bs xs bss Hx _ IH]; simpl.
  - intros buf. by rewrite app_nil_r.
  - by apply appends_bind.
Qed.

Lemma parses_repeat {A} (m : BufM A) bss ys :
  Forall2 (parses m) bss ys → parses (BufM_repeat (length ys) m) (concat bss) ys.
Proof.
  induction 1 as [|bs y bss ys Hy _ IH]; simpl; [apply parses_ret|].
  apply parses_bind with y; [done|].
  rewrite <-(app_nil_r (concat _)). apply parses_bind with ys; [done|apply parses_ret].
Qed.

Lemma parses_ret_after {A B} (m : BufM A) (f : A → B) bs a :
  parses m bs a → parses (m ≫= λ x, mret (f x)) bs (f a).
Proof. intros H rest. by rewrite (BufM_bind_ok _ _ _ _ _ (H _)). Qed.

Lemma parses_opt {A} (r : bytes → option A * bytes) k msg bs a :
  (∀ rest, r (bs ++ rest) = (Some a, rest)) → parses (BufM_opt r k msg) bs a.
Proof. intros H rest. unfold BufM_opt. by rewrite H. Qed.

Lemma parses_map_err {A} k msg (m : BufM A) bs a :
  parses m bs a → parses (BufM_map_err k msg m) bs a.
Proof. intros H rest. unfold BufM_map_err. by rewrite H. Qed.

(** ** Machine integers

    Unsigned integers are [N]; a cast [as uW] is a reduction modulo [2^W]. *)

Definition cast_u8 (n : N) : N := (n mod 2 ^ 8)%N.
Definition cast_u16 (n : N) : N := (n mod 2 ^ 16)%N.
Definition cast_u32 (n : N) : N := (n mod 2 ^ 32)%N.
Definition cast_u64 (n : N) : N := (n mod 2 ^ 64)%N.

(** A [u8] as a byte of a buffer. *)
Definition byte_of_N (n : N) : byte := default x00 (Byte.of_N (n mod 256)).

Lemma byte_to_N_bound (b : byte) : (Byte.to_N b < 256)%N.
Proof. pose proof (Byte.to_N_bounded b). lia. Qed.

Lemma to_N_byte_of_N (n : N) : Byte.to_N (byte_of_N n) = (n mod 256)%N.
Proof.
  unfold byte_of_N. destruct (Byte.of_N (n mod 256)) as [b|] eqn:E; simpl.
  - by apply Byte.to_of_N.
  - apply Byte.of_N_None_iff in E. pose proof (N.mod_lt n 256). lia.
Qed.

Lemma byte_of_N_to_N (b : byte) : byte_of_N (Byte.to_N b) = b.
Proof.
  unfold byte_of_N. rewrite N.mod_small by apply byte_to_N_bound.
  by rewrite Byte.of_to_N.
Qed.

Lemma byte_to_N_inj (a b : byte) : Byte.to_N a = Byte.to_N b → a = b.
Proof. intros H. by rewrite <-(byte_of_N_to_N a), H, byte_of_N_to_N. Qed.

(** Big-endian byte strings: [be_bytes w n] is what [put_uN] appends. *)
Fixpoint be_bytes (w : nat) (n : N) : bytes :=
  match w with
  | O => []
  | S w' => byte_of_N (n / 256 ^ N.of_nat w') :: be_bytes w' n
  end.

(** The unsigned integer a big-endian byte string denotes. *)
Definition be_N (bs : bytes) : N :=
  fold_left (λ acc b, (acc * 256 + Byte.to_N b)%N) bs 0%N.

Lemma length_be_bytes w n : length (be_bytes w n) = w.
Proof. induction w; simpl; congruence. Qed.

Lemma be_N_acc (bs : bytes) (acc : N) :
  fold_left (λ a b, (a * 256 + Byte.to_N b)%N) bs acc
  = (acc * 256 ^ N.of_nat (length bs) + be_N bs)%N.
Proof.
  unfold be_N. revert acc. induction bs as [|b bs IH]; intros acc; simpl fold_left.
  - simpl. lia.
  - rewrite IH, (IH (0 * 256 + _)%N). simpl length.
    rewrite Nat2N.inj_succ, N.pow_succ_r'. lia.
Qed.

Lemma be_N_cons (b : byte) (bs : bytes) :
  be_N (b :: bs) = (Byte.to_N b * 256 ^ N.of_nat (length bs) + be_N bs)%N.
Proof. unfold be_N at 1. simpl fold_left. rewrite be_N_acc. lia. Qed.

Lemma be_N_be_bytes w n : be_N (be_bytes w n) = (n mod 256 ^ N.of_nat w)%N.
Proof.
  induction w as [|w IH]; [by rewrite N.mod_1_r|].
  simpl be_bytes. rewrite be_N_cons, length_be_bytes, IH, to_N_byte_of_N.
  rewrite Nat2N.inj_succ, N.pow_succ_r', (N.mul_comm 256).
  rewrite N.Div0.mod_mul_r. lia.
Qed.

Lemma be_N_bound (bs : bytes) : (be_N bs < 256 ^ N.of_nat (length bs))%N.
Proof.
  induction bs as [|b bs IH]; [done|].
  rewrite be_N_cons. simpl length. rewrite Nat2N.inj_succ, N.pow_succ_r'.
  pose proof (byte_to_N_bound b). nia.
Qed.

Lemma be_bytes_be_N (bs : bytes) : be_bytes (length bs) (be_N bs) = bs.
Proof.
  assert (Hgen : ∀ (l : bytes) k, be_bytes (length l)
            (k * 256 ^ N.of_nat (length l) + be_N l) = l).
  { induction l as [|b l IH]; intros k; [done|].
    simpl length. simpl be_bytes. rewrite be_N_cons.
    set (p := (256 ^ N.of_nat (length l))%N).
    assert (p ≠ 0)%N by (by apply N.pow_nonzero).
    rewrite Nat2N.inj_succ, N.pow_succ_r'. fold p. f_equal.
    - pose proof (be_N_bound l). fold p in H0.
      replace (k * (256 * p) + (Byte.to_N b * p + be_N l))%N
        with (be_N l + (k * 256 + Byte.to_N b) * p)%N by lia.
      rewrite N.div_add, N.div_small, N.add_0_l by done.
      apply byte_to_N_inj. rewrite to_N_byte_of_N.
      rewrite N.add_comm, N.Div0.mod_add. apply N.mod_small, byte_to_N_bound.
    - replace (k * (256 * p) + (Byte.to_N b * p + be_N l))%N
        with ((k * 256 + Byte.to_N b) * p + be_N l)%N by lia.
      apply IH. }
  specialize (Hgen bs 0%N). by rewrite N.mul_0_l in Hgen.
Qed.

(** A byte and a multiple of 256 share no bit. *)
Lemma land_shiftl_small a b : (b < 256)%N → N.land b (N.shiftl a 8) = 0%N.
Proof.
  intros Hb. apply N.bits_inj. intros i. rewrite N.land_spec, N.bits_0.
  destruct (N.ltb_spec i 8).
  - rewrite N.shiftl_spec_low by done. by rewrite andb_false_r.
  - destruct (decide (b = 0%N)) as [->|Hn]; [by rewrite N.bits_0|].
    rewrite (N.bits_above_log2 b); [done|]. apply N.lt_le_trans with 8%N; [|done].
    apply N.log2_lt_pow2; lia.
Qed.
