(* ===== verification/RustStr.v ===== *)
(** * Rust strings

    A Rust [String] is a UTF-8 byte sequence. It is a Stdlib [string] here (a
    sequence of bytes), with [utf8_valid] for the invariant Rust maintains. The
    file holds the [str]/[String] operations of the standard library that the
    source calls: slicing with the char-boundary check, [String::from_utf8_lossy],
    [replace], [split], [trim], the case conversions, integer parsing and the
    hexadecimal [format!] specifiers. *)
From S2P Require Export Prelude.

Definition as_bytes (s : string) : bytes := String.list_byte_of_string s.
Definition of_bytes (b : bytes) : string := String.string_of_list_byte b.

(** [str::len] counts bytes. *)
Definition str_len (s : string) : nat := length (as_bytes s).

Lemma of_as_bytes (s : string) : of_bytes (as_bytes s) = s.
Proof. apply String.string_of_list_byte_of_string. Qed.

Lemma as_of_bytes (b : bytes) : as_bytes (of_bytes b) = b.
Proof. apply String.list_byte_of_string_of_list_byte. Qed.

Lemma as_bytes_inj (s t : string) : as_bytes s = as_bytes t → s = t.
Proof. intros H. by rewrite <-(of_as_bytes s), H, of_as_bytes. Qed.

Definition is_empty_str (s : string) : bool := bool_decide (s = "").

(** ** UTF-8 *)

Definition in_range (lo hi : N) (b : byte) : bool :=
  (lo <=? Byte.to_N b)%N && (Byte.to_N b <=? hi)%N.

(** A continuation byte, [b & 192 == 128]. *)
Definition is_cont (b : byte) : bool := in_range 128 191 b.

(** [str::is_char_boundary] *)
Definition is_char_boundary (l : bytes) (i : nat) : bool :=
  match i with
  | O => true
  | _ => match l !! i with
         | Some b => negb (is_cont b)
         | None => Nat.eqb i (length l)
         end
  end.

(** [&s[a..b]]: panics when the range is out of bounds or splits a character. *)
Definition slice_bytes {E} (l : bytes) (a b : nat) : outcome E bytes :=
  if Nat.leb a b && Nat.leb b (length l)
     && is_char_boundary l a && is_char_boundary l b
  then Ok (take (b - a) (drop a l)) else Panic.

Definition str_slice {E} (s : string) (a b : nat) : outcome E string :=
  of_bytes <$> slice_bytes (as_bytes s) a b.

(** The second byte of a three- or four-byte character has a range that depends on
    the first (no overlong forms, no surrogates, nothing above U+10FFFF). *)
Definition second3_ok (b c : byte) : bool :=
  if in_range 224 224 b then in_range 160 191 c
  else if in_range 237 237 b then in_range 128 159 c else is_cont c.

Definition second4_ok (b c : byte) : bool :=
  if in_range 240 240 b then in_range 144 191 c
  else if in_range 244 244 b then in_range 128 143 c else is_cont c.

(** One step of [core::str::lossy]: whether the next bytes form a character, and
    how many of them the character, or the invalid chunk, takes. *)
Definition utf8_next (l : bytes) : bool * nat :=
  let b0 := default x00 (l !! 0) in
  let b1 := default x00 (l !! 1) in
  let b2 := default x00 (l !! 2) in
  let b3 := default x00 (l !! 3) in
  if in_range 0 127 b0 then (true, 1)
  else if in_range 194 223 b0 then
    if is_cont b1 then (true, 2) else (false, 1)
  else if in_range 224 239 b0 then
    if second3_ok b0 b1 then if is_cont b2 then (true, 3) else (false, 2)
    else (false, 1)
  else if in_range 240 244 b0 then
    if second4_ok b0 b1 then
      if is_cont b2 then if is_cont b3 then (true, 4) else (false, 3)
      else (false, 2)
    else (false, 1)
  else (false, 1).

(** U+FFFD, the replacement character. *)
Definition replacement_char : bytes := [xef; xbf; xbd].

(** The fuel is the number of bytes left: every step takes at least one. *)
Fixpoint lossy_go (fuel : nat) (l : bytes) : bytes :=
  match fuel, l with
  | _, [] => []
  | O, _ => []
  | S fuel', _ =>
      let '(ok, k) := utf8_next l in
      (if ok then take k l else replacement_char) ++ lossy_go fuel' (drop k l)
  end.

(** [String::from_utf8_lossy] *)
Definition from_utf8_lossy (l : bytes) : string := of_bytes (lossy_go (length l) l).

Fixpoint utf8_go (fuel : nat) (l : bytes) : bool :=
  match fuel, l with
  | _, [] => true
  | O, _ => false
  | S fuel', _ => let '(ok, k) := utf8_next l in ok && utf8_go fuel' (drop k l)
  end.

(** The invariant of [str]: the bytes are valid UTF-8. *)
Definition utf8_valid (l : bytes) : bool := utf8_go (length l) l.
Definition str_valid (s : string) : bool := utf8_valid (as_bytes s).

(** *** Well-formed characters *)

Inductive utf8_char : bytes → Prop :=
| utf8_char1 b : in_range 0 127 b = true → utf8_char [b]
| utf8_char2 b c : in_range 194 223 b = true → is_cont c = true → utf8_char [b; c]
| utf8_char3 b c d :
    in_range 224 239 b = true → second3_ok b c = true → is_cont d = true →
    utf8_char [b; c; d]
| utf8_char4 b c d e :
    in_range 240 244 b = true → second4_ok b c = true → is_cont d = true →
    is_cont e = true → utf8_char [b; c; d; e].

Lemma in_range_spec lo hi b :
  in_range lo hi b = true ↔ (lo ≤ Byte.to_N b ∧ Byte.to_N b ≤ hi)%N.
Proof. unfold in_range. rewrite andb_true_iff, !N.leb_le. done. Qed.

Lemma in_range_false lo hi lo' hi' b :
  in_range lo hi b = true → (hi < lo' ∨ hi' < lo)%N → in_range lo' hi' b = false.
Proof.
  rewrite in_range_spec. intros H1 H2. apply not_true_iff_false.
  rewrite in_range_spec. lia.
Qed.

Lemma second3_cont b c : second3_ok b c = true → is_cont c = true.
Proof.
  unfold second3_ok, is_cont. intros H. rewrite in_range_spec.
  repeat case_match; apply in_range_spec in H; lia.
Qed.

Lemma second4_cont b c : second4_ok b c = true → is_cont c = true.
Proof.
  unfold second4_ok, is_cont. intros H. rewrite in_range_spec.
  repeat case_match; apply in_range_spec in H; lia.
Qed.

Lemma utf8_next_char c r : utf8_char c → utf8_next (c ++ r) = (true, length c).
Proof.
  intros [b H|b x H H2|b x d H H2 H3|b x d e H H2 H3 H4]; unfold utf8_next; simpl.
  - by rewrite H.
  - rewrite (in_range_false 194 223 0 127), H by (done || lia). by rewrite H2.
  - rewrite (in_range_false 224 239 0 127), (in_range_false 224 239 194 223), H
      by (done || lia).
    by rewrite H2, H3.
  - rewrite (in_range_false 240 244 0 127), (in_range_false 240 244 194 223),
      (in_range_false 240 244 224 239), H by (done || lia).
    by rewrite H2, H3, H4.
Qed.

Lemma is_cont_x00 : is_cont x00 = false.
Proof. reflexivity. Qed.

Lemma second3_x00 b : second3_ok b x00 = false.
Proof. unfold second3_ok. by repeat case_match. Qed.

Lemma second4_x00 b : second4_ok b x00 = false.
Proof. unfold second4_ok. by repeat case_match. Qed.

(** Every step on a non-empty input consumes input, and at most four bytes of it;
    a step that reports a character consumed one. *)
Lemma utf8_next_spec b l :
  let '(ok, k) := utf8_next (b :: l) in
  0 < k ≤ length (b :: l) ∧ (ok = true → utf8_char (take k (b :: l))).
Proof.
  unfold utf8_next.
  destruct l as [|c [|d [|e l]]]; cbn -[in_range is_cont second3_ok second4_ok];
    rewrite ?is_cont_x00, ?second3_x00, ?second4_x00;
    repeat case_match; simplify_eq; (split; [simpl; lia|]);
    first [by intros [=] | intros _; by constructor].
Qed.

Lemma utf8_go_chars n l :
  length l ≤ n →
  utf8_go n l = true ↔ ∃ cs, Forall utf8_char cs ∧ l = concat cs.
Proof.
  revert l. induction n as [|n IH]; intros [|b l] Hn; simpl in Hn; [| lia | |].
  1, 2: split; [intros _; by exists [] | done].
  pose proof (utf8_next_spec b l) as Hs.
  cbn [utf8_go]. destruct (utf8_next (b :: l)) as [ok k] eqn:E.
  destruct Hs as [Hk Hc]. rewrite andb_true_iff, IH.
  2: { rewrite length_drop. simpl in *. lia. }
  split.
  - intros [-> (cs & Hcs & Heq)]. exists (take k (b :: l) :: cs). split.
    + by constructor; [apply Hc|].
    + simpl. by rewrite <-Heq, take_drop.
  - intros ([|c cs] & Hcs & Heq); [done|].
    apply Forall_cons in Hcs as [Hc1 Hcs]. simpl in Heq.
    rewrite Heq, (utf8_next_char _ _ Hc1) in E. injection E as <- <-.
    split; [done|]. exists cs. split; [done|]. by rewrite Heq, drop_app_length.
Qed.

Lemma utf8_valid_chars l :
  utf8_valid l = true ↔ ∃ cs, Forall utf8_char cs ∧ l = concat cs.
Proof. by apply utf8_go_chars. Qed.

Lemma utf8_valid_app l r :
  utf8_valid l = true → utf8_valid r = true → utf8_valid (l ++ r) = true.
Proof.
  rewrite !utf8_valid_chars. intros (cs & Hc & ->) (ds & Hd & ->).
  exists (cs ++ ds). split; [by apply Forall_app|by rewrite concat_app].
Qed.

(** On valid input [from_utf8_lossy] changes nothing. *)
Lemma lossy_go_valid n l :
  length l ≤ n → utf8_go n l = true → lossy_go n l = l.
Proof.
  revert l. induction n as [|n IH]; intros [|b l] Hn Hv; simpl in Hn; try done.
  cbn [utf8_go lossy_go] in *. pose proof (utf8_next_spec b l) as Hs.
  destruct (utf8_next (b :: l)) as [ok k]. destruct Hs as [Hk _].
  apply andb_true_iff in Hv as [-> Hv]. rewrite IH, take_drop; try done.
  rewrite length_drop. simpl in *. lia.
Qed.

Lemma from_utf8_lossy_valid (s : string) :
  str_valid s = true → from_utf8_lossy (as_bytes s) = s.
Proof.
  intros H. unfold from_utf8_lossy. rewrite lossy_go_valid, of_as_bytes; done.
Qed.

(** Whatever the bytes received, the result is a Rust string. *)
Lemma from_utf8_lossy_is_str (l : bytes) : str_valid (from_utf8_lossy l) = true.
Proof.
  unfold str_valid, from_utf8_lossy. rewrite as_of_bytes.
  generalize (length l) as n. intros n. revert l.
  induction n as [|n IH]; intros [|b l]; try done.
  cbn [lossy_go]. pose proof (utf8_next_spec b l) as Hs.
  destruct (utf8_next (b :: l)) as [ok k]. destruct Hs as [_ Hc].
  apply utf8_valid_app; [|apply IH]. destruct ok; [|done].
  apply utf8_valid_chars. exists [take k (b :: l)].
  split; [by constructor; [apply Hc|constructor]|]. simpl. by rewrite app_nil_r.
Qed.

(** *** Truncation at a character boundary *)

Lemma utf8_char_tail c k :
  utf8_char c → 0 < k < length c → ∃ b, c !! k = Some b ∧ is_cont b = true.
Proof.
  intros Hc Hk. destruct Hc; simpl in Hk;
    destruct k as [|[|[|[|k]]]]; try lia; simpl; eauto using second3_cont, second4_cont.
Qed.

Lemma utf8_valid_take (l : bytes) (k : nat) :
  utf8_valid l = true → is_char_boundary l k = true → utf8_valid (take k l) = true.
Proof.
  rewrite utf8_valid_chars. intros (cs & Hcs & ->). revert k.
  induction Hcs as [|c cs Hc Hcs IH]; intros k Hb; simpl in *; [by rewrite take_nil|].
  destruct (decide (length c ≤ k)) as [Hge|Hlt].
  - rewrite take_app_ge by done. apply utf8_valid_app.
    { apply utf8_valid_chars. exists [c]. simpl. rewrite app_nil_r. by auto. }
    apply IH. unfold is_char_boundary in *. destruct k as [|k].
    { by replace (0 - length c) with 0 by lia. }
    rewrite lookup_app_r in Hb by done.
    destruct (S k - length c) as [|j] eqn:Ej; [done|].
    destruct (concat cs !! S j); [done|]. rewrite length_app in Hb.
    apply Nat.eqb_eq in Hb. apply Nat.eqb_eq. lia.
  - destruct k as [|k]; [done|].
    destruct (utf8_char_tail c (S k)) as (b & Hl & Hcont); [done|lia|].
    unfold is_char_boundary in Hb. rewrite (lookup_app_l_Some _ _ _ _ Hl) in Hb.
    by rewrite Hcont in Hb.
Qed.

Lemma str_slice_prefix {E} (s : string) (k : nat) :
  k ≤ str_len s → is_char_boundary (as_bytes s) k = true →
  str_slice (E := E) s 0 k = Ok (of_bytes (take k (as_bytes s))).
Proof.
  intros Hk Hb. unfold str_slice, slice_bytes. unfold str_len in Hk.
  rewrite (proj2 (Nat.leb_le _ _) Hk), Hb. simpl. by rewrite Nat.sub_0_r, drop_0.
Qed.

(** ** Searching and replacing *)

Definition starts_with (p l : bytes) : bool := bool_decide (p `prefix_of` l).
(** [str::contains] *)
Definition contains (p l : bytes) : bool :=
  existsb (λ i, starts_with p (drop i l)) (seq 0 (S (length l))).
Definition ends_with (p l : bytes) : bool := bool_decide (p `suffix_of` l).

(** [s.replace(c, "")] for an ASCII character [c]. *)
Definition remove_byte (c : byte) (l : bytes) : bytes := filter (λ b, b ≠ c) l.

(** [str::to_ascii_lowercase] *)
Definition ascii_lower (b : byte) : byte :=
  if in_range 65 90 b then byte_of_N (Byte.to_N b + 32) else b.
Definition to_ascii_lowercase (l : bytes) : bytes := ascii_lower <$> l.

(** [str::to_lowercase] and [str::to_uppercase], for comparison with ASCII text. A
    non-ASCII character is rewritten when its image is ASCII (the Kelvin sign; the
    dotless i, the long s, the sharp s and the Latin ligatures); any other one keeps
    a non-ASCII byte in its image and is left as it is, so that an equality test
    with an ASCII literal has the same answer. *)
Fixpoint to_lowercase (l : bytes) : bytes :=
  match l with
  | xe2 :: x84 :: xaa :: r => x6b :: to_lowercase r
  | b :: r => ascii_lower b :: to_lowercase r
  | [] => []
  end.

Definition ascii_upper (b : byte) : byte :=
  if in_range 97 122 b then byte_of_N (Byte.to_N b - 32) else b.

Fixpoint to_uppercase (l : bytes) : bytes :=
  match l with
  | xc3 :: x9f :: r => x53 :: x53 :: to_uppercase r            (* sharp s *)
  | xc4 :: xb1 :: r => x49 :: to_uppercase r                   (* dotless i *)
  | xc5 :: xbf :: r => x53 :: to_uppercase r                   (* long s *)
  | xef :: xac :: x80 :: r => x46 :: x46 :: to_uppercase r     (* ff *)
  | xef :: xac :: x81 :: r => x46 :: x49 :: to_uppercase r     (* fi *)
  | xef :: xac :: x82 :: r => x46 :: x4c :: to_uppercase r     (* fl *)
  | xef :: xac :: x83 :: r => x46 :: x46 :: x49 :: to_uppercase r
  | xef :: xac :: x84 :: r => x46 :: x46 :: x4c :: to_uppercase r
  | xef :: xac :: x85 :: r => x53 :: x54 :: to_uppercase r
  | xef :: xac :: x86 :: r => x53 :: x54 :: to_uppercase r
  | b :: r => ascii_upper b :: to_uppercase r
  | [] => []
  end.

(** [str::split] with a non-empty pattern: the pieces between the matches. *)
Fixpoint split_go (fuel : nat) (pat cur l : bytes) : list bytes :=
  match fuel, l with
  | O, _ | _, [] => [reverse cur]
  | S fuel', b :: r =>
      if starts_with pat l then reverse cur :: split_go fuel' pat [] (drop (length pat) l)
      else split_go fuel' pat (b :: cur) r
  end.
Definition split_on (pat l : bytes) : list bytes := split_go (length l) pat [] l.

(** Repeatedly removes a leading match of one of the patterns. *)
Fixpoint strip_go (fuel : nat) (pats : list bytes) (l : bytes) : bytes :=
  match fuel with
  | O => l
  | S fuel' =>
      match list_find (λ p, starts_with p l = true) pats with
      | Some (_, p) => strip_go fuel' pats (drop (length p) l)
      | None => l
      end
  end.

(** [trim_start_matches] and [trim_end_matches] with a string pattern. *)
Definition trim_start_matches (pat l : bytes) : bytes := strip_go (length l) [pat] l.
Definition trim_end_matches (pat l : bytes) : bytes :=
  reverse (strip_go (length l) [reverse pat] (reverse l)).

(** The UTF-8 forms of the characters with the White_Space property. *)
Definition whitespace : list bytes :=
  [[x09]; [x0a]; [x0b]; [x0c]; [x0d]; [x20]; [xc2; x85]; [xc2; xa0]; [xe1; x9a; x80];
   [xe2; x80; x80]; [xe2; x80; x81]; [xe2; x80; x82]; [xe2; x80; x83]; [xe2; x80; x84];
   [xe2; x80; x85]; [xe2; x80; x86]; [xe2; x80; x87]; [xe2; x80; x88]; [xe2; x80; x89];
   [xe2; x80; x8a]; [xe2; x80; xa8]; [xe2; x80; xa9]; [xe2; x80; xaf]; [xe2; x81; x9f];
   [xe3; x80; x80]].

(** [str::trim] *)
Definition trim (l : bytes) : bytes :=
  let l := strip_go (length l) whitespace l in
  reverse (strip_go (length l) (reverse <$> whitespace) (reverse l)).

(** ** Integers as text *)

Open Scope N_scope.

Definition digit_byte (upper : bool) (d : N) : byte :=
  byte_of_N (if d <? 10 then 48 + d else if upper then 55 + d else 87 + d).

(** The digits of [n], most significant first; [size n + 1] steps are enough. *)
Fixpoint radix_digits (fuel : nat) (base n : N) : list N :=
  match fuel with
  | O => []
  | S fuel' => if n <? base then [n] else radix_digits fuel' base (n / base) ++ [n mod base]
  end.

Definition digits_of (base n : N) : list N := radix_digits (S (N.size_nat n)) base n.

Definition fmt_radix (base : N) (upper : bool) (n : N) : bytes :=
  digit_byte upper <$> digits_of base n.

Definition pad_left (w : nat) (c : byte) (l : bytes) : bytes := replicate (w - length l) c ++ l.

(** [format!("{:0wX}", n)] and [format!("{:0wx}", n)] *)
Definition format_hex (upper : bool) (w : nat) (n : N) : string :=
  of_bytes (pad_left w x30 (fmt_radix 16 upper n)).

(** [format!("{}", n)] *)
Definition format_dec (n : N) : string := of_bytes (fmt_radix 10 false n).

Definition digit_val (radix : N) (b : byte) : option N :=
  let c := Byte.to_N b in
  let d := if in_range 48 57 b then Some (c - 48)
           else if in_range 97 122 b then Some (c - 87)
           else if in_range 65 90 b then Some (c - 55)
           else None in
  match d with Some d => if d <? radix then Some d else None | None => None end.

(** The digit loop of [from_str_radix], with its overflow check. *)
Definition parse_digits (radix bound : N) (l : bytes) : option N :=
  fold_left (λ acc b,
    match acc, digit_val radix b with
    | Some n, Some d => if n * radix + d <? bound then Some (n * radix + d) else None
    | _, _ => None
    end) l (Some 0).

(** [uW::from_str_radix(s, radix)] with [bound = 2^W]: one leading [+] is accepted,
    the empty string and a lone sign are not. *)
Definition from_str_radix (radix bound : N) (l : bytes) : option N :=
  match l with
  | [] => None
  | [x2b] => None
  | x2b :: r => parse_digits radix bound r
  | _ => parse_digits radix bound l
  end.

Definition parse_u32 (l : bytes) : option N := from_str_radix 10 (2 ^ 32) l.

(** [str::parse::<i64>] *)
Definition parse_i64 (l : bytes) : option Z :=
  match l with
  | x2d :: r =>
      match r with
      | [] => None
      | _ => (λ n, (- Z.of_N n)%Z) <$> parse_digits 10 (2 ^ 63 + 1) r
      end
  | _ => Z.of_N <$> from_str_radix 10 (2 ^ 63) l
  end.

Lemma digits_fuel (base n : N) (fuel : nat) :
  2 <= base → n < 2 ^ N.of_nat fuel → n < base ∨ n / base < 2 ^ N.of_nat (pred fuel).
Proof.
  intros Hb Hn. destruct fuel as [|f]; simpl in *.
  - left. simpl in Hn. lia.
  - right. apply N.Div0.div_lt_upper_bound. rewrite Nat2N.inj_succ, N.pow_succ_r' in Hn. nia.
Qed.

(** Parsing what [radix_digits] produces gives the number back. *)
Lemma parse_radix_digits fuel base bound upper n :
  2 <= base <= 36 → n < bound → n < 2 ^ N.of_nat (pred fuel) → (0 < fuel)%nat →
  parse_digits base bound (digit_byte upper <$> radix_digits fuel base n) = Some n.
Proof.
  intros Hbase. revert n bound. induction fuel as [|f IH]; intros n bound Hn Hf Hpos; [lia|].
  assert (Hdig : ∀ d, d < base → digit_val base (digit_byte upper d) = Some d).
  { intros d Hd. unfold digit_byte, digit_val, in_range. rewrite to_N_byte_of_N.
    destruct (N.ltb_spec d 10), upper;
      rewrite N.mod_small by lia;
      repeat match goal with
      | |- context [?a <=? ?b] => destruct (N.leb_spec a b); try lia
      end; simpl;
      match goal with |- context [?a <? base] => destruct (N.ltb_spec a base) end;
      try lia; f_equal; lia. }
  cbn [radix_digits]. destruct (N.ltb_spec n base) as [Hlt|Hge].
  - unfold parse_digits. simpl. rewrite Hdig by done.
    replace (0 * base + n) with n by lia.
    by rewrite (proj2 (N.ltb_lt _ _) Hn).
  - rewrite fmap_app. unfold parse_digits in *. rewrite fold_left_app, IH.
    + simpl. rewrite Hdig by (apply N.mod_lt; lia).
      replace (n / base * base + n mod base) with n
        by (rewrite (N.mul_comm (n / base)); apply N.div_mod; lia).
      by rewrite (proj2 (N.ltb_lt _ _) Hn).
    + apply N.le_lt_trans with n; [|done]. apply N.Div0.div_le_upper_bound. nia.
    + simpl in Hf. destruct (digits_fuel base n f) as [H|H]; [lia|done|lia|done].
    + simpl in Hf. destruct f; [simpl in Hf; lia|lia].
Qed.

Lemma size_nat_bound n : n < 2 ^ N.of_nat (N.size_nat n).
Proof.
  destruct n as [|p]; [done|]. simpl. induction p as [p IH|p IH|]; simpl Pos.size_nat;
    rewrite ?Nat2N.inj_succ, ?N.pow_succ_r'; lia.
Qed.

Lemma parse_fmt_radix base bound upper n :
  2 <= base <= 36 → n < bound →
  parse_digits base bound (fmt_radix base upper n) = Some n.
Proof.
  intros Hb Hn. apply parse_radix_digits; try done; [|lia].
  simpl pred. apply size_nat_bound.
Qed.

Lemma parse_digits_zeros base bound k l :
  2 <= base → 0 < bound → parse_digits base bound (replicate k x30 ++ l) = parse_digits base bound l.
Proof.
  intros Hb Hbound. induction k as [|k IH]; [done|].
  rewrite <-IH. unfold parse_digits at 1. simpl.
  assert (digit_val base x30 = Some 0) as ->.
  { unfold digit_val. change (in_range 48 57 x30) with true. cbn iota.
    change (Byte.to_N x30 - 48) with 0. by rewrite (proj2 (N.ltb_lt 0 base)) by lia. }
  replace (0 * base + 0) with 0 by lia.
  by rewrite (proj2 (N.ltb_lt 0 bound)) by lia.
Qed.

(** Reading back a padded hexadecimal number. *)
Lemma parse_digits_format_hex upper w bound n :
  n < bound → parse_digits 16 bound (as_bytes (format_hex upper w n)) = Some n.
Proof.
  intros Hn. unfold format_hex, pad_left. rewrite as_of_bytes, parse_digits_zeros by lia.
  by apply parse_fmt_radix.
Qed.

Lemma format_hex_inj upper w n m : format_hex upper w n = format_hex upper w m → n = m.
Proof.
  intros H. assert (Hn := parse_digits_format_hex upper w (n + m + 1) n).
  assert (Hm := parse_digits_format_hex upper w (n + m + 1) m).
  rewrite H, Hm in Hn by lia. by injection Hn; [|lia].
Qed.

Close Scope N_scope.
