(* ===== verification/CommandLine.v ===== *)
(** * The command line and the log (src/main.rs)

    The arguments of the program with their defaults, and [init_logging]: what is logged, in
    which form and where. Splitting the command line is clap's and writing the log is the
    tracing crates'; both are parameters. The paths are those of the standard library, on
    Unix. *)
From S2P Require Export RustStr.

(** ** Paths *)

(** [std::path::Component] *)
Inductive component : Type := RootDir | CurDir | ParentDir | Normal (name : string).

#[export] Instance component_eq_dec : EqDecision component.
Proof. solve_decision. Defined.

(** Empty components are skipped, and so is ["."] unless the path starts with it. *)
Definition component_of (first : bool) (part : bytes) : option component :=
  if decide (part = []) then None
  else if decide (part = as_bytes ".") then (if first then Some CurDir else None)
  else if decide (part = as_bytes "..") then Some ParentDir
  else Some (Normal (of_bytes part)).

(** [Path::components] *)
Definition components (path : string) : list component :=
  (if starts_with (as_bytes "/") (as_bytes path) then [RootDir] else []) ++
  match split_on (as_bytes "/") (as_bytes path) with
  | first :: rest => option_list (component_of true first) ++ omap (component_of false) rest
  | [] => []
  end.

(** [Path::parent], as components *)
Definition parent (path : list component) : option (list component) :=
  match reverse path with
  | [] | RootDir :: _ => None
  | _ :: front => Some (reverse front)
  end.

(** [Path::file_name] *)
Definition file_name (path : list component) : option string :=
  match reverse path with Normal name :: _ => Some name | _ => None end.

Example components_of_paths :
  components "/var//log/./smpp.log" = [RootDir; Normal "var"; Normal "log"; Normal "smpp.log"] ∧
  components "./logs/" = [CurDir; Normal "logs"] ∧ components "" = [].
Proof. by vm_compute. Qed.

Lemma parent_file_name path name :
  file_name path = Some name → ∃ front, parent path = Some front ∧ front ++ [Normal name] = path.
Proof.
  unfold file_name, parent. destruct (reverse path) as [|[| | |x] front] eqn:E; try done.
  intros [= ->]. exists (reverse front). split; [done|].
  by rewrite <-reverse_cons, <-E, reverse_involutive.
Qed.

(** ** Arguments *)

Module LogFormat.
Inductive t : Type := Text | Json.

(** [ValueEnum]: the names are those of the variants in kebab case. *)
Definition from_str (s : string) : option t :=
  if decide (s = "text") then Some Text else if decide (s = "json") then Some Json else None.
End LogFormat.

Module LogTimestamp.
Inductive t : Type := Local | Iso8601.

Definition from_str (s : string) : option t :=
  if decide (s = "local") then Some Local else if decide (s = "iso8601") then Some Iso8601 else None.

(** The format given to chrono. *)
Definition time_format (timestamp : t) : string :=
  match timestamp with
  | Local => "%Y-%m-%d %H:%M:%S%.3f"
  | Iso8601 => "%Y-%m-%dT%H:%M:%S%.3f%:z"
  end.
End LogTimestamp.

Module LogLevel.
Inductive t : Type := Error | Warn | Info | Debug | Trace.

Definition to_str (l : t) : string :=
  match l with
  | Error => "error" | Warn => "warn" | Info => "info" | Debug => "debug" | Trace => "trace"
  end.

Definition all : list t := [Error; Warn; Info; Debug; Trace].

Definition from_str (s : string) : option t := head (filter (λ l, to_str l = s) all).

Lemma level_from_to_str l : from_str (to_str l) = Some l.
Proof. by destruct l. Qed.
End LogLevel.

(** The subcommands. *)
Inductive AppConfig : Type :=
| Client (config_file : string)
| Server (config_file : string).

Record Args : Type := mkArgs {
  app_config : AppConfig;
  log_output : string;
  log_format : LogFormat.t;
  log_timestamp : LogTimestamp.t;
  log_level : LogLevel.t;
}.

(** What clap finds in the arguments of a known subcommand: the subcommand, and the values of the
    options that were given. *)
Record matches : Type := mkMatches {
  subcommand : AppConfig;
  value_of : string → option string;
}.

(** The values, with the defaults of the attributes; [None]: a value that is not possible. *)
Definition args_of (m : matches) : option Args :=
  format ← LogFormat.from_str (default "text" (value_of m "log-format"));
  timestamp ← LogTimestamp.from_str (default "local" (value_of m "log-timestamp"));
  level ← LogLevel.from_str (default "info" (value_of m "log-level"));
  Some (mkArgs (subcommand m) (default "stdout" (value_of m "log-output")) format timestamp level).

(** ** Logging *)

(** The tracing crates: the filter of the environment, if it has a valid one, the filter of a
    level, and whether the file of a log can be opened in a directory. *)
Class Tracing (F : Type) := {
  try_from_default_env : option F;
  env_filter : string → F;
  appender_opens : list component → string → bool;
}.

Inductive destination : Type :=
| Stdout
| LogFile (directory : list component) (file : string).

(** What the subscriber is built with; [with_ansi]: what the crate does by itself, unless told. *)
Record subscriber (F : Type) : Type := mkSubscriber {
  with_env_filter : F;
  json : bool;
  with_timer : string;
  with_writer : destination;
  with_ansi : option bool;
}.
Arguments mkSubscriber {F}. Arguments with_env_filter {F}. Arguments with_writer {F}.

(** The directory and the name of a log file; the path is split and put together again. *)
Definition log_file (output : string) : destination :=
  let path := components output in
  LogFile (default (components ".") (parent path)) (default "smpp.log" (file_name path)).

(** The subscriber, or a panic: a file that cannot be opened. *)
Definition init_logging {F} `{Tracing F} (output : string) (format : LogFormat.t)
    (timestamp : LogTimestamp.t) (level : LogLevel.t) : option (subscriber F) :=
  let filter := default (env_filter (LogLevel.to_str level)) try_from_default_env in
  let json := match format with LogFormat.Json => true | LogFormat.Text => false end in
  let timer := LogTimestamp.time_format timestamp in
  if decide (output = "stdout") then Some (mkSubscriber filter json timer Stdout None)
  else
    match log_file output with
    | LogFile directory file =>
        if appender_opens directory file
        then Some (mkSubscriber filter json timer (LogFile directory file) (Some false)) else None
    | Stdout => None
    end.

(** ** What holds *)

(** The log is written to the file that was named: when the path ends in a file name, the
    directory and the name that the appender gets are those of the path. *)
Theorem log_goes_to_named_file {F} `{Tracing F} output format timestamp level s name :
  output ≠ "stdout" → file_name (components output) = Some name →
  init_logging output format timestamp level = Some s →
  ∃ directory, with_writer s = LogFile directory name ∧ directory ++ [Normal name] = components output.
Proof.
  intros Ho Hn. destruct (parent_file_name _ _ Hn) as (front & Hp & Hf).
  unfold init_logging, log_file. rewrite decide_False, Hn, Hp by done. cbn.
  destruct (appender_opens front name); [|done]. intros [= <-]. by exists front.
Qed.

(** The level of the command line counts only when the environment names no filter. *)
Theorem environment_filter_wins {F} `{Tracing F} output format timestamp level s f :
  try_from_default_env = Some f → init_logging output format timestamp level = Some s →
  with_env_filter s = f.
Proof.
  intros Hf. unfold init_logging. rewrite Hf. case_decide; [by intros [= <-]|].
  destruct (log_file output) as [|directory file]; [done|].
  destruct (appender_opens directory file); [by intros [= <-]|done].
Qed.
