(* ===== verification/Json.v ===== *)
(** * JSON values

    [serde_json::Value] is the tagged union the whole program passes messages in. Its
    variants and the accessors the source calls are modelled here; an object is the
    sorted map ([BTreeMap]) that serde_json uses by default. *)
From S2P Require Export RustStr.

(** [serde_json::Number]: a [u64], a negative [i64], or a float (by its bits). *)
Inductive Number : Type :=
| PosInt (n : N)
| NegInt (z : Z)
| Float (bits : N).

#[export] Instance Number_eq_dec : EqDecision Number.
Proof. solve_decision. Defined.

#[local] Set Warnings "-register-all".
Inductive Value : Type :=
| JNull
| JBool (b : bool)
| JNumber (n : Number)
| JString (s : string)
| JArray (l : list Value)
| JObject (m : list (string * Value)).

#[export] Instance Value_eq_dec : EqDecision Value.
Proof.
  unfold EqDecision, RelDecision, Decision. fix go 1. intros v w.
  destruct v as [|b|n|s|l|m], w as [|b'|n'|s'|l'|m']; try (right; discriminate).
  - by left.
  - destruct (decide (b = b')) as [->|]; [by left|right; congruence].
  - destruct (decide (n = n')) as [->|]; [by left|right; congruence].
  - destruct (decide (s = s')) as [->|]; [by left|right; congruence].
  - destruct (@list_eq_dec Value go l l') as [->|]; [by left|right; congruence].
  - destruct (@list_eq_dec (string * Value) (@prod_eq_dec string _ Value go) m m')
      as [->|]; [by left|right; congruence].
Defined.

Abbreviation jmap := (list (string * Value)).

(** ** Maps *)

Fixpoint jget (k : string) (m : jmap) : option Value :=
  match m with
  | [] => None
  | (k', v) :: m' => if decide (k = k') then Some v else jget k m'
  end.

(** [Map::insert]: replaces the value of a present key, keeps the keys sorted. *)
Fixpoint jinsert (k : string) (v : Value) (m : jmap) : jmap :=
  match m with
  | [] => [(k, v)]
  | (k', v') :: m' =>
      if decide (k = k') then (k, v) :: m'
      else if String.ltb k k' then (k, v) :: m
      else (k', v') :: jinsert k v m'
  end.

(** A [Vec<(String, Value)>] inserted pair by pair, later pairs winning. *)
Definition jextend (fields : list (string * Value)) (m : jmap) : jmap :=
  fold_left (λ acc '(k, v), jinsert k v acc) fields m.

Lemma jget_insert k k' v m :
  jget k' (jinsert k v m) = if decide (k = k') then Some v else jget k' m.
Proof.
  induction m as [|[k1 v1] m IH]; simpl.
  - repeat case_decide; congruence.
  - destruct (decide (k = k1)) as [->|Hk]; simpl; [repeat case_decide; congruence|].
    destruct (String.ltb k k1); simpl; [repeat case_decide; congruence|].
    rewrite IH. repeat case_decide; congruence.
Qed.

Lemma jget_insert_eq k v m : jget k (jinsert k v m) = Some v.
Proof. rewrite jget_insert. by case_decide. Qed.

Lemma jget_insert_ne k k' v m : k ≠ k' → jget k' (jinsert k v m) = jget k' m.
Proof. intros H. rewrite jget_insert. by case_decide. Qed.

Lemma jextend_app l r m : jextend (l ++ r) m = jextend r (jextend l m).
Proof. apply fold_left_app. Qed.

Lemma jextend_cons k v l m : jextend ((k, v) :: l) m = jextend l (jinsert k v m).
Proof. done. Qed.

Lemma jget_extend_not_in k l m :
  k ∉ l.*1 → jget k (jextend l m) = jget k m.
Proof.
  revert m. induction l as [|[k' v] l IH]; intros m Hk; [done|].
  simpl in Hk. apply not_elem_of_cons in Hk as [Hne Hk].
  rewrite jextend_cons, IH by done. by apply jget_insert_ne.
Qed.

(** When all pairs with key [k] carry the value [v], [v] is what a lookup finds. *)
Lemma jget_extend_in k v l m :
  (k, v) ∈ l → (∀ w, (k, w) ∈ l → w = v) → jget k (jextend l m) = Some v.
Proof.
  revert m. induction l as [|[k' v'] l IH]; intros m Hin Huniq; [by apply elem_of_nil in Hin|].
  rewrite jextend_cons. destruct (decide (k ∈ l.*1)) as [Hk|Hk].
  - apply list_elem_of_fmap in Hk as ([k1 w] & Hkw & Hw). simpl in Hkw. subst k1.
    pose proof (Huniq w) as Hwv. rewrite elem_of_cons in Hwv.
    rewrite (Hwv (or_intror Hw)) in Hw.
    apply IH; [done|]. intros w' Hw'. apply Huniq. by apply elem_of_cons; right.
  - rewrite jget_extend_not_in by done.
    apply elem_of_cons in Hin as [Heq|Hin].
    + injection Heq as -> ->. apply jget_insert_eq.
    + exfalso. apply Hk. apply list_elem_of_fmap. by exists (k, v).
Qed.

(** ** Accessors *)

(** [Value::get] with a string index. *)
Definition get (v : Value) (k : string) : option Value :=
  match v with JObject m => jget k m | _ => None end.

(** [Number::as_u64] *)
Definition num_as_u64 (n : Number) : option N :=
  match n with PosInt n => Some n | _ => None end.

Definition as_u64 (v : Value) : option N :=
  match v with JNumber n => num_as_u64 n | _ => None end.
Definition as_str (v : Value) : option string :=
  match v with JString s => Some s | _ => None end.
Definition as_bool (v : Value) : option bool :=
  match v with JBool b => Some b | _ => None end.
Definition as_array (v : Value) : option (list Value) :=
  match v with JArray l => Some l | _ => None end.
Definition as_object (v : Value) : option jmap :=
  match v with JObject m => Some m | _ => None end.

(** [Value::from] for an unsigned integer and for a string. *)
Definition jnum (n : N) : Value := JNumber (PosInt n).

(** [v.get(k).and_then(|v| v.as_str())] and its [as_u64] sibling. *)
Definition get_str (v : Value) (k : string) : option string := get v k ≫= as_str.
Definition get_u64 (v : Value) (k : string) : option N := get v k ≫= as_u64.

(** The two idioms the handlers read fields with:
    [.and_then(|v| v.as_str()).unwrap_or_default()] and
    [.and_then(|v| v.as_u64()).unwrap_or(0)]. *)
Definition str_field (v : Value) (k : string) : string := default "" (get_str v k).
Definition u64_field (v : Value) (k : string) : N := default 0%N (get_u64 v k).

(** [value[k] = x]: inserts in an object, turns [Null] into an object, panics on the
    other variants. *)
Definition index_set {E} (v : Value) (k : string) (x : Value) : outcome E Value :=
  match v with
  | JObject m => Ok (JObject (jinsert k x m))
  | JNull => Ok (JObject [(k, x)])
  | _ => Panic
  end.

(** [value.get_mut(k).map(|v| *v = x)]: overwrites a present field. *)
Definition set_if_present (v : Value) (k : string) (x : Value) : Value :=
  match v with
  | JObject m => match jget k m with
                 | Some _ => JObject (jinsert k x m)
                 | None => v
                 end
  | _ => v
  end.

(** [value.as_object_mut().map(|obj| obj.insert(k, x))] *)
Definition insert_in_object (v : Value) (k : string) (x : Value) : Value :=
  match v with JObject m => JObject (jinsert k x m) | _ => v end.

Lemma get_insert_in_object m k x k' :
  get (insert_in_object (JObject m) k x) k' = if decide (k = k') then Some x else jget k' m.
Proof. apply jget_insert. Qed.

Lemma get_set_if_present m k x k' :
  get (set_if_present (JObject m) k x) k'
  = if decide (k = k') then (λ _, x) <$> jget k m else jget k' m.
Proof.
  simpl. destruct (jget k m) eqn:E; simpl.
  - rewrite jget_insert. by case_decide.
  - case_decide; [by subst|done].
Qed.

Lemma get_set_if_present_ne v k x k' : k ≠ k' → get (set_if_present v k x) k' = get v k'.
Proof.
  intros Hk. destruct v; try done. by rewrite get_set_if_present, decide_False by done.
Qed.

Create Rewrite HintDb json.
#[export] Hint Rewrite jget_insert_eq : json.
#[export] Hint Rewrite jget_insert_ne using (by congruence) : json.

(** ** Insertion order does not matter

    Two insertions of different keys commute, so an object depends only on which value
    each key got last. *)

Lemma compare_trans_Lt s t u :
  String.compare s t = Lt → String.compare t u = Lt → String.compare s u = Lt.
Proof.
  revert t u. induction s as [|a s IH]; intros [|b t] [|c u]; simpl; try done.
  destruct (Ascii.compare a b) eqn:Eab, (Ascii.compare b c) eqn:Ebc; try done; intros H1 H2.
  - apply Ascii.compare_eq_iff in Eab as ->. rewrite Ebc. by apply (IH t u).
  - apply Ascii.compare_eq_iff in Eab as ->. by rewrite Ebc.
  - apply Ascii.compare_eq_iff in Ebc as <-. by rewrite Eab.
  - assert (Ascii.compare a c = Lt) as ->; [|done]. unfold Ascii.compare in *.
    rewrite N.compare_lt_iff in *. lia.
Qed.

Lemma str_ltb_trans s t u : String.ltb s t = true → String.ltb t u = true → String.ltb s u = true.
Proof.
  unfold String.ltb. destruct (String.compare s t) eqn:E1; [done| |done].
  destruct (String.compare t u) eqn:E2; [done| |done]. by rewrite (compare_trans_Lt _ _ _ E1 E2).
Qed.

Lemma str_ltb_asym s t : String.ltb s t = true → String.ltb t s = false.
Proof.
  unfold String.ltb. rewrite (String.compare_antisym t s).
  by destruct (String.compare s t).
Qed.

Lemma str_ltb_total s t : s ≠ t → String.ltb s t = false → String.ltb t s = true.
Proof.
  unfold String.ltb. rewrite (String.compare_antisym t s). intros Hne.
  destruct (String.compare s t) eqn:E; try done. by apply String.compare_eq_iff in E.
Qed.

(** Evaluates the key tests of [jinsert] that the context decides. *)
Ltac jinsert_step :=
  repeat first
    [ progress simpl
    | rewrite decide_True by done
    | rewrite decide_False by congruence
    | match goal with
      | H : String.ltb ?a ?b = _ |- context [String.ltb ?a ?b] => rewrite H
      | H : String.ltb ?a ?b = true |- context [String.ltb ?b ?a] =>
          rewrite (str_ltb_asym _ _ H)
      end ].

Lemma jinsert_comm k k' v v' m :
  k ≠ k' → jinsert k v (jinsert k' v' m) = jinsert k' v' (jinsert k v m).
Proof.
  intros Hne.
  assert (Hlt : String.ltb k k' = true ∨ String.ltb k' k = true).
  { destruct (String.ltb k k') eqn:E; [by left|]. right. by apply str_ltb_total. }
  induction m as [|[c w] m IH]; [by destruct Hlt; jinsert_step|]. simpl.
  destruct (decide (k' = c)) as [->|Hk'c], (decide (k = c)) as [->|Hkc]; [done| | |].
  - by destruct Hlt; jinsert_step.
  - by destruct Hlt; jinsert_step.
  - destruct (String.ltb k' c) eqn:E', (String.ltb k c) eqn:E.
    + by destruct Hlt; jinsert_step.
    + destruct Hlt as [Hlt|Hlt]; [|by jinsert_step].
      by rewrite (str_ltb_trans _ _ _ Hlt E') in E.
    + destruct Hlt as [Hlt|Hlt]; [by jinsert_step|].
      by rewrite (str_ltb_trans _ _ _ Hlt E) in E'.
    + jinsert_step. by rewrite IH.
Qed.

Lemma jextend_insert k v l m :
  k ∉ l.*1 → jextend l (jinsert k v m) = jinsert k v (jextend l m).
Proof.
  revert m. induction l as [|[k' v'] l IH]; intros m Hk; [done|].
  simpl in Hk. apply not_elem_of_cons in Hk as [Hne Hk].
  rewrite !jextend_cons, jinsert_comm by done. by apply IH.
Qed.

Lemma jextend_perm l l' m : NoDup l.*1 → l ≡ₚ l' → jextend l m = jextend l' m.
Proof.
  intros Hnd Hp. revert m Hnd. induction Hp as [|[k v] l l' Hp IH|[k v] [k' v'] l|l l1 l2 Hp1 IH1 Hp2 IH2];
    intros m Hnd; try (rewrite fmap_cons in Hnd); try (rewrite fmap_cons in Hnd).
  - done.
  - apply NoDup_cons in Hnd as [_ Hnd]. rewrite !jextend_cons. by apply IH.
  - apply NoDup_cons in Hnd as [Hk _]. simpl in Hk. apply not_elem_of_cons in Hk as [Hne _].
    rewrite !jextend_cons. by rewrite jinsert_comm.
  - rewrite IH1 by done. apply IH2. by rewrite <-Hp1.
Qed.
