(* ===== verification/Enums.v ===== *)
(** * Enumerations of the protocol

    The field-less enums of the source, one Module each, with their conversions to and
    from integers and names. A [match] on a string is a table searched in order. *)
From S2P Require Export RustStr.

(** [match s { "a" => x, ..., _ => None }] *)
Fixpoint str_match {A} (table : list (string * A)) (s : string) : option A :=
  match table with
  | [] => None
  | (k, a) :: rest => if String.eqb s k then Some a else str_match rest s
  end.

(** ** [CommandId] (src/command_ids.rs) *)
Module CommandId.

Inductive t : Type :=
  | BindReceiver | BindReceiverResp | BindTransmitter | BindTransmitterResp
  | BindTransceiver | BindTransceiverResp | Unbind | UnbindResp | Outbind | SubmitSm
  | SubmitSmResp | SubmitMulti | SubmitMultiResp | DeliverSm | DeliverSmResp | DataSm
  | DataSmResp | QuerySm | QuerySmResp | CancelSm | CancelSmResp | ReplaceSm
  | ReplaceSmResp | EnquireLink | EnquireLinkResp | GenericNack | AlertNotification
  | BroadcastSm | BroadcastSmResp | QueryBroadcastSm | QueryBroadcastSmResp
  | CancelBroadcastSm | CancelBroadcastSmResp | Unknown.

Definition as_u32 (c : t) : N :=
  match c with
  | BindReceiver => 0x00000001
  | BindReceiverResp => 0x80000001
  | BindTransmitter => 0x00000002
  | BindTransmitterResp => 0x80000002
  | BindTransceiver => 0x00000009
  | BindTransceiverResp => 0x80000009
  | Unbind => 0x00000006
  | UnbindResp => 0x80000006
  | Outbind => 0x0000000B
  | SubmitSm => 0x00000004
  | SubmitSmResp => 0x80000004
  | SubmitMulti => 0x00000021
  | SubmitMultiResp => 0x80000021
  | DeliverSm => 0x00000005
  | DeliverSmResp => 0x80000005
  | DataSm => 0x00000103
  | DataSmResp => 0x80000103
  | QuerySm => 0x00000003
  | QuerySmResp => 0x80000003
  | CancelSm => 0x00000008
  | CancelSmResp => 0x80000008
  | ReplaceSm => 0x00000007
  | ReplaceSmResp => 0x80000007
  | EnquireLink => 0x00000015
  | EnquireLinkResp => 0x80000015
  | GenericNack => 0x80000000
  | AlertNotification => 0x00000102
  | BroadcastSm => 0x00000111
  | BroadcastSmResp => 0x80000111
  | QueryBroadcastSm => 0x00000112
  | QueryBroadcastSmResp => 0x80000112
  | CancelBroadcastSm => 0x00000113
  | CancelBroadcastSmResp => 0x80000113
  | Unknown => 0xFFFFFFFF
  end%N.

Definition from_u32 (value : N) : option t :=
  match value with
  | 0x00000001 => Some BindReceiver
  | 0x80000001 => Some BindReceiverResp
  | 0x00000002 => Some BindTransmitter
  | 0x80000002 => Some BindTransmitterResp
  | 0x00000009 => Some BindTransceiver
  | 0x80000009 => Some BindTransceiverResp
  | 0x00000006 => Some Unbind
  | 0x80000006 => Some UnbindResp
  | 0x0000000B => Some Outbind
  | 0x00000004 => Some SubmitSm
  | 0x80000004 => Some SubmitSmResp
  | 0x00000021 => Some SubmitMulti
  | 0x80000021 => Some SubmitMultiResp
  | 0x00000005 => Some DeliverSm
  | 0x80000005 => Some DeliverSmResp
  | 0x00000103 => Some DataSm
  | 0x80000103 => Some DataSmResp
  | 0x00000003 => Some QuerySm
  | 0x80000003 => Some QuerySmResp
  | 0x00000008 => Some CancelSm
  | 0x80000008 => Some CancelSmResp
  | 0x00000007 => Some ReplaceSm
  | 0x80000007 => Some ReplaceSmResp
  | 0x00000015 => Some EnquireLink
  | 0x80000015 => Some EnquireLinkResp
  | 0x80000000 => Some GenericNack
  | 0x00000102 => Some AlertNotification
  | 0x00000111 => Some BroadcastSm
  | 0x80000111 => Some BroadcastSmResp
  | 0x00000112 => Some QueryBroadcastSm
  | 0x80000112 => Some QueryBroadcastSmResp
  | 0x00000113 => Some CancelBroadcastSm
  | 0x80000113 => Some CancelBroadcastSmResp
  | _ => None
  end%N.

(** The names [from_str] compares with, in the order of its [match]. *)
Definition names : list (string * t) :=
  [
   ("bindreceiver", BindReceiver); ("bindreceiverresp", BindReceiverResp);
   ("bindreceiverresponse", BindReceiverResp); ("bindtransmitter", BindTransmitter);
   ("bindtransmitterresp", BindTransmitterResp);
   ("bindtransmitterresponse", BindTransmitterResp); ("bindtransceiver", BindTransceiver);
   ("bindtransceiverresp", BindTransceiverResp);
   ("bindtransceiverresponse", BindTransceiverResp); ("unbind", Unbind);
   ("unbindresp", UnbindResp); ("unbindresponse", UnbindResp); ("outbind", Outbind);
   ("submitsm", SubmitSm); ("submitsmresp", SubmitSmResp);
   ("submitsmresponse", SubmitSmResp); ("submitmulti", SubmitMulti);
   ("submitmultiresp", SubmitMultiResp); ("submitmultiresponse", SubmitMultiResp);
   ("deliversm", DeliverSm); ("deliversmresp", DeliverSmResp);
   ("deliversmresponse", DeliverSmResp); ("datasm", DataSm); ("datasmresp", DataSmResp);
   ("datasmresponse", DataSmResp); ("querysm", QuerySm); ("querysmresp", QuerySmResp);
   ("querysmresponse", QuerySmResp); ("cancelsm", CancelSm);
   ("cancelsmresp", CancelSmResp); ("cancelsmresponse", CancelSmResp);
   ("replacesm", ReplaceSm); ("replacesmresp", ReplaceSmResp);
   ("replacesmresponse", ReplaceSmResp); ("enquirelink", EnquireLink);
   ("enquirelinkresp", EnquireLinkResp); ("enquirelinkresponse", EnquireLinkResp);
   ("genericnack", GenericNack); ("alertnotification", AlertNotification);
   ("broadcastsm", BroadcastSm); ("broadcastsmresp", BroadcastSmResp);
   ("broadcastsmresponse", BroadcastSmResp); ("querybroadcastsm", QueryBroadcastSm);
   ("querybroadcastsmresp", QueryBroadcastSmResp);
   ("querybroadcastsmresponse", QueryBroadcastSmResp);
   ("cancelbroadcastsm", CancelBroadcastSm);
   ("cancelbroadcastsmresp", CancelBroadcastSmResp);
   ("cancelbroadcastsmresponse", CancelBroadcastSmResp)].

Definition from_str (name : string) : option t :=
  let name := remove_byte x5f (remove_byte x2d (as_bytes name)) in
  let by_name := str_match names (of_bytes (to_ascii_lowercase name)) in
  if starts_with (as_bytes "0x") name then
    match from_str_radix 16 (2 ^ 32) (drop 2 name) with
    | Some value => from_u32 value
    | None => by_name
    end
  else by_name.

Definition to_str (c : t) : string :=
  match c with
  | BindReceiver => "BindReceiver"
  | BindReceiverResp => "BindReceiverResp"
  | BindTransmitter => "BindTransmitter"
  | BindTransmitterResp => "BindTransmitterResp"
  | BindTransceiver => "BindTransceiver"
  | BindTransceiverResp => "BindTransceiverResp"
  | Unbind => "Unbind"
  | UnbindResp => "UnbindResp"
  | Outbind => "Outbind"
  | SubmitSm => "SubmitSm"
  | SubmitSmResp => "SubmitSmResp"
  | SubmitMulti => "SubmitMulti"
  | SubmitMultiResp => "SubmitMultiResp"
  | DeliverSm => "DeliverSm"
  | DeliverSmResp => "DeliverSmResp"
  | DataSm => "DataSm"
  | DataSmResp => "DataSmResp"
  | QuerySm => "QuerySm"
  | QuerySmResp => "QuerySmResp"
  | CancelSm => "CancelSm"
  | CancelSmResp => "CancelSmResp"
  | ReplaceSm => "ReplaceSm"
  | ReplaceSmResp => "ReplaceSmResp"
  | EnquireLink => "EnquireLink"
  | EnquireLinkResp => "EnquireLinkResp"
  | GenericNack => "GenericNack"
  | AlertNotification => "AlertNotification"
  | BroadcastSm => "BroadcastSm"
  | BroadcastSmResp => "BroadcastSmResp"
  | QueryBroadcastSm => "QueryBroadcastSm"
  | QueryBroadcastSmResp => "QueryBroadcastSmResp"
  | CancelBroadcastSm => "CancelBroadcastSm"
  | CancelBroadcastSmResp => "CancelBroadcastSmResp"
  | Unknown => "Unknown"
  end.

Definition is_response (c : t) : bool := negb (N.land (as_u32 c) 0x80000000 =? 0)%N.
Definition is_request (c : t) : bool := negb (is_response c).

Definition is_client_message (c : t) : bool :=
  match c with
  | BindReceiver | BindTransmitter | BindTransceiver | Unbind | SubmitSm | SubmitMulti
  | DeliverSmResp | DataSm | QuerySm | CancelSm | ReplaceSm | EnquireLink | EnquireLinkResp
  | GenericNack | BroadcastSm | QueryBroadcastSm | CancelBroadcastSm => true
  | _ => false
  end.

Definition is_client_request (c : t) : bool :=
  match c with
  | BindReceiver | BindTransmitter | BindTransceiver | Unbind | SubmitSm | SubmitMulti
  | DataSm | QuerySm | CancelSm | ReplaceSm | BroadcastSm | QueryBroadcastSm
  | CancelBroadcastSm => true
  | _ => false
  end.

Definition is_smsc_message (c : t) : bool :=
  match c with
  | BindReceiverResp | BindTransmitterResp | BindTransceiverResp | Outbind | UnbindResp
  | SubmitSmResp | SubmitMultiResp | DeliverSm | DataSmResp | QuerySmResp | CancelSmResp
  | ReplaceSmResp | EnquireLink | EnquireLinkResp | GenericNack | BroadcastSmResp
  | AlertNotification | QueryBroadcastSmResp | CancelBroadcastSmResp => true
  | _ => false
  end.

Definition is_smsc_request (c : t) : bool :=
  match c with
  | Outbind | DeliverSm | AlertNotification => true
  | _ => false
  end.

Definition all : list t :=
  [ BindReceiver; BindReceiverResp; BindTransmitter; BindTransmitterResp; BindTransceiver;
    BindTransceiverResp; Unbind; UnbindResp; Outbind; SubmitSm; SubmitSmResp; SubmitMulti;
    SubmitMultiResp; DeliverSm; DeliverSmResp; DataSm; DataSmResp; QuerySm; QuerySmResp;
    CancelSm; CancelSmResp; ReplaceSm; ReplaceSmResp; EnquireLink; EnquireLinkResp;
    GenericNack; AlertNotification; BroadcastSm; BroadcastSmResp; QueryBroadcastSm;
    QueryBroadcastSmResp; CancelBroadcastSm; CancelBroadcastSmResp; Unknown].

(** The discriminant determines the variant. *)
Lemma command_id_from_as_u32 c : default Unknown (from_u32 (as_u32 c)) = c.
Proof. by destruct c. Qed.

#[global] Instance eq_dec : EqDecision t.
Proof.
  intros a b. destruct (decide (as_u32 a = as_u32 b)) as [H|H]; [left|right; congruence].
  by rewrite <-(command_id_from_as_u32 a), H, command_id_from_as_u32.
Defined.

Lemma command_id_as_from_u32 n c : from_u32 n = Some c → as_u32 c = n.
Proof. unfold from_u32. intros H. repeat case_match; simplify_eq; done. Qed.

Lemma from_str_to_str c : c ≠ Unknown → from_str (to_str c) = Some c.
Proof. intros H. by destruct c; [..|destruct H]. Qed.

Lemma as_u32_bound c : (as_u32 c < 2 ^ 32)%N.
Proof. by destruct c. Qed.

End CommandId.

(** ** [CommandStatus] (src/command_status.rs) *)
Module CommandStatus.

Inductive t : Type :=
  | EsmeRok | EsmeRInvMsgLen | EsmeRInvCmdLen | EsmeRInvCmdId | EsmeRInvBndSts
  | EsmeRAlyBnd | EsmeRInvPrtFlg | EsmeRInvRegDlvFlg | EsmeRSysErr | EsmeRInvSrcAdr
  | EsmeRInvDstAdr | EsmeRInvMsgId | EsmeRBindFail | EsmeRInvPaswd | EsmeRInvSysId
  | EsmeRCancelFail | EsmeRReplaceFail | EsmeRMsgQFul | EsmeRInvSerTyp | EsmeRInvNumDests
  | EsmeRInvDlName | EsmeRInvDestFlag | EsmeRInvSubRep | EsmeRInvEsmClass | EsmeRCntSubDl
  | EsmeRSubmitFail | EsmeRInvSrcTon | EsmeRInvSrcNpi | EsmeRInvDstTon | EsmeRInvDstNpi
  | EsmeRInvSysTyp | EsmeRInvRepFlag | EsmeRInvNumMsgs | EsmeRThrottled | EsmeRInvSched
  | EsmeRInvExpiry | EsmeRInvDftMsgId | EsmeRxTAppn | EsmeRxPAppn | EsmeRxRAppn
  | EsmeRQueryFail | EsmeRInvOptParStream | EsmeROptParNotAllwd | EsmeRInvParLen
  | EsmeRMissingOptParam | EsmeRInvOptParamVal | EsmeRDeliveryFailure | EsmeRUnknownErr
  | EsmeRSerTypUnauth | EsmeRProhibited | EsmeRSerTypUnavail | EsmeRSerTypDenied
  | EsmeRInvDcs | EsmeRInvSrcAddrSubunit | EsmeRInvDstAddrSubunit | EsmeRInvBcastFreqInt
  | EsmeRInvBcastAliasName | EsmeRInvBcastAreaFmt | EsmeRInvNumBcastAreas
  | EsmeRInvBcastCntType | EsmeRInvBcastMsgClass | EsmeRBcastFail | EsmeRBcastQueryFail
  | EsmeRBcastCancelFail | EsmeRInvBcastRep | EsmeRInvBcastSrvGrp | EsmeRInvBcastChanInd.

Definition as_u32 (c : t) : N :=
  match c with
  | EsmeRok => 0x00000000
  | EsmeRInvMsgLen => 0x00000001
  | EsmeRInvCmdLen => 0x00000002
  | EsmeRInvCmdId => 0x00000003
  | EsmeRInvBndSts => 0x00000004
  | EsmeRAlyBnd => 0x00000005
  | EsmeRInvPrtFlg => 0x00000006
  | EsmeRInvRegDlvFlg => 0x00000007
  | EsmeRSysErr => 0x00000008
  | EsmeRInvSrcAdr => 0x0000000A
  | EsmeRInvDstAdr => 0x0000000B
  | EsmeRInvMsgId => 0x0000000C
  | EsmeRBindFail => 0x0000000D
  | EsmeRInvPaswd => 0x0000000E
  | EsmeRInvSysId => 0x0000000F
  | EsmeRCancelFail => 0x00000011
  | EsmeRReplaceFail => 0x00000013
  | EsmeRMsgQFul => 0x00000014
  | EsmeRInvSerTyp => 0x00000015
  | EsmeRInvNumDests => 0x00000033
  | EsmeRInvDlName => 0x00000034
  | EsmeRInvDestFlag => 0x00000040
  | EsmeRInvSubRep => 0x00000042
  | EsmeRInvEsmClass => 0x00000043
  | EsmeRCntSubDl => 0x00000044
  | EsmeRSubmitFail => 0x00000045
  | EsmeRInvSrcTon => 0x00000048
  | EsmeRInvSrcNpi => 0x00000049
  | EsmeRInvDstTon => 0x00000050
  | EsmeRInvDstNpi => 0x00000051
  | EsmeRInvSysTyp => 0x00000053
  | EsmeRInvRepFlag => 0x00000054
  | EsmeRInvNumMsgs => 0x00000055
  | EsmeRThrottled => 0x00000058
  | EsmeRInvSched => 0x00000061
  | EsmeRInvExpiry => 0x00000062
  | EsmeRInvDftMsgId => 0x00000063
  | EsmeRxTAppn => 0x00000064
  | EsmeRxPAppn => 0x00000065
  | EsmeRxRAppn => 0x00000066
  | EsmeRQueryFail => 0x00000067
  | EsmeRInvOptParStream => 0x000000C0
  | EsmeROptParNotAllwd => 0x000000C1
  | EsmeRInvParLen => 0x000000C2
  | EsmeRMissingOptParam => 0x000000C3
  | EsmeRInvOptParamVal => 0x000000C4
  | EsmeRDeliveryFailure => 0x000000FE
  | EsmeRUnknownErr => 0x000000FF
  | EsmeRSerTypUnauth => 0x00000100
  | EsmeRProhibited => 0x00000101
  | EsmeRSerTypUnavail => 0x00000102
  | EsmeRSerTypDenied => 0x00000103
  | EsmeRInvDcs => 0x00000104
  | EsmeRInvSrcAddrSubunit => 0x00000105
  | EsmeRInvDstAddrSubunit => 0x00000106
  | EsmeRInvBcastFreqInt => 0x00000107
  | EsmeRInvBcastAliasName => 0x00000108
  | EsmeRInvBcastAreaFmt => 0x00000109
  | EsmeRInvNumBcastAreas => 0x0000010A
  | EsmeRInvBcastCntType => 0x0000010B
  | EsmeRInvBcastMsgClass => 0x0000010C
  | EsmeRBcastFail => 0x0000010D
  | EsmeRBcastQueryFail => 0x0000010E
  | EsmeRBcastCancelFail => 0x0000010F
  | EsmeRInvBcastRep => 0x00000110
  | EsmeRInvBcastSrvGrp => 0x00000111
  | EsmeRInvBcastChanInd => 0x00000112
  end%N.

Definition from_u32 (value : N) : option t :=
  match value with
  | 0x00000000 => Some EsmeRok
  | 0x00000001 => Some EsmeRInvMsgLen
  | 0x00000002 => Some EsmeRInvCmdLen
  | 0x00000003 => Some EsmeRInvCmdId
  | 0x00000004 => Some EsmeRInvBndSts
  | 0x00000005 => Some EsmeRAlyBnd
  | 0x00000006 => Some EsmeRInvPrtFlg
  | 0x00000007 => Some EsmeRInvRegDlvFlg
  | 0x00000008 => Some EsmeRSysErr
  | 0x0000000A => Some EsmeRInvSrcAdr
  | 0x0000000B => Some EsmeRInvDstAdr
  | 0x0000000C => Some EsmeRInvMsgId
  | 0x0000000D => Some EsmeRBindFail
  | 0x0000000E => Some EsmeRInvPaswd
  | 0x0000000F => Some EsmeRInvSysId
  | 0x00000011 => Some EsmeRCancelFail
  | 0x00000013 => Some EsmeRReplaceFail
  | 0x00000014 => Some EsmeRMsgQFul
  | 0x00000015 => Some EsmeRInvSerTyp
  | 0x00000033 => Some EsmeRInvNumDests
  | 0x00000034 => Some EsmeRInvDlName
  | 0x00000040 => Some EsmeRInvDestFlag
  | 0x00000042 => Some EsmeRInvSubRep
  | 0x00000043 => Some EsmeRInvEsmClass
  | 0x00000044 => Some EsmeRCntSubDl
  | 0x00000045 => Some EsmeRSubmitFail
  | 0x00000048 => Some EsmeRInvSrcTon
  | 0x00000049 => Some EsmeRInvSrcNpi
  | 0x00000050 => Some EsmeRInvDstTon
  | 0x00000051 => Some EsmeRInvDstNpi
  | 0x00000053 => Some EsmeRInvSysTyp
  | 0x00000054 => Some EsmeRInvRepFlag
  | 0x00000055 => Some EsmeRInvNumMsgs
  | 0x00000058 => Some EsmeRThrottled
  | 0x00000061 => Some EsmeRInvSched
  | 0x00000062 => Some EsmeRInvExpiry
  | 0x00000063 => Some EsmeRInvDftMsgId
  | 0x00000064 => Some EsmeRxTAppn
  | 0x00000065 => Some EsmeRxPAppn
  | 0x00000066 => Some EsmeRxRAppn
  | 0x00000067 => Some EsmeRQueryFail
  | 0x000000C0 => Some EsmeRInvOptParStream
  | 0x000000C1 => Some EsmeROptParNotAllwd
  | 0x000000C2 => Some EsmeRInvParLen
  | 0x000000C3 => Some EsmeRMissingOptParam
  | 0x000000C4 => Some EsmeRInvOptParamVal
  | 0x000000FE => Some EsmeRDeliveryFailure
  | 0x000000FF => Some EsmeRUnknownErr
  | 0x00000100 => Some EsmeRSerTypUnauth
  | 0x00000101 => Some EsmeRProhibited
  | 0x00000102 => Some EsmeRSerTypUnavail
  | 0x00000103 => Some EsmeRSerTypDenied
  | 0x00000104 => Some EsmeRInvDcs
  | 0x00000105 => Some EsmeRInvSrcAddrSubunit
  | 0x00000106 => Some EsmeRInvDstAddrSubunit
  | 0x00000107 => Some EsmeRInvBcastFreqInt
  | 0x00000108 => Some EsmeRInvBcastAliasName
  | 0x00000109 => Some EsmeRInvBcastAreaFmt
  | 0x0000010A => Some EsmeRInvNumBcastAreas
  | 0x0000010B => Some EsmeRInvBcastCntType
  | 0x0000010C => Some EsmeRInvBcastMsgClass
  | 0x0000010D => Some EsmeRBcastFail
  | 0x0000010E => Some EsmeRBcastQueryFail
  | 0x0000010F => Some EsmeRBcastCancelFail
  | 0x00000110 => Some EsmeRInvBcastRep
  | 0x00000111 => Some EsmeRInvBcastSrvGrp
  | 0x00000112 => Some EsmeRInvBcastChanInd
  | _ => None
  end%N.

Definition from_str (value : string) : option t :=
  str_match
    [
     ("ESME_ROK", EsmeRok);
     ("ESME_RINVMSGLEN", EsmeRInvMsgLen);
     ("ESME_RINVCMDLEN", EsmeRInvCmdLen);
     ("ESME_RINVCMDID", EsmeRInvCmdId);
     ("ESME_RINVBNDSTS", EsmeRInvBndSts);
     ("ESME_RALYBND", EsmeRAlyBnd);
     ("ESME_RINVPRTFLG", EsmeRInvPrtFlg);
     ("ESME_RINVREGDLVFLG", EsmeRInvRegDlvFlg);
     ("ESME_RSYSERR", EsmeRSysErr);
     ("ESME_RINVSRCADR", EsmeRInvSrcAdr);
     ("ESME_RINVDSTADR", EsmeRInvDstAdr);
     ("ESME_RINVMSGID", EsmeRInvMsgId);
     ("ESME_RBINDFAIL", EsmeRBindFail);
     ("ESME_RINVPASWD", EsmeRInvPaswd);
     ("ESME_RINVSYSID", EsmeRInvSysId);
     ("ESME_RCANCELFAIL", EsmeRCancelFail);
     ("ESME_RREPLACEFAIL", EsmeRReplaceFail);
     ("ESME_RMSGQFUL", EsmeRMsgQFul);
     ("ESME_RINVSERTYP", EsmeRInvSerTyp);
     ("ESME_RINVNUMDESTS", EsmeRInvNumDests);
     ("ESME_RINVDLNAME", EsmeRInvDlName);
     ("ESME_RINVDESTFLAG", EsmeRInvDestFlag);
     ("ESME_RINVSUBREP", EsmeRInvSubRep);
     ("ESME_RINVESMCLASS", EsmeRInvEsmClass);
     ("ESME_RCNTSUBDL", EsmeRCntSubDl);
     ("ESME_RSUBMITFAIL", EsmeRSubmitFail);
     ("ESME_RINVSRC_TON", EsmeRInvSrcTon);
     ("ESME_RINVSRC_NPI", EsmeRInvSrcNpi);
     ("ESME_RINVDST_TON", EsmeRInvDstTon);
     ("ESME_RINVDST_NPI", EsmeRInvDstNpi);
     ("ESME_RINVSYSTYP", EsmeRInvSysTyp);
     ("ESME_RINVREPLACEIFPRESENT", EsmeRInvRepFlag);
     ("ESME_RINVNUMMSGS", EsmeRInvNumMsgs);
     ("ESME_RTHROTTLED", EsmeRThrottled);
     ("ESME_RINVSCHED", EsmeRInvSched);
     ("ESME_RINVEXPIRY", EsmeRInvExpiry);
     ("ESME_RINVDFTMSGID", EsmeRInvDftMsgId);
     ("ESME_RXTAPPN", EsmeRxTAppn);
     ("ESME_RXPAPPN", EsmeRxPAppn);
     ("ESME_RXRAPPN", EsmeRxRAppn);
     ("ESME_RQUERYFAIL", EsmeRQueryFail);
     ("ESME_RINVOPTPARSTREAM", EsmeRInvOptParStream);
     ("ESME_ROPTPARNOTALLOWED", EsmeROptParNotAllwd);
     ("ESME_RINVPARLEN", EsmeRInvParLen);
     ("ESME_RMISSINGOPTPARAM", EsmeRMissingOptParam);
     ("ESME_RINVOPTPARAMVAL", EsmeRInvOptParamVal);
     ("ESME_RDELIVERYFAILURE", EsmeRDeliveryFailure);
     ("ESME_RUNKNOWNERR", EsmeRUnknownErr);
     ("ESME_RSERTYPUNAUTH", EsmeRSerTypUnauth);
     ("ESME_RPROHIBITED", EsmeRProhibited);
     ("ESME_RSERTYPUNAVAIL", EsmeRSerTypUnavail);
     ("ESME_RSERTYPDENIED", EsmeRSerTypDenied);
     ("ESME_RINVDCS", EsmeRInvDcs);
     ("ESME_RINVSRCADDRSUBUNIT", EsmeRInvSrcAddrSubunit);
     ("ESME_RINVDSTADDRSUBUNIT", EsmeRInvDstAddrSubunit);
     ("ESME_RINVBCFREQINT", EsmeRInvBcastFreqInt);
     ("ESME_RINVBCALIASNAME", EsmeRInvBcastAliasName);
     ("ESME_RINVBCAREAFMT", EsmeRInvBcastAreaFmt);
     ("ESME_RINVNUMBCAREAS", EsmeRInvNumBcastAreas);
     ("ESME_RINVBCONTTYPE", EsmeRInvBcastCntType);
     ("ESME_RINVBCMSGCLASS", EsmeRInvBcastMsgClass);
     ("ESME_RBCASTFAIL", EsmeRBcastFail);
     ("ESME_RBCASTQUERYFAIL", EsmeRBcastQueryFail);
     ("ESME_RBCASTCANCELFAIL", EsmeRBcastCancelFail);
     ("ESME_RINVBCREPEAT", EsmeRInvBcastRep);
     ("ESME_RINVBCSRVGROUP", EsmeRInvBcastSrvGrp);
     ("ESME_RINVBCCHANIND", EsmeRInvBcastChanInd)] value.

Definition to_str (c : t) : string :=
  match c with
  | EsmeRok => "ESME_ROK"
  | EsmeRInvMsgLen => "ESME_RINVMSGLEN"
  | EsmeRInvCmdLen => "ESME_RINVCMDLEN"
  | EsmeRInvCmdId => "ESME_RINVCMDID"
  | EsmeRInvBndSts => "ESME_RINVBNDSTS"
  | EsmeRAlyBnd => "ESME_RALYBND"
  | EsmeRInvPrtFlg => "ESME_RINVPRTFLG"
  | EsmeRInvRegDlvFlg => "ESME_RINVREGDLVFLG"
  | EsmeRSysErr => "ESME_RSYSERR"
  | EsmeRInvSrcAdr => "ESME_RINVSRCADR"
  | EsmeRInvDstAdr => "ESME_RINVDSTADR"
  | EsmeRInvMsgId => "ESME_RINVMSGID"
  | EsmeRBindFail => "ESME_RBINDFAIL"
  | EsmeRInvPaswd => "ESME_RINVPASWD"
  | EsmeRInvSysId => "ESME_RINVSYSID"
  | EsmeRCancelFail => "ESME_RCANCELFAIL"
  | EsmeRReplaceFail => "ESME_RREPLACEFAIL"
  | EsmeRMsgQFul => "ESME_RMSGQFUL"
  | EsmeRInvSerTyp => "ESME_RINVSERTYP"
  | EsmeRInvNumDests => "ESME_RINVNUMDESTS"
  | EsmeRInvDlName => "ESME_RINVDLNAME"
  | EsmeRInvDestFlag => "ESME_RINVDESTFLAG"
  | EsmeRInvSubRep => "ESME_RINVSUBREP"
  | EsmeRInvEsmClass => "ESME_RINVESMCLASS"
  | EsmeRCntSubDl => "ESME_RCNTSUBDL"
  | EsmeRSubmitFail => "ESME_RSUBMITFAIL"
  | EsmeRInvSrcTon => "ESME_RINVSRC_TON"
  | EsmeRInvSrcNpi => "ESME_RINVSRC_NPI"
  | EsmeRInvDstTon => "ESME_RINVDST_TON"
  | EsmeRInvDstNpi => "ESME_RINVDST_NPI"
  | EsmeRInvSysTyp => "ESME_RINVSYSTYP"
  | EsmeRInvRepFlag => "ESME_RINVREPLACEIFPRESENT"
  | EsmeRInvNumMsgs => "ESME_RINVNUMMSGS"
  | EsmeRThrottled => "ESME_RTHROTTLED"
  | EsmeRInvSched => "ESME_RINVSCHED"
  | EsmeRInvExpiry => "ESME_RINVEXPIRY"
  | EsmeRInvDftMsgId => "ESME_RINVDFTMSGID"
  | EsmeRxTAppn => "ESME_RXTAPPN"
  | EsmeRxPAppn => "ESME_RXPAPPN"
  | EsmeRxRAppn => "ESME_RXRAPPN"
  | EsmeRQueryFail => "ESME_RQUERYFAIL"
  | EsmeRInvOptParStream => "ESME_RINVOPTPARSTREAM"
  | EsmeROptParNotAllwd => "ESME_ROPTPARNOTALLOWED"
  | EsmeRInvParLen => "ESME_RINVPARLEN"
  | EsmeRMissingOptParam => "ESME_RMISSINGOPTPARAM"
  | EsmeRInvOptParamVal => "ESME_RINVOPTPARAMVAL"
  | EsmeRDeliveryFailure => "ESME_RDELIVERYFAILURE"
  | EsmeRUnknownErr => "ESME_RUNKNOWNERR"
  | EsmeRSerTypUnauth => "ESME_RSERTYPUNAUTH"
  | EsmeRProhibited => "ESME_RPROHIBITED"
  | EsmeRSerTypUnavail => "ESME_RSERTYPUNAVAIL"
  | EsmeRSerTypDenied => "ESME_RSERTYPDENIED"
  | EsmeRInvDcs => "ESME_RINVDCS"
  | EsmeRInvSrcAddrSubunit => "ESME_RINVSRCADDRSUBUNIT"
  | EsmeRInvDstAddrSubunit => "ESME_RINVDSTADDRSUBUNIT"
  | EsmeRInvBcastFreqInt => "ESME_RINVBCFREQINT"
  | EsmeRInvBcastAliasName => "ESME_RINVBCALIASNAME"
  | EsmeRInvBcastAreaFmt => "ESME_RINVBCAREAFMT"
  | EsmeRInvNumBcastAreas => "ESME_RINVNUMBCAREAS"
  | EsmeRInvBcastCntType => "ESME_RINVBCONTTYPE"
  | EsmeRInvBcastMsgClass => "ESME_RINVBCMSGCLASS"
  | EsmeRBcastFail => "ESME_RBCASTFAIL"
  | EsmeRBcastQueryFail => "ESME_RBCASTQUERYFAIL"
  | EsmeRBcastCancelFail => "ESME_RBCASTCANCELFAIL"
  | EsmeRInvBcastRep => "ESME_RINVBCREPEAT"
  | EsmeRInvBcastSrvGrp => "ESME_RINVBCSRVGROUP"
  | EsmeRInvBcastChanInd => "ESME_RINVBCCHANIND"
  end.

Definition all : list t :=
  [ EsmeRok; EsmeRInvMsgLen; EsmeRInvCmdLen; EsmeRInvCmdId; EsmeRInvBndSts; EsmeRAlyBnd;
    EsmeRInvPrtFlg; EsmeRInvRegDlvFlg; EsmeRSysErr; EsmeRInvSrcAdr; EsmeRInvDstAdr;
    EsmeRInvMsgId; EsmeRBindFail; EsmeRInvPaswd; EsmeRInvSysId; EsmeRCancelFail;
    EsmeRReplaceFail; EsmeRMsgQFul; EsmeRInvSerTyp; EsmeRInvNumDests; EsmeRInvDlName;
    EsmeRInvDestFlag; EsmeRInvSubRep; EsmeRInvEsmClass; EsmeRCntSubDl; EsmeRSubmitFail;
    EsmeRInvSrcTon; EsmeRInvSrcNpi; EsmeRInvDstTon; EsmeRInvDstNpi; EsmeRInvSysTyp;
    EsmeRInvRepFlag; EsmeRInvNumMsgs; EsmeRThrottled; EsmeRInvSched; EsmeRInvExpiry;
    EsmeRInvDftMsgId; EsmeRxTAppn; EsmeRxPAppn; EsmeRxRAppn; EsmeRQueryFail;
    EsmeRInvOptParStream; EsmeROptParNotAllwd; EsmeRInvParLen; EsmeRMissingOptParam;
    EsmeRInvOptParamVal; EsmeRDeliveryFailure; EsmeRUnknownErr; EsmeRSerTypUnauth;
    EsmeRProhibited; EsmeRSerTypUnavail; EsmeRSerTypDenied; EsmeRInvDcs;
    EsmeRInvSrcAddrSubunit; EsmeRInvDstAddrSubunit; EsmeRInvBcastFreqInt;
    EsmeRInvBcastAliasName; EsmeRInvBcastAreaFmt; EsmeRInvNumBcastAreas;
    EsmeRInvBcastCntType; EsmeRInvBcastMsgClass; EsmeRBcastFail; EsmeRBcastQueryFail;
    EsmeRBcastCancelFail; EsmeRInvBcastRep; EsmeRInvBcastSrvGrp; EsmeRInvBcastChanInd].

Lemma command_status_from_as_u32 c : from_u32 (as_u32 c) = Some c.
Proof. by destruct c. Qed.

#[global] Instance eq_dec : EqDecision t.
Proof.
  intros a b. destruct (decide (as_u32 a = as_u32 b)) as [H|H]; [left|right; congruence].
  apply (f_equal from_u32) in H. rewrite !command_status_from_as_u32 in H. by injection H.
Defined.

Lemma command_status_as_from_u32 n c : from_u32 n = Some c → as_u32 c = n.
Proof. unfold from_u32. intros H. repeat case_match; simplify_eq; done. Qed.

Lemma from_to_str c : from_str (to_str c) = Some c.
Proof. by destruct c. Qed.

End CommandStatus.

(** ** [NPI] (src/npi.rs) *)
Module NPI.

Inductive t : Type :=
  | Unknown | ISDN | Data | Telex | LandMobile | National | Private | ERMES | Internet
  | WAPClientId.

Definition as_u8 (c : t) : N :=
  match c with
  | Unknown => 0
  | ISDN => 1
  | Data => 3
  | Telex => 4
  | LandMobile => 6
  | National => 8
  | Private => 9
  | ERMES => 10
  | Internet => 14
  | WAPClientId => 18
  end%N.

Definition from_u8 (value : N) : option t :=
  match value with
  | 0 => Some Unknown
  | 1 => Some ISDN
  | 3 => Some Data
  | 4 => Some Telex
  | 6 => Some LandMobile
  | 8 => Some National
  | 9 => Some Private
  | 10 => Some ERMES
  | 14 => Some Internet
  | 18 => Some WAPClientId
  | _ => None
  end%N.

Definition from_str (s : string) : option t :=
  str_match
    [("unknown", Unknown); ("isdn", ISDN); ("data", Data); ("telex", Telex);
     ("landmobile", LandMobile); ("national", National); ("private", Private);
     ("ermes", ERMES); ("internet", Internet); ("wapclientid", WAPClientId)]
    (of_bytes (to_lowercase (as_bytes s))).

Definition to_str (c : t) : string :=
  match c with
  | Unknown => "Unknown"
  | ISDN => "ISDN"
  | Data => "Data"
  | Telex => "Telex"
  | LandMobile => "LandMobile"
  | National => "National"
  | Private => "Private"
  | ERMES => "ERMES"
  | Internet => "Internet"
  | WAPClientId => "WAPClientId"
  end.

Definition all : list t := [Unknown; ISDN; Data; Telex; LandMobile; National; Private; ERMES; Internet; WAPClientId].

#[global] Instance eq_dec : EqDecision t.
Proof. solve_decision. Defined.

Lemma npi_as_from_u8 n c : from_u8 n = Some c → as_u8 c = n.
Proof. unfold from_u8. intros H. repeat case_match; simplify_eq; done. Qed.

End NPI.

(** ** [TON] (src/ton.rs) *)
Module TON.

Inductive t : Type :=
  | Unknown | International | National | NetworkSpecific | SubscriberNumber | Alphanumeric
  | Abbreviated.

Definition as_u8 (c : t) : N :=
  match c with
  | Unknown => 0
  | International => 1
  | National => 2
  | NetworkSpecific => 3
  | SubscriberNumber => 4
  | Alphanumeric => 5
  | Abbreviated => 6
  end%N.

Definition from_u8 (value : N) : option t :=
  match value with
  | 0 => Some Unknown
  | 1 => Some International
  | 2 => Some National
  | 3 => Some NetworkSpecific
  | 4 => Some SubscriberNumber
  | 5 => Some Alphanumeric
  | 6 => Some Abbreviated
  | _ => None
  end%N.

Definition from_str (s : string) : option t :=
  str_match
    [("unknown", Unknown); ("international", International); ("national", National);
     ("networkspecific", NetworkSpecific); ("subscribernumber", SubscriberNumber);
     ("alphanumeric", Alphanumeric); ("abbreviated", Abbreviated)]
    (of_bytes (to_lowercase (as_bytes s))).

Definition to_str (c : t) : string :=
  match c with
  | Unknown => "Unknown"
  | International => "International"
  | National => "National"
  | NetworkSpecific => "NetworkSpecific"
  | SubscriberNumber => "SubscriberNumber"
  | Alphanumeric => "Alphanumeric"
  | Abbreviated => "Abbreviated"
  end.

Definition all : list t := [Unknown; International; National; NetworkSpecific; SubscriberNumber; Alphanumeric; Abbreviated].

#[global] Instance eq_dec : EqDecision t.
Proof. solve_decision. Defined.

Lemma ton_as_from_u8 n c : from_u8 n = Some c → as_u8 c = n.
Proof. unfold from_u8. intros H. repeat case_match; simplify_eq; done. Qed.

End TON.

(** ** [ServiceType] (src/service_type.rs) *)
Module ServiceType.

Inductive t : Type := | NULL | CMT | CPT | VMN | VMA | WAP | USSD | CBS | GUTS.

Definition from_str (s : string) : option t :=
  str_match
    [("", NULL); ("CMT", CMT); ("CPT", CPT); ("VMN", VMN); ("VMA", VMA); ("WAP", WAP);
     ("USSD", USSD); ("CBS", CBS); ("GUTS", GUTS)]
    (of_bytes (to_uppercase (as_bytes s))).

Definition to_str (c : t) : string :=
  match c with
  | NULL => ""
  | CMT => "CMT"
  | CPT => "CPT"
  | VMN => "VMN"
  | VMA => "VMA"
  | WAP => "WAP"
  | USSD => "USSD"
  | CBS => "CBS"
  | GUTS => "GUTS"
  end.

Definition all : list t := [NULL; CMT; CPT; VMN; VMA; WAP; USSD; CBS; GUTS].

#[global] Instance eq_dec : EqDecision t.
Proof. solve_decision. Defined.

End ServiceType.

(** ** [MessageState] (src/message_state.rs) *)
Module MessageState.

Inductive t : Type :=
  | SCHEDULED | ENROUTE | DELIVERED | EXPIRED | DELETED | UNDELIVERABLE | ACCEPTED
  | UNKNOWN | REJECTED | SKIPPED.

Definition as_u8 (c : t) : N :=
  match c with
  | SCHEDULED => 0
  | ENROUTE => 1
  | DELIVERED => 2
  | EXPIRED => 3
  | DELETED => 4
  | UNDELIVERABLE => 5
  | ACCEPTED => 6
  | UNKNOWN => 7
  | REJECTED => 8
  | SKIPPED => 9
  end%N.

(** Panics above 9, as the source does. *)
Definition from_u8 (value : N) : outcome string t :=
  match value with
  | 0 => Ok SCHEDULED
  | 1 => Ok ENROUTE
  | 2 => Ok DELIVERED
  | 3 => Ok EXPIRED
  | 4 => Ok DELETED
  | 5 => Ok UNDELIVERABLE
  | 6 => Ok ACCEPTED
  | 7 => Ok UNKNOWN
  | 8 => Ok REJECTED
  | 9 => Ok SKIPPED
  | _ => Panic
  end%N.

Definition to_string (c : t) : string :=
  match c with
  | SCHEDULED => "SCHEDULED"
  | ENROUTE => "ENROUTE"
  | DELIVERED => "DELIVERED"
  | EXPIRED => "EXPIRED"
  | DELETED => "DELETED"
  | UNDELIVERABLE => "UNDELIVERABLE"
  | ACCEPTED => "ACCEPTED"
  | UNKNOWN => "UNKNOWN"
  | REJECTED => "REJECTED"
  | SKIPPED => "SKIPPED"
  end.

Definition from_string (value : string) : option t :=
  str_match
    [("SCHEDULED", SCHEDULED); ("ENROUTE", ENROUTE); ("DELIVERED", DELIVERED);
     ("EXPIRED", EXPIRED); ("DELETED", DELETED); ("UNDELIVERABLE", UNDELIVERABLE);
     ("ACCEPTED", ACCEPTED); ("UNKNOWN", UNKNOWN); ("REJECTED", REJECTED);
     ("SKIPPED", SKIPPED)] value.

Definition all : list t := [SCHEDULED; ENROUTE; DELIVERED; EXPIRED; DELETED; UNDELIVERABLE; ACCEPTED; UNKNOWN; REJECTED; SKIPPED].

#[global] Instance eq_dec : EqDecision t.
Proof. solve_decision. Defined.

End MessageState.
