(* ===== verification/EsmClass.v ===== *)
(** * esm_class (src/esm_class.rs)

    The four sub-fields packed in the [esm_class] octet, their bit patterns and their
    textual form. *)
From S2P Require Export Enums.

Module MessageMode.

Inductive t : Type := | Default | Datagram | Transaction | StoreAndForward.

Definition from_u8 (value : N) : t :=
  match N.land value 3 with
  | 0 => Default
  | 1 => Datagram
  | 2 => Transaction
  | 3 => StoreAndForward
  | _ => Default
  end%N.

Definition as_u8 (m : t) : N :=
  match m with Default => 0 | Datagram => 1 | Transaction => 2 | StoreAndForward => 3 end%N.

Definition to_string (m : t) : string :=
  match m with
  | Default => "Default"
  | Datagram => "Datagram"
  | Transaction => "Transaction"
  | StoreAndForward => "StoreAndForward"
  end.

Definition from_string (value : string) : option t :=
  str_match
    [("default", Default); ("datagram", Datagram); ("transaction", Transaction);
     ("forward", Transaction); ("storeandforward", StoreAndForward);
     ("storeforward", StoreAndForward)]
    (of_bytes (to_lowercase (remove_byte x2d (remove_byte x5f (as_bytes value))))).

Definition is_default (m : t) : bool := match m with Default => true | _ => false end.
Definition is_store_forward (m : t) : bool :=
  match m with StoreAndForward => true | _ => false end.
Definition is_transaction (m : t) : bool := match m with Transaction => true | _ => false end.
Definition is_datagram (m : t) : bool := match m with Datagram => true | _ => false end.

#[global] Instance eq_dec : EqDecision t.
Proof. solve_decision. Defined.

End MessageMode.

Module MessageType.

Inductive t : Type := | Default | DeliveryReceipt | IntermediateDeliveryNotification.

Definition from_u8 (value : N) : t :=
  match N.land value 0x24 with
  | 0 => Default
  | 4 => DeliveryReceipt
  | 32 => IntermediateDeliveryNotification
  | _ => Default
  end%N.

Definition as_u8 (m : t) : N :=
  match m with
  | Default => 0
  | DeliveryReceipt => 4
  | IntermediateDeliveryNotification => 32
  end%N.

Definition to_string (m : t) : string :=
  match m with
  | Default => "Default"
  | DeliveryReceipt => "DeliveryReceipt"
  | IntermediateDeliveryNotification => "IntermediateDeliveryNotification"
  end.

Definition from_string (value : string) : option t :=
  str_match
    [("Default", Default); ("DeliveryReceipt", DeliveryReceipt);
     ("IntermediateDeliveryNotification", IntermediateDeliveryNotification)] value.

#[global] Instance eq_dec : EqDecision t.
Proof. solve_decision. Defined.

End MessageType.

Module Ansi41Specific.

Inductive t : Type :=
| DeliveryAcknowledgement | UserAcknowledgement | ConversationAbort | Unknown.

Definition from_u8 (value : N) : t :=
  match N.land value 0x18 with
  | 8 => DeliveryAcknowledgement
  | 16 => UserAcknowledgement
  | 24 => ConversationAbort
  | _ => Unknown
  end%N.

Definition is_delivery_ack (a : t) : bool :=
  match a with DeliveryAcknowledgement | UserAcknowledgement => true | _ => false end.

(** [Unknown] has no explicit discriminant, so the compiler gives it the successor of
    [ConversationAbort]'s: 25. *)
Definition as_u8 (a : t) : N :=
  match a with
  | DeliveryAcknowledgement => 8
  | UserAcknowledgement => 16
  | ConversationAbort => 24
  | Unknown => 25
  end%N.

Definition to_string (a : t) : string :=
  match a with
  | DeliveryAcknowledgement => "DeliveryAcknowledgement"
  | UserAcknowledgement => "UserAcknowledgement"
  | ConversationAbort => "ConversationAbort"
  | Unknown => "Unknown"
  end.

Definition from_string (value : string) : t :=
  default Unknown (str_match
    [("DeliveryAcknowledgement", DeliveryAcknowledgement);
     ("UserAcknowledgement", UserAcknowledgement);
     ("ConversationAbort", ConversationAbort); ("Unknown", Unknown)] value).

#[global] Instance eq_dec : EqDecision t.
Proof. solve_decision. Defined.

End Ansi41Specific.

Module GSMSpecific.

Inductive t : Type := | NoSpecific | UDHIndicator | ReplyPath | UDHAndReplyPath.

Definition from_u8 (value : N) : t :=
  match N.land value 0xC0 with
  | 0 => NoSpecific
  | 64 => UDHIndicator
  | 128 => ReplyPath
  | 192 => UDHAndReplyPath
  | _ => NoSpecific
  end%N.

Definition as_u8 (g : t) : N :=
  match g with
  | NoSpecific => 0
  | UDHIndicator => 64
  | ReplyPath => 128
  | UDHAndReplyPath => 192
  end%N.

Definition to_string (g : t) : string :=
  match g with
  | NoSpecific => "NoSpecific"
  | UDHIndicator => "UDHIndicator"
  | ReplyPath => "ReplyPath"
  | UDHAndReplyPath => "UDHAndReplyPath"
  end.

Definition from_string (value : string) : t :=
  default NoSpecific (str_match
    [("NoSpecific", NoSpecific); ("UDHIndicator", UDHIndicator); ("ReplyPath", ReplyPath);
     ("UDHAndReplyPath", UDHAndReplyPath)] value).

#[global] Instance eq_dec : EqDecision t.
Proof. solve_decision. Defined.

End GSMSpecific.

Module EsmClass.

Record t : Type := mk {
  message_mode : MessageMode.t;
  message_type : MessageType.t;
  ansi41_specific : Ansi41Specific.t;
  gsm_specific : GSMSpecific.t;
}.

Definition default : t :=
  mk MessageMode.Default MessageType.Default Ansi41Specific.Unknown GSMSpecific.NoSpecific.

Definition merge_from (self other : t) : t :=
  mk (if decide (message_mode other = MessageMode.Default)
      then message_mode self else message_mode other)
     (if decide (message_type other = MessageType.Default)
      then message_type self else message_type other)
     (if decide (ansi41_specific other = Ansi41Specific.Unknown)
      then ansi41_specific self else ansi41_specific other)
     (if decide (gsm_specific other = GSMSpecific.NoSpecific)
      then gsm_specific self else gsm_specific other).

Definition from_u8 (value : N) : option t :=
  Some (mk (MessageMode.from_u8 value) (MessageType.from_u8 value)
           (Ansi41Specific.from_u8 value) (GSMSpecific.from_u8 value)).

Definition as_u8 (e : t) : N :=
  N.lor (N.lor (N.lor (N.lor 0 (MessageMode.as_u8 (message_mode e)))
                      (MessageType.as_u8 (message_type e)))
               (Ansi41Specific.as_u8 (ansi41_specific e)))
        (GSMSpecific.as_u8 (gsm_specific e)).

Definition to_string (e : t) : string :=
  "EsmClass { message_mode: " +:+ MessageMode.to_string (message_mode e)
  +:+ ", message_type: " +:+ MessageType.to_string (message_type e)
  +:+ ", ansi41_specific: " +:+ Ansi41Specific.to_string (ansi41_specific e)
  +:+ ", gsm_specific: " +:+ GSMSpecific.to_string (gsm_specific e) +:+ " }".

(** The value behind the label of one part of the textual form. *)
Definition part_value (label : string) (part : bytes) : string :=
  of_bytes (trim (trim_start_matches (as_bytes label) part)).

Definition from_string (value : string) : option t :=
  let body := trim_end_matches (as_bytes "}")
                (trim_start_matches (as_bytes "EsmClass {") (as_bytes value)) in
  match trim <$> split_on (as_bytes ",") body with
  | [p0; p1; p2; p3] =>
      message_mode ← MessageMode.from_string (part_value "message_mode: " p0);
      message_type ← MessageType.from_string (part_value "message_type: " p1);
      Some (mk message_mode message_type
              (Ansi41Specific.from_string (part_value "ansi41_specific: " p2))
              (GSMSpecific.from_string (part_value "gsm_specific: " p3)))
  | _ => None
  end.

#[global] Instance eq_dec : EqDecision t.
Proof. solve_decision. Defined.

End EsmClass.

(** ** Properties *)

(** An [esm_class] octet built from sub-fields gives them back, as long as the ANSI-41
    sub-field is one of the three with a bit pattern. *)
Theorem esm_class_u8_roundtrip e :
  EsmClass.ansi41_specific e ≠ Ansi41Specific.Unknown →
  EsmClass.from_u8 (EsmClass.as_u8 e) = Some e.
Proof. destruct e as [[] [] [] []]; intros H; try done; reflexivity. Qed.

Lemma esm_class_u8_roundtrip_witness :
  EsmClass.from_u8 (EsmClass.as_u8 (EsmClass.mk MessageMode.StoreAndForward
    MessageType.DeliveryReceipt Ansi41Specific.ConversationAbort GSMSpecific.UDHIndicator))
  = Some (EsmClass.mk MessageMode.StoreAndForward
    MessageType.DeliveryReceipt Ansi41Specific.ConversationAbort GSMSpecific.UDHIndicator).
Proof. apply esm_class_u8_roundtrip. discriminate. Defined.

(** [Unknown] has no bit pattern of its own: whatever else is set, its octet is read
    back with [ConversationAbort] in its place and with the lowest mode bit forced on. *)
Theorem esm_class_unknown_lost e :
  EsmClass.ansi41_specific e = Ansi41Specific.Unknown → ∃ e',
    EsmClass.from_u8 (EsmClass.as_u8 e) = Some e' ∧
    EsmClass.ansi41_specific e' = Ansi41Specific.ConversationAbort ∧
    N.odd (MessageMode.as_u8 (EsmClass.message_mode e')) = true.
Proof. destruct e as [[] [] [] []]; intros H; try done; eexists; by repeat split. Qed.

Lemma esm_class_unknown_lost_witness :
  ∃ e', EsmClass.from_u8 (EsmClass.as_u8 EsmClass.default) = Some e' ∧
    EsmClass.ansi41_specific e' = Ansi41Specific.ConversationAbort ∧
    N.odd (MessageMode.as_u8 (EsmClass.message_mode e')) = true.
Proof. apply esm_class_unknown_lost. reflexivity. Defined.

(** The textual form of an [EsmClass] is parsed back to it. *)
Theorem esm_class_string_roundtrip e : EsmClass.from_string (EsmClass.to_string e) = Some e.
Proof. destruct e as [[] [] [] []]; vm_compute; reflexivity. Qed.

(** Merging keeps what is already known and fills in the defaults. *)
Lemma merge_from_default e : EsmClass.merge_from e EsmClass.default = e.
Proof. by destruct e as [[] [] [] []]. Qed.
