(* ===== verification/RegisteredDelivery.v ===== *)
(** * registered_delivery (src/registered_delivery.rs)

    The receipts and acknowledgements requested with a message. The [unreachable!()]
    arms are the [None] of [from_u8]: they are shown never to be taken. *)
From S2P Require Export Enums.

Module DeliveryReceipt.

Inductive t : Type :=
| NoRequested | RequestedWhenDeliverySucessOrFailure | RequestedWhenDeliveryFailure
| RequestedWhenDeliverySuccess.

Definition default : t := NoRequested.

Definition from_u8 (value : N) : option t :=
  match N.land value 3 with
  | 0 => Some NoRequested
  | 1 => Some RequestedWhenDeliverySucessOrFailure
  | 2 => Some RequestedWhenDeliveryFailure
  | 3 => Some RequestedWhenDeliverySuccess
  | _ => None
  end%N.

Definition is_delivery_receipt_requested (d : t) : bool :=
  match d with NoRequested => false | _ => true end.

Definition to_u8 (d : t) : N :=
  match d with
  | NoRequested => 0
  | RequestedWhenDeliverySucessOrFailure => 1
  | RequestedWhenDeliveryFailure => 2
  | RequestedWhenDeliverySuccess => 3
  end%N.

Definition to_string (d : t) : string :=
  match d with
  | NoRequested => "NoRequested"
  | RequestedWhenDeliverySucessOrFailure => "RequestedWhenDeliverySucessOrFailure"
  | RequestedWhenDeliveryFailure => "RequestedWhenDeliveryFailure"
  | RequestedWhenDeliverySuccess => "RequestedWhenDeliverySuccess"
  end.

Definition from_string (value : string) : option t :=
  str_match
    [("NoRequested", NoRequested);
     ("RequestedWhenDeliverySucessOrFailure", RequestedWhenDeliverySucessOrFailure);
     ("RequestedWhenDeliveryFailure", RequestedWhenDeliveryFailure);
     ("RequestedWhenDeliverySuccess", RequestedWhenDeliverySuccess)] value.

#[global] Instance eq_dec : EqDecision t.
Proof. solve_decision. Defined.

End DeliveryReceipt.

Module SMEOriginatedAcknowledgement.

Inductive t : Type :=
| NoRequested | DeliveryAckRequested | ManualAckRequest | DeliveryAckAndManualAckRequested.

Definition default : t := NoRequested.

Definition from_u8 (value : N) : option t :=
  match N.land value 12 with
  | 0 => Some NoRequested
  | 4 => Some DeliveryAckRequested
  | 8 => Some ManualAckRequest
  | 12 => Some DeliveryAckAndManualAckRequested
  | _ => None
  end%N.

Definition is_sme_ack_requested (a : t) : bool :=
  match a with NoRequested => false | _ => true end.

Definition to_u8 (a : t) : N :=
  match a with
  | NoRequested => 0
  | DeliveryAckRequested => 4
  | ManualAckRequest => 8
  | DeliveryAckAndManualAckRequested => 12
  end%N.

Definition to_string (a : t) : string :=
  match a with
  | NoRequested => "NoRequested"
  | DeliveryAckRequested => "DeliveryAckRequested"
  | ManualAckRequest => "ManualAckRequest"
  | DeliveryAckAndManualAckRequested => "DeliveryAckAndManualAckRequested"
  end.

Definition from_string (value : string) : option t :=
  str_match
    [("NoRequested", NoRequested); ("DeliveryAckRequested", DeliveryAckRequested);
     ("ManualAckRequest", ManualAckRequest);
     ("DeliveryAckAndManualAckRequested", DeliveryAckAndManualAckRequested)] value.

#[global] Instance eq_dec : EqDecision t.
Proof. solve_decision. Defined.

End SMEOriginatedAcknowledgement.

Module IntermediateNotification.

Inductive t : Type := | NoRequested | Requested.

Definition default : t := NoRequested.

Definition from_u8 (value : N) : option t :=
  match N.land value 16 with
  | 0 => Some NoRequested
  | 16 => Some Requested
  | _ => None
  end%N.

Definition to_u8 (i : t) : N := match i with NoRequested => 0 | Requested => 16 end%N.

Definition to_string (i : t) : string :=
  match i with NoRequested => "NoRequested" | Requested => "Requested" end.

Definition from_string (value : string) : option t :=
  str_match [("NoRequested", NoRequested); ("Requested", Requested)] value.

#[global] Instance eq_dec : EqDecision t.
Proof. solve_decision. Defined.

End IntermediateNotification.

Module RegisteredDelivery.

Record t : Type := mk {
  delivery_receipt : DeliveryReceipt.t;
  sme_acked : SMEOriginatedAcknowledgement.t;
  intermediate_notification : IntermediateNotification.t;
}.

Definition default : t :=
  mk DeliveryReceipt.default SMEOriginatedAcknowledgement.default
     IntermediateNotification.default.

Definition to_u8 (r : t) : N :=
  N.lor (N.lor (N.lor 0 (DeliveryReceipt.to_u8 (delivery_receipt r)))
               (SMEOriginatedAcknowledgement.to_u8 (sme_acked r)))
        (IntermediateNotification.to_u8 (intermediate_notification r)).

Definition from_u8 (value : N) : option t :=
  delivery_receipt ← DeliveryReceipt.from_u8 value;
  sme_acked ← SMEOriginatedAcknowledgement.from_u8 value;
  intermediate_notification ← IntermediateNotification.from_u8 value;
  Some (mk delivery_receipt sme_acked intermediate_notification).

Definition to_string (r : t) : string :=
  "RegisteredDelivery { delivery_receipt: " +:+ DeliveryReceipt.to_string (delivery_receipt r)
  +:+ ", sme_acked: " +:+ SMEOriginatedAcknowledgement.to_string (sme_acked r)
  +:+ ", intermediate_notification: "
  +:+ IntermediateNotification.to_string (intermediate_notification r) +:+ " }".

(** The value behind the label of one part of the textual form. *)
Definition part_value (label : string) (part : bytes) : string :=
  of_bytes (trim (trim_start_matches (as_bytes label) part)).

Definition from_string (value : string) : option t :=
  let body := trim_end_matches (as_bytes " }")
                (trim_start_matches (as_bytes "RegisteredDelivery { ") (as_bytes value)) in
  match split_on (as_bytes ", ") body with
  | [p0; p1; p2] =>
      delivery_receipt ← DeliveryReceipt.from_string (part_value "delivery_receipt: " p0);
      sme_acked ← SMEOriginatedAcknowledgement.from_string (part_value "sme_acked: " p1);
      intermediate_notification ←
        IntermediateNotification.from_string (part_value "intermediate_notification: " p2);
      Some (mk delivery_receipt sme_acked intermediate_notification)
  | _ => None
  end.

#[global] Instance eq_dec : EqDecision t.
Proof. solve_decision. Defined.

End RegisteredDelivery.

(** ** Properties *)

Lemma land_sub_mask n m k : N.land m k = m → N.land (N.land n k) m = N.land n m.
Proof. intros H. rewrite <-N.land_assoc, (N.land_comm k), H. done. Qed.

(** The three fields only look at the five low bits. *)
Lemma registered_delivery_low n :
  RegisteredDelivery.from_u8 n = RegisteredDelivery.from_u8 (N.land n 31).
Proof.
  unfold RegisteredDelivery.from_u8, DeliveryReceipt.from_u8,
    SMEOriginatedAcknowledgement.from_u8, IntermediateNotification.from_u8.
  by rewrite !land_sub_mask.
Qed.

Lemma land_31_in n : N.land n 31 ∈ N.of_nat <$> seq 0 32.
Proof.
  apply list_elem_of_fmap. exists (N.to_nat (N.land n 31)). split; [lia|].
  apply elem_of_seq. change 31%N with (N.ones 5). rewrite N.land_ones.
  pose proof (N.mod_lt n (2 ^ 5) ltac:(done)) as Hlt. change (2 ^ 5)%N with 32%N in *.
  generalize dependent (n mod 32)%N. intros k Hk. lia.
Qed.

(** [RegisteredDelivery::from_u8] never reaches its [unreachable!()] arms: it reads
    every octet, and writing the result back gives the octet's five defined bits. *)
Theorem registered_delivery_total n :
  ∃ r, RegisteredDelivery.from_u8 n = Some r ∧ RegisteredDelivery.to_u8 r = N.land n 31.
Proof.
  rewrite registered_delivery_low. pose proof (land_31_in n) as Hin.
  assert (H : forallb (λ k, bool_decide
            (RegisteredDelivery.to_u8 <$> RegisteredDelivery.from_u8 k = Some k))
            (N.of_nat <$> seq 0 32) = true) by (vm_compute; reflexivity).
  rewrite forallb_forall in H. apply list_elem_of_In in Hin. specialize (H _ Hin).
  apply bool_decide_eq_true in H.
  destruct (RegisteredDelivery.from_u8 (N.land n 31)) as [r|]; [|done].
  exists r. split; [done|]. by injection H.
Qed.

Lemma registered_delivery_u8_roundtrip r :
  RegisteredDelivery.from_u8 (RegisteredDelivery.to_u8 r) = Some r.
Proof. by destruct r as [[] [] []]. Qed.

(** The textual form of a [RegisteredDelivery] is parsed back to it. *)
Theorem registered_delivery_string_roundtrip r :
  RegisteredDelivery.from_string (RegisteredDelivery.to_string r) = Some r.
Proof. destruct r as [[] [] []]; vm_compute; reflexivity. Qed.
