(* ===== verification/Config.v ===== *)
(** * Configuration (src/config.rs)

    The records the configuration files are read into, with the helper methods, and the
    configuration types of alarm.rs, id_generator.rs and ip_whitelist.rs. How a file becomes one
    of them is in ConfigFiles.v. *)
From S2P Require Export EsmClass.

Record Address : Type := mkAddress { ton : N; npi : N; address : string }.

#[global] Instance Address_eq_dec : EqDecision Address.
Proof. solve_decision. Defined.

Record DistributionListConfig : Type := mkDistributionListConfig {
  dl_config_name : string;
  dl_config_addresses : list Address;
}.

Module LoadBalancingAlgorithm.
Inductive t : Type := | RoundRobin | FailOver.

Definition default : t := RoundRobin.

Definition from (s : string) : t :=
  match str_match
    [("roundrobin", RoundRobin); ("round_robin", RoundRobin); ("ro", RoundRobin);
     ("round-robin", RoundRobin); ("failover", FailOver); ("fail_over", FailOver);
     ("fo", FailOver); ("fail-over", FailOver)] (of_bytes (to_lowercase (as_bytes s))) with
  | Some a => a
  | None => RoundRobin
  end.

#[global] Instance eq_dec : EqDecision t.
Proof. solve_decision. Defined.
End LoadBalancingAlgorithm.

Record RequestHandlerConfig : Type := mkRequestHandlerConfig {
  dest_addresses : option (list string);
  dest_address_patterns : option (list string);
  urls : list string;
  algorithm : option string;
}.

(** The parameters of one outgoing connection. *)
Module SmscConnectionConfig.
Record t : Type := mk {
  address : string;
  system_id : string;
  password : string;
  system_type : string;
  addr_ton : N;
  addr_npi : N;
  address_range : string;
  interface_version : N;
}.
End SmscConnectionConfig.

Record UserCredential : Type := mkUserCredential { user_system_id : string; user_password : string }.

Record UsersConfig : Type := mkUsersConfig { users : list UserCredential }.

Module RestAddressConfig.
Record t : Type := mk {
  address : string;
  key_file : option string;
  cert_file : option string;
  ca_cert_file : option string;
}.
End RestAddressConfig.

Module UserAuthConfig.
Record t : Type := mk { users_file : option string; auth_url : option string }.
Definition default : t := mk None None.
End UserAuthConfig.

Module StorageConfig.
Inductive t : Type :=
| Memory
| Redis (url : string) (key_prefix : option string).
Definition default : t := Memory.
End StorageConfig.

Module MessageStorageConfig.
Inductive t : Type :=
| InMemory
| Sqlite (db_path : string)
| Postgres (url : string)
| Redis (url : string) (key_prefix : option string)
| RabbitMQ (url queue_name : string)
| MySQL (url : string).
End MessageStorageConfig.

(** ** Configuration types of the services *)

(** ip_whitelist.rs *)
Module IpWhitelistConfig.
Inductive t : Type :=
| NoWhitelist
| Memory (file : option string) (ips : list string)
| Database (url : string)
| Http (url : string).
Definition default : t := NoWhitelist.
End IpWhitelistConfig.

(** id_generator.rs *)
Module IdGeneratorConfig.
Inductive t : Type :=
| Atomic
| Uuid
| Redis (url : string) (key : option string).
Definition default : t := Uuid.
End IdGeneratorConfig.

(** alarm.rs *)
Definition default_alarm_id : string := "smsc_connection_failure".

Module AlarmConfig.
Inductive t : Type :=
| Http (notify_url alarm_id : string)
| Database (url alarm_id : string).
End AlarmConfig.

(** ** The two roles *)

Definition get_default_session_init_timer : N := 30.
Definition get_default_enquire_link_timer : N := 30.
Definition get_default_inactive_timer : N := 300.
Definition get_default_response_timer : N := 30.
Definition get_default_bind_type : string := "transceiver".

Module ClientConfig.
Record t : Type := mk {
  bind_type : string;
  rest_addresses : list RestAddressConfig.t;
  connections : list SmscConnectionConfig.t;
  load_balancing_algorithm : option string;
  request_handlers : option (list RequestHandlerConfig);
  alarm_config : option AlarmConfig.t;
  id_generator : option IdGeneratorConfig.t;
  session_init_timer : N;
  enquire_link_timer : N;
  inactive_timer : N;
  response_timer : N;
}.
End ClientConfig.

Module ServerConfig.
Record t : Type := mk {
  listen_addresses : list string;
  interface_version : N;
  rest_addresses : list RestAddressConfig.t;
  request_handlers : option (list RequestHandlerConfig);
  ip_whitelist : IpWhitelistConfig.t;
  user_auth : UserAuthConfig.t;
  session_init_timer : option N;
  enquire_link_timer : option N;
  inactive_timer : option N;
  response_timer : option N;
  id_generator : option IdGeneratorConfig.t;
  distribution_list : option (list DistributionListConfig);
  message_store : option MessageStorageConfig.t;
  default_validity_period : option N;
  default_mc_mode : option string;
  predefined_messages : option (list string);
  default_service_type : option string;
}.

Definition get_default_validity_period (c : t) : N := default 3600%N (default_validity_period c).

Definition get_default_mc_mode (c : t) : MessageMode.t :=
  let message_mode :=
    default MessageMode.StoreAndForward
      (MessageMode.from_string (default "storeandforward" (default_mc_mode c))) in
  if decide (message_mode = MessageMode.Default) then MessageMode.StoreAndForward else message_mode.

(** [index - 1] wraps for index zero (the release profile), to an index out of range. *)
Definition get_predefined_message (c : t) (index : N) : option string :=
  match predefined_messages c with
  | Some messages =>
      let i := ((index + (2 ^ 64 - 1)) mod 2 ^ 64)%N in
      if (i <? N.of_nat (length messages))%N then messages !! N.to_nat i else None
  | None => None
  end.

Definition get_default_service_type (c : t) : string := default "" (default_service_type c).

(** The configured default is never the mode "Default": a message always has a mode. *)
Lemma get_default_mc_mode_ne c : get_default_mc_mode c ≠ MessageMode.Default.
Proof. unfold get_default_mc_mode. by case_decide. Qed.

Lemma get_predefined_message_in c index s :
  get_predefined_message c index = Some s → ∃ l, predefined_messages c = Some l ∧ s ∈ l.
Proof.
  unfold get_predefined_message. destruct (predefined_messages c) as [l|]; [|done].
  case_match; [|done]. intros Hs. exists l. split; [done|]. by eapply list_elem_of_lookup_2.
Qed.
End ServerConfig.
