(* ===== verification/Wire.v ===== *)
(** * PDU buffers (src/message.rs, the buffer half)

    [SmppMessageBuffer] cuts the byte stream of a connection into PDUs; [SMPPMessage]
    holds one PDU and has the primitive readers and writers the codecs are built from.
    A reader returns its result and the buffer it leaves; a writer appends. *)
From S2P Require Export RustStr.

(** [BigEndian::write_u32(&mut buf[off..off + 4], v)]: panics when out of range. *)
Definition put_be32 (off : nat) (v : N) (buf : bytes) : ioresult bytes :=
  if Nat.leb (off + 4) (length buf)
  then Ok (take off buf ++ be_bytes 4 v ++ drop (off + 4) buf) else Panic.

(** [BigEndian::read_u32(&buf[off..off + 4])] behind its length check. *)
Definition get_be32 (off : nat) (buf : bytes) : option N :=
  if Nat.leb (off + 4) (length buf) then Some (be_N (take 4 (drop off buf))) else None.

Module SMPPMessage.

Record t : Type := mk { message : bytes }.

Definition SMPP_HEADER_LENGTH : nat := 16.

Definition new (message : bytes) : t := mk message.
Definition from_bytes (b : bytes) : t := mk b.
Definition from_bytes_mut (b : bytes) : t := mk b.

(** [hex::decode] is a parameter; its error is shown in the message. *)
Definition from_hex (hex_decode : string → outcome string bytes) (hex_str : string) :
    ioresult t :=
  mk <$> map_err (λ e, IoError InvalidInput ("Failed to decode hex string: " +:+ e))
                 (hex_decode hex_str).

Definition len (m : t) : nat := length (message m).
Definition remaining (m : t) : nat := length (message m).
Definition to_vec (m : t) : bytes := message m.

Definition update_length (m : t) : ioresult t :=
  mk <$> put_be32 0 (cast_u32 (N.of_nat (length (message m)))) (message m).

Definition update_sequence_number (m : t) (seq_num : N) : ioresult t :=
  mk <$> put_be32 12 seq_num (message m).

Definition get_command_id (m : t) : option N := get_be32 4 (message m).

Definition is_request (m : t) : bool :=
  match get_command_id m with
  | Some command_id => (N.land command_id 0x80000000 =? 0)%N
  | None => false
  end.

Definition get_command_status (m : t) : option N := get_be32 8 (message m).
Definition get_sequence_number (m : t) : option N := get_be32 12 (message m).

Definition to_hex (m : t) : string :=
  foldr (λ b s, format_hex true 2 (Byte.to_N b) +:+ s) "" (message m).

(** ** Readers *)

(** [Buf::try_get_uW]: takes the bytes only when they are all there. *)
Definition try_get (w : nat) (buf : bytes) : option N * bytes :=
  if Nat.leb w (length buf) then (Some (be_N (take w buf)), drop w buf) else (None, buf).

Definition read_u8 : bytes → option N * bytes := try_get 1.
Definition read_u16 : bytes → option N * bytes := try_get 2.
Definition read_u32 : bytes → option N * bytes := try_get 4.

(** A read of length zero fails. *)
Definition read (buf : bytes) (length : nat) : option bytes * bytes :=
  if Nat.ltb 0 length && Nat.leb length (List.length buf)
  then (Some (take length buf), drop length buf) else (None, buf).

Definition peek_tlv_tag (buf : bytes) : option N :=
  if Nat.leb 2 (length buf) then Some (be_N (take 2 buf)) else None.

(** What was read before the failure stays consumed. *)
Definition read_tlv (buf : bytes) : option (N * bytes) * bytes :=
  match read_u16 buf with
  | (None, buf) => (None, buf)
  | (Some tag, buf) =>
      match read_u16 buf with
      | (None, buf) => (None, buf)
      | (Some len, buf) =>
          match read buf (N.to_nat len) with
          | (None, buf) => (None, buf)
          | (Some value_bytes, buf) => (Some (tag, value_bytes), buf)
          end
      end
  end.

Definition read_c_octet_str (buf : bytes) : option string * bytes :=
  match list_find (λ b, b = x00) buf with
  | Some (pos, _) => (Some (from_utf8_lossy (take pos buf)), drop (pos + 1) buf)
  | None => (None, buf)
  end.

(** ** Writers *)

Definition write_u8 (value : N) (buf : bytes) : bytes := buf ++ be_bytes 1 value.
Definition write_u16 (value : N) (buf : bytes) : bytes := buf ++ be_bytes 2 value.
Definition write_u32 (value : N) (buf : bytes) : bytes := buf ++ be_bytes 4 value.
Definition write (data buf : bytes) : bytes := buf ++ data.

Definition write_c_octet_str (s : string) (buf : bytes) : bytes :=
  (buf ++ as_bytes s) ++ [x00].

Definition write_octet (s : string) (buf : bytes) : bytes := buf ++ as_bytes s.

Definition write_tlv (tag : N) (value buf : bytes) : bytes :=
  write value (write_u16 (cast_u16 (N.of_nat (length value))) (write_u16 tag buf)).

Definition write_c_octet_str_tlv (tag : N) (value : string) (buf : bytes) : bytes :=
  let temp_buffer := write_c_octet_str value [] in
  write_u16 (cast_u16 (N.of_nat (length temp_buffer))) (write_u16 tag buf) ++ temp_buffer.

Definition write_u8_tlv (tag value : N) (buf : bytes) : bytes :=
  write_u8 value (write_u16 1 (write_u16 tag buf)).

Definition write_u16_tlv (tag value : N) (buf : bytes) : bytes :=
  write_u16 value (write_u16 2 (write_u16 tag buf)).

(** ** Read after write *)

Lemma try_get_be_bytes w n r :
  (n < 256 ^ N.of_nat w)%N → try_get w (be_bytes w n ++ r) = (Some n, r).
Proof.
  intros Hn. unfold try_get.
  rewrite (proj2 (Nat.leb_le _ _)) by (rewrite length_app, length_be_bytes; lia).
  rewrite take_app_length', drop_app_length' by (by rewrite length_be_bytes).
  rewrite be_N_be_bytes. by rewrite N.mod_small.
Qed.

Lemma try_get_be_bytes_mod w n r :
  try_get w (be_bytes w n ++ r) = (Some (n mod 256 ^ N.of_nat w)%N, r).
Proof.
  unfold try_get.
  rewrite (proj2 (Nat.leb_le _ _)) by (rewrite length_app, length_be_bytes; lia).
  rewrite take_app_length', drop_app_length' by (by rewrite length_be_bytes).
  by rewrite be_N_be_bytes.
Qed.

Lemma try_get_length w buf o buf' :
  try_get w buf = (Some o, buf') → length buf = w + length buf'.
Proof.
  unfold try_get. destruct (Nat.leb_spec w (length buf)); intros [= <- <-].
  rewrite length_drop. lia.
Qed.

Lemma read_write d r : d ≠ [] → read (d ++ r) (length d) = (Some d, r).
Proof.
  intros Hd. unfold read. rewrite length_app.
  rewrite (proj2 (Nat.leb_le _ _)) by lia.
  rewrite (proj2 (Nat.ltb_lt _ _)) by (destruct d; [done|simpl; lia]).
  simpl. by rewrite take_app_length, drop_app_length.
Qed.

Lemma read_zero buf : read buf 0 = (None, buf).
Proof. done. Qed.

Lemma write_tlv_nil tag v r :
  write_tlv tag v [] ++ r
  = be_bytes 2 tag ++ be_bytes 2 (cast_u16 (N.of_nat (length v))) ++ v ++ r.
Proof. unfold write_tlv, write, write_u16. by rewrite <-!app_assoc. Qed.

Lemma read_tlv_write_tlv tag v r :
  (tag < 2 ^ 16)%N → v ≠ [] → (N.of_nat (length v) < 2 ^ 16)%N →
  read_tlv (write_tlv tag v [] ++ r) = (Some (tag, v), r).
Proof.
  intros Ht Hv Hl. rewrite write_tlv_nil. unfold read_tlv, read_u16, cast_u16.
  rewrite (N.mod_small (N.of_nat _)) by done.
  rewrite !try_get_be_bytes by done. by rewrite Nat2N.id, read_write.
Qed.

(** A zero-length TLV is written and never read back: its tag and length are gone. *)
Lemma read_tlv_empty tag r :
  (tag < 2 ^ 16)%N → read_tlv (write_tlv tag [] [] ++ r) = (None, r).
Proof.
  intros Ht. rewrite write_tlv_nil. unfold read_tlv, read_u16.
  by rewrite !try_get_be_bytes by done.
Qed.

Lemma list_find_nul l r :
  x00 ∉ l → list_find (λ b, b = x00) (l ++ x00 :: r) = Some (length l, x00).
Proof.
  intros Hl. apply list_find_Some. split.
  { by rewrite list_lookup_middle. }
  split; [done|]. intros j y Hy Hj ->.
  apply Hl. rewrite lookup_app_l in Hy by done. by eapply list_elem_of_lookup_2.
Qed.

Lemma read_write_c_octet_str s r :
  x00 ∉ as_bytes s → str_valid s = true →
  read_c_octet_str (write_c_octet_str s [] ++ r) = (Some s, r).
Proof.
  intros Hs Hv. unfold read_c_octet_str, write_c_octet_str. rewrite <-app_assoc. simpl.
  rewrite list_find_nul by done. rewrite take_app_length, Nat.add_1_r.
  rewrite from_utf8_lossy_valid by done.
  replace (S (length (as_bytes s))) with (length (as_bytes s) + 1) by lia.
  rewrite <-drop_drop, drop_app_length. done.
Qed.

(** The string read never contains the terminator, whatever follows it. *)
Lemma read_c_octet_str_length buf s buf' :
  read_c_octet_str buf = (Some s, buf') → length buf' < length buf.
Proof.
  unfold read_c_octet_str.
  destruct (list_find _ buf) as [[i y]|] eqn:E; intros [= <- <-].
  apply list_find_Some in E as [E _]. apply lookup_lt_Some in E.
  rewrite length_drop. lia.
Qed.

Lemma read_tlv_length buf o buf' :
  read_tlv buf = (o, buf') → 2 ≤ length buf → length buf' + 2 ≤ length buf.
Proof.
  unfold read_tlv, read_u16. intros H Hl.
  assert (Hg : ∀ w b, length ((try_get w b).2) ≤ length b).
  { intros w b. unfold try_get. destruct (Nat.leb _ _); simpl; rewrite ?length_drop; lia. }
  assert (Hr : ∀ n b, length ((read b n).2) ≤ length b).
  { intros n b. unfold read. destruct (_ && _); simpl; rewrite ?length_drop; lia. }
  assert (H1 : length ((try_get 2 buf).2) + 2 = length buf).
  { unfold try_get. rewrite (proj2 (Nat.leb_le _ _)) by done. simpl.
    rewrite length_drop. lia. }
  destruct (try_get 2 buf) as [[tag|] b1] eqn:E1; simpl in H1.
  2: { unfold try_get in E1. rewrite (proj2 (Nat.leb_le _ _)) in E1 by done. done. }
  pose proof (Hg 2 b1). destruct (try_get 2 b1) as [[l|] b2]; simplify_eq/=; [|lia].
  pose proof (Hr (N.to_nat l) b2).
  destruct (read b2 (N.to_nat l)) as [[v|] b3]; simplify_eq/=; lia.
Qed.

Lemma put_be32_ok off v buf buf' :
  put_be32 off v buf = Ok buf' →
  off + 4 ≤ length buf ∧ buf' = take off buf ++ be_bytes 4 v ++ drop (off + 4) buf.
Proof. unfold put_be32. destruct (Nat.leb_spec (off + 4) (length buf)); [|done]. by split; [|congruence]. Qed.

Lemma put_be32_length off v buf buf' :
  put_be32 off v buf = Ok buf' → length buf' = length buf.
Proof.
  intros [H ->]%put_be32_ok.
  rewrite !length_app, length_take, length_drop, length_be_bytes. lia.
Qed.

Lemma get_put_be32 off v buf buf' :
  put_be32 off v buf = Ok buf' → get_be32 off buf' = Some (v mod 2 ^ 32)%N.
Proof.
  intros H. pose proof (put_be32_length _ _ _ _ H) as Hl.
  apply put_be32_ok in H as [H ->]. unfold get_be32. rewrite Hl.
  rewrite (proj2 (Nat.leb_le _ _)) by done.
  rewrite drop_app_length' by (rewrite length_take; lia).
  rewrite take_app_length' by (by rewrite length_be_bytes). by rewrite be_N_be_bytes.
Qed.

End SMPPMessage.

Module SmppMessageBuffer.

(** The bytes received and not yet cut into PDUs. *)
Record t : Type := mk { buffer : bytes }.

Definition new : t := mk [].
Definition from_bytes (b : bytes) : t := mk b.
Definition len (b : t) : nat := length (buffer b).
Definition write (data : bytes) (b : t) : t := mk (buffer b ++ data).

Definition from_hex (hex_decode : string → outcome string bytes) (hex_str : string) :
    ioresult t :=
  mk <$> map_err (λ e, IoError InvalidInput ("Failed to decode hex string: " +:+ e))
                 (hex_decode hex_str).

Definition extract_message (b : t) : option SMPPMessage.t * t :=
  if Nat.ltb (length (buffer b)) 16 then (None, b)
  else
    let length := N.to_nat (be_N (take 4 (buffer b))) in
    if Nat.leb length (List.length (buffer b))
    then (Some (SMPPMessage.from_bytes_mut (take length (buffer b))),
          mk (drop length (buffer b)))
    else (None, b).

(** [while let Some(message) = buffer.extract_message() { messages.push(message) }]:
    [None] when the fuel is used up before the loop ends. *)
Fixpoint extract_loop (fuel : nat) (b : t) : option (list SMPPMessage.t * t) :=
  match fuel with
  | O => None
  | S fuel' =>
      match extract_message b with
      | (None, b') => Some ([], b')
      | (Some m, b') => '(ms, r) ← extract_loop fuel' b'; Some (m :: ms, r)
      end
  end.

(** Every PDU cut out takes at least one byte unless its length field is zero, and then
    the loop never ends: [length + 1] steps decide ([extract_loop_diverges]). *)
Definition extract_all (b : t) : option (list SMPPMessage.t * t) :=
  extract_loop (S (len b)) b.

(** The reads of a client connection one after the other: each chunk is appended and the loop
    takes out what became complete. (The server handles each PDU inside its loop and leaves it
    when a handler fails: [drain] of Server.v.) *)
Fixpoint receive (b : t) (chunks : list bytes) : option (list SMPPMessage.t * t) :=
  match chunks with
  | [] => Some ([], b)
  | c :: cs =>
      '(ms, b1) ← extract_all (write c b);
      '(ms', b2) ← receive b1 cs;
      Some (ms ++ ms', b2)
  end.

(** A PDU as a peer is to send it: a header at least, and its own length in front. *)
Definition framed (m : bytes) : Prop :=
  16 ≤ length m ∧ be_N (take 4 m) = N.of_nat (length m).

(** No complete PDU at the front. *)
Definition incomplete (b : bytes) : Prop := (extract_message (mk b)).1 = None.

End SmppMessageBuffer.
