(* ===== verification/Framing.v ===== *)
(** * Framing: from TCP chunks to PDUs

    Theorems on [SmppMessageBuffer.extract_message] and the loops that call it
    ([SmscServerConnection::run], [SmscConnection::read_messages]): a stream of framed
    PDUs comes out as exactly those PDUs however TCP cuts it, and the drain loop ends
    unless a length field is zero. *)
From S2P Require Export Wire.
Import SmppMessageBuffer.

(** One turn of the drain loop. *)
Definition extract_step (b b' : t) : Prop := ∃ m, extract_message b = (Some m, b').

(** The front of the buffer announces a PDU of zero bytes. *)
Definition zero_head (b : t) : Prop := 16 ≤ len b ∧ be_N (take 4 (buffer b)) = 0%N.

Lemma extract_message_Some b m r :
  extract_message (mk b) = (Some m, r) ↔
  16 ≤ length b ∧ N.to_nat (be_N (take 4 b)) ≤ length b ∧
  m = SMPPMessage.mk (take (N.to_nat (be_N (take 4 b))) b) ∧
  r = mk (drop (N.to_nat (be_N (take 4 b))) b).
Proof.
  unfold extract_message. simpl. destruct (Nat.ltb_spec (length b) 16).
  { split; [done|lia]. }
  destruct (Nat.leb_spec (N.to_nat (be_N (take 4 b))) (length b)).
  - split; [by intros [= <- <-]|]. by intros (_ & _ & -> & ->).
  - split; [done|lia].
Qed.

Lemma extract_message_None b r :
  extract_message b = (None, r) ↔ incomplete (buffer b) ∧ r = b.
Proof.
  destruct b as [b]. unfold incomplete, extract_message. simpl.
  destruct (Nat.ltb _ _); [|destruct (Nat.leb _ _)]; simpl;
    (split; [by intros [= <-]|by intros [? ->]]).
Qed.

Lemma incomplete_spec b :
  incomplete b ↔ length b < 16 ∨ length b < N.to_nat (be_N (take 4 b)).
Proof.
  unfold incomplete, extract_message. simpl.
  destruct (Nat.ltb_spec (length b) 16); [naive_solver|].
  destruct (Nat.leb_spec (N.to_nat (be_N (take 4 b))) (length b)); simpl; [|naive_solver].
  split; [done|lia].
Qed.

Lemma incomplete_prefix x y : incomplete (x ++ y) → incomplete x.
Proof.
  rewrite !incomplete_spec, length_app. intros H.
  destruct (decide (length x < 16)); [by left|]. right.
  rewrite take_app_le in H by lia. lia.
Qed.

Lemma framed_extract p r :
  framed p → extract_message (mk (p ++ r)) = (Some (SMPPMessage.mk p), mk r).
Proof.
  intros [Hl Hf]. apply extract_message_Some.
  rewrite take_app_le, Hf, Nat2N.id, length_app, take_app_length, drop_app_length by lia.
  repeat split; lia.
Qed.

Lemma extract_loop_mono n k b x :
  extract_loop n b = Some x → n ≤ k → extract_loop k b = Some x.
Proof.
  revert k b x. induction n as [|n IH]; intros [|k] b x H Hk; try done; [lia|].
  simpl in *. destruct (extract_message b) as [[m|] b']; [|done].
  destruct (extract_loop n b') as [[ms r]|] eqn:E; [|done].
  by rewrite (IH k _ _ E) by lia.
Qed.

Lemma zero_head_step b b' : zero_head b → extract_step b b' ↔ b' = b.
Proof.
  destruct b as [b]. intros [Hl Hz]. unfold len in Hl. simpl in *. unfold extract_step.
  setoid_rewrite extract_message_Some. rewrite Hz, drop_0. split.
  - by intros (m & _ & _ & _ & ->).
  - intros ->. eexists. repeat split; [done|simpl; lia].
Qed.

Lemma zero_head_loop n b : zero_head b → extract_loop n b = None.
Proof.
  intros Hz. induction n as [|n IH]; [done|]. simpl.
  destruct (proj2 (zero_head_step b b Hz) eq_refl) as [m ->]. by rewrite IH.
Qed.

Lemma extract_step_length b b' : extract_step b b' → ¬ zero_head b → len b' < len b.
Proof.
  destruct b as [b]. intros (m & H) Hz. apply extract_message_Some in H as (H1 & H2 & _ & ->).
  unfold len, zero_head in *. simpl in *. rewrite length_drop.
  destruct (N.to_nat (be_N (take 4 b))) eqn:E; [|lia].
  exfalso. apply Hz. split; [done|lia].
Qed.

Lemma zero_head_dec b : zero_head b ∨ ¬ zero_head b.
Proof. unfold zero_head. destruct (decide (16 ≤ len b ∧ be_N (take 4 (buffer b)) = 0%N)); auto. Qed.

(** Either the loop ends within [len b + 1] turns, or it reaches a zero length field. *)
Lemma extract_loop_decides b :
  is_Some (extract_all b) ∨ (∃ b', rtc extract_step b b' ∧ zero_head b').
Proof.
  unfold extract_all. remember (len b) as n eqn:Hn. revert b Hn.
  induction (lt_wf n) as [n _ IH]. intros b ->.
  destruct (zero_head_dec b) as [Hz|Hz]; [by right; exists b|].
  simpl. destruct (extract_message b) as [[m|] b'] eqn:E; [|by left].
  assert (Hs : extract_step b b') by (by exists m).
  pose proof (extract_step_length _ _ Hs Hz) as Hl.
  destruct (IH (len b') Hl b' eq_refl) as [[[ms r] Hr]|(b2 & Hb2 & Hz2)].
  - left. rewrite (extract_loop_mono _ (len b) _ _ Hr) by lia. by eexists.
  - right. exists b2. split; [|done]. by eapply rtc_l.
Qed.

(** C2: the drain loop of a connection never returns, whatever time it is given,
    exactly when cutting complete PDUs off the buffer leads to one whose length field is
    zero; a connection that never sees such a field always drains in finitely many
    turns. *)
Theorem extract_loop_diverges b :
  (∀ fuel, extract_loop fuel b = None) ↔ (∃ b', rtc extract_step b b' ∧ zero_head b').
Proof.
  split.
  - intros H. destruct (extract_loop_decides b) as [[x Hx]|]; [|done].
    unfold extract_all in Hx. congruence.
  - intros (b' & Hs & Hz). induction Hs as [b|b b1 b' [m H1] Hs IH].
    { intros n. by apply zero_head_loop. }
    intros [|n]; [done|]. simpl. by rewrite H1, IH.
Qed.

Lemma extract_all_framed pdus rest :
  Forall framed pdus → incomplete rest →
  extract_all (mk (concat pdus ++ rest)) = Some (SMPPMessage.mk <$> pdus, mk rest).
Proof.
  intros Hp Hr.
  assert (extract_loop (S (length pdus)) (mk (concat pdus ++ rest))
          = Some (SMPPMessage.mk <$> pdus, mk rest)) as H.
  { induction Hp as [|p ps Hp _ IH]; [simpl|].
    - rewrite (proj2 (extract_message_None (mk rest) (mk rest))); done.
    - cbn [concat length]. rewrite <-app_assoc. remember (S (length ps)) as k.
      cbn [extract_loop]. rewrite framed_extract by done. by rewrite IH. }
  destruct (extract_loop_decides (mk (concat pdus ++ rest))) as [[x Hx]|Hz].
  - rewrite Hx. unfold extract_all in Hx.
    apply (extract_loop_mono _ (S (len (mk (concat pdus ++ rest))) + S (length pdus))) in Hx; [|lia].
    apply (extract_loop_mono _ (S (len (mk (concat pdus ++ rest))) + S (length pdus))) in H; [|lia].
    congruence.
  - apply extract_loop_diverges with (fuel := S (length pdus)) in Hz. congruence.
Qed.

(** Any cut through a stream of framed PDUs falls inside one of them, or in the tail. *)
Lemma stream_cut pdus rest x y :
  Forall framed pdus → incomplete rest → x ++ y = concat pdus ++ rest →
  ∃ ps1 ps2 b1, pdus = ps1 ++ ps2 ∧ x = concat ps1 ++ b1 ∧ incomplete b1 ∧
                b1 ++ y = concat ps2 ++ rest.
Proof.
  intros Hp Hr. revert x. induction Hp as [|p ps Hp Hps IH]; intros x Hx; simpl in Hx.
  - exists [], [], x. simpl. split_and!; try done.
    apply (incomplete_prefix x y). by rewrite Hx.
  - rewrite <-app_assoc in Hx.
    destruct (app_eq_inv _ _ _ _ Hx) as [(x' & -> & Hx')|(x' & -> & Hx')].
    + destruct (IH x' (eq_sym Hx')) as (ps1 & ps2 & b1 & -> & -> & Hb & Heq).
      exists (p :: ps1), ps2, b1. simpl. by rewrite app_assoc.
    + destruct (decide (x' = [])) as [->|Hne].
      { exists [x], ps, []. rewrite app_nil_r in *. simpl in *.
        split_and!; try done; simpl; by rewrite ?app_nil_r. }
      exists [], ((x ++ x') :: ps), x. split_and!; [done|done| |].
      * destruct Hp as [Hl Hf]. apply incomplete_spec.
        destruct (decide (length x < 16)); [by left|]. right.
        rewrite take_app_le, length_app in Hf by lia.
        destruct x'; [done|]. simpl in Hf. lia.
      * rewrite Hx. simpl. by rewrite !app_assoc.
Qed.

Lemma receive_framed chunks b pdus rest :
  Forall framed pdus → incomplete rest → incomplete b →
  b ++ concat chunks = concat pdus ++ rest →
  receive (mk b) chunks = Some (SMPPMessage.mk <$> pdus, mk rest).
Proof.
  intros Hp Hr. revert b pdus Hp. induction chunks as [|c cs IH]; intros b pdus Hp Hb Heq; simpl.
  - rewrite app_nil_r in Heq. destruct pdus as [|p ps]; [by simpl in *; subst|].
    apply Forall_cons in Hp as [Hp _]. simpl in Heq. rewrite <-app_assoc in Heq.
    unfold incomplete in Hb. by rewrite Heq, framed_extract in Hb.
  - simpl in Heq. rewrite app_assoc in Heq.
    destruct (stream_cut pdus rest _ _ Hp Hr Heq) as (ps1 & ps2 & b1 & -> & Hx & Hb1 & Hy).
    apply Forall_app in Hp as [Hp1 Hp2]. unfold write. simpl buffer.
    rewrite Hx, extract_all_framed by done. simpl.
    rewrite (IH b1 ps2) by done. simpl. by rewrite fmap_app.
Qed.

(** C1: whatever way TCP cuts a stream of framed PDUs into reads, the receive loop of a
    client connection extracts exactly those PDUs, each once and in order, and keeps the
    incomplete tail for the next read. *)
Theorem receive_stream pdus rest chunks :
  Forall framed pdus → incomplete rest → concat chunks = concat pdus ++ rest →
  receive new chunks = Some (SMPPMessage.mk <$> pdus, mk rest).
Proof. intros Hp Hr Heq. by apply receive_framed. Qed.

Definition enquire_link_pdu : bytes := [x00;x00;x00;x10; x00;x00;x00;x15; x00;x00;x00;x00; x00;x00;x00;x07].

Lemma receive_stream_witness :
  receive new [take 5 enquire_link_pdu; drop 5 enquire_link_pdu ++ take 3 enquire_link_pdu]
  = Some ([SMPPMessage.mk enquire_link_pdu], mk [x00; x00; x00]).
Proof.
  apply (receive_stream [enquire_link_pdu] [x00; x00; x00]).
  - apply Forall_singleton. split; [simpl; lia|reflexivity].
  - reflexivity.
  - reflexivity.
Defined.
