(* ===== verification/FieldCodec.v ===== *)
(** * Field codecs (src/field_codec.rs, the codecs)

    One Module per [struct] that implements the [FieldCodec] trait, with its [encode]
    and [decode]; the trait objects ([Box<dyn FieldCodec>]) are the constructors of
    [FieldCodec], dispatched by [codec_encode] and
    [codec_decode] at the end. Base64 is the
    [base64] crate: the class [Base64]. *)
From S2P Require Export Wire Json.

(** [BASE64_STANDARD] of the base64 crate. *)
Class Base64 := {
  b64_encode : bytes → string;
  b64_decode : string → option bytes;
}.

(** What the crate documents: decoding undoes encoding. *)
Class Base64Laws `{Base64} : Prop :=
  b64_decode_encode : ∀ b, b64_decode (b64_encode b) = Some b.

(** A [SMPPMessage::write_...] call as a computation. *)
Definition put (w : bytes → bytes) : BufM unit := λ buf, (Ok tt, w buf).

Module U8FieldCodec.
Definition encode (value : Value) : BufM unit :=
  match value with
  | JNumber num =>
      match num_as_u64 num with
      | Some n => put (SMPPMessage.write_u8 (cast_u8 n))
      | None => BufM_fail InvalidInput "Failed to encode u8"
      end
  | _ => BufM_fail InvalidInput "Failed to encode u8"
  end.

Definition decode : BufM Value := λ buf,
  match buf with
  | n :: buf' => (Ok (jnum (Byte.to_N n)), buf')
  | [] => (io_err InvalidInput "Failed to read u8 from buffer", buf)
  end.
End U8FieldCodec.

Module OptionalU8FieldCodec.
Definition encode (default_value : N) (value : Value) : BufM unit :=
  match value with
  | JNumber num =>
      match num_as_u64 num with
      | Some n =>
          if (n =? default_value)%N then put (SMPPMessage.write_u8 default_value)
          else put (SMPPMessage.write_u8 (cast_u8 n))
      | None => put (SMPPMessage.write_u8 default_value)
      end
  | _ => put (SMPPMessage.write_u8 default_value)
  end.

Definition decode (default_value : N) : BufM Value := λ buf,
  match buf with
  | n :: buf' => (Ok (jnum (Byte.to_N n)), buf')
  | [] => (Ok (jnum default_value), buf)
  end.
End OptionalU8FieldCodec.

Module VarLengthIntFieldCodec.
(** [while temp != 0 { write_u8(temp & 0xff); temp >>= 8 }]: least significant byte
    first. A [u64] needs at most eight turns. *)
Fixpoint le_bytes (fuel : nat) (temp : N) : bytes :=
  match fuel with
  | O => []
  | S fuel' =>
      if (temp =? 0)%N then []
      else byte_of_N (N.land temp 0xff) :: le_bytes fuel' (N.shiftr temp 8)
  end.

Definition encode (value : Value) : BufM unit :=
  match value with
  | JNumber num =>
      match num_as_u64 num with
      | Some n => put (SMPPMessage.write (le_bytes 8 n))
      | None => BufM_fail InvalidInput "Failed to encode VarLengthInt"
      end
  | _ => BufM_fail InvalidInput "Failed to encode VarLengthInt"
  end.

(** Reads to the end of the buffer, most significant byte first. *)
Definition decode : BufM Value := λ buf,
  (Ok (jnum (fold_left (λ result byte,
                          N.lor (cast_u64 (N.shiftl result 8)) (Byte.to_N byte)) buf 0%N)), []).
End VarLengthIntFieldCodec.

Module COctetStrFieldCodec.
(** [&s[0..max_length]] panics inside a multi-byte character. *)
Definition truncate (max_length : nat) (s : string) : ioresult string :=
  if Nat.ltb max_length (str_len s) then str_slice s 0 max_length else Ok s.

Definition encode (max_length : nat) (value : Value) : BufM unit :=
  match value with
  | JString s =>
      BufM_lift (truncate max_length s) ≫= λ s, put (SMPPMessage.write_c_octet_str s)
  | _ => BufM_fail InvalidInput "Failed to encode c_octet_str"
  end.

Definition decode : BufM Value :=
  BufM_opt SMPPMessage.read_c_octet_str InvalidInput "Failed to read c_octet_str from buffer"
    ≫= λ s, mret (JString s).
End COctetStrFieldCodec.

Module OctetFieldCodec.
Definition read_length (length_bytes : N) (buf : bytes) : option nat * bytes :=
  let '(o, buf') := match length_bytes with
                    | 1 => SMPPMessage.read_u8 buf
                    | 2 => SMPPMessage.read_u16 buf
                    | 4 => SMPPMessage.read_u32 buf
                    | _ => (None, buf)
                    end%N in
  (N.to_nat <$> o, buf').

Definition write_length (length_bytes : N) (length : nat) (buf : bytes) : bytes :=
  match length_bytes with
  | 1 => SMPPMessage.write_u8 (cast_u8 (N.of_nat length)) buf
  | 2 => SMPPMessage.write_u16 (cast_u16 (N.of_nat length)) buf
  | 4 => SMPPMessage.write_u32 (cast_u32 (N.of_nat length)) buf
  | _ => buf
  end%N.

Section octets.
Context `{Base64}.

(** The octets a string stands for: its Base64 decoding, or else its own bytes. *)
Definition octets (s : string) : bytes :=
  match b64_decode s with Some decoded => decoded | None => as_bytes s end.

Definition encode (length_indicator : bool) (length_bytes : N) (value : Value) : BufM unit :=
  match value with
  | JString s =>
      let b := octets s in
      (if length_indicator then put (write_length length_bytes (length b)) else mret tt)
        ≫= λ _, put (SMPPMessage.write b)
  | _ => BufM_fail InvalidInput "Failed to encode OctetField"
  end.

Definition decode (length_indicator : bool) (length_bytes : N) : BufM Value := λ buf,
  let failed buf := (io_err InvalidInput "Failed to decode OctetField", buf) in
  if length_indicator then
    match read_length length_bytes buf with
    | (Some len, buf) =>
        match SMPPMessage.read buf len with
        | (Some bs, buf) => (Ok (JString (b64_encode bs)), buf)
        | (None, buf) => failed buf
        end
    | (None, buf) => failed buf
    end
  else
    match SMPPMessage.read buf (length buf) with
    | (Some bs, buf) => (Ok (JString (b64_encode bs)), buf)
    | (None, buf) => failed buf
    end.
End octets.
End OctetFieldCodec.

Module U16FieldCodec.
Definition encode (value : Value) : BufM unit :=
  match value with
  | JNumber num =>
      match num_as_u64 num with
      | Some n => put (SMPPMessage.write_u16 (cast_u16 n))
      | None => BufM_fail InvalidInput "Failed to encode u16"
      end
  | _ => BufM_fail InvalidInput "Failed to encode u16"
  end.

Definition decode : BufM Value :=
  BufM_opt SMPPMessage.read_u16 InvalidInput "Failed to read u16 from buffer"
    ≫= λ n, mret (jnum n).
End U16FieldCodec.

Module U32FieldCodec.
Definition encode (value : Value) : BufM unit :=
  match value with
  | JNumber num =>
      match num_as_u64 num with
      | Some n => put (SMPPMessage.write_u32 (cast_u32 n))
      | None => BufM_fail InvalidInput "Failed to encode u32"
      end
  | _ => BufM_fail InvalidInput "Failed to encode u32"
  end.

Definition decode : BufM Value :=
  BufM_opt SMPPMessage.read_u32 InvalidInput "Failed to read u32 from buffer"
    ≫= λ n, mret (jnum n).
End U32FieldCodec.

Module ArrayFieldCodec.
Definition encode (item_encode : Value → BufM unit) (value : Value) : BufM unit :=
  match value with
  | JArray arr =>
      if Nat.ltb 255 (length arr)
      then BufM_fail InvalidInput "Array length exceeds maximum of 255"
      else put (SMPPMessage.write_u8 (cast_u8 (N.of_nat (length arr))))
             ≫= λ _, BufM_iter item_encode arr
  | _ => BufM_fail InvalidInput "Expected an array for encoding"
  end.

Definition decode (item_decode : BufM Value) : BufM Value :=
  BufM_opt SMPPMessage.read_u8 InvalidInput "Failed to read array length from buffer"
    ≫= λ length, BufM_repeat (N.to_nat length) item_decode
    ≫= λ items, mret (JArray items).
End ArrayFieldCodec.

Module CompositeFieldCodec.
Definition encode (fields : list (string * (Value → BufM unit))) (value : Value) : BufM unit :=
  BufM_iter (λ '(name, field_encode),
    match get value name with
    | Some field_value => field_encode field_value
    | None => BufM_fail InvalidInput ("Missing field '" +:+ name +:+ "' for encoding")
    end) fields.

Fixpoint decode_into (fields : list (string * BufM Value)) (map : jmap) : BufM Value :=
  match fields with
  | [] => mret (JObject map)
  | (name, field_decode) :: fields' =>
      BufM_map_err InvalidInput ("Failed to decode field '" +:+ name +:+ "'") field_decode
        ≫= λ value, decode_into fields' (jinsert name value map)
  end.

Definition decode (fields : list (string * BufM Value)) : BufM Value := decode_into fields [].
End CompositeFieldCodec.

Module DestAddressFieldCodec.
Definition encode (value : Value) : BufM unit :=
  match value with
  | JObject map =>
      let dest_addr_ton := cast_u8 (u64_field value "dest_addr_ton") in
      let dest_addr_npi := cast_u8 (u64_field value "dest_addr_npi") in
      match jget "destination_addr" map with
      | Some (JString addr) =>
          put (SMPPMessage.write_u8 1) ≫= λ _,
          put (SMPPMessage.write_u8 dest_addr_ton) ≫= λ _,
          put (SMPPMessage.write_u8 dest_addr_npi) ≫= λ _,
          put (SMPPMessage.write_c_octet_str addr)
      | _ =>
          match jget "dl_name" map with
          | Some (JString addr) =>
              put (SMPPMessage.write_u8 2) ≫= λ _, put (SMPPMessage.write_c_octet_str addr)
          | _ => BufM_fail InvalidInput "Failed to encode dest_addr"
          end
      end
  | _ => BufM_fail InvalidInput "Failed to encode dest_addr"
  end.

Definition failed : string := "Failed to decode dest_addr from buffer".

Definition decode : BufM Value :=
  BufM_opt SMPPMessage.read_u8 InvalidInput failed ≫= λ dest_flag,
  match dest_flag with
  | 1%N =>
      BufM_opt SMPPMessage.read_u8 InvalidInput failed ≫= λ ton,
      BufM_opt SMPPMessage.read_u8 InvalidInput failed ≫= λ npi,
      BufM_opt SMPPMessage.read_c_octet_str InvalidInput failed ≫= λ addr,
      mret (JObject (jinsert "destination_addr" (JString addr)
                      (jinsert "dest_addr_npi" (jnum npi)
                        (jinsert "dest_addr_ton" (jnum ton) []))))
  | 2%N =>
      BufM_opt SMPPMessage.read_c_octet_str InvalidInput failed ≫= λ addr,
      mret (JObject (jinsert "dl_name" (JString addr) []))
  | _ => BufM_fail InvalidInput ("Unknown dest_flag value: " +:+ format_dec dest_flag)
  end.
End DestAddressFieldCodec.

Module DestAddressesFieldCodec.
(** Unlike [ArrayFieldCodec], the number of items is not checked but cut to a [u8]. *)
Definition encode (value : Value) : BufM unit :=
  match value with
  | JArray arr =>
      put (SMPPMessage.write_u8 (cast_u8 (N.of_nat (length arr))))
        ≫= λ _, BufM_iter DestAddressFieldCodec.encode arr
  | _ => BufM_fail InvalidInput "Failed to encode dest_addresses"
  end.

Definition decode : BufM Value :=
  BufM_opt SMPPMessage.read_u8 InvalidInput "Failed to decode dest_addresses"
    ≫= λ num_dests,
       BufM_repeat (N.to_nat num_dests)
         (BufM_map_err InvalidInput "Failed to decode one of the dest_addresses"
            DestAddressFieldCodec.decode)
    ≫= λ dests, mret (JArray dests).
End DestAddressesFieldCodec.

(** ** Dynamic dispatch *)

#[local] Set Warnings "-register-all".
Inductive FieldCodec : Type :=
| U8FieldCodec
| OptionalU8FieldCodec (default_value : N)
| VarLengthIntFieldCodec
| COctetStrFieldCodec (max_length : nat)
| OctetFieldCodec (length_indicator : bool) (length_bytes : N)
| U16FieldCodec
| U32FieldCodec
| ArrayFieldCodec (item_codec : FieldCodec)
| CompositeFieldCodec (fields : list (string * FieldCodec))
| DestAddressFieldCodec
| DestAddressesFieldCodec.

Section dispatch.
Context `{Base64}.

Fixpoint codec_encode (codec : FieldCodec) : Value → BufM unit :=
  match codec with
  | U8FieldCodec => U8FieldCodec.encode
  | OptionalU8FieldCodec d => OptionalU8FieldCodec.encode d
  | VarLengthIntFieldCodec => VarLengthIntFieldCodec.encode
  | COctetStrFieldCodec m => COctetStrFieldCodec.encode m
  | OctetFieldCodec li lb => OctetFieldCodec.encode li lb
  | U16FieldCodec => U16FieldCodec.encode
  | U32FieldCodec => U32FieldCodec.encode
  | ArrayFieldCodec c => ArrayFieldCodec.encode (codec_encode c)
  | CompositeFieldCodec fs =>
      CompositeFieldCodec.encode ((λ '(name, c), (name, codec_encode c)) <$> fs)
  | DestAddressFieldCodec => DestAddressFieldCodec.encode
  | DestAddressesFieldCodec => DestAddressesFieldCodec.encode
  end.

Fixpoint codec_decode (codec : FieldCodec) : BufM Value :=
  match codec with
  | U8FieldCodec => U8FieldCodec.decode
  | OptionalU8FieldCodec d => OptionalU8FieldCodec.decode d
  | VarLengthIntFieldCodec => VarLengthIntFieldCodec.decode
  | COctetStrFieldCodec _ => COctetStrFieldCodec.decode
  | OctetFieldCodec li lb => OctetFieldCodec.decode li lb
  | U16FieldCodec => U16FieldCodec.decode
  | U32FieldCodec => U32FieldCodec.decode
  | ArrayFieldCodec c => ArrayFieldCodec.decode (codec_decode c)
  | CompositeFieldCodec fs =>
      CompositeFieldCodec.decode ((λ '(name, c), (name, codec_decode c)) <$> fs)
  | DestAddressFieldCodec => DestAddressFieldCodec.decode
  | DestAddressesFieldCodec => DestAddressesFieldCodec.decode
  end.
End dispatch.

(** ** Optional parameters *)

Module TLVFieldCodec.
Record t : Type := mk { tag : N; name : string; value_codec : FieldCodec }.

Section tlv.
Context `{Base64}.

Definition encode (self : t) (value : Value) : BufM unit := λ buf,
  match codec_encode (value_codec self) value [] with
  | (Ok _, temp_buffer) =>
      (Ok tt, SMPPMessage.write_u16 (cast_u16 (N.of_nat (length temp_buffer)))
                (SMPPMessage.write_u16 (tag self) buf) ++ temp_buffer)
  | (Err _, _) => (io_err InvalidInput "Failed to encode TLVField", buf)
  | (Panic, _) => (Panic, buf)
  end.

Definition decode (self : t) : BufM Value := λ buf,
  match SMPPMessage.read_tlv buf with
  | (Some (tag', mvalue_bytes), buf') =>
      if (tag' =? tag self)%N then ((codec_decode (value_codec self) mvalue_bytes).1, buf')
      else (io_err InvalidInput ("Expected TLV tag " +:+ format_hex true 4 (tag self)
                                 +:+ " but found " +:+ format_hex true 4 tag'), buf')
  | (None, buf') => (io_err InvalidInput "Failed to read TLV from buffer", buf')
  end.
End tlv.
End TLVFieldCodec.
