(* ===== verification/CodecSpec.v ===== *)
(** * Field codecs: specification and round trip

    [normalize] says which value a receiver reads when a sender encodes a given one:
    integers cut to their width, text cut at the field's maximum, octets in Base64. It
    is [None] where the codec loses the value. The theorems: what [encode] appends is
    read back by [decode] as the normal form, and [decode] stops where it ends when the
    codec is self-delimiting (every mandatory field; the others end a TLV). *)
From S2P Require Export FieldCodec.

(** An induction principle that reaches the codecs inside a [CompositeFieldCodec]. *)
Section FieldCodec_induction.
Variable P : FieldCodec → Prop.
Hypothesis HU8 : P U8FieldCodec.
Hypothesis HOpt : ∀ d, P (OptionalU8FieldCodec d).
Hypothesis HVar : P VarLengthIntFieldCodec.
Hypothesis HStr : ∀ m, P (COctetStrFieldCodec m).
Hypothesis HOct : ∀ li lb, P (OctetFieldCodec li lb).
Hypothesis HU16 : P U16FieldCodec.
Hypothesis HU32 : P U32FieldCodec.
Hypothesis HArr : ∀ c, P c → P (ArrayFieldCodec c).
Hypothesis HComp : ∀ fs, Forall (λ f, P f.2) fs → P (CompositeFieldCodec fs).
Hypothesis HDest : P DestAddressFieldCodec.
Hypothesis HDests : P DestAddressesFieldCodec.

Fixpoint FieldCodec_nested_ind (c : FieldCodec) : P c :=
  match c with
  | U8FieldCodec => HU8
  | OptionalU8FieldCodec d => HOpt d
  | VarLengthIntFieldCodec => HVar
  | COctetStrFieldCodec m => HStr m
  | OctetFieldCodec li lb => HOct li lb
  | U16FieldCodec => HU16
  | U32FieldCodec => HU32
  | ArrayFieldCodec c => HArr c (FieldCodec_nested_ind c)
  | CompositeFieldCodec fs =>
      HComp fs ((fix go fs : Forall (λ f, P f.2) fs :=
                   match fs with
                   | [] => List.Forall_nil _
                   | f :: fs' => List.Forall_cons _ _ _ (FieldCodec_nested_ind f.2) (go fs')
                   end) fs)
  | DestAddressFieldCodec => HDest
  | DestAddressesFieldCodec => HDests
  end.
End FieldCodec_induction.

(** Text that a C octet string carries: no terminator inside, valid UTF-8. *)
Definition cstr_ok (s : string) : bool := bool_decide (x00 ∉ as_bytes s) && str_valid s.

Definition normalize_dest (v : Value) : option Value :=
  m ← as_object v;
  match jget "destination_addr" m, jget "dl_name" m with
  | Some (JString addr), _ =>
      if cstr_ok addr then
        Some (JObject (jextend
          [("dest_addr_ton", jnum (cast_u8 (u64_field v "dest_addr_ton")));
           ("dest_addr_npi", jnum (cast_u8 (u64_field v "dest_addr_npi")));
           ("destination_addr", JString addr)] []))
      else None
  | _, Some (JString name) =>
      if cstr_ok name then Some (JObject [("dl_name", JString name)]) else None
  | _, _ => None
  end.

(** The fields of a composite value, in the order of the codec. *)
Fixpoint normalize_fields (fs : list (string * (Value → option Value))) (v : Value) :
    option (list (string * Value)) :=
  match fs with
  | [] => Some []
  | (name, f) :: fs' =>
      x ← get v name; w ← f x; ws ← normalize_fields fs' v; Some ((name, w) :: ws)
  end.

Section spec.
Context `{Base64}.

Definition octets_fit (length_indicator : bool) (length_bytes : N) (b : bytes) : bool :=
  Nat.ltb 0 (length b) &&
  (negb length_indicator ||
   (bool_decide (length_bytes ∈ [1; 2; 4]%N)
    && (N.of_nat (length b) <? 256 ^ length_bytes)%N)).

Fixpoint normalize (c : FieldCodec) (v : Value) {struct c} : option Value :=
  match c with
  | U8FieldCodec => n ← as_u64 v; Some (jnum (n mod 2 ^ 8))
  | U16FieldCodec => n ← as_u64 v; Some (jnum (n mod 2 ^ 16))
  | U32FieldCodec => n ← as_u64 v; Some (jnum (n mod 2 ^ 32))
  | OptionalU8FieldCodec d => Some (jnum (default d (as_u64 v) mod 2 ^ 8))
  | VarLengthIntFieldCodec => n ← as_u64 v; Some (jnum (be_N (VarLengthIntFieldCodec.le_bytes 8 n)))
  | COctetStrFieldCodec m =>
      s ← as_str v;
      match COctetStrFieldCodec.truncate m s with
      | Ok s' => if cstr_ok s' then Some (JString s') else None
      | _ => None
      end
  | OctetFieldCodec li lb =>
      s ← as_str v;
      let b := OctetFieldCodec.octets s in
      if octets_fit li lb b then Some (JString (b64_encode b)) else None
  | ArrayFieldCodec c =>
      l ← as_array v;
      if Nat.leb (length l) 255 then JArray <$> mapM (normalize c) l else None
  | CompositeFieldCodec fs =>
      ws ← normalize_fields ((λ '(name, c), (name, normalize c)) <$> fs) v;
      Some (JObject (jextend ws []))
  | DestAddressFieldCodec => normalize_dest v
  | DestAddressesFieldCodec =>
      l ← as_array v;
      if Nat.leb (length l) 255 then JArray <$> mapM normalize_dest l else None
  end%N.

(** Codecs whose encoding marks its own end. *)
Fixpoint self_delimiting (c : FieldCodec) : bool :=
  match c with
  | OptionalU8FieldCodec _ | VarLengthIntFieldCodec => false
  | OctetFieldCodec li _ => li
  | ArrayFieldCodec c => self_delimiting c
  | CompositeFieldCodec fs => forallb (λ '(_, c), self_delimiting c) fs
  | _ => true
  end.

(** [bs] is what [c] writes for [v], and is read back as [w]. *)
Definition carries (c : FieldCodec) (v w : Value) (bs : bytes) : Prop :=
  appends (codec_encode c v) bs ∧ parses (codec_decode c) bs w.

(** ** Leaves *)

Lemma appends_put f bs : (∀ buf, f buf = buf ++ bs) → appends (put f) bs.
Proof. intros Hf buf. unfold put. by rewrite Hf. Qed.

Lemma be_bytes_mod w n : be_bytes w (n mod 256 ^ N.of_nat w) = be_bytes w n.
Proof.
  assert (Hg : ∀ k m, (k ≤ w)%nat → be_bytes k (m mod 256 ^ N.of_nat w) = be_bytes k m).
  { intros k m. induction k as [|k IH]; intros Hk; [done|]. cbn [be_bytes].
    rewrite IH by lia. f_equal. apply byte_to_N_inj. rewrite !to_N_byte_of_N.
    replace (N.of_nat w) with (N.of_nat k + N.of_nat (w - k))%N by lia.
    rewrite N.pow_add_r, N.Div0.mod_mul_r by (by apply N.pow_nonzero).
    rewrite (N.mul_comm (256 ^ _)), N.div_add by (by apply N.pow_nonzero).
    rewrite N.div_small, N.add_0_l
      by (apply N.mod_lt; by apply N.pow_nonzero).
    replace (w - k)%nat with (S (w - k - 1)) by lia.
    rewrite Nat2N.inj_succ, N.pow_succ_r', N.Div0.mod_mul_r.
    rewrite (N.mul_comm 256 (_ mod _)), N.Div0.mod_add. apply N.Div0.mod_mod. }
  by apply Hg.
Qed.

Lemma carries_uint (w : nat) v n c :
  as_u64 v = Some n →
  codec_encode c v = put (λ buf, buf ++ be_bytes w (n mod 256 ^ N.of_nat w)) →
  (∀ bs, w ≤ length bs → codec_decode c bs = (Ok (jnum (be_N (take w bs))), drop w bs)) →
  carries c v (jnum (n mod 256 ^ N.of_nat w)) (be_bytes w n).
Proof.
  intros Hn He Hd. split.
  - rewrite He. apply appends_put. intros buf. by rewrite be_bytes_mod.
  - intros rest. rewrite Hd by (rewrite length_app, length_be_bytes; lia).
    rewrite take_app_length', drop_app_length' by (by rewrite length_be_bytes).
    by rewrite be_N_be_bytes.
Qed.

Lemma as_u64_Some v n : as_u64 v = Some n → v = jnum n.
Proof. destruct v as [| |[]| | |]; simpl; intros [= ->]. done. Qed.

Lemma carries_cstr s rest_decode :
  cstr_ok s = true →
  appends (put (SMPPMessage.write_c_octet_str s)) (as_bytes s ++ [x00]) ∧
  parses (BufM_opt SMPPMessage.read_c_octet_str InvalidInput rest_decode)
         (as_bytes s ++ [x00]) s.
Proof.
  intros [Hn%bool_decide_eq_true Hv]%andb_true_iff. split.
  - apply appends_put. intros buf. unfold SMPPMessage.write_c_octet_str.
    by rewrite app_assoc.
  - apply parses_opt. intros rest.
    apply (SMPPMessage.read_write_c_octet_str s rest Hn Hv).
Qed.

Lemma parses_u8 k msg n :
  (n < 256)%N → parses (BufM_opt SMPPMessage.read_u8 k msg) (be_bytes 1 n) n.
Proof. intros Hn. apply parses_opt. intros rest. by apply SMPPMessage.try_get_be_bytes. Qed.

Lemma appends_u8 n : appends (put (SMPPMessage.write_u8 n)) (be_bytes 1 n).
Proof. by apply appends_put. Qed.

Lemma length_byte_small {A} (l : list A) : length l ≤ 255 → cast_u8 (N.of_nat (length l)) = N.of_nat (length l).
Proof. intros Hl. apply N.mod_small. lia. Qed.

Lemma cast_u8_bound n : (cast_u8 n < 256)%N.
Proof. by apply N.mod_lt. Qed.

#[local] Hint Resolve cast_u8_bound : core.

(** ** Destination addresses *)

Lemma carries_dest v w :
  normalize_dest v = Some w → ∃ bs,
    appends (DestAddressFieldCodec.encode v) bs ∧ parses DestAddressFieldCodec.decode bs w.
Proof.
  unfold normalize_dest. destruct v as [| | | | |m]; simpl; try done.
  assert (Hname : ∀ name, cstr_ok name = true →
    (JObject [("dl_name", JString name)]) = w → ∃ bs,
    appends (put (SMPPMessage.write_u8 2) ≫= λ _, put (SMPPMessage.write_c_octet_str name)) bs ∧
    parses DestAddressFieldCodec.decode bs w).
  { intros name Hc <-. destruct (carries_cstr name DestAddressFieldCodec.failed Hc) as [Ha Hp].
    exists (be_bytes 1 2 ++ as_bytes name ++ [x00]). split.
    - by apply appends_bind; [apply appends_u8|].
    - unfold DestAddressFieldCodec.decode. apply parses_bind with 2%N; [by apply parses_u8|].
      by apply (parses_ret_after _ (λ name, JObject (jinsert "dl_name" (JString name) []))). }
  destruct (jget "destination_addr" m) as [[| | |addr| |]|]; simpl;
    try (destruct (jget "dl_name" m) as [[| | |name| |]|]; try done;
         destruct (cstr_ok name) eqn:Hc; intros [= Hw]; by apply Hname).
  assert (Hok : cstr_ok addr = true → ∀ ton npi, (ton < 256 → npi < 256 →
    JObject (jextend [("dest_addr_ton", jnum ton); ("dest_addr_npi", jnum npi);
                         ("destination_addr", JString addr)] []) = w → ∃ bs,
    appends (put (SMPPMessage.write_u8 1) ≫= λ _, put (SMPPMessage.write_u8 ton) ≫= λ _,
             put (SMPPMessage.write_u8 npi) ≫= λ _, put (SMPPMessage.write_c_octet_str addr)) bs ∧
    parses DestAddressFieldCodec.decode bs w)%N).
  { intros Hc ton npi Hton Hnpi <-.
    destruct (carries_cstr addr DestAddressFieldCodec.failed Hc) as [Ha Hp].
    exists (be_bytes 1 1 ++ be_bytes 1 ton ++ be_bytes 1 npi ++ as_bytes addr ++ [x00]). split.
    - by repeat (apply appends_bind; [apply appends_u8|]).
    - unfold DestAddressFieldCodec.decode. apply parses_bind with 1%N; [by apply parses_u8|].
      apply parses_bind with ton; [by apply parses_u8|].
      apply parses_bind with npi; [by apply parses_u8|].
      by apply (parses_ret_after _ (λ addr, JObject (jinsert "destination_addr" (JString addr) _))). }
  destruct (cstr_ok addr) eqn:Hc; [|by destruct (jget "dl_name" m) as [[| | | | |]|]].
  intros Hw. apply Hok; auto.
  destruct (jget "dl_name" m) as [[| | | | |]|]; by injection Hw.
Qed.

(** ** Sequences *)

Lemma Forall2_exists {A B C} (P : A → B → C → Prop) (l : list A) (k : list B) :
  Forall2 (λ a b, ∃ c, P a b c) l k →
  ∃ cs, Forall2 (λ a c, ∃ b, P a b c) l cs ∧ Forall2 (λ c b, ∃ a, P a b c) cs k.
Proof.
  induction 1 as [|a b l k [c Hc] _ (cs & H1 & H2)]; [by exists []|].
  exists (c :: cs). split; constructor; eauto.
Qed.

(** A counted list: one length byte, then the items. *)
Lemma carries_list (enc : Value → BufM unit) (dec : BufM Value) l ws msg :
  length l ≤ 255 →
  Forall2 (λ v w, ∃ bs, appends (enc v) bs ∧ parses dec bs w) l ws → ∃ bs,
    appends (put (SMPPMessage.write_u8 (cast_u8 (N.of_nat (length l))))
               ≫= λ _, BufM_iter enc l) bs ∧
    parses (BufM_opt SMPPMessage.read_u8 InvalidInput msg
              ≫= λ n, BufM_repeat (N.to_nat n) dec ≫= λ items, mret (JArray items)) bs (JArray ws).
Proof.
  intros Hl Hall. pose proof (Forall2_length _ _ _ Hall) as Hlen.
  apply Forall2_exists in Hall as (bss & Henc & Hdec).
  rewrite (length_byte_small l Hl). exists (be_bytes 1 (N.of_nat (length l)) ++ concat bss). split.
  - apply appends_bind; [apply appends_u8|]. apply appends_iter.
    eapply Forall2_impl; [exact Henc|]. by intros v bs (w & ? & _).
  - apply parses_bind with (N.of_nat (length l)); [apply parses_u8; lia|].
    rewrite Nat2N.id, Hlen. apply (parses_ret_after _ JArray), parses_repeat.
    eapply Forall2_impl; [exact Hdec|]. by intros bs w (v & _ & ?).
Qed.

Lemma carries_fields fs v ws m :
  Forall (λ f, ∀ x w, normalize f.2 x = Some w → ∃ bs, carries f.2 x w bs) fs →
  normalize_fields ((λ '(name, c), (name, normalize c)) <$> fs) v = Some ws → ∃ bs,
    appends (CompositeFieldCodec.encode ((λ '(name, c), (name, codec_encode c)) <$> fs) v) bs ∧
    parses (CompositeFieldCodec.decode_into ((λ '(name, c), (name, codec_decode c)) <$> fs) m) bs
           (JObject (jextend ws m)).
Proof.
  intros Hfs. revert ws m. induction Hfs as [|[name c] fs Hc Hfs IH]; intros ws m Hws; simpl in Hws.
  - injection Hws as <-. exists []. split; [intros buf; by rewrite app_nil_r|apply parses_ret].
  - destruct (get v name) as [x|] eqn:Ex; [|done]. simpl in *.
    destruct (normalize c x) as [w|] eqn:Ew; [|done]. simpl in *.
    destruct (normalize_fields _ v) as [ws'|] eqn:Ews; [|done]. injection Hws as <-.
    destruct (Hc x w Ew) as (bs & Ha & Hp).
    destruct (IH ws' (jinsert name w m) eq_refl) as (bs' & Ha' & Hp').
    exists (bs ++ bs'). split.
    + unfold CompositeFieldCodec.encode. simpl. apply appends_bind; [by rewrite Ex|done].
    + simpl. apply parses_bind with w; [by apply parses_map_err|done].
Qed.

(** ** Octets *)

Lemma octets_fit_spec li lb b :
  octets_fit li lb b = true →
  b ≠ [] ∧ (li = true → lb ∈ [1; 2; 4]%N ∧ N.of_nat (length b) < 256 ^ lb)%N.
Proof.
  unfold octets_fit. rewrite andb_true_iff, Nat.ltb_lt. intros [Hb Hl]. split.
  - intros ->. simpl in Hb. lia.
  - intros ->. simpl in Hl. apply andb_true_iff in Hl as [Hl%bool_decide_eq_true Hlt].
    split; [done|]. by apply N.ltb_lt.
Qed.

Lemma write_read_length lb (n : nat) :
  lb ∈ [1; 2; 4]%N → (N.of_nat n < 256 ^ lb)%N → ∃ bs,
    appends (put (λ buf, OctetFieldCodec.write_length lb n buf)) bs ∧
    ∀ rest, OctetFieldCodec.read_length lb (bs ++ rest) = (Some n, rest).
Proof.
  intros Hlb Hn. exists (be_bytes (N.to_nat lb) (N.of_nat n)).
  rewrite !elem_of_cons, elem_of_nil in Hlb.
  destruct Hlb as [->|[->|[->|[]]]]; (split;
    [apply appends_put; intros buf; simpl; unfold cast_u8, cast_u16, cast_u32;
     rewrite N.mod_small by exact Hn; done
    |intros rest; unfold OctetFieldCodec.read_length, SMPPMessage.read_u8,
       SMPPMessage.read_u16, SMPPMessage.read_u32;
     rewrite SMPPMessage.try_get_be_bytes by exact Hn; cbn; by rewrite Nat2N.id]).
Qed.

Lemma carries_octets lb v w :
  normalize (OctetFieldCodec true lb) v = Some w →
  ∃ bs, carries (OctetFieldCodec true lb) v w bs.
Proof.
  cbn [normalize]. destruct v as [| | |s| |]; try done. cbn -[octets_fit].
  destruct (octets_fit true lb (OctetFieldCodec.octets s)) eqn:Hfit; [|done]. intros [= <-].
  apply octets_fit_spec in Hfit as [Hne Hfit]. destruct (Hfit eq_refl) as [Hlb Hlt].
  destruct (write_read_length lb _ Hlb Hlt) as (bs & Ha & Hr).
  exists (bs ++ OctetFieldCodec.octets s). split.
  - cbn [codec_encode]. unfold OctetFieldCodec.encode. apply appends_bind; [apply Ha|].
    by apply appends_put.
  - intros rest. cbn [codec_decode]. unfold OctetFieldCodec.decode.
    rewrite <-app_assoc, Hr, SMPPMessage.read_write by done. done.
Qed.

(** ** Self-delimiting codecs *)

Lemma codec_carries c v w :
  self_delimiting c = true → normalize c v = Some w → ∃ bs, carries c v w bs.
Proof.
  revert v w. induction c as [| | |m|li lb| | |c IH|fs IH| |] using FieldCodec_nested_ind;
    intros v w Hd Hn; try done.
  - cbn in Hn. destruct (as_u64 v) as [n|] eqn:Ev; [|done]. injection Hn as <-.
    apply as_u64_Some in Ev as ->. exists (be_bytes 1 n).
    apply (carries_uint 1); [done|done|]. intros [|b bs] Hl; [simpl in Hl; lia|].
    cbn. by rewrite drop_0, take_0.
  - cbn in Hn. destruct v as [| | |s| |]; try done. cbn in Hn.
    destruct (COctetStrFieldCodec.truncate m s) as [s'| |] eqn:Et; try done.
    destruct (cstr_ok s') eqn:Hc; [|done]. injection Hn as <-.
    edestruct (carries_cstr s') as [Ha Hp]; [done|].
    exists (as_bytes s' ++ [x00]). split.
    + intros buf. cbn. unfold mbind, BufM_bind, BufM_lift. rewrite Et. apply Ha.
    + cbn. by apply (parses_ret_after _ JString).
  - simpl in Hd. subst li. by apply carries_octets.
  - cbn in Hn. destruct (as_u64 v) as [n|] eqn:Ev; [|done]. injection Hn as <-.
    apply as_u64_Some in Ev as ->. exists (be_bytes 2 n).
    apply (carries_uint 2); [done|done|]. intros bs Hl. cbn [codec_decode].
    unfold U16FieldCodec.decode, SMPPMessage.read_u16, SMPPMessage.try_get, mbind, BufM_bind, BufM_opt.
    by rewrite (proj2 (Nat.leb_le _ _)).
  - cbn in Hn. destruct (as_u64 v) as [n|] eqn:Ev; [|done]. injection Hn as <-.
    apply as_u64_Some in Ev as ->. exists (be_bytes 4 n).
    apply (carries_uint 4); [done|done|]. intros bs Hl. cbn [codec_decode].
    unfold U32FieldCodec.decode, SMPPMessage.read_u32, SMPPMessage.try_get, mbind, BufM_bind, BufM_opt.
    by rewrite (proj2 (Nat.leb_le _ _)).
  - cbn in Hn, Hd. destruct v as [| | | |l|]; try done. cbn [as_array mbind option_bind] in Hn.
    destruct (Nat.leb_spec (length l) 255) as [Hl|]; [|done].
    destruct (mapM (normalize c) l) as [ws|] eqn:Ews; [|done]. injection Hn as <-.
    apply mapM_Some in Ews.
    edestruct (carries_list (codec_encode c) (codec_decode c) l ws) as (bs & Ha & Hp); [done| |].
    { eapply Forall2_impl; [exact Ews|]. intros x y Hxy. by apply IH. }
    exists bs. split; [|apply Hp]. cbn [codec_encode]. unfold ArrayFieldCodec.encode. by rewrite (proj2 (Nat.ltb_ge _ _)).
  - cbn [normalize] in Hn. destruct (normalize_fields _ v) as [ws|] eqn:Ews; [|done].
    injection Hn as <-.
    destruct (carries_fields fs v ws []) as (bs & Ha & Hp); [|done|by exists bs].
    cbn in Hd. rewrite forallb_forall in Hd. apply Forall_forall. intros f Hf x y Hxy.
    rewrite Forall_forall in IH. apply IH; [done| |done].
    apply list_elem_of_In in Hf. apply Hd in Hf. by destruct f.
  - by apply carries_dest.
  - cbn in Hn. destruct v as [| | | |l|]; try done. cbn [as_array mbind option_bind] in Hn.
    destruct (Nat.leb_spec (length l) 255) as [Hl|]; [|done].
    destruct (mapM normalize_dest l) as [ws|] eqn:Ews; [|done]. injection Hn as <-.
    apply mapM_Some in Ews.
    edestruct (carries_list DestAddressFieldCodec.encode
      (BufM_map_err InvalidInput "Failed to decode one of the dest_addresses"
        DestAddressFieldCodec.decode) l ws) as (bs & Ha & Hp); [done| |by exists bs].
    eapply Forall2_impl; [exact Ews|]. intros x y (bs & ? & ?)%carries_dest.
    exists bs. split; [done|by apply parses_map_err].
Qed.

(** C3: for every codec of a mandatory field, what [encode] appends for a value is read
    back by [decode] as that value's normal form, from any buffer and whatever follows. *)
Theorem codec_roundtrip c v w :
  self_delimiting c = true → normalize c v = Some w → ∃ bs, ∀ buf rest,
    codec_encode c v buf = (Ok tt, buf ++ bs) ∧ codec_decode c (bs ++ rest) = (Ok w, rest).
Proof.
  intros Hd Hn. destruct (codec_carries c v w Hd Hn) as (bs & Ha & Hp). exists bs. intros buf rest.
  split; [apply Ha|apply Hp].
Qed.

End spec.
