(* ===== verification/Tables.v ===== *)
(** * Field tables (src/field_codec.rs and src/message.rs, the static tables)

    The codec of every mandatory field, the optional parameters with their tags, and the
    mandatory fields of every command with their default values. The source fills hash
    maps once ([LazyLock]); the entries are listed here in the order of the insertions. *)
From S2P Require Export FieldCodec Enums.

Definition tlv_fields_delivery : list TLVFieldCodec.t :=
  [TLVFieldCodec.mk 0x001D "additional_status_info_text" (COctetStrFieldCodec 256);
   TLVFieldCodec.mk 0x130C "alert_on_message_delivery" (OptionalU8FieldCodec 0);
   TLVFieldCodec.mk 0x060B "billing_identification" (OctetFieldCodec false 1);
   TLVFieldCodec.mk 0x0606 "broadcast_area_identifier" (OctetFieldCodec false 1);
   TLVFieldCodec.mk 0x0608 "broadcast_area_success" U8FieldCodec;
   TLVFieldCodec.mk 0x0602 "broadcast_content_type_info" (OctetFieldCodec false 1);
   TLVFieldCodec.mk 0x0600 "broadcast_channel_indicator" U8FieldCodec;
   TLVFieldCodec.mk 0x0601 "broadcast_content_type" (OctetFieldCodec false 1);
   TLVFieldCodec.mk 0x0609 "broadcast_end_time" (COctetStrFieldCodec 16);
   TLVFieldCodec.mk 0x0607 "broadcast_error_status" U32FieldCodec;
   TLVFieldCodec.mk 0x0605 "broadcast_frequency_interval" (OctetFieldCodec false 1);
   TLVFieldCodec.mk 0x0603 "broadcast_message_class" U8FieldCodec;
   TLVFieldCodec.mk 0x0604 "broadcast_rep_num" U16FieldCodec;
   TLVFieldCodec.mk 0x060A "broadcast_service_group" (OctetFieldCodec false 1)].

Definition tlv_fields_callback : list TLVFieldCodec.t :=
  [TLVFieldCodec.mk 0x0381 "callback_num" (OctetFieldCodec false 1);
   TLVFieldCodec.mk 0x0303 "callback_num_atag" (OctetFieldCodec false 1);
   TLVFieldCodec.mk 0x0302 "callback_num_pres_ind" U8FieldCodec;
   TLVFieldCodec.mk 0x0428 "congestion_state" U8FieldCodec;
   TLVFieldCodec.mk 0x0425 "delivery_failure_reason" U8FieldCodec;
   TLVFieldCodec.mk 0x0613 "dest_addr_np_country" VarLengthIntFieldCodec;
   TLVFieldCodec.mk 0x0612 "dest_addr_np_information" (OctetFieldCodec false 1);
   TLVFieldCodec.mk 0x0611 "dest_addr_np_resolution" U8FieldCodec].

Definition tlv_fields_destination : list TLVFieldCodec.t :=
  [TLVFieldCodec.mk 0x0005 "dest_addr_subunit" U8FieldCodec;
   TLVFieldCodec.mk 0x0007 "dest_bearer_type" U8FieldCodec;
   TLVFieldCodec.mk 0x060E "dest_network_id" (COctetStrFieldCodec 65);
   TLVFieldCodec.mk 0x0006 "dest_network_type" U8FieldCodec;
   TLVFieldCodec.mk 0x0610 "dest_node_id" (OctetFieldCodec false 1);
   TLVFieldCodec.mk 0x0203 "dest_subaddress" (OctetFieldCodec false 1);
   TLVFieldCodec.mk 0x0008 "dest_telematics_id" U16FieldCodec;
   TLVFieldCodec.mk 0x020B "dest_port" U16FieldCodec;
   TLVFieldCodec.mk 0x1201 "display_time" U8FieldCodec;
   TLVFieldCodec.mk 0x0420 "dpf_result" U8FieldCodec;
   TLVFieldCodec.mk 0x1380 "its_reply_type" U8FieldCodec;
   TLVFieldCodec.mk 0x1383 "its_session_info" (OctetFieldCodec false 1);
   TLVFieldCodec.mk 0x020D "language_indicator" U8FieldCodec].

Definition tlv_fields_content : list TLVFieldCodec.t :=
  [TLVFieldCodec.mk 0x0424 "message_payload" (OctetFieldCodec false 1);
   TLVFieldCodec.mk 0x0427 "message_state" U8FieldCodec;
   TLVFieldCodec.mk 0x0426 "more_messages_to_send" U8FieldCodec;
   TLVFieldCodec.mk 0x0422 "ms_availability_status" U8FieldCodec;
   TLVFieldCodec.mk 0x0030 "ms_msg_wait_facilities" U8FieldCodec;
   TLVFieldCodec.mk 0x1204 "ms_validity" (OctetFieldCodec false 1);
   TLVFieldCodec.mk 0x0423 "network_error_code" (OctetFieldCodec false 1);
   TLVFieldCodec.mk 0x0304 "number_of_messages" U8FieldCodec;
   TLVFieldCodec.mk 0x0019 "payload_type" U8FieldCodec].

Definition tlv_fields_privacy : list TLVFieldCodec.t :=
  [TLVFieldCodec.mk 0x0201 "privacy_indicator" U8FieldCodec;
   TLVFieldCodec.mk 0x0017 "qos_time_to_live" U32FieldCodec;
   TLVFieldCodec.mk 0x001E "receipted_message_id" (COctetStrFieldCodec 65);
   TLVFieldCodec.mk 0x020C "sar_msg_ref_num" U16FieldCodec;
   TLVFieldCodec.mk 0x020F "sar_segment_seqnum" U8FieldCodec;
   TLVFieldCodec.mk 0x020E "sar_total_segments" U8FieldCodec;
   TLVFieldCodec.mk 0x0210 "sc_interface_version" U8FieldCodec;
   TLVFieldCodec.mk 0x0421 "set_dpf" U8FieldCodec;
   TLVFieldCodec.mk 0x1203 "sms_signal" U16FieldCodec].

Definition tlv_fields_source : list TLVFieldCodec.t :=
  [TLVFieldCodec.mk 0x000D "source_addr_subunit" U8FieldCodec;
   TLVFieldCodec.mk 0x000F "source_bearer_type" U8FieldCodec;
   TLVFieldCodec.mk 0x060D "source_network_id" (COctetStrFieldCodec 65);
   TLVFieldCodec.mk 0x000E "source_network_type" U8FieldCodec;
   TLVFieldCodec.mk 0x060F "source_node_id" (OctetFieldCodec false 1);
   TLVFieldCodec.mk 0x020A "source_port" U16FieldCodec;
   TLVFieldCodec.mk 0x0202 "source_subaddress" (OctetFieldCodec false 1);
   TLVFieldCodec.mk 0x0010 "source_telematics_id" U8FieldCodec].

Definition tlv_fields_user : list TLVFieldCodec.t :=
  [TLVFieldCodec.mk 0x0204 "user_message_reference" U16FieldCodec;
   TLVFieldCodec.mk 0x0205 "user_response_code" U8FieldCodec;
   TLVFieldCodec.mk 0x0501 "ussd_service_op" U8FieldCodec].

Definition create_tlv_fields : list TLVFieldCodec.t :=
  tlv_fields_delivery ++ tlv_fields_callback ++ tlv_fields_destination ++ tlv_fields_content ++ tlv_fields_privacy ++ tlv_fields_source ++ tlv_fields_user.

(** The two indexes of the table: later entries replace earlier ones. *)
Definition create_named_tlv_fields : gmap string TLVFieldCodec.t :=
  foldl (λ m codec, <[TLVFieldCodec.name codec := codec]> m) ∅ create_tlv_fields.

Definition create_tagged_tlv_fields : gmap N TLVFieldCodec.t :=
  foldl (λ m codec, <[TLVFieldCodec.tag codec := codec]> m) ∅ create_tlv_fields.

Definition NAMED_TLV_FIELDS := create_named_tlv_fields.
Definition TAGGED_TLV_FIELDS := create_tagged_tlv_fields.

Definition field_codecs : list (string * FieldCodec) :=
  [("system_id", COctetStrFieldCodec 16);
   ("password", COctetStrFieldCodec 9);
   ("system_type", COctetStrFieldCodec 13);
   ("interface_version", U8FieldCodec);
   ("addr_ton", U8FieldCodec);
   ("addr_npi", U8FieldCodec);
   ("address_range", COctetStrFieldCodec 41);
   ("service_type", COctetStrFieldCodec 6);
   ("source_addr_ton", U8FieldCodec);
   ("source_addr_npi", U8FieldCodec);
   ("source_addr", COctetStrFieldCodec 21);
   ("dest_addr_ton", U8FieldCodec);
   ("dest_addr_npi", U8FieldCodec);
   ("destination_addr", COctetStrFieldCodec 21);
   ("esm_class", U8FieldCodec);
   ("protocol_id", U8FieldCodec);
   ("priority_flag", U8FieldCodec);
   ("schedule_delivery_time", COctetStrFieldCodec 17);
   ("validity_period", COctetStrFieldCodec 17);
   ("registered_delivery", U8FieldCodec);
   ("replace_if_present_flag", U8FieldCodec);
   ("data_coding", U8FieldCodec);
   ("sm_default_msg_id", U8FieldCodec);
   ("sm_length", U8FieldCodec);
   ("short_message", OctetFieldCodec true 1);
   ("message_id", COctetStrFieldCodec 65);
   ("final_date", COctetStrFieldCodec 17);
   ("message_state", U8FieldCodec);
   ("error_code", U8FieldCodec);
   ("number_of_dests", U8FieldCodec);
   ("dest_flag", U8FieldCodec);
   ("dest_addresses", DestAddressesFieldCodec);
   ("dl_name", COctetStrFieldCodec 21);
   ("unsuccess_smes", ArrayFieldCodec (CompositeFieldCodec
       [("dest_addr_ton", U8FieldCodec); ("dest_addr_npi", U8FieldCodec); ("destination_addr", COctetStrFieldCodec 21); ("error_status_code", U32FieldCodec)]));
   ("ms_availability_status", U8FieldCodec);
   ("esme_addr_ton", U8FieldCodec);
   ("esme_addr_npi", U8FieldCodec);
   ("esme_addr", COctetStrFieldCodec 65)].

Definition create_field_codecs : gmap string FieldCodec :=
  foldl (λ m '(name, codec), <[name := codec]> m) ∅ field_codecs.

Definition FIELD_CODECS := create_field_codecs.

Definition bind_command_fields : list (CommandId.t * list (string * option Value)) :=
  [(CommandId.BindTransmitter,
    [("system_id", None);
     ("password", None);
     ("system_type", None);
     ("interface_version", Some (jnum 52));
     ("addr_ton", Some (jnum 0));
     ("addr_npi", Some (jnum 0));
     ("address_range", None)]);
   (CommandId.BindTransmitterResp,
    [("system_id", None)]);
   (CommandId.BindReceiver,
    [("system_id", None);
     ("password", None);
     ("system_type", None);
     ("interface_version", Some (jnum 52));
     ("addr_ton", Some (jnum 0));
     ("addr_npi", Some (jnum 0));
     ("address_range", None)]);
   (CommandId.BindReceiverResp,
    [("system_id", None)]);
   (CommandId.BindTransceiver,
    [("system_id", None);
     ("password", None);
     ("system_type", None);
     ("interface_version", Some (jnum 52));
     ("addr_ton", Some (jnum 0));
     ("addr_npi", Some (jnum 0));
     ("address_range", None)]);
   (CommandId.BindTransceiverResp,
    [("system_id", None)]);
   (CommandId.Outbind,
    [("system_id", None);
     ("password", None)]);
   (CommandId.Unbind,
    []);
   (CommandId.UnbindResp,
    []);
   (CommandId.EnquireLink,
    []);
   (CommandId.EnquireLinkResp,
    []);
   (CommandId.AlertNotification,
    [("source_addr_ton", Some (jnum 0));
     ("source_addr_npi", Some (jnum 0));
     ("source_addr", None);
     ("esme_addr_ton", Some (jnum 0));
     ("esme_addr_npi", Some (jnum 0));
     ("esme_addr", None)]);
   (CommandId.GenericNack,
    [])].

Definition submit_command_fields : list (CommandId.t * list (string * option Value)) :=
  [(CommandId.SubmitSm,
    [("service_type", Some (JString ""));
     ("source_addr_ton", Some (jnum 0));
     ("source_addr_npi", Some (jnum 0));
     ("source_addr", Some (JString ""));
     ("dest_addr_ton", Some (jnum 0));
     ("dest_addr_npi", Some (jnum 0));
     ("destination_addr", None);
     ("esm_class", Some (jnum 0));
     ("protocol_id", Some (jnum 0));
     ("priority_flag", Some (jnum 0));
     ("schedule_delivery_time", Some (JString ""));
     ("validity_period", Some (JString ""));
     ("registered_delivery", Some (jnum 0));
     ("replace_if_present_flag", Some (jnum 0));
     ("data_coding", Some (jnum 0));
     ("sm_default_msg_id", Some (jnum 0));
     ("short_message", None)]);
   (CommandId.SubmitSmResp,
    [("message_id", None)]);
   (CommandId.DataSm,
    [("service_type", Some (JString ""));
     ("source_addr_ton", Some (jnum 0));
     ("source_addr_npi", Some (jnum 0));
     ("source_addr", Some (JString ""));
     ("dest_addr_ton", Some (jnum 0));
     ("dest_addr_npi", Some (jnum 0));
     ("destination_addr", None);
     ("esm_class", Some (jnum 0));
     ("registered_delivery", Some (jnum 0));
     ("data_coding", Some (jnum 0))]);
   (CommandId.DataSmResp,
    [("message_id", None)])].

Definition submit_multi_command_fields : list (CommandId.t * list (string * option Value)) :=
  [(CommandId.SubmitMulti,
    [("service_type", Some (JString ""));
     ("source_addr_ton", Some (jnum 0));
     ("source_addr_npi", Some (jnum 0));
     ("source_addr", Some (JString ""));
     ("dest_addresses", None);
     ("esm_class", Some (jnum 0));
     ("protocol_id", Some (jnum 0));
     ("priority_flag", Some (jnum 0));
     ("schedule_delivery_time", Some (JString ""));
     ("validity_period", Some (JString ""));
     ("registered_delivery", Some (jnum 0));
     ("replace_if_present_flag", Some (jnum 0));
     ("data_coding", Some (jnum 0));
     ("sm_default_msg_id", Some (jnum 0));
     ("short_message", None)]);
   (CommandId.SubmitMultiResp,
    [("message_id", None);
     ("unsuccess_smes", None)])].

Definition deliver_command_fields : list (CommandId.t * list (string * option Value)) :=
  [(CommandId.DeliverSm,
    [("service_type", Some (JString ""));
     ("source_addr_ton", Some (jnum 0));
     ("source_addr_npi", Some (jnum 0));
     ("source_addr", Some (JString ""));
     ("dest_addr_ton", Some (jnum 0));
     ("dest_addr_npi", Some (jnum 0));
     ("destination_addr", None);
     ("esm_class", Some (jnum 0));
     ("protocol_id", Some (jnum 0));
     ("priority_flag", Some (jnum 0));
     ("schedule_delivery_time", Some (JString ""));
     ("validity_period", Some (JString ""));
     ("registered_delivery", Some (jnum 0));
     ("replace_if_present_flag", Some (jnum 0));
     ("data_coding", Some (jnum 0));
     ("sm_default_msg_id", Some (jnum 0));
     ("short_message", None)]);
   (CommandId.DeliverSmResp,
    [("message_id", None)])].

Definition broadcast_command_fields : list (CommandId.t * list (string * option Value)) :=
  [(CommandId.BroadcastSm,
    [("service_type", Some (JString ""));
     ("source_addr_ton", Some (jnum 0));
     ("source_addr_npi", Some (jnum 0));
     ("source_addr", Some (JString ""));
     ("message_id", Some (JString ""));
     ("priority_flag", Some (jnum 0));
     ("schedule_delivery_time", Some (JString ""));
     ("validity_period", Some (JString ""));
     ("replace_if_present_flag", Some (jnum 0));
     ("data_coding", Some (jnum 0));
     ("sm_default_msg_id", Some (jnum 0))]);
   (CommandId.BroadcastSmResp,
    [("message_id", None)])].

Definition cancel_command_fields : list (CommandId.t * list (string * option Value)) :=
  [(CommandId.CancelSm,
    [("service_type", Some (JString ""));
     ("message_id", Some (JString ""));
     ("source_addr_ton", Some (jnum 0));
     ("source_addr_npi", Some (jnum 0));
     ("source_addr", Some (JString ""));
     ("dest_addr_ton", Some (jnum 0));
     ("dest_addr_npi", Some (jnum 0));
     ("destination_addr", Some (JString ""))]);
   (CommandId.CancelSmResp,
    [])].

Definition query_command_fields : list (CommandId.t * list (string * option Value)) :=
  [(CommandId.QuerySm,
    [("message_id", None);
     ("source_addr_ton", Some (jnum 0));
     ("source_addr_npi", Some (jnum 0));
     ("source_addr", Some (JString ""))]);
   (CommandId.QuerySmResp,
    [("message_id", None);
     ("final_date", None);
     ("message_state", None);
     ("error_code", None)])].

Definition replace_command_fields : list (CommandId.t * list (string * option Value)) :=
  [(CommandId.ReplaceSm,
    [("message_id", None);
     ("source_addr_ton", Some (jnum 0));
     ("source_addr_npi", Some (jnum 0));
     ("source_addr", Some (JString ""));
     ("schedule_delivery_time", Some (JString ""));
     ("validity_period", Some (JString ""));
     ("registered_delivery", Some (jnum 0));
     ("sm_default_msg_id", Some (jnum 0));
     ("short_message", None)]);
   (CommandId.ReplaceSmResp,
    [])].

Definition query_broadcast_command_fields : list (CommandId.t * list (string * option Value)) :=
  [(CommandId.QueryBroadcastSm,
    [("message_id", Some (JString ""));
     ("source_addr_ton", Some (jnum 0));
     ("source_addr_npi", Some (jnum 0));
     ("source_addr", Some (JString ""))]);
   (CommandId.QueryBroadcastSmResp,
    [("message_id", None);
     ("message_state", None)]);
   (CommandId.CancelBroadcastSm,
    [("service_type", Some (JString ""));
     ("message_id", Some (JString ""));
     ("source_addr_ton", Some (jnum 0));
     ("source_addr_npi", Some (jnum 0));
     ("source_addr", Some (JString ""))]);
   (CommandId.CancelBroadcastSmResp,
    [])].

Definition command_fields : list (CommandId.t * list (string * option Value)) :=
  bind_command_fields ++ submit_command_fields ++ submit_multi_command_fields ++ deliver_command_fields
  ++ broadcast_command_fields ++ cancel_command_fields ++ query_command_fields ++ replace_command_fields ++ query_broadcast_command_fields.

Definition create_command_fields : gmap N (list (string * option Value)) :=
  foldl (λ m '(command, fields), <[CommandId.as_u32 command := fields]> m) ∅ command_fields.

Definition MESSAGE_COMMAND_FIELDS := create_command_fields.

(** The iteration order of [NAMED_TLV_FIELDS]: that of a hash map, arbitrary. *)
Class TlvOrder := {
  tlv_iter : list (string * TLVFieldCodec.t);
  tlv_iter_perm : tlv_iter ≡ₚ map_to_list NAMED_TLV_FIELDS;
}.

(** The tables are evaluated by [vm_compute] and never unfolded by tactics. *)
#[global] Opaque FIELD_CODECS NAMED_TLV_FIELDS TAGGED_TLV_FIELDS MESSAGE_COMMAND_FIELDS.

Definition is_valid_tlv_field (name : string) : bool :=
  bool_decide (is_Some (NAMED_TLV_FIELDS !! name)).
