(* ===== verification/Message.v ===== *)
(** * Messages (src/message.rs, the JSON half)

    Building, encoding and decoding the JSON form of a PDU, and the helpers that read
    it. Base64 and the iteration order of the table of optional parameters are
    parameters ([Base64], [TlvOrder]). *)
From S2P Require Export Tables Config.

Module DistrubutionList.
Record t : Type := mk { dl : gmap string (list Address) }.

Definition new (dl : gmap string (list Address)) : t := mk dl.

(** [collect::<HashMap<_, _>>]: a later entry replaces an earlier one of its name. *)
Definition create_from (configs : list DistributionListConfig) : t :=
  mk (foldl (λ m c, <[dl_config_name c := dl_config_addresses c]> m) ∅ configs).

Definition get (d : t) (name : string) : option (list Address) := dl d !! name.
End DistrubutionList.

(** [format!("0x{:08X}", n)] *)
Definition hex_id (n : N) : string := "0x" +:+ format_hex true 8 n.

Definition create_json_request (command_id sequence_number : N)
    (additional_fields : list (string * Value)) : Value :=
  let request := jinsert "command_id" (JString (hex_id command_id)) [] in
  let request := jinsert "sequence_number" (jnum sequence_number) request in
  JObject (jextend additional_fields request).

Definition create_json_response (command_id sequence_number command_status : N)
    (additional_fields : list (string * Value)) : Value :=
  let response :=
    jinsert "command_id" (JString (hex_id (N.lor 0x80000000 command_id))) [] in
  let response := jinsert "command_status" (jnum command_status) response in
  let response := jinsert "sequence_number" (jnum sequence_number) response in
  JObject (jextend additional_fields response).

Definition extract_command_id (message : Value) : option CommandId.t :=
  match get message "command_id" with
  | Some (JNumber command_id) =>
      n ← num_as_u64 command_id; CommandId.from_u32 (cast_u32 n)
  | Some (JString command_name) => CommandId.from_str command_name
  | _ =>
      match get message "command_name" with
      | Some (JString command_name) => CommandId.from_str command_name
      | _ => None
      end
  end.

Section message.
Context `{Base64, TlvOrder}.

(** One of the two header integers: absent means zero, present but not an unsigned
    integer writes nothing. *)
Definition write_header_number (message : Value) (key : string) : BufM unit :=
  match as_u64 (default (jnum 0) (get message key)) with
  | Some n => put (SMPPMessage.write_u32 (cast_u32 n))
  | None => mret tt
  end.

(** A failed field is reported under its own name, whatever the codec said. *)
Definition encode_field (message : Value) (field : string * option Value) : BufM unit :=
  let '(field_name, default_value) := field in
  match FIELD_CODECS !! field_name with
  | Some codec =>
      match match get message field_name with Some v => Some v | None => default_value end with
      | Some value =>
          BufM_map_err InvalidInput ("Failed to encode field: " +:+ field_name)
            (codec_encode codec value)
      | None => BufM_fail InvalidInput ("Missing field: " +:+ field_name)
      end
  | None => BufM_fail InvalidInput ("Unknown field: " +:+ field_name)
  end.

Definition encode_tlv (message : Value) (entry : string * TLVFieldCodec.t) : BufM unit :=
  let '(field_name, codec) := entry in
  match get message field_name with
  | Some value =>
      BufM_map_err InvalidInput ("Failed to encode TLV field: " +:+ field_name)
        (TLVFieldCodec.encode codec value)
  | None => mret tt
  end.

Definition encode_body (command_id : N) (message : Value) : BufM unit :=
  put (SMPPMessage.write_u32 0) ≫= λ _,
  put (SMPPMessage.write_u32 command_id) ≫= λ _,
  write_header_number message "command_status" ≫= λ _,
  write_header_number message "sequence_number" ≫= λ _,
  match MESSAGE_COMMAND_FIELDS !! command_id with
  | None => BufM_fail InvalidInput ("Unknown command_id: " +:+ hex_id command_id)
  | Some fields =>
      BufM_iter (encode_field message) fields ≫= λ _,
      BufM_iter (encode_tlv message) tlv_iter
  end.

Definition encode_message_with_fields (command_id : N) (message : Value) :
    ioresult SMPPMessage.t :=
  match encode_body command_id message [] with
  | (Ok _, buffer) => SMPPMessage.update_length (SMPPMessage.from_bytes_mut buffer)
  | (Err e, _) => Err e
  | (Panic, _) => Panic
  end.

Definition from_json (message : Value) : ioresult SMPPMessage.t :=
  match extract_command_id message with
  | Some cmd_id => encode_message_with_fields (CommandId.as_u32 cmd_id) message
  | None => io_err InvalidInput "Missing command_id/command_name in message"
  end.

Definition decode_field (field : string * option Value) (map : jmap) : BufM jmap :=
  let '(field_name, _) := field in
  match FIELD_CODECS !! field_name with
  | Some codec =>
      BufM_map_err InvalidInput ("Failed to decode field: " +:+ field_name) (codec_decode codec)
        ≫= λ value, mret (jinsert field_name value map)
  | None => BufM_fail InvalidInput ("Unknown field: " +:+ field_name)
  end.

Fixpoint decode_fields (fields : list (string * option Value)) (map : jmap) : BufM jmap :=
  match fields with
  | [] => mret map
  | f :: fields' => decode_field f map ≫= decode_fields fields'
  end.

(** The loop over the optional parameters. A parameter that cannot be decoded becomes
    [Null]. Each turn takes at least the two bytes of the tag, so the length of the
    buffer is fuel enough ([decode_tlvs_fuel]). *)
Fixpoint decode_tlvs (fuel : nat) (map : jmap) : BufM jmap := λ buf,
  match fuel with
  | O => (Ok map, buf)
  | S fuel' =>
      match SMPPMessage.peek_tlv_tag buf with
      | Some tag =>
          match TAGGED_TLV_FIELDS !! tag with
          | Some tlv_codec =>
              match TLVFieldCodec.decode tlv_codec buf with
              | (Ok value, buf') =>
                  decode_tlvs fuel' (jinsert (TLVFieldCodec.name tlv_codec) value map) buf'
              | (Err _, buf') =>
                  decode_tlvs fuel' (jinsert (TLVFieldCodec.name tlv_codec) JNull map) buf'
              | (Panic, buf') => (Panic, buf')
              end
          | None => (io_err InvalidInput ("Unknown TLV tag: 0x" +:+ format_hex true 4 tag), buf)
          end
      | None => (Ok map, buf)
      end
  end.

Definition header_map (command_id command_status sequence_number : N) : jmap :=
  jextend
    [("command_name",
      JString (match CommandId.from_u32 command_id with
               | Some c => CommandId.to_str c | None => "Unknown" end));
     ("command_id", JString (hex_id command_id));
     ("command_status", jnum command_status);
     ("sequence_number", jnum sequence_number)] [].

Definition to_json (self : SMPPMessage.t) : ioresult Value :=
  let '(_, buffer) := SMPPMessage.read_u32 (SMPPMessage.message self) in
  let '(command_id, buffer) := SMPPMessage.read_u32 buffer in
  let '(command_status, buffer) := SMPPMessage.read_u32 buffer in
  let '(sequence_number, buffer) := SMPPMessage.read_u32 buffer in
  match sequence_number with
  | None => io_err InvalidInput "Failed to read sequence_number"
  | Some sequence_number =>
      let command_id := default 0%N command_id in
      let map := header_map command_id (default 0%N command_status) sequence_number in
      match MESSAGE_COMMAND_FIELDS !! command_id with
      | Some fields =>
          match decode_fields fields map buffer with
          | (Ok map, buffer) =>
              JObject <$> (decode_tlvs (length buffer) map buffer).1
          | (Err e, _) => Err e
          | (Panic, _) => Panic
          end
      | None => io_err InvalidInput ("Unknown command_id: " +:+ hex_id command_id)
      end
  end.

End message.

(** The double quote. *)
Definition dquote : string := of_bytes [x22].

(** The text form for the log: status and id in hexadecimal. The serde_json rendering of
    a value is a parameter. *)
Definition format_smpp_value (display : Value → string) (value : Value) : string :=
  match as_object value with
  | Some map =>
      "{" +:+ String.concat "," ((λ '(k, v),
        match if bool_decide (k = "command_id") || bool_decide (k = "command_status")
              then as_u64 v else None with
        | Some n => dquote +:+ k +:+ dquote +:+ ":" +:+ dquote +:+ hex_id n +:+ dquote
        | None => dquote +:+ k +:+ dquote +:+ ":" +:+ display v
        end) <$> map) +:+ "}"
  | None => display value
  end.

(** ** Destinations *)

Definition multi_destination (d : DistrubutionList.t) (addr : Value) : list Address :=
  match get_u64 addr "dest_addr_ton", get_u64 addr "dest_addr_npi",
        get_str addr "destination_addr" with
  | Some ton, Some npi, Some dest_addr => [mkAddress (cast_u8 ton) (cast_u8 npi) dest_addr]
  | _, _, _ =>
      match get_str addr "dl_name" with
      | Some dl_name => default [] (DistrubutionList.get d dl_name)
      | None => []
      end
  end.

Definition extract_destionation_addresses (decoded_message : Value) (d : DistrubutionList.t) :
    ioresult (list Address) :=
  match extract_command_id decoded_message with
  | Some (CommandId.SubmitSm | CommandId.DataSm | CommandId.DeliverSm) =>
      match get_u64 decoded_message "dest_addr_ton", get_u64 decoded_message "dest_addr_npi",
            get_str decoded_message "destination_addr" with
      | Some ton, Some npi, Some address => Ok [mkAddress (cast_u8 ton) (cast_u8 npi) address]
      | _, _, _ => Ok []
      end
  | Some CommandId.SubmitMulti =>
      match get decoded_message "dest_addresses" ≫= as_array with
      | Some dest_addresses => Ok (concat (multi_destination d <$> dest_addresses))
      | None => Ok []
      end
  | _ => Ok []
  end.

(** The new value of the message, beside the result. *)
Definition replace_message_with_predefined (value : Value) (predefined_message : string) :
    ioresult unit * Value :=
  match extract_command_id value with
  | Some (CommandId.SubmitSm | CommandId.DataSm | CommandId.DeliverSm) =>
      match get value "short_message" with
      | Some short_message =>
          match as_str short_message with
          | Some s =>
              if is_empty_str s
              then (Ok tt, set_if_present value "short_message" (JString predefined_message))
              else (Ok tt, value)
          | None => (Ok tt, set_if_present value "short_message" (JString predefined_message))
          end
      | None => (io_err InvalidInput "Missing short_message field", value)
      end
  | _ => (Ok tt, value)
  end.
