(* ===== verification/MessageSpec.v ===== *)
(** * Messages: specification and round trip

    [normalize_message] is the message a peer reads when a given JSON message is sent to
    it: the header, every mandatory field (its default when absent) and every optional
    parameter present, each in the normal form of its codec. The main theorem says that
    [to_json] applied to the PDU of [from_json] returns it, whatever the iteration order
    of the hash map of optional parameters. *)
From S2P Require Export CodecSpec Message.

(** ** The tables *)

Definition field_codec_ok (name : string) : bool :=
  match FIELD_CODECS !! name with Some c => self_delimiting c | None => false end.

(** The codecs that may end a buffer: self-delimiting, or one of the three that read to
    its end. *)
Definition tail_ok (c : FieldCodec) : bool :=
  match c with
  | OptionalU8FieldCodec _ | VarLengthIntFieldCodec | OctetFieldCodec false _ => true
  | _ => self_delimiting c
  end.

(** Every mandatory field of every command has a codec, and it is self-delimiting. *)
Lemma command_fields_codecs id fields f :
  MESSAGE_COMMAND_FIELDS !! id = Some fields → f ∈ fields → field_codec_ok f.1 = true.
Proof.
  assert (H : forallb (λ '(_, fs), forallb (λ f, field_codec_ok f.1) fs)
                (map_to_list MESSAGE_COMMAND_FIELDS) = true) by (vm_compute; reflexivity).
  intros Hid Hf. rewrite forallb_forall in H.
  specialize (H (id, fields)). cbn beta iota in H. rewrite forallb_forall in H.
  apply H; rewrite <-list_elem_of_In; [by rewrite elem_of_map_to_list|done].
Qed.

(** Every command but [Unknown] has its list of mandatory fields. *)
Lemma command_fields_total c : c ≠ CommandId.Unknown → is_Some (MESSAGE_COMMAND_FIELDS !! CommandId.as_u32 c).
Proof.
  assert (H : forallb (λ c, bool_decide (c = CommandId.Unknown)
                || bool_decide (is_Some (MESSAGE_COMMAND_FIELDS !! CommandId.as_u32 c)))
                CommandId.all = true) by (vm_compute; reflexivity).
  assert (Hc : bool_decide (c ∈ CommandId.all) || bool_decide (c = CommandId.Unknown) = true)
    by (destruct c; vm_compute; reflexivity).
  intros Hne. rewrite (bool_decide_eq_false_2 (c = CommandId.Unknown)), orb_false_r in Hc by done.
  apply bool_decide_eq_true, list_elem_of_In in Hc. rewrite forallb_forall in H.
  specialize (H c Hc). rewrite bool_decide_eq_false_2 in H by done. by apply bool_decide_eq_true in H.
Qed.

Lemma named_tlv_tagged name t :
  NAMED_TLV_FIELDS !! name = Some t → TAGGED_TLV_FIELDS !! TLVFieldCodec.tag t = Some t.
Proof.
  assert (H : (λ x, TAGGED_TLV_FIELDS !! TLVFieldCodec.tag x.2) <$> map_to_list NAMED_TLV_FIELDS
              = (λ x, Some x.2) <$> map_to_list NAMED_TLV_FIELDS) by (vm_compute; reflexivity).
  intros Hn. rewrite <-elem_of_map_to_list in Hn. apply list_elem_of_lookup in Hn as [i Hi].
  apply (f_equal (.!! i)) in H. rewrite !list_lookup_fmap, Hi in H. by injection H.
Qed.

Lemma named_tlv_wf name t :
  NAMED_TLV_FIELDS !! name = Some t →
  TLVFieldCodec.name t = name ∧ (TLVFieldCodec.tag t < 2 ^ 16)%N ∧
  tail_ok (TLVFieldCodec.value_codec t) = true.
Proof.
  assert (H : forallb (λ '(name, t), bool_decide (TLVFieldCodec.name t = name)
                && (TLVFieldCodec.tag t <? 2 ^ 16)%N && tail_ok (TLVFieldCodec.value_codec t))
                (map_to_list NAMED_TLV_FIELDS) = true) by (vm_compute; reflexivity).
  intros Hn. rewrite <-elem_of_map_to_list, list_elem_of_In in Hn.
  rewrite forallb_forall in H. specialize (H (name, t) Hn). cbn beta iota in H.
  rewrite !andb_true_iff, bool_decide_eq_true, N.ltb_lt in H.
  destruct H as [[H1 H2] H3]. exact (conj H1 (conj H2 H3)).
Qed.

(** Names are unique in the table, and so are tags: neither index loses an entry. *)
Lemma tlv_tables_complete :
  size NAMED_TLV_FIELDS = length create_tlv_fields ∧
  size TAGGED_TLV_FIELDS = length create_tlv_fields.
Proof. split; vm_compute; reflexivity. Qed.

(** ** The specification *)

Section spec.
Context `{Base64}.

Definition normalize_field (v : Value) (field : string * option Value) :
    option (string * Value) :=
  codec ← FIELD_CODECS !! field.1;
  x ← match get v field.1 with Some x => Some x | None => field.2 end;
  w ← normalize codec x;
  Some (field.1, w).

(** A parameter with an empty value is read as [Null]. *)
Definition normalize_tlv (t : TLVFieldCodec.t) (x : Value) : option Value :=
  match codec_encode (TLVFieldCodec.value_codec t) x [] with
  | (Ok _, []) => Some JNull
  | (Ok _, bs) =>
      if (N.of_nat (length bs) <? 2 ^ 16)%N then normalize (TLVFieldCodec.value_codec t) x
      else None
  | _ => None
  end.

Fixpoint normalize_tlvs (v : Value) (l : list (string * TLVFieldCodec.t)) :
    option (list (string * Value)) :=
  match l with
  | [] => Some []
  | (name, t) :: l' =>
      ws ← normalize_tlvs v l';
      match get v name with
      | Some x => w ← normalize_tlv t x; Some ((name, w) :: ws)
      | None => Some ws
      end
  end.

Definition header_number (v : Value) (key : string) : option N :=
  cast_u32 <$> as_u64 (default (jnum 0) (get v key)).

Definition normalize_message (v : Value) : option Value :=
  cmd ← extract_command_id v;
  status ← header_number v "command_status";
  seq ← header_number v "sequence_number";
  fields ← MESSAGE_COMMAND_FIELDS !! CommandId.as_u32 cmd;
  fs ← mapM (normalize_field v) fields;
  tlvs ← normalize_tlvs v (map_to_list NAMED_TLV_FIELDS);
  Some (JObject (jextend (fs ++ tlvs) (header_map (CommandId.as_u32 cmd) status seq))).

(** ** Optional parameters *)

Lemma var_length_decode bs :
  length bs ≤ 8 →
  fold_left (λ result byte, N.lor (cast_u64 (N.shiftl result 8)) (Byte.to_N byte)) bs 0%N
  = be_N bs.
Proof.
  induction bs as [|b bs IH] using rev_ind; intros Hl; [done|].
  rewrite length_app in Hl. simpl in Hl. rewrite fold_left_app. simpl.
  rewrite IH by lia. unfold be_N at 2. rewrite fold_left_app. simpl. fold (be_N bs).
  unfold cast_u64. rewrite N.shiftl_mul_pow2. change (2 ^ 8)%N with 256%N.
  pose proof (be_N_bound bs) as Hb. pose proof (byte_to_N_bound b) as Hbb.
  assert (256 ^ N.of_nat (length bs) ≤ 256 ^ 7)%N by (apply N.pow_le_mono_r; lia).
  rewrite N.mod_small by (change (2 ^ 64)%N with (256 ^ 7 * 256)%N; lia).
  replace (be_N bs * 256)%N with (N.shiftl (be_N bs) 8) by (by rewrite N.shiftl_mul_pow2).
  rewrite N.lor_comm, <-N.lxor_lor.
  - rewrite <-N.add_nocarry_lxor; [rewrite N.shiftl_mul_pow2; simpl; lia|].
    apply land_shiftl_small. done.
  - apply land_shiftl_small. done.
Qed.

Lemma le_bytes_length fuel n : length (VarLengthIntFieldCodec.le_bytes fuel n) ≤ fuel.
Proof.
  revert n. induction fuel as [|fuel IH]; intros n; simpl; [lia|].
  destruct (n =? 0)%N; simpl; [lia|]. specialize (IH (N.shiftr n 8)). lia.
Qed.

(** A codec at the end of a buffer: the whole encoding is read back. *)
Lemma tail_roundtrip c v w :
  tail_ok c = true → normalize c v = Some w →
  ∃ bs, appends (codec_encode c v) bs ∧ (codec_decode c bs).1 = Ok w.
Proof.
  intros Ht Hn. destruct (self_delimiting c) eqn:Hd.
  { destruct (codec_carries c v w Hd Hn) as (bs & Ha & Hp). exists bs. split; [done|].
    specialize (Hp []). rewrite app_nil_r in Hp. by rewrite Hp. }
  destruct c as [|d| | |[] lb| | | | | |]; try (unfold tail_ok in Ht; congruence);
    try done; cbn [normalize] in Hn.
  - injection Hn as <-. exists (be_bytes 1 (default d (as_u64 v))). split.
    + assert (Hput : ∀ n, appends (put (SMPPMessage.write_u8 (cast_u8 n))) (be_bytes 1 n)).
      { intros n. apply appends_put. intros buf. unfold SMPPMessage.write_u8, cast_u8.
        by rewrite <-(be_bytes_mod 1 n). }
      assert (Hd1 : appends (put (SMPPMessage.write_u8 d)) (be_bytes 1 d))
        by (by apply appends_put).
      destruct v as [| |[n| |]| | |]; try exact Hd1. simpl codec_encode.
      unfold OptionalU8FieldCodec.encode. cbn [num_as_u64 as_u64 default].
      destruct (N.eqb_spec n d) as [->|]; [exact Hd1|apply Hput].
    + unfold codec_decode, OptionalU8FieldCodec.decode, be_bytes. cbn [fst].
      rewrite to_N_byte_of_N. change (256 ^ N.of_nat 0)%N with 1%N.
      rewrite N.div_1_r. reflexivity.
  - destruct (as_u64 v) as [n|] eqn:Ev; [|done].
    cbn [mbind option_bind] in Hn. apply (inj Some) in Hn as <-.
    apply as_u64_Some in Ev as ->. exists (VarLengthIntFieldCodec.le_bytes 8 n).
    split; [by apply appends_put|].
    unfold codec_decode, VarLengthIntFieldCodec.decode. cbn [fst].
    rewrite var_length_decode by apply le_bytes_length. reflexivity.
  - destruct v as [| | |s| |]; try done. cbn [as_str mbind option_bind] in Hn.
    destruct (octets_fit false lb (OctetFieldCodec.octets s)) eqn:Hfit; [|done].
    injection Hn as <-. apply octets_fit_spec in Hfit as [Hne _].
    exists (OctetFieldCodec.octets s). split.
    + intros buf. reflexivity.
    + cbn [codec_decode]. unfold OctetFieldCodec.decode.
      pose proof (SMPPMessage.read_write _ [] Hne) as Hr. rewrite app_nil_r in Hr. by rewrite Hr.
Qed.

Lemma tlv_encode_appends t x bs :
  appends (codec_encode (TLVFieldCodec.value_codec t) x) bs →
  appends (TLVFieldCodec.encode t x) (SMPPMessage.write_tlv (TLVFieldCodec.tag t) bs []).
Proof.
  intros Ha buf. unfold TLVFieldCodec.encode. rewrite (Ha []). simpl.
  unfold SMPPMessage.write_tlv, SMPPMessage.write, SMPPMessage.write_u16.
  by rewrite <-!app_assoc.
Qed.

(** One parameter: what is written starts with the tag, and is read back whole. *)
Lemma tlv_roundtrip name t x w :
  NAMED_TLV_FIELDS !! name = Some t → normalize_tlv t x = Some w → ∃ bs,
    appends (TLVFieldCodec.encode t x) (SMPPMessage.write_tlv (TLVFieldCodec.tag t) bs []) ∧
    ∀ rest, ∃ r, TLVFieldCodec.decode t (SMPPMessage.write_tlv (TLVFieldCodec.tag t) bs [] ++ rest)
                 = (r, rest) ∧ (r = Ok w ∨ (w = JNull ∧ ∃ e, r = Err e)).
Proof.
  intros Hnamed Hn. destruct (named_tlv_wf _ _ Hnamed) as (_ & Htag & Htail).
  clear Hnamed.
  unfold normalize_tlv in Hn.
  destruct (codec_encode (TLVFieldCodec.value_codec t) x []) as [[[]| |] bs] eqn:He; try done.
  assert (Hbs : bs = [] ∨ bs ≠ []) by (destruct bs; auto).
  destruct Hbs as [->|Hne].
  - injection Hn as <-. exists []. split.
    + intros buf. unfold TLVFieldCodec.encode. rewrite He.
      unfold SMPPMessage.write_tlv, SMPPMessage.write, SMPPMessage.write_u16.
      by rewrite !app_nil_r, <-!app_assoc.
    + intros rest. unfold TLVFieldCodec.decode.
      rewrite SMPPMessage.read_tlv_empty by done. eexists. split; [done|]. right. eauto.
  - destruct bs as [|b bs]; [done|].
    destruct (N.ltb_spec (N.of_nat (length (b :: bs))) (2 ^ 16)) as [Hlt|]; [|done].
    destruct (tail_roundtrip _ _ _ Htail Hn) as (bs' & Ha & Hd).
    specialize (Ha []) as Ha0. rewrite He in Ha0. injection Ha0 as <-.
    exists (b :: bs). split; [by apply tlv_encode_appends|]. intros rest.
    unfold TLVFieldCodec.decode. rewrite SMPPMessage.read_tlv_write_tlv by done.
    rewrite N.eqb_refl. eauto.
Qed.

(** ** The loops over the fields *)

Lemma fields_roundtrip v fields fs m :
  Forall (λ f, field_codec_ok f.1 = true) fields →
  mapM (normalize_field v) fields = Some fs → ∃ bs,
    appends (BufM_iter (encode_field v) fields) bs ∧
    parses (decode_fields fields m) bs (jextend fs m).
Proof.
  intros Hok Hfs. apply mapM_Some in Hfs. revert m Hok.
  induction Hfs as [|[name dflt] [name' w] fields fs Hf _ IH]; intros m Hok.
  - exists []. split; [intros buf; by rewrite app_nil_r|apply parses_ret].
  - apply Forall_cons in Hok as [Hc Hok]. unfold normalize_field, field_codec_ok in *. simpl in *.
    destruct (FIELD_CODECS !! name) as [codec|] eqn:Ec; [|done]. simpl in Hf.
    destruct (match get v name with Some x => Some x | None => dflt end) as [x|] eqn:Ex; [|done].
    simpl in Hf. destruct (normalize codec x) as [w'|] eqn:Ew; [|done]. simpl in Hf.
    injection Hf as <- <-. destruct (codec_carries _ _ _ Hc Ew) as (bs & Ha & Hp).
    destruct (IH (jinsert name w' m) Hok) as (bs' & Ha' & Hp').
    exists (bs ++ bs'). split.
    + apply appends_bind; [|done]. intros buf. unfold encode_field.
      cbn beta iota. rewrite ?Ec, ?Ex. unfold BufM_map_err. by rewrite Ha.
    + apply parses_bind with (jinsert name w' m); [|done].
      unfold decode_field. cbn beta iota. rewrite ?Ec.
      apply (parses_ret_after _ (λ value, jinsert name value m)). by apply parses_map_err.
Qed.

Lemma peek_write_tlv tag bs rest :
  (tag < 2 ^ 16)%N →
  SMPPMessage.peek_tlv_tag (SMPPMessage.write_tlv tag bs [] ++ rest) = Some tag.
Proof.
  intros Ht. rewrite SMPPMessage.write_tlv_nil. unfold SMPPMessage.peek_tlv_tag.
  rewrite (proj2 (Nat.leb_le _ _)) by (rewrite length_app, length_be_bytes; lia).
  rewrite take_app_length' by (by rewrite length_be_bytes).
  rewrite be_N_be_bytes. by rewrite N.mod_small.
Qed.

Lemma tlvs_roundtrip v l ws :
  Forall (λ e, NAMED_TLV_FIELDS !! e.1 = Some e.2) l → normalize_tlvs v l = Some ws → ∃ bs,
    appends (BufM_iter (encode_tlv v) l) bs ∧
    ∀ fuel m, length bs ≤ fuel → decode_tlvs fuel m bs = (Ok (jextend ws m), []).
Proof.
  intros Hl. revert ws. induction Hl as [|[name t] l Ht Hl IH]; intros ws Hws; simpl in *.
  { injection Hws as <-. exists []. split; [intros buf; by rewrite app_nil_r|].
    by intros [|fuel] m _. }
  destruct (normalize_tlvs v l) as [ws'|] eqn:Ews; [|done]. simpl in Hws.
  destruct (IH ws' eq_refl) as (bs' & Ha' & Hd'). clear IH.
  destruct (get v name) as [x|] eqn:Ex.
  2: { injection Hws as <-. exists bs'. split; [|done]. rewrite <-(app_nil_l bs').
       apply appends_bind; [|done]. intros buf. cbn. rewrite ?Ex. by rewrite app_nil_r. }
  destruct (normalize_tlv t x) as [w|] eqn:Ew; [|done]. simpl in Hws. injection Hws as <-.
  destruct (named_tlv_wf _ _ Ht) as (Hname & Htag & _).
  pose proof (named_tlv_tagged _ _ Ht) as Htagged.
  destruct (tlv_roundtrip _ _ _ _ Ht Ew) as (bs & Ha & Hd).
  exists (SMPPMessage.write_tlv (TLVFieldCodec.tag t) bs [] ++ bs'). split.
  - apply appends_bind; [|done]. intros buf. cbn. rewrite ?Ex. unfold BufM_map_err. by rewrite Ha.
  - intros [|fuel] m Hfuel; rewrite length_app in Hfuel;
      unfold SMPPMessage.write_tlv, SMPPMessage.write, SMPPMessage.write_u16 in Hfuel;
      rewrite !length_app, !length_be_bytes in Hfuel; simpl in Hfuel; [lia|].
    cbn [decode_tlvs]. rewrite peek_write_tlv, Htagged by exact Htag.
    destruct (Hd bs') as (r & -> & Hr). rewrite Hname.
    destruct Hr as [-> | (-> & e & ->)]; rewrite Hd' by lia; reflexivity.
Qed.

(** *** The order of the optional parameters *)

Lemma normalize_tlvs_keys v l ws :
  normalize_tlvs v l = Some ws → NoDup l.*1 → NoDup ws.*1 ∧ ∀ k, k ∈ ws.*1 → k ∈ l.*1.
Proof.
  revert ws. induction l as [|[name t] l IH]; intros ws Hws Hnd; simpl in *.
  { injection Hws as <-. by split. }
  apply NoDup_cons in Hnd as [Hname Hnd].
  destruct (normalize_tlvs v l) as [ws'|]; [|done]. simpl in Hws.
  destruct (IH ws' eq_refl Hnd) as [Hnd' Hsub].
  destruct (get v name) as [x|].
  - destruct (normalize_tlv t x) as [w|]; [|done]. simpl in Hws. injection Hws as <-.
    split; simpl.
    + apply NoDup_cons. split; [|done]. intros Hin. by apply Hname, Hsub.
    + intros k. rewrite !elem_of_cons. intros [->|Hk]; [by left|right; by apply Hsub].
  - injection Hws as <-. split; [done|]. intros k Hk. apply elem_of_cons. auto.
Qed.

Lemma normalize_tlvs_perm v l l' ws :
  l ≡ₚ l' → normalize_tlvs v l = Some ws → ∃ ws', normalize_tlvs v l' = Some ws' ∧ ws ≡ₚ ws'.
Proof.
  intros Hp. revert ws. induction Hp as [|[name t] l l' _ IH|[n1 t1] [n2 t2] l|l l1 l2 _ IH1 _ IH2];
    intros ws Hws.
  - by exists ws.
  - simpl in *. destruct (normalize_tlvs v l) as [ws0|]; [|done]. simpl in Hws.
    destruct (IH ws0 eq_refl) as (ws' & -> & Hperm). simpl.
    destruct (get v name) as [x|]; [|injection Hws as <-; by exists ws'].
    destruct (normalize_tlv t x) as [w|]; [|done]. simpl in *. injection Hws as <-.
    eexists. split; [done|]. by constructor.
  - simpl in *. destruct (normalize_tlvs v l) as [ws0|]; [|done]. simpl in *.
    destruct (get v n1) as [x1|], (get v n2) as [x2|]; simpl in *;
      repeat match type of Hws with
      | context [normalize_tlv ?t ?x] => destruct (normalize_tlv t x); simpl in *; [|done]
      end; injection Hws as <-; eexists; (split; [done|]); solve [constructor | reflexivity].
  - destruct (IH1 ws Hws) as (ws1 & H1 & Hp1). destruct (IH2 ws1 H1) as (ws2 & H2 & Hp2).
    exists ws2. split; [done|]. by etrans.
Qed.

(** ** The whole message *)

Lemma update_length_spec body :
  16 ≤ length body → ∃ m,
    SMPPMessage.update_length (SMPPMessage.mk body) = Ok (SMPPMessage.mk m) ∧
    m = be_bytes 4 (cast_u32 (N.of_nat (length body))) ++ drop 4 body ∧ length m = length body.
Proof.
  intros Hl. eexists. unfold SMPPMessage.update_length, put_be32. simpl SMPPMessage.message.
  rewrite (proj2 (Nat.leb_le _ _)) by lia. rewrite take_0, app_nil_l. split_and!; [done..|].
  rewrite length_app, length_be_bytes, length_drop. lia.
Qed.

Lemma header_number_spec v key n :
  header_number v key = Some n →
  appends (write_header_number v key) (be_bytes 4 n) ∧ (n < 2 ^ 32)%N.
Proof.
  unfold header_number, write_header_number.
  destruct (as_u64 _) as [k|]; [|done]. simpl. intros Hn. apply (inj Some) in Hn as <-.
  split; [by apply appends_put|]. by apply N.mod_lt.
Qed.

Lemma decode_tlvs_nil fuel m : decode_tlvs fuel m [] = (Ok m, []).
Proof. by destruct fuel. Qed.

Lemma to_json_spec len id status seq fields fbs tbs fs ws :
  MESSAGE_COMMAND_FIELDS !! id = Some fields → (id < 2 ^ 32)%N → (status < 2 ^ 32)%N →
  (seq < 2 ^ 32)%N →
  (∀ m, parses (decode_fields fields m) fbs (jextend fs m)) →
  (∀ fuel m, length tbs ≤ fuel → decode_tlvs fuel m tbs = (Ok (jextend ws m), [])) →
  to_json (SMPPMessage.mk (be_bytes 4 len ++ be_bytes 4 id ++ be_bytes 4 status
                           ++ be_bytes 4 seq ++ fbs ++ tbs))
  = Ok (JObject (jextend (fs ++ ws) (header_map id status seq))).
Proof.
  intros Hf Hid Hst Hsq Hfields Htlvs. unfold to_json. cbn [SMPPMessage.message].
  unfold SMPPMessage.read_u32. rewrite SMPPMessage.try_get_be_bytes_mod.
  rewrite !SMPPMessage.try_get_be_bytes by assumption. change (default 0%N (Some id)) with id. change (default 0%N (Some status)) with status.
  cbv zeta. rewrite Hf.
  rewrite Hfields, Htlvs by reflexivity. by rewrite jextend_app.
Qed.

Context `{TlvOrder}.

(** The bytes of a message in the domain of [normalize_message]: its header and a body that
    decodes to its fields under any length and sequence number. *)
Lemma from_json_bytes v w :
  normalize_message v = Some w → ∃ cmd status seq fields fs ws rest m,
    header_number v "sequence_number" = Some seq ∧
    MESSAGE_COMMAND_FIELDS !! CommandId.as_u32 cmd = Some fields ∧
    mapM (normalize_field v) fields = Some fs ∧
    normalize_tlvs v (map_to_list NAMED_TLV_FIELDS) = Some ws ∧
    w = JObject (jextend (fs ++ ws) (header_map (CommandId.as_u32 cmd) status seq)) ∧
    extract_command_id v = Some cmd ∧ from_json v = Ok (SMPPMessage.mk m) ∧
    m = be_bytes 4 (cast_u32 (N.of_nat (length m))) ++ be_bytes 4 (CommandId.as_u32 cmd)
        ++ be_bytes 4 status ++ be_bytes 4 seq ++ rest ∧
    (status < 2 ^ 32)%N ∧ (seq < 2 ^ 32)%N ∧
    ∀ len seq', (seq' < 2 ^ 32)%N →
      to_json (SMPPMessage.mk (be_bytes 4 len ++ be_bytes 4 (CommandId.as_u32 cmd)
                               ++ be_bytes 4 status ++ be_bytes 4 seq' ++ rest))
      = Ok (JObject (jextend (fs ++ ws) (header_map (CommandId.as_u32 cmd) status seq'))).
Proof.
  unfold normalize_message, from_json.
  destruct (extract_command_id v) as [cmd|]; [|done]. cbn [mbind option_bind].
  destruct (header_number v "command_status") as [status|] eqn:Est; [|done].
  destruct (header_number v "sequence_number") as [seq|] eqn:Esq; [|done]. cbn [mbind option_bind].
  destruct (MESSAGE_COMMAND_FIELDS !! CommandId.as_u32 cmd) as [fields|] eqn:Efields; [|done].
  cbn [mbind option_bind].
  destruct (mapM (normalize_field v) fields) as [fs|] eqn:Efs; [|done]. cbn [mbind option_bind].
  destruct (normalize_tlvs v _) as [ws0|] eqn:Ews0; [|done].
  cbn [mbind option_bind]. intros Hw. apply (inj Some) in Hw as <-.
  pose proof (header_number_spec _ _ _ Est) as [Hast Hst].
  pose proof (header_number_spec _ _ _ Esq) as [Hasq Hsq].
  destruct (normalize_tlvs_perm v _ tlv_iter ws0 (symmetry tlv_iter_perm) Ews0)
    as (ws & Ews & Hperm).
  assert (Hentries : Forall (λ e, NAMED_TLV_FIELDS !! e.1 = Some e.2) tlv_iter).
  { apply Forall_forall. intros [name t] Hin. rewrite tlv_iter_perm, elem_of_map_to_list in Hin. exact Hin. }
  assert (Hcodecs : Forall (λ f, field_codec_ok f.1 = true) fields).
  { apply Forall_forall. intros f Hin. exact (command_fields_codecs _ _ _ Efields Hin). }
  destruct (tlvs_roundtrip v tlv_iter ws Hentries Ews) as (tbs & Hat & Hdt).
  destruct (fields_roundtrip v fields fs [] Hcodecs Efs) as (fbs & Haf & _).
  assert (Hdf : ∀ m, parses (decode_fields fields m) fbs (jextend fs m)).
  { intros m. destruct (fields_roundtrip v fields fs m Hcodecs Efs) as (fbs' & Haf' & Hd).
    specialize (Haf []). specialize (Haf' []). rewrite Haf' in Haf. simpl in Haf.
    injection Haf as ->. exact Hd. }
  set (rest := be_bytes 4 (CommandId.as_u32 cmd) ++ be_bytes 4 status ++ be_bytes 4 seq ++ fbs ++ tbs).
  assert (Hbody : encode_body (CommandId.as_u32 cmd) v [] = (Ok tt, be_bytes 4 0 ++ rest)).
  { assert (Happ : appends (encode_body (CommandId.as_u32 cmd) v) (be_bytes 4 0 ++ rest)).
    { unfold encode_body. apply appends_bind; [by apply appends_put|].
      apply appends_bind; [by apply appends_put|]. apply appends_bind; [exact Hast|].
      apply appends_bind; [exact Hasq|]. rewrite Efields. by apply appends_bind. }
    apply Happ. }
  unfold encode_message_with_fields, SMPPMessage.from_bytes_mut. rewrite Hbody.
  destruct (update_length_spec (be_bytes 4 0 ++ rest)) as (m & -> & Hm & Hlen).
  { subst rest. rewrite !length_app, !length_be_bytes. lia. }
  rewrite drop_app_length' in Hm by (by rewrite length_be_bytes).
  exists cmd, status, seq, fields, fs, ws0, (fbs ++ tbs), m.
  split; [reflexivity|]. split; [exact Efields|]. split; [exact Efs|]. split; [reflexivity|].
  do 3 (split; [reflexivity|]). split; [rewrite Hlen; exact Hm|]. split; [exact Hst|].
  split; [exact Hsq|].
  - intros len seq' Hs'.
    rewrite (to_json_spec _ _ _ _ fields fbs tbs fs ws); try assumption; [|apply CommandId.as_u32_bound].
    rewrite !jextend_app. f_equal. f_equal. symmetry. apply jextend_perm; [|exact Hperm].
    apply (normalize_tlvs_keys v _ _ Ews0), NoDup_fst_map_to_list.
Qed.

(** The round trip of a whole message. *)
Lemma from_json_normalizes v w :
  normalize_message v = Some w → ∃ m,
    from_json v = Ok m ∧ to_json m = Ok w ∧
    ((N.of_nat (SMPPMessage.len m) < 2 ^ 32)%N → SmppMessageBuffer.framed (SMPPMessage.to_vec m)).
Proof.
  intros (cmd & status & seq & fields & fs & ws & rest & m & _ & _ & _ & _ & -> & _ & Hm & Hb & Hst & Hsq & Hj)%from_json_bytes.
  exists (SMPPMessage.mk m). split; [done|]. split; [rewrite Hb; by apply Hj|].
  unfold SMPPMessage.len, SMPPMessage.to_vec. cbn [SMPPMessage.message]. intros Hlt. split.
  - rewrite Hb, !length_app, !length_be_bytes. lia.
  - rewrite Hb at 1. rewrite take_app_length', be_N_be_bytes by (by rewrite length_be_bytes).
    unfold cast_u32. change (256 ^ N.of_nat 4)%N with (2 ^ 32)%N. rewrite N.Div0.mod_mod.
    by apply N.mod_small.
Qed.

(** C4: sending a JSON message and reading it back: for every message in the domain of
    [normalize_message], [from_json] succeeds and [to_json] of the PDU it builds is the
    normal form, for every iteration order of the hash map of optional parameters; the
    PDU carries its own length, so that the framing recovers it. *)
Theorem from_json_to_json v w :
  normalize_message v = Some w → ∃ m,
    from_json v = Ok m ∧ to_json m = Ok w ∧
    ((N.of_nat (SMPPMessage.len m) < 2 ^ 32)%N → SmppMessageBuffer.framed (SMPPMessage.to_vec m)).
Proof. apply from_json_normalizes. Qed.

End spec.
