(* ===== verification/MessageProps.v ===== *)
(** * Messages: what holds of every PDU received

    [to_json] on arbitrary bytes: it never panics, its loop over the optional parameters
    ends, and the header of the JSON message is the header of the PDU. *)
From S2P Require Export MessageSpec.

Section props.
Context `{Base64}.

(** ** No panic *)

Definition no_panic {A} (m : BufM A) : Prop := ∀ buf, (m buf).1 ≠ Panic.

Lemma no_panic_bind {A B} (m : BufM A) (k : A → BufM B) :
  no_panic m → (∀ a, no_panic (k a)) → no_panic (m ≫= k).
Proof.
  intros Hm Hk buf. specialize (Hm buf). unfold mbind, BufM_bind.
  destruct (m buf) as [[a|e|] buf']; simpl in *; [apply Hk|done|done].
Qed.

Lemma no_panic_ret {A} (a : A) : no_panic (mret a).
Proof. intros buf. discriminate. Qed.

Lemma no_panic_fail {A} k msg : no_panic (BufM_fail (A := A) k msg).
Proof. intros buf. discriminate. Qed.

Lemma no_panic_opt {A} (r : bytes → option A * bytes) k msg : no_panic (BufM_opt r k msg).
Proof. intros buf. unfold BufM_opt. destruct (r buf) as [[a|] buf']; discriminate. Qed.

Lemma no_panic_map_err {A} k msg (m : BufM A) : no_panic m → no_panic (BufM_map_err k msg m).
Proof.
  intros Hm buf. specialize (Hm buf). unfold BufM_map_err.
  destruct (m buf) as [[a|e|] buf']; simpl in *; done.
Qed.

Lemma no_panic_repeat {A} n (m : BufM A) : no_panic m → no_panic (BufM_repeat n m).
Proof.
  intros Hm. induction n as [|n IH]; simpl; [apply no_panic_ret|].
  apply no_panic_bind; [done|]. intros a. apply no_panic_bind; [done|]. intros l. apply no_panic_ret.
Qed.

Create HintDb no_panic.
#[local] Hint Resolve no_panic_ret no_panic_fail no_panic_opt no_panic_map_err no_panic_repeat
  no_panic_bind : no_panic.

Lemma no_panic_dest : no_panic DestAddressFieldCodec.decode.
Proof.
  unfold DestAddressFieldCodec.decode. apply no_panic_bind; [auto with no_panic|].
  intros n. destruct n as [|[[]|[]|]]; auto with no_panic;
    repeat (apply no_panic_bind; [auto with no_panic|intros ?]); auto with no_panic.
Qed.

(** Decoding a field returns a value or an error on every input. *)
Lemma codec_decode_no_panic c : no_panic (codec_decode c).
Proof.
  induction c as [| | |m|li lb| | |c IH|fs IH| |] using FieldCodec_nested_ind.
  - intros [|b buf]; discriminate.
  - intros [|b buf]; discriminate.
  - intros buf. discriminate.
  - cbn. apply no_panic_bind; auto with no_panic.
  - intros buf. cbn [codec_decode]. unfold OctetFieldCodec.decode.
    destruct li.
    + destruct (OctetFieldCodec.read_length lb buf) as [[n|] buf']; [|discriminate].
      destruct (SMPPMessage.read buf' n) as [[bs|] buf'']; discriminate.
    + destruct (SMPPMessage.read buf (length buf)) as [[bs|] buf'']; discriminate.
  - cbn. apply no_panic_bind; auto with no_panic.
  - cbn. apply no_panic_bind; auto with no_panic.
  - cbn. apply no_panic_bind; [auto with no_panic|]. intros n.
    apply no_panic_bind; auto with no_panic.
  - cbn [codec_decode]. unfold CompositeFieldCodec.decode. generalize (@nil (string * Value)).
    induction IH as [|[name c] fs Hc _ IHfs]; intros m; simpl; [auto with no_panic|].
    apply no_panic_bind; [auto with no_panic|]. intros v. apply IHfs.
  - apply no_panic_dest.
  - cbn. apply no_panic_bind; [auto with no_panic|]. intros n.
    apply no_panic_bind; [|auto with no_panic].
    apply no_panic_repeat, no_panic_map_err, no_panic_dest.
Qed.

Lemma tlv_decode_no_panic t : no_panic (TLVFieldCodec.decode t).
Proof.
  intros buf. unfold TLVFieldCodec.decode.
  destruct (SMPPMessage.read_tlv buf) as [[[tag v]|] buf']; [|discriminate].
  destruct (_ =? _)%N; [|discriminate]. apply codec_decode_no_panic.
Qed.

Lemma decode_tlvs_no_panic fuel m : no_panic (decode_tlvs fuel m).
Proof.
  revert m. induction fuel as [|fuel IH]; intros m buf; [discriminate|]. cbn [decode_tlvs].
  destruct (SMPPMessage.peek_tlv_tag buf) as [tag|]; [|discriminate].
  destruct (TAGGED_TLV_FIELDS !! tag) as [t|]; [|discriminate].
  pose proof (tlv_decode_no_panic t buf) as Ht.
  destruct (TLVFieldCodec.decode t buf) as [[v|e|] buf']; simpl in Ht; [apply IH|apply IH|congruence].
Qed.

Lemma decode_fields_no_panic fields m : no_panic (decode_fields fields m).
Proof.
  revert m. induction fields as [|[name d] fields IH]; intros m; [apply no_panic_ret|].
  cbn [decode_fields]. apply no_panic_bind; [|auto]. unfold decode_field.
  destruct (FIELD_CODECS !! name) as [c|]; [|apply no_panic_fail].
  apply no_panic_bind; [apply no_panic_map_err, codec_decode_no_panic|].
  intros v. apply no_panic_ret.
Qed.

Lemma to_json_total m : to_json m ≠ Panic.
Proof.
  unfold to_json. destruct (SMPPMessage.read_u32 _) as [o1 b1].
  destruct (SMPPMessage.read_u32 b1) as [o2 b2]. destruct (SMPPMessage.read_u32 b2) as [o3 b3].
  destruct (SMPPMessage.read_u32 b3) as [[seq|] b4]; [|discriminate].
  destruct (MESSAGE_COMMAND_FIELDS !! _) as [fields|]; [|discriminate].
  pose proof (decode_fields_no_panic fields
    (header_map (default 0%N o2) (default 0%N o3) seq) b4) as Hf.
  destruct (decode_fields fields _ b4) as [[m'|e|] b5]; simpl in Hf; [|discriminate|congruence].
  pose proof (decode_tlvs_no_panic (length b5) m' b5) as Ht.
  destruct (decode_tlvs (length b5) m' b5) as [[m''|e|] b6]; simpl in *;
    [discriminate|discriminate|congruence].
Qed.

(** C16: decoding never panics: for every byte string a peer can send, [to_json] returns
    a message or an error. *)
Theorem to_json_no_panic m : to_json m ≠ Panic.
Proof. apply to_json_total. Qed.

(** ** The loop over the optional parameters ends *)

Lemma tlv_decode_consumes t buf tag r buf' :
  SMPPMessage.peek_tlv_tag buf = Some tag → TLVFieldCodec.decode t buf = (r, buf') →
  length buf' + 2 ≤ length buf.
Proof.
  unfold SMPPMessage.peek_tlv_tag. destruct (Nat.leb_spec 2 (length buf)) as [Hl|]; [|done].
  intros _. unfold TLVFieldCodec.decode.
  destruct (SMPPMessage.read_tlv buf) as [o buf''] eqn:E.
  pose proof (SMPPMessage.read_tlv_length _ _ _ E Hl) as Hc.
  destruct o as [[tag' v]|]; [destruct (_ =? _)%N|]; intros Hr; congruence.
Qed.

(** The fuel given to the loop over the optional parameters is never what ends it:
    with fuel at least the length of the buffer the loop stops because fewer than two
    bytes are left, and more fuel changes nothing. *)
Theorem decode_tlvs_ends fuel m buf :
  length buf ≤ fuel →
  decode_tlvs fuel m buf = decode_tlvs (length buf) m buf ∧
  (∀ m', (decode_tlvs fuel m buf).1 = Ok m' → length (decode_tlvs fuel m buf).2 < 2).
Proof.
  assert (Hgen : ∀ n fuel m buf, length buf ≤ n → n ≤ fuel →
    decode_tlvs fuel m buf = decode_tlvs n m buf ∧
    (∀ m', (decode_tlvs fuel m buf).1 = Ok m' → length (decode_tlvs fuel m buf).2 < 2)).
  { intros n. induction n as [|n IH]; intros fuel0 m0 buf0 Hn Hf.
    { destruct buf0; simpl in Hn; [|lia]. destruct fuel0; simpl; split; try done; lia. }
    destruct fuel0 as [|fuel0]; [lia|]. cbn [decode_tlvs].
    destruct (SMPPMessage.peek_tlv_tag buf0) as [tag|] eqn:Ep.
    - destruct (TAGGED_TLV_FIELDS !! tag) as [t|]; [|split; [done|intros m'; discriminate]].
      destruct (TLVFieldCodec.decode t buf0) as [r buf'] eqn:Ed.
      pose proof (tlv_decode_consumes _ _ _ _ _ Ep Ed) as Hc.
      destruct r as [v|e|]; [apply IH; lia|apply IH; lia|split; [done|intros m'; discriminate]].
    - split; [done|]. intros m' _. simpl. unfold SMPPMessage.peek_tlv_tag in Ep.
      destruct (Nat.leb_spec 2 (length buf0)); [done|lia]. }
  intros Hl. by apply Hgen.
Qed.

(** ** The header *)

Definition header_keys : list string :=
  ["command_name"; "command_id"; "command_status"; "sequence_number"].

Lemma field_names_not_header id fields f :
  MESSAGE_COMMAND_FIELDS !! id = Some fields → f ∈ fields → f.1 ∉ header_keys.
Proof.
  assert (Hb : forallb (λ '(_, fs), forallb (λ f, bool_decide (f.1 ∉ header_keys)) fs)
                (map_to_list MESSAGE_COMMAND_FIELDS) = true) by (vm_compute; reflexivity).
  intros Hid Hf. rewrite <-elem_of_map_to_list, list_elem_of_In in Hid.
  rewrite forallb_forall in Hb. specialize (Hb _ Hid). cbn beta iota in Hb.
  rewrite forallb_forall in Hb. apply list_elem_of_In in Hf. specialize (Hb f Hf).
  by apply bool_decide_eq_true in Hb.
Qed.

Lemma tlv_names_not_header tag t :
  TAGGED_TLV_FIELDS !! tag = Some t → TLVFieldCodec.name t ∉ header_keys.
Proof.
  assert (Hb : forallb (λ e, bool_decide (TLVFieldCodec.name e.2 ∉ header_keys))
                (map_to_list TAGGED_TLV_FIELDS) = true) by (vm_compute; reflexivity).
  intros Ht. rewrite <-elem_of_map_to_list, list_elem_of_In in Ht.
  rewrite forallb_forall in Hb. specialize (Hb _ Ht). by apply bool_decide_eq_true in Hb.
Qed.

(** The loops only write the keys they are about. *)
Lemma decode_fields_other fields m k buf m' buf' :
  Forall (λ f, f.1 ≠ k) fields →
  decode_fields fields m buf = (Ok m', buf') → jget k m' = jget k m.
Proof.
  intros Hf. revert m buf. induction Hf as [|[name d] fields Hn _ IH]; intros m buf.
  { intros Heq. by injection Heq as -> _. }
  cbn [decode_fields]. unfold decode_field. unfold mbind at 1, BufM_bind at 1.
  destruct (FIELD_CODECS !! name) as [c|]; [|discriminate].
  unfold mbind at 1, BufM_bind at 1.
  destruct (BufM_map_err _ _ (codec_decode c) buf) as [[v|e|] b1]; try discriminate.
  cbn. intros Heq. rewrite (IH _ _ Heq). by apply jget_insert_ne.
Qed.

Lemma decode_tlvs_other fuel m k buf m' buf' :
  (∀ tag t, TAGGED_TLV_FIELDS !! tag = Some t → TLVFieldCodec.name t ≠ k) →
  decode_tlvs fuel m buf = (Ok m', buf') → jget k m' = jget k m.
Proof.
  intros Hk. revert m buf. induction fuel as [|fuel IH]; intros m buf; cbn [decode_tlvs].
  { intros Heq. by injection Heq as -> _. }
  destruct (SMPPMessage.peek_tlv_tag buf) as [tag|].
  2: { intros Heq. by injection Heq as -> _. }
  destruct (TAGGED_TLV_FIELDS !! tag) as [t|] eqn:Et; [|discriminate].
  pose proof (Hk _ _ Et) as Hn.
  destruct (TLVFieldCodec.decode t buf) as [[v|e|] b1]; try discriminate;
    intros Heq; rewrite (IH _ _ Heq); by apply jget_insert_ne.
Qed.

(** *** The command id as text *)

(** An upper-case hexadecimal digit. *)
Definition is_hex_digit (b : byte) : bool := in_range 48 57 b || in_range 65 70 b.

Lemma digit_byte_hex d : (d < 16)%N → is_hex_digit (digit_byte true d) = true.
Proof.
  intros Hd. unfold is_hex_digit, digit_byte, in_range. rewrite to_N_byte_of_N.
  destruct (N.ltb_spec d 10); rewrite N.mod_small by lia;
    rewrite orb_true_iff, !andb_true_iff, !N.leb_le; lia.
Qed.

Lemma radix_digits_bound fuel base n :
  (2 ≤ base)%N → Forall (λ d, d < base)%N (radix_digits fuel base n).
Proof.
  intros Hb. revert n. induction fuel as [|fuel IH]; intros n; simpl; [constructor|].
  destruct (N.ltb_spec n base); [by constructor|]. apply Forall_app. split; [apply IH|].
  constructor; [apply N.mod_lt; lia|constructor].
Qed.

Lemma format_hex_digits w n :
  Forall (λ b, is_hex_digit b = true) (as_bytes (format_hex true w n)).
Proof.
  unfold format_hex, pad_left, fmt_radix. rewrite as_of_bytes. apply Forall_app. split.
  - by apply Forall_replicate.
  - apply Forall_fmap. eapply Forall_impl; [apply radix_digits_bound; lia|].
    intros d Hd. by apply digit_byte_hex.
Qed.

Lemma remove_byte_digits c l :
  is_hex_digit c = false → Forall (λ b, is_hex_digit b = true) l → remove_byte c l = l.
Proof.
  intros Hc Hl. unfold remove_byte. induction Hl as [|b l Hb _ IH]; [done|].
  rewrite filter_cons_True; [by rewrite IH|]. intros ->. congruence.
Qed.

Lemma radix_digits_ne fuel base n : 0 < fuel → radix_digits fuel base n ≠ [].
Proof.
  destruct fuel; [lia|]. intros _. simpl. destruct (n <? base)%N; [done|].
  by destruct (radix_digits fuel base (n / base)).
Qed.

Lemma as_bytes_app s t : as_bytes (s +:+ t) = as_bytes s ++ as_bytes t.
Proof.
  induction s as [|c s IH]; [done|].
  change (as_bytes (String c s +:+ t)) with (Ascii.byte_of_ascii c :: as_bytes (s +:+ t)).
  by rewrite IH.
Qed.

Lemma from_str_hex_id n :
  (n < 2 ^ 32)%N → CommandId.from_str (hex_id n) = CommandId.from_u32 n.
Proof.
  intros Hn. unfold CommandId.from_str, hex_id. rewrite as_bytes_app.
  pose proof (format_hex_digits 8 n) as Hd.
  pose proof (parse_digits_format_hex true 8 (2 ^ 32) n Hn) as Hp.
  assert (Hne : as_bytes (format_hex true 8 n) ≠ []).
  { unfold format_hex, pad_left, fmt_radix, digits_of. rewrite as_of_bytes.
    intros He. apply app_nil in He as [_ He]. apply fmap_nil_inv in He.
    by apply radix_digits_ne in He; [|lia]. }
  set (ds := as_bytes (format_hex true 8 n)) in *. clearbody ds.
  assert (Hrm : ∀ c, is_hex_digit c = false → c ≠ x78 →
            remove_byte c (as_bytes "0x" ++ ds) = as_bytes "0x" ++ ds).
  { intros c Hc Hx. change (as_bytes "0x") with [x30; x78]. unfold remove_byte. simpl.
    rewrite filter_cons_True, filter_cons_True by (intros <-; done).
    do 2 f_equal. by apply remove_byte_digits. }
  rewrite !Hrm by done. change (drop 2 (as_bytes "0x" ++ ds)) with (drop 0 ds). rewrite drop_0.
  unfold starts_with. rewrite bool_decide_true by (by exists ds).
  assert (from_str_radix 16 (2 ^ 32) ds = Some n) as ->; [|done].
  destruct Hd as [|b ds Hb Hd]; [done|]. unfold from_str_radix.
  destruct b; try (by vm_compute in Hb); exact Hp.
Qed.

Lemma hex_id_roundtrip m id : (id < 2 ^ 32)%N → get m "command_id" = Some (JString (hex_id id)) →
  extract_command_id m = CommandId.from_u32 id.
Proof. intros Hid Hm. unfold extract_command_id. rewrite Hm. by apply from_str_hex_id. Qed.

Lemma read_u32_cases b :
  (4 ≤ length b ∧ SMPPMessage.read_u32 b = (Some (be_N (take 4 b)), drop 4 b)) ∨
  (length b < 4 ∧ SMPPMessage.read_u32 b = (None, b)).
Proof.
  unfold SMPPMessage.read_u32, SMPPMessage.try_get.
  destruct (Nat.leb_spec 4 (length b)); [left|right]; auto.
Qed.

Lemma get_be32_read k b :
  k + 4 ≤ length b → get_be32 k b = Some (be_N (take 4 (drop k b))).
Proof. intros Hl. unfold get_be32. by rewrite (proj2 (Nat.leb_le _ _)). Qed.

Lemma be_N_take4_bound b : (be_N (take 4 b) < 2 ^ 32)%N.
Proof.
  eapply N.lt_le_trans; [apply be_N_bound|]. rewrite length_take.
  change (2 ^ 32)%N with (256 ^ 4)%N. apply N.pow_le_mono_r; lia.
Qed.

(** The JSON message read step by step. *)
Lemma to_json_inv m j :
  to_json m = Ok j → ∃ id status seq fields buf m1 b1 m2 b2,
    SMPPMessage.get_command_id m = Some id ∧ SMPPMessage.get_command_status m = Some status ∧
    SMPPMessage.get_sequence_number m = Some seq ∧ (id < 2 ^ 32)%N ∧
    MESSAGE_COMMAND_FIELDS !! id = Some fields ∧
    decode_fields fields (header_map id status seq) buf = (Ok m1, b1) ∧
    decode_tlvs (length b1) m1 b1 = (Ok m2, b2) ∧ j = JObject m2 ∧
    (∀ k, k ∈ header_keys → jget k m2 = jget k (header_map id status seq)).
Proof.
  destruct m as [b]. unfold to_json, SMPPMessage.get_command_id, SMPPMessage.get_command_status,
    SMPPMessage.get_sequence_number. cbn [SMPPMessage.message].
  destruct (read_u32_cases b) as [[H0 E0]|[H0 E0]].
  2: { repeat (rewrite E0; cbv beta iota). discriminate. }
  rewrite E0; cbv beta iota. clear E0.
  destruct (read_u32_cases (drop 4 b)) as [[H1 E1]|[H1 E1]].
  2: { repeat (rewrite E1; cbv beta iota). discriminate. }
  rewrite E1; cbv beta iota. clear E1. rewrite drop_drop. simpl Nat.add.
  destruct (read_u32_cases (drop 8 b)) as [[H2 E2]|[H2 E2]].
  2: { repeat (rewrite E2; cbv beta iota). discriminate. }
  rewrite E2; cbv beta iota. clear E2. rewrite drop_drop. simpl Nat.add.
  destruct (read_u32_cases (drop 12 b)) as [[H3 E3]|[H3 E3]].
  2: { rewrite E3; cbv beta iota. discriminate. }
  rewrite E3; cbv beta iota. clear E3. rewrite drop_drop. simpl Nat.add.
  rewrite length_drop in *. rewrite !get_be32_read by lia.
  pose proof (be_N_take4_bound (drop 4 b)) as Hidb.
  set (id := be_N (take 4 (drop 4 b))) in *. set (status := be_N (take 4 (drop 8 b))).
  set (seq := be_N (take 4 (drop 12 b))). cbv zeta.
  change (default 0%N (Some id)) with id. change (default 0%N (Some status)) with status.
  clearbody id status seq.
  destruct (MESSAGE_COMMAND_FIELDS !! id) as [fields|] eqn:Ef; [|discriminate].
  destruct (decode_fields fields _ _) as [[m1|e|] b1] eqn:Ed; [|discriminate|discriminate].
  destruct (decode_tlvs (length b1) m1 b1) as [[m2|e|] b2] eqn:Et; [|discriminate|discriminate].
  cbn. intros Hj. assert (j = JObject m2) as -> by congruence.
  exists id, status, seq, fields, (drop 16 b), m1, b1, m2, b2. split_and!; try done.
  intros k Hk. rewrite (decode_tlvs_other _ _ k _ _ _) by
    (try exact Et; intros tag t Ht He; apply (tlv_names_not_header _ _ Ht); by rewrite He).
  apply (decode_fields_other _ _ k _ _ _) in Ed; [exact Ed|]. apply Forall_forall.
  intros f Hin He. apply (field_names_not_header _ _ _ Ef Hin). by rewrite He.
Qed.

(** The header fields of a decoded message. *)
Lemma to_json_header_get m j :
  to_json m = Ok j → ∃ id status seq,
    SMPPMessage.get_command_id m = Some id ∧ SMPPMessage.get_command_status m = Some status ∧
    SMPPMessage.get_sequence_number m = Some seq ∧
    extract_command_id j = CommandId.from_u32 id ∧
    get_u64 j "command_status" = Some status ∧ get_u64 j "sequence_number" = Some seq.
Proof.
  intros (id & status & seq & fields & buf & m1 & b1 & m2 & b2 & H1 & H2 & H3 & Hid & _ & _ & _ & -> & Hkeep)%to_json_inv.
  exists id, status, seq. split_and!; [exact H1|exact H2|exact H3| | |].
  - apply hex_id_roundtrip; [exact Hid|]. cbn [get]. by rewrite Hkeep by set_solver.
  - unfold get_u64. cbn [get]. by rewrite Hkeep by set_solver.
  - unfold get_u64. cbn [get]. by rewrite Hkeep by set_solver.
Qed.

(** The JSON form of a PDU has the PDU's own header: the command found in it is the
    one of the command_id field, and command_status and sequence_number are the fields'
    values; no mandatory field and no optional parameter overwrites them. *)
Theorem to_json_header m j :
  to_json m = Ok j → ∃ id status seq,
    SMPPMessage.get_command_id m = Some id ∧ SMPPMessage.get_command_status m = Some status ∧
    SMPPMessage.get_sequence_number m = Some seq ∧
    extract_command_id j = CommandId.from_u32 id ∧
    get_u64 j "command_status" = Some status ∧ get_u64 j "sequence_number" = Some seq.
Proof. apply to_json_header_get. Qed.

(** ** What is written stays written *)

(** A computation that leaves the buffer it got as a prefix of the one it leaves. *)
Definition grows {A} (m : BufM A) : Prop := ∀ buf, buf `prefix_of` (m buf).2.

Lemma grows_bind {A B} (m : BufM A) (k : A → BufM B) :
  grows m → (∀ a, grows (k a)) → grows (m ≫= k).
Proof.
  intros Hm Hk buf. specialize (Hm buf). unfold mbind, BufM_bind.
  destruct (m buf) as [[a|e|] buf']; simpl in *; [|done|done].
  etrans; [exact Hm|apply Hk].
Qed.

Lemma grows_ret {A} (a : A) : grows (mret a).
Proof. intros buf. done. Qed.

Lemma grows_fail {A} k msg : grows (BufM_fail (A := A) k msg).
Proof. intros buf. done. Qed.

Lemma grows_lift {A} (r : ioresult A) : grows (BufM_lift r).
Proof. intros buf. done. Qed.

Lemma grows_put f : (∀ buf, buf `prefix_of` f buf) → grows (put f).
Proof. intros Hf buf. apply Hf. Qed.

Lemma grows_map_err {A} k msg (m : BufM A) : grows m → grows (BufM_map_err k msg m).
Proof. intros Hm buf. specialize (Hm buf). unfold BufM_map_err. by destruct (m buf). Qed.

Lemma grows_iter {A} (f : A → BufM unit) xs : (∀ x, grows (f x)) → grows (BufM_iter f xs).
Proof.
  intros Hf. induction xs as [|x xs IH]; simpl; [apply grows_ret|]. by apply grows_bind.
Qed.

Create HintDb grows.
#[local] Hint Resolve grows_bind grows_ret grows_fail grows_lift grows_put grows_map_err
  grows_iter prefix_app_r : grows.

Lemma prefix_append (buf bs : bytes) : buf `prefix_of` buf ++ bs.
Proof. by exists bs. Qed.
#[local] Hint Resolve prefix_append : grows.

Lemma write_c_octet_str_grows s : grows (put (SMPPMessage.write_c_octet_str s)).
Proof.
  apply grows_put. intros buf. unfold SMPPMessage.write_c_octet_str. rewrite <-app_assoc.
  apply prefix_append.
Qed.

Lemma write_u8_grows n : grows (put (SMPPMessage.write_u8 n)).
Proof. apply grows_put. intros buf. apply prefix_append. Qed.
#[local] Hint Resolve write_c_octet_str_grows write_u8_grows : grows.

Lemma dest_encode_grows v : grows (DestAddressFieldCodec.encode v).
Proof.
  unfold DestAddressFieldCodec.encode. destruct v; auto with grows.
  repeat case_match; auto 10 with grows;
    repeat (apply grows_bind; [auto with grows|intros ?]); auto with grows.
Qed.

Lemma codec_encode_grows c v : grows (codec_encode c v).
Proof.
  revert v. induction c as [| | |m|li lb| | |c IH|fs IH| |] using FieldCodec_nested_ind; intros v.
  - cbn. unfold U8FieldCodec.encode. repeat case_match; auto with grows.
  - cbn. unfold OptionalU8FieldCodec.encode. repeat case_match; auto with grows.
  - cbn [codec_encode]. unfold VarLengthIntFieldCodec.encode.
    destruct v as [| |num| | |]; auto with grows. destruct (num_as_u64 num); auto with grows.
    apply grows_put. intros buf. apply prefix_append.
  - cbn. unfold COctetStrFieldCodec.encode. destruct v; auto with grows.
  - cbn. unfold OctetFieldCodec.encode. destruct v; auto with grows.
    apply grows_bind; [|intros; apply grows_put; intros; apply prefix_append].
    destruct li; [|auto with grows]. apply grows_put. intros buf.
    unfold OctetFieldCodec.write_length, SMPPMessage.write_u8, SMPPMessage.write_u16, SMPPMessage.write_u32.
    repeat case_match; auto with grows.
  - cbn. unfold U16FieldCodec.encode. destruct v as [| |num| | |]; auto with grows.
    destruct (num_as_u64 num); auto with grows. apply grows_put. intros buf. apply prefix_append.
  - cbn. unfold U32FieldCodec.encode. destruct v as [| |num| | |]; auto with grows.
    destruct (num_as_u64 num); auto with grows. apply grows_put. intros buf. apply prefix_append.
  - cbn. unfold ArrayFieldCodec.encode. destruct v; auto with grows.
    destruct (Nat.ltb _ _); auto with grows.
  - cbn [codec_encode]. unfold CompositeFieldCodec.encode.
    induction IH as [|[name c] fs Hc _ IHfs]; [apply grows_ret|].
    cbn [fmap list_fmap BufM_iter]. apply grows_bind; [|intros []; exact IHfs].
    destruct (get v name); [apply Hc|apply grows_fail].
  - apply dest_encode_grows.
  - cbn. unfold DestAddressesFieldCodec.encode. destruct v; auto with grows.
    apply grows_bind; [auto with grows|]. intros []. apply grows_iter, dest_encode_grows.
Qed.

Lemma tlv_encode_grows t v : grows (TLVFieldCodec.encode t v).
Proof.
  intros buf. unfold TLVFieldCodec.encode.
  destruct (codec_encode (TLVFieldCodec.value_codec t) v []) as [[a|e|] bs]; simpl; [|done|done].
  unfold SMPPMessage.write_u16. rewrite <-!app_assoc. apply prefix_append.
Qed.

Context `{TlvOrder}.

Lemma encode_field_grows v f : grows (encode_field v f).
Proof.
  destruct f as [name d]. unfold encode_field.
  destruct (FIELD_CODECS !! name) as [c|]; [|apply grows_fail].
  destruct (match get v name with Some x => Some x | None => d end); [|apply grows_fail].
  apply grows_map_err, codec_encode_grows.
Qed.

Lemma encode_tlv_grows v e : grows (encode_tlv v e).
Proof.
  destruct e as [name t]. unfold encode_tlv. destruct (get v name); [|apply grows_ret].
  apply grows_map_err, tlv_encode_grows.
Qed.

Lemma appends_then_grows (m : BufM unit) (k : unit → BufM unit) bs cs buf r out :
  appends m bs → grows (k tt) → (m ≫= k) buf = (r, out) → cs = buf ++ bs → cs `prefix_of` out.
Proof.
  intros Hm Hk Heq ->. rewrite (BufM_bind_ok _ _ _ _ _ (Hm buf)) in Heq.
  specialize (Hk (buf ++ bs)). by rewrite Heq in Hk.
Qed.

(** The header of what [from_json] builds, byte for byte. *)
Lemma from_json_layout v m cmd status seq :
  from_json v = Ok m → extract_command_id v = Some cmd →
  header_number v "command_status" = Some status →
  header_number v "sequence_number" = Some seq →
  ∃ rest, SMPPMessage.message m
    = be_bytes 4 (cast_u32 (N.of_nat (SMPPMessage.len m))) ++ be_bytes 4 (CommandId.as_u32 cmd)
      ++ be_bytes 4 status ++ be_bytes 4 seq ++ rest.
Proof.
  intros Hm Hcmd Hst Hsq. unfold from_json in Hm. rewrite Hcmd in Hm.
  unfold encode_message_with_fields in Hm.
  apply header_number_spec in Hst as [Hast _]. apply header_number_spec in Hsq as [Hasq _].
  destruct (encode_body (CommandId.as_u32 cmd) v []) as [[[]|e|] body] eqn:Eb; [|discriminate|discriminate].
  assert (Hpre : (be_bytes 4 0 ++ be_bytes 4 (CommandId.as_u32 cmd) ++ be_bytes 4 status
                  ++ be_bytes 4 seq) `prefix_of` body).
  { unfold encode_body in Eb.
    assert (Hput : ∀ n, appends (put (SMPPMessage.write_u32 n)) (be_bytes 4 n)) by (intros n; by apply appends_put).
    rewrite (BufM_bind_ok _ _ _ _ _ (Hput _ _)), (BufM_bind_ok _ _ _ _ _ (Hput _ _)) in Eb.
    rewrite (BufM_bind_ok _ _ _ _ _ (Hast _)), (BufM_bind_ok _ _ _ _ _ (Hasq _)) in Eb.
    assert (Hg : grows (match MESSAGE_COMMAND_FIELDS !! CommandId.as_u32 cmd with
              | None => BufM_fail InvalidInput ("Unknown command_id: " +:+ hex_id (CommandId.as_u32 cmd))
              | Some fields => BufM_iter (encode_field v) fields ≫= λ _, BufM_iter (encode_tlv v) tlv_iter
              end)).
    { destruct (MESSAGE_COMMAND_FIELDS !! _); [|apply grows_fail].
      apply grows_bind; [apply grows_iter, encode_field_grows|].
      intros _. apply grows_iter, encode_tlv_grows. }
    specialize (Hg (((([] ++ be_bytes 4 0) ++ be_bytes 4 (CommandId.as_u32 cmd)) ++ be_bytes 4 status)
                    ++ be_bytes 4 seq)).
    rewrite Eb in Hg. cbn [snd] in Hg. rewrite <-!app_assoc in Hg. exact Hg. }
  destruct Hpre as [rest ->]. rewrite <-!app_assoc in Hm.
  set (tail := be_bytes 4 (CommandId.as_u32 cmd) ++ be_bytes 4 status ++ be_bytes 4 seq ++ rest) in *.
  unfold SMPPMessage.from_bytes_mut in Hm.
  assert (Hlt : 12 ≤ length tail) by (subst tail; rewrite !length_app, !length_be_bytes; lia).
  destruct (update_length_spec (be_bytes 4 0 ++ tail)) as (b & Hup & Hb & Hlen).
  { rewrite length_app, length_be_bytes. lia. }
  rewrite drop_app_length' in Hb by (by rewrite length_be_bytes).
  assert (m = SMPPMessage.mk b) as -> by congruence.
  exists rest. unfold SMPPMessage.len. cbn [SMPPMessage.message]. rewrite Hlen. exact Hb.
Qed.

(** A 32-bit field found at its offset. *)
Lemma get_be32_at b x w y k :
  b = x ++ be_bytes 4 w ++ y → length x = k → (w < 2 ^ 32)%N → get_be32 k b = Some w.
Proof.
  intros -> <- Hw. rewrite get_be32_read by (rewrite !length_app, length_be_bytes; lia).
  rewrite drop_app_length, take_app_length' by (by rewrite length_be_bytes).
  rewrite be_N_be_bytes. by rewrite N.mod_small.
Qed.

Lemma layout_header m id status seq rest l :
  (id < 2 ^ 32)%N → (status < 2 ^ 32)%N → (seq < 2 ^ 32)%N →
  SMPPMessage.message m = be_bytes 4 l ++ be_bytes 4 id ++ be_bytes 4 status ++ be_bytes 4 seq ++ rest →
  SMPPMessage.get_command_id m = Some id ∧ SMPPMessage.get_command_status m = Some status ∧
  SMPPMessage.get_sequence_number m = Some seq.
Proof.
  intros Hid Hst Hsq Hm. unfold SMPPMessage.get_command_id, SMPPMessage.get_command_status,
    SMPPMessage.get_sequence_number. split_and!.
  - by apply (get_be32_at _ (be_bytes 4 l) _ (be_bytes 4 status ++ be_bytes 4 seq ++ rest)).
  - apply (get_be32_at _ (be_bytes 4 l ++ be_bytes 4 id) _ (be_bytes 4 seq ++ rest)); try done.
  - apply (get_be32_at _ (be_bytes 4 l ++ be_bytes 4 id ++ be_bytes 4 status) _ rest); try done.
Qed.

(** C18: every PDU that [from_json] builds from a message whose command_status and
    sequence_number are unsigned integers or absent carries its own length, and in its header
    the command of the JSON message, its command_status and its sequence_number (zero when
    absent), whatever its other fields are. *)
Theorem from_json_header v m cmd status seq :
  from_json v = Ok m → extract_command_id v = Some cmd →
  header_number v "command_status" = Some status →
  header_number v "sequence_number" = Some seq →
  SMPPMessage.get_command_id m = Some (CommandId.as_u32 cmd) ∧
  SMPPMessage.get_command_status m = Some status ∧
  SMPPMessage.get_sequence_number m = Some seq ∧
  ((N.of_nat (SMPPMessage.len m) < 2 ^ 32)%N → SmppMessageBuffer.framed (SMPPMessage.to_vec m)).
Proof.
  intros Hm Hcmd Hst Hsq. destruct (from_json_layout _ _ _ _ _ Hm Hcmd Hst Hsq) as [rest Hb].
  apply header_number_spec in Hst as [_ Hst]. apply header_number_spec in Hsq as [_ Hsq].
  destruct (layout_header _ _ _ _ _ _ (CommandId.as_u32_bound cmd) Hst Hsq Hb) as (H1 & H2 & H3).
  split_and!; [exact H1|exact H2|exact H3|].
  intros Hl. unfold SMPPMessage.to_vec. split.
  - rewrite Hb, !length_app, !length_be_bytes. lia.
  - rewrite Hb at 1. rewrite take_app_length' by (by rewrite length_be_bytes).
    rewrite be_N_be_bytes. unfold cast_u32. rewrite N.Div0.mod_mod. by apply N.mod_small.
Qed.

End props.
