(* ===== verification/ResponseProps.v ===== *)
(** * PDUs built by hand

    What [from_json] makes of the messages the handlers build with [create_json_response]
    and [json!]: a header alone, a missing mandatory field, the fields of a response; which responses are
    always encoded. *)
From S2P Require Export MessageProps.

Section responses.
Context `{B64 : Base64, Tlv : TlvOrder}.

Lemma create_json_response_get id seq status fields k :
  k ∉ fields.*1 →
  get (create_json_response id seq status fields) k
  = if decide (k = "sequence_number") then Some (jnum seq)
    else if decide (k = "command_status") then Some (jnum status)
    else if decide (k = "command_id") then Some (JString (hex_id (N.lor 0x80000000 id)))
    else None.
Proof.
  intros Hk. unfold create_json_response. cbn [get]. rewrite jget_extend_not_in by done.
  rewrite !jget_insert. repeat case_decide; subst; done.
Qed.

Lemma lor_bound a b : (a < 2 ^ 32)%N → (b < 2 ^ 32)%N → (N.lor a b < 2 ^ 32)%N.
Proof.
  intros Ha Hb. destruct (decide (N.lor a b = 0%N)) as [->|Hne]; [done|].
  apply N.log2_lt_pow2; [lia|]. rewrite N.log2_lor.
  destruct (decide (a = 0%N)) as [->|], (decide (b = 0%N)) as [->|]; try done.
  - rewrite N.max_r; [|apply N.log2_nonneg]. by apply N.log2_lt_pow2; lia.
  - rewrite N.max_l; [|apply N.log2_nonneg]. by apply N.log2_lt_pow2; lia.
  - apply N.max_lub_lt; by apply N.log2_lt_pow2; lia.
Qed.

Lemma valid_tlv_not_header name : is_valid_tlv_field name = true → name ∉ header_keys.
Proof.
  assert (Hb : forallb (λ e, bool_decide (e.1 ∉ header_keys)) (map_to_list NAMED_TLV_FIELDS) = true)
    by (vm_compute; reflexivity).
  unfold is_valid_tlv_field. intros [t Ht]%bool_decide_eq_true.
  rewrite <-elem_of_map_to_list, list_elem_of_In in Ht.
  rewrite forallb_forall in Hb. specialize (Hb _ Ht). by apply bool_decide_eq_true in Hb.
Qed.

Lemma BufM_iter_ok {A} (f : A → BufM unit) xs x buf b' :
  BufM_iter f xs buf = (Ok tt, b') → x ∈ xs → ∃ b0 b1, f x b0 = (Ok tt, b1).
Proof.
  revert buf. induction xs as [|y xs IH]; intros buf Heq Hx; [by apply elem_of_nil in Hx|].
  cbn [BufM_iter] in Heq. unfold mbind, BufM_bind in Heq.
  destruct (f y buf) as [[[]|e|] b1] eqn:E; [|discriminate..].
  apply elem_of_cons in Hx as [->|Hx]; [by eexists _, _|]. by eapply IH.
Qed.

(** When a message is encoded, so is each of its mandatory fields. *)
Lemma from_json_field_ok v m cmd fields f :
  from_json v = Ok m → extract_command_id v = Some cmd →
  MESSAGE_COMMAND_FIELDS !! CommandId.as_u32 cmd = Some fields → f ∈ fields →
  ∃ b0 b1, encode_field v f b0 = (Ok tt, b1).
Proof.
  intros Hm Hcmd Hf Hin. unfold from_json, encode_message_with_fields in Hm. rewrite Hcmd in Hm.
  destruct (encode_body (CommandId.as_u32 cmd) v []) as [[[]|e|] body] eqn:Eb; [|discriminate..].
  unfold encode_body in Eb. rewrite Hf in Eb. clear Hf Hm Hcmd.
  repeat match type of Eb with
  | (?m ≫= _) ?b = _ =>
      lazymatch m with
      | BufM_iter _ _ => fail
      | _ => unfold mbind at 1, BufM_bind at 1 in Eb;
             destruct (m b) as [[[]|e|] ?]; [|discriminate..]
      end
  end.
  unfold mbind, BufM_bind in Eb.
  destruct (BufM_iter (encode_field v) fields _) as [[[]|e|] b1] eqn:E1; [|discriminate..].
  by apply (BufM_iter_ok _ _ _ _ _ E1 Hin).
Qed.

(** A mandatory field without a default has to be there. *)
Lemma from_json_mandatory v m cmd fields name :
  from_json v = Ok m → extract_command_id v = Some cmd →
  MESSAGE_COMMAND_FIELDS !! CommandId.as_u32 cmd = Some fields → (name, None) ∈ fields →
  is_Some (get v name).
Proof.
  intros Hm Hcmd Hf Hin. destruct (from_json_field_ok v m cmd fields _ Hm Hcmd Hf Hin) as (b0 & b1 & He).
  unfold encode_field in He. destruct (FIELD_CODECS !! name); [|discriminate].
  destruct (get v name); [done|discriminate].
Qed.

Lemma named_tlv_not_header name t : NAMED_TLV_FIELDS !! name = Some t → name ∉ header_keys.
Proof.
  intros Ht. apply valid_tlv_not_header. unfold is_valid_tlv_field. rewrite Ht.
  by apply bool_decide_eq_true.
Qed.

Lemma appends_ret : appends (mret tt) [].
Proof. intros buf. by rewrite app_nil_r. Qed.

Lemma encode_tlvs_absent v l :
  Forall (λ e, get v e.1 = None) l → appends (BufM_iter (encode_tlv v) l) [].
Proof.
  intros Hl. induction Hl as [|[name t] l He _ IH]; [apply appends_ret|].
  cbn [BufM_iter]. change [] with (@nil byte ++ []). apply appends_bind; [|exact IH].
  unfold encode_tlv. cbn [fst] in He. rewrite He. apply appends_ret.
Qed.

(** A message without mandatory fields and optional parameters is its header. *)
Lemma from_json_bare v cmd status seq :
  extract_command_id v = Some cmd → MESSAGE_COMMAND_FIELDS !! CommandId.as_u32 cmd = Some [] →
  header_number v "command_status" = Some status →
  header_number v "sequence_number" = Some seq →
  (∀ name, name ∉ header_keys → get v name = None) →
  from_json v = Ok (SMPPMessage.mk (be_bytes 4 16 ++ be_bytes 4 (CommandId.as_u32 cmd)
                                    ++ be_bytes 4 status ++ be_bytes 4 seq)).
Proof.
  intros Hcmd Hf Hst Hsq Hno.
  apply header_number_spec in Hst as [Hst _]. apply header_number_spec in Hsq as [Hsq _].
  assert (Happ : appends (encode_body (CommandId.as_u32 cmd) v)
    (be_bytes 4 0 ++ be_bytes 4 (CommandId.as_u32 cmd) ++ be_bytes 4 status ++ be_bytes 4 seq ++ [] ++ [])).
  { unfold encode_body. do 2 (apply appends_bind; [by apply appends_put|]).
    do 2 (apply appends_bind; [assumption|]). rewrite Hf.
    apply appends_bind; [apply appends_ret|]. apply encode_tlvs_absent, Forall_forall.
    intros [name t] Hin. rewrite tlv_iter_perm, elem_of_map_to_list in Hin.
    exact (Hno name (named_tlv_not_header _ _ Hin)). }
  unfold from_json, encode_message_with_fields. rewrite Hcmd, (Happ []). cbn [app].
  rewrite !app_nil_r. unfold SMPPMessage.from_bytes_mut.
  match goal with |- context [SMPPMessage.mk ?body] =>
    destruct (update_length_spec body) as (m & -> & -> & _) end.
  { by rewrite !length_app, !length_be_bytes. }
  rewrite drop_app_length' by (by rewrite length_be_bytes).
  by rewrite !length_app, !length_be_bytes.
Qed.

(** The first mandatory field missing: an error, before anything can panic. *)
Lemma from_json_first_missing v cmd name fields :
  extract_command_id v = Some cmd →
  MESSAGE_COMMAND_FIELDS !! CommandId.as_u32 cmd = Some ((name, None) :: fields) →
  is_Some (header_number v "command_status") → is_Some (header_number v "sequence_number") →
  get v name = None → ∃ e, from_json v = Err e.
Proof.
  intros Hcmd Hf [st Hst] [sq Hsq] Hno.
  apply header_number_spec in Hst as [Hst _]. apply header_number_spec in Hsq as [Hsq _].
  assert (Hput : ∀ n, appends (put (SMPPMessage.write_u32 n)) (be_bytes 4 n)) by (intros n; by apply appends_put).
  assert (Hfail : ∀ buf, ∃ e, encode_field v (name, None) buf = (Err e, buf)).
  { intros buf. unfold encode_field. rewrite Hno. destruct (FIELD_CODECS !! name); by eexists. }
  unfold from_json, encode_message_with_fields. rewrite Hcmd. unfold encode_body.
  rewrite (BufM_bind_ok _ _ _ _ _ (Hput _ _)), (BufM_bind_ok _ _ _ _ _ (Hput _ _)).
  rewrite (BufM_bind_ok _ _ _ _ _ (Hst _)), (BufM_bind_ok _ _ _ _ _ (Hsq _)), Hf.
  cbn [BufM_iter]. unfold mbind, BufM_bind. edestruct Hfail as [e ->]. by exists e.
Qed.

(** ** Normal forms of responses *)

Lemma normalize_tlvs_absent v l :
  Forall (λ e, get v e.1 = None) l → normalize_tlvs v l = Some [].
Proof.
  induction 1 as [|[name t] l Hn _ IH]; [done|]. simpl in *. by rewrite IH, Hn.
Qed.

Lemma normalize_tlvs_one v l name t x w :
  NoDup l.*1 → (name, t) ∈ l → get v name = Some x → normalize_tlv t x = Some w →
  (∀ n, n ∈ l.*1 → n ≠ name → get v n = None) → normalize_tlvs v l = Some [(name, w)].
Proof.
  intros Hnd Hin Hx Hw Hno. induction l as [|[n t'] l IH]; [by apply elem_of_nil in Hin|].
  rewrite fmap_cons in Hnd, Hno. apply NoDup_cons in Hnd as [Hn Hnd]. cbn [fst] in *.
  apply elem_of_cons in Hin as [[= <- <-]|Hin]; cbn [normalize_tlvs].
  - rewrite normalize_tlvs_absent; [cbn; by rewrite Hx, Hw|]. apply Forall_forall. intros e He.
    pose proof (list_elem_of_fmap_2 fst _ e He) as Hin. apply Hno; [by apply elem_of_cons; right|]. intros Heq. by rewrite Heq in Hin.
  - assert (Hne : n ≠ name). { intros ->. apply Hn. by apply (list_elem_of_fmap_2 fst _ (name, t)). }
    rewrite IH; [|done..|intros; apply Hno; [by apply elem_of_cons; right|done] ].
    cbn. rewrite Hno; [done|by apply elem_of_cons; left|done].
Qed.

Lemma map_to_list_tlv_name name :
  name ∈ (map_to_list NAMED_TLV_FIELDS).*1 → name ∉ header_keys.
Proof.
  intros ([n t] & -> & Hin)%list_elem_of_fmap. rewrite elem_of_map_to_list in Hin.
  by apply (named_tlv_not_header _ t).
Qed.

(** *** The header of a response *)

Section header.
Context (id seq status : N) (fields : list (string * Value)) (cmd : CommandId.t).
Let v := create_json_response id seq status fields.
Context (Hid : (id < 2 ^ 32)%N) (Hst : (status < 2 ^ 32)%N) (Hsq : (seq < 2 ^ 32)%N).
Context (Hk : ∀ k, k ∈ header_keys → k ∉ fields.*1).
Context (Hcmd : CommandId.from_u32 (N.lor 0x80000000 id) = Some cmd).

Lemma response_get k : k ∈ header_keys → get v k
  = if decide (k = "sequence_number") then Some (jnum seq)
    else if decide (k = "command_status") then Some (jnum status)
    else if decide (k = "command_id") then Some (JString (hex_id (N.lor 0x80000000 id)))
    else None.
Proof. intros Hin. by apply create_json_response_get, Hk. Qed.

Lemma response_command : extract_command_id v = Some cmd.
Proof.
  rewrite <-Hcmd. apply hex_id_roundtrip; [by apply lor_bound|].
  rewrite response_get; [done|]. apply (bool_decide_unpack _). vm_compute. exact I.
Qed.

Lemma response_status : header_number v "command_status" = Some status.
Proof.
  transitivity (Some (cast_u32 status)); [|unfold cast_u32; by rewrite N.mod_small].
  unfold header_number. rewrite response_get; [done|].
  apply (bool_decide_unpack _). vm_compute. exact I.
Qed.

Lemma response_sequence : header_number v "sequence_number" = Some seq.
Proof.
  transitivity (Some (cast_u32 seq)); [|unfold cast_u32; by rewrite N.mod_small].
  unfold header_number. rewrite response_get; [done|].
  apply (bool_decide_unpack _). vm_compute. exact I.
Qed.

(** The PDU of a response repeats its header. *)
Lemma response_pdu_header m :
  from_json v = Ok m →
  SMPPMessage.get_command_id m = Some (N.lor 0x80000000 id) ∧
  SMPPMessage.get_command_status m = Some status ∧ SMPPMessage.get_sequence_number m = Some seq.
Proof.
  intros Hm. rewrite <-(CommandId.command_id_as_from_u32 _ _ Hcmd).
  destruct (from_json_layout v m cmd status seq Hm response_command response_status response_sequence)
    as [rest Hr].
  by apply (layout_header m _ status seq rest _ (CommandId.as_u32_bound cmd) Hst Hsq Hr).
Qed.

(** The normal form of a response. *)
Lemma response_normal cmd_fields fs ws :
  MESSAGE_COMMAND_FIELDS !! CommandId.as_u32 cmd = Some cmd_fields →
  mapM (normalize_field v) cmd_fields = Some fs →
  normalize_tlvs v (map_to_list NAMED_TLV_FIELDS) = Some ws →
  normalize_message v
  = Some (JObject (jextend (fs ++ ws) (header_map (N.lor 0x80000000 id) status seq))).
Proof.
  intros Hf Hfs Hws. unfold normalize_message. rewrite response_command. cbn [mbind option_bind].
  rewrite response_status, response_sequence. cbn [mbind option_bind]. rewrite Hf.
  cbn [mbind option_bind]. rewrite Hfs. cbn [mbind option_bind]. rewrite Hws.
  cbn [mbind option_bind]. by rewrite (CommandId.command_id_as_from_u32 _ _ Hcmd).
Qed.

(** A key outside the header and the given fields is absent. *)
Lemma response_get_other k : k ∉ header_keys → k ∉ fields.*1 → get v k = None.
Proof.
  intros Hn Hf. subst v. rewrite create_json_response_get by done.
  rewrite !decide_False; [done|..]; intros ->; apply Hn;
    apply (bool_decide_unpack _); vm_compute; exact I.
Qed.
End header.

(** ** Messages that are sent again under another sequence number *)

Lemma normalize_fields_names v fields fs :
  mapM (normalize_field v) fields = Some fs → fs.*1 = fields.*1.
Proof.
  intros Hf%mapM_Some. induction Hf as [|f [k w] fields fs Hn _ IH]; [done|].
  cbn [fmap list_fmap fst]. rewrite <-IH. f_equal. unfold normalize_field in Hn.
  destruct (FIELD_CODECS !! f.1); [|discriminate]. cbn [mbind option_bind] in Hn.
  destruct (match get v f.1 with Some x => Some x | None => f.2 end); [|discriminate].
  cbn [mbind option_bind] in Hn. destruct (normalize _ _); [|discriminate]. by injection Hn as <-.
Qed.

Lemma jinsert_same k v w m : jinsert k w (jinsert k v m) = jinsert k w m.
Proof.
  induction m as [|[c x] m IH]; cbn [jinsert]; [by rewrite decide_True|].
  destruct (decide (k = c)) as [->|Hne]; cbn [jinsert]; [by rewrite decide_True|].
  destruct (String.ltb k c) eqn:E; cbn [jinsert]; [by rewrite decide_True|].
  by rewrite decide_False, E, IH.
Qed.

Lemma header_map_sequence id status seq seq' :
  header_map id status seq' = jinsert "sequence_number" (jnum seq') (header_map id status seq).
Proof. unfold header_map. cbn [jextend fold_left]. by rewrite jinsert_same. Qed.

Lemma update_sequence_bytes (a b c d rest : bytes) n :
  length a = 4 → length b = 4 → length c = 4 → length d = 4 →
  SMPPMessage.update_sequence_number (SMPPMessage.mk (a ++ b ++ c ++ d ++ rest)) n
  = Ok (SMPPMessage.mk (a ++ b ++ c ++ be_bytes 4 n ++ rest)).
Proof.
  intros Ha Hb Hc Hd. unfold SMPPMessage.update_sequence_number, put_be32. cbn [SMPPMessage.message].
  rewrite (proj2 (Nat.leb_le _ _)) by (rewrite !length_app; lia). cbn [fmap outcome_fmap].
  replace (a ++ b ++ c ++ d ++ rest) with ((a ++ b ++ c) ++ d ++ rest) by by rewrite <-!app_assoc.
  rewrite take_app_length', (app_assoc _ d rest), drop_app_length'
    by (rewrite !length_app; lia).
  by rewrite <-!app_assoc.
Qed.

(** The PDU of a message under another sequence number decodes to the normal form with that
    number. *)
Lemma resequenced v w m seq :
  normalize_message v = Some w → from_json v = Ok m → (seq < 2 ^ 32)%N → ∃ m' cmd,
    SMPPMessage.update_sequence_number m seq = Ok m' ∧ extract_command_id v = Some cmd ∧
    SMPPMessage.get_command_id m = Some (CommandId.as_u32 cmd) ∧
    SMPPMessage.get_command_id m' = Some (CommandId.as_u32 cmd) ∧
    SMPPMessage.get_sequence_number m' = Some seq ∧
    to_json m' = Ok (insert_in_object w "sequence_number" (jnum seq)).
Proof.
  intros (cmd & status & sq & fields & fs & ws & rest & b & _ & Hf & Hfs & Hws & -> & Hc & Hm & Hb & Hst & Hsq & Hj)%from_json_bytes Hm' Hseq.
  assert (m = SMPPMessage.mk b) as -> by congruence.
  pose proof (CommandId.as_u32_bound cmd) as Hid.
  set (l := cast_u32 (N.of_nat (length b))) in Hb. clearbody l. subst b.
  eexists _, cmd. rewrite update_sequence_bytes by (by rewrite length_be_bytes).
  split; [reflexivity|]. split; [exact Hc|].
  destruct (layout_header (SMPPMessage.mk _) _ _ _ rest l Hid Hst Hsq eq_refl) as (H1 & _ & _).
  destruct (layout_header (SMPPMessage.mk _) _ _ _ rest l Hid Hst Hseq eq_refl) as (G1 & _ & G3).
  split; [exact H1|]. split; [exact G1|]. split; [exact G3|].
  rewrite Hj by exact Hseq. cbn [insert_in_object]. f_equal. f_equal.
  rewrite (header_map_sequence _ _ sq seq). apply jextend_insert.
  rewrite fmap_app, elem_of_app. intros [Hin|Hin].
  - rewrite (normalize_fields_names _ _ _ Hfs) in Hin. apply list_elem_of_fmap in Hin as (f & He & Hin).
    apply (field_names_not_header _ _ _ Hf Hin). rewrite <-He.
    apply (bool_decide_unpack _). vm_compute. exact I.
  - apply (normalize_tlvs_keys v _ _ Hws) in Hin; [|apply NoDup_fst_map_to_list].
    apply map_to_list_tlv_name in Hin. apply Hin. apply (bool_decide_unpack _). vm_compute. exact I.
Qed.

(** ** Responses that can be encoded *)

(** [m] may panic, but it does not fail. *)
Definition no_err (m : BufM unit) : Prop := ∀ buf e buf', m buf ≠ (Err e, buf').

Lemma no_err_bind (m : BufM unit) (k : unit → BufM unit) : no_err m → no_err (k tt) → no_err (m ≫= k).
Proof.
  intros Hm Hk buf e buf'. unfold mbind, BufM_bind.
  destruct (m buf) as [[[]|e'|] b] eqn:E; [apply Hk|by destruct (Hm _ _ _ E)|done].
Qed.

Lemma no_err_iter {A} (f : A → BufM unit) xs : Forall (λ x, no_err (f x)) xs → no_err (BufM_iter f xs).
Proof. induction 1 as [|x xs Hx _ IH]; [done|]. by apply no_err_bind. Qed.

Lemma no_err_map_err k msg (m : BufM unit) : no_err m → no_err (BufM_map_err k msg m).
Proof.
  intros Hm buf e buf'. unfold BufM_map_err.
  destruct (m buf) as [[[]|e'|] b] eqn:E; [done|by destruct (Hm _ _ _ E)|done].
Qed.

Lemma no_err_c_octet_str max s : no_err (codec_encode (COctetStrFieldCodec max) (JString s)).
Proof.
  intros buf e buf'. cbn. unfold COctetStrFieldCodec.encode, mbind, BufM_bind, BufM_lift.
  destruct (COctetStrFieldCodec.truncate max s) as [s'|e'|] eqn:E; [done| |done].
  revert E. unfold COctetStrFieldCodec.truncate, str_slice, slice_bytes. destruct (Nat.ltb _ _); [|done].
  by destruct (_ && _).
Qed.

Lemma no_err_u8 n : no_err (codec_encode U8FieldCodec (jnum n)).
Proof. done. Qed.

Lemma no_err_u32 n : no_err (codec_encode U32FieldCodec (jnum n)).
Proof. done. Qed.

Lemma no_err_array c vs :
  length vs ≤ 255 → Forall (λ x, no_err (codec_encode c x)) vs →
  no_err (codec_encode (ArrayFieldCodec c) (JArray vs)).
Proof.
  intros Hl Hvs. unfold codec_encode. fold codec_encode. unfold ArrayFieldCodec.encode. rewrite (proj2 (Nat.ltb_ge _ _)) by lia.
  apply no_err_bind; [done|]. by apply no_err_iter.
Qed.

(** The given fields are what the command [cmd] asks for, and the optional parameters among
    them can be encoded. *)
Definition fits (cmd : CommandId.t) (fields : list (string * Value)) : Prop :=
  ∃ cmd_fields, MESSAGE_COMMAND_FIELDS !! CommandId.as_u32 cmd = Some cmd_fields ∧
    Forall (λ f, ∃ c x, FIELD_CODECS !! f.1 = Some c ∧ (f.1, x) ∈ fields ∧ no_err (codec_encode c x))
      cmd_fields ∧
    Forall (λ f, ∀ t, NAMED_TLV_FIELDS !! f.1 = Some t →
      no_err (codec_encode (TLVFieldCodec.value_codec t) f.2)) fields.

Lemma no_err_tlv v name t :
  (∀ x, get v name = Some x → no_err (codec_encode (TLVFieldCodec.value_codec t) x)) →
  no_err (encode_tlv v (name, t)).
Proof.
  intros Hx. unfold encode_tlv. destruct (get v name) as [x|]; [|done]. apply no_err_map_err.
  intros buf e buf'. unfold TLVFieldCodec.encode.
  destruct (codec_encode _ x []) as [[[]|e'|] b] eqn:E; [done| |done]. by destruct (Hx x eq_refl [] e' b).
Qed.

(** A response with the fields that its command asks for can be encoded (or panics: a string
    that is cut inside a character). *)
Lemma response_no_err id seq status fields cmd :
  (id < 2 ^ 32)%N → CommandId.from_u32 (N.lor 0x80000000 id) = Some cmd →
  NoDup fields.*1 → "command_id" ∉ fields.*1 → fits cmd fields →
  ∀ e, from_json (create_json_response id seq status fields) ≠ Err e.
Proof.
  intros Hid Hcmd Hnd Hc (cf & Hf & Hfields & Htlv) e.
  set (v := create_json_response id seq status fields).
  assert (Hx : extract_command_id v = Some cmd).
  { rewrite <-Hcmd. apply hex_id_roundtrip; [by apply lor_bound|]. subst v.
    by rewrite create_json_response_get by done. }
  assert (Hget : ∀ k x, (k, x) ∈ fields → get v k = Some x).
  { intros k x Hin. subst v. cbn. apply jget_extend_in; [done|]. intros w Hw.
    rewrite list_elem_of_lookup in Hin, Hw. destruct Hin as [i Hi], Hw as [i' Hi'].
    assert (i = i') as ->; [|congruence].
    apply (NoDup_lookup _ i i' k Hnd); by rewrite list_lookup_fmap, ?Hi, ?Hi'. }
  assert (Hno : no_err (encode_body (CommandId.as_u32 cmd) v)).
  { unfold encode_body. rewrite Hf. do 2 (apply no_err_bind; [done|]).
    do 2 (apply no_err_bind; [unfold write_header_number; by case_match|]). apply no_err_bind.
    - apply no_err_iter. eapply Forall_impl; [exact Hfields|]. intros [name d] (c & x & Hn & Hin & Hne).
      unfold encode_field. cbn [fst] in *. rewrite Hn, (Hget _ _ Hin). by apply no_err_map_err.
    - apply no_err_iter, Forall_forall. intros [name t] Hin. apply no_err_tlv. intros x.
      rewrite tlv_iter_perm, elem_of_map_to_list in Hin. destruct (decide (name ∈ fields.*1)) as [Hk|Hk].
      + apply list_elem_of_fmap in Hk as ([k y] & -> & Hy). cbn [fst]. rewrite (Hget _ _ Hy). intros [= <-].
        rewrite Forall_forall in Htlv. by apply (Htlv _ Hy).
      + pose proof (named_tlv_not_header _ _ Hin) as Hh. subst v. rewrite create_json_response_get by done.
        rewrite !decide_False; [done|..]; intros ->; apply Hh; apply (bool_decide_unpack _); vm_compute; exact I. }
  unfold from_json, encode_message_with_fields. rewrite Hx.
  destruct (encode_body _ v []) as [[[]|e'|] b] eqn:E; [|by destruct (Hno _ _ _ E)|done].
  unfold SMPPMessage.update_length, put_be32. by case_match.
Qed.

(** A message id of at most 65 bytes is not cut. *)
Lemma message_id_encodes id seq status mid cmd :
  (id < 2 ^ 32)%N → (status < 2 ^ 32)%N → (seq < 2 ^ 32)%N →
  CommandId.from_u32 (N.lor 0x80000000 id) = Some cmd →
  MESSAGE_COMMAND_FIELDS !! CommandId.as_u32 cmd = Some [("message_id", None)] → str_len mid ≤ 65 →
  is_ok (from_json (create_json_response id seq status [("message_id", JString mid)])) = true.
Proof.
  intros Hid Hst Hsq Hcmd Hf Hlen. set (fields := [("message_id", JString mid)]).
  assert (Hk : ∀ k, k ∈ header_keys → k ∉ fields.*1).
  { intros k Hk Hin. cbn in Hin. apply list_elem_of_singleton in Hin as ->. revert Hk.
    apply (bool_decide_unpack ("message_id" ∉ header_keys)). vm_compute. exact I. }
  pose proof (response_command id seq status fields cmd Hid Hk Hcmd) as Hx.
  pose proof (response_status id seq status fields Hst Hk) as [Hw1 _]%header_number_spec.
  pose proof (response_sequence id seq status fields Hsq Hk) as [Hw2 _]%header_number_spec.
  set (v := create_json_response id seq status fields) in *.
  assert (Hget : get v "message_id" = Some (JString mid)).
  { apply (jget_extend_in "message_id" (JString mid) fields); [left|]. intros w [= ->]%list_elem_of_singleton. done. }
  assert (Hcodec : FIELD_CODECS !! "message_id" = Some (COctetStrFieldCodec 65)) by (vm_compute; reflexivity).
  assert (Henc : appends (encode_field v ("message_id", None)) (as_bytes mid ++ [x00])).
  { intros buf. unfold encode_field. rewrite Hcodec, Hget. cbn. unfold BufM_map_err, COctetStrFieldCodec.encode,
      COctetStrFieldCodec.truncate. rewrite (proj2 (Nat.ltb_ge _ _)) by exact Hlen.
    cbn. unfold SMPPMessage.write_c_octet_str. by rewrite app_assoc. }
  assert (Happ : appends (encode_body (CommandId.as_u32 cmd) v)
    (be_bytes 4 0 ++ be_bytes 4 (CommandId.as_u32 cmd) ++ be_bytes 4 status ++ be_bytes 4 seq
     ++ ((as_bytes mid ++ [x00]) ++ []) ++ [])).
  { unfold encode_body. do 2 (apply appends_bind; [by apply appends_put|]).
    do 2 (apply appends_bind; [assumption|]). rewrite Hf. apply appends_bind.
    - apply appends_bind; [exact Henc|apply appends_ret].
    - apply encode_tlvs_absent, Forall_forall. intros [name t] Hin.
      rewrite tlv_iter_perm, elem_of_map_to_list in Hin. cbn [fst].
      apply (response_get_other id seq status fields); [by apply (named_tlv_not_header _ t)|].
      cbn. intros ->%list_elem_of_singleton.
      assert (Hno : NAMED_TLV_FIELDS !! "message_id" = None) by (vm_compute; reflexivity). congruence. }
  unfold from_json, encode_message_with_fields. rewrite Hx, (Happ []).
  unfold SMPPMessage.from_bytes_mut.
  match goal with |- context [SMPPMessage.mk ?body] =>
    destruct (update_length_spec body) as (m & -> & _) end; [|done].
  rewrite !length_app, !length_be_bytes. lia.
Qed.

Lemma lor_response_bit id : N.land (N.lor 0x80000000 id) 0x80000000 ≠ 0%N.
Proof.
  rewrite N.land_lor_distr_l. intros [Hz _]%N.lor_eq_0_iff. discriminate.
Qed.

End responses.
