(* ===== verification/Instances.v ===== *)
(** * Concrete instances of the parameters

    A Base64 codec (the standard alphabet with padding, strict as the crate's
    [BASE64_STANDARD]) with its law, and an iteration order for the table of optional
    parameters. The witnesses of the theorems run with them. *)
From S2P Require Export MessageSpec.

Open Scope N_scope.

Definition alphabet : list byte :=
  as_bytes "ABCDEFGHIJKLMNOPQRSTUVWXYZabcdefghijklmnopqrstuvwxyz0123456789+/".

Definition sextet_char (n : N) : byte := nth (N.to_nat n) alphabet x3d.

Definition char_sextet (b : byte) : option N :=
  (λ p, N.of_nat p.1) <$> list_find (λ c, c = b) alphabet.

(** Three bytes as four characters, most significant bits first. *)
Definition encode_group (n : N) : bytes :=
  [sextet_char (n / 2 ^ 18); sextet_char (n / 2 ^ 12 mod 64); sextet_char (n / 64 mod 64);
   sextet_char (n mod 64)].

Fixpoint encode_std (fuel : nat) (l : bytes) : bytes :=
  match fuel, l with
  | O, _ | _, [] => []
  | S _, [a] => take 2 (encode_group (be_N [a; x00; x00])) ++ [x3d; x3d]
  | S _, [a; b] => take 3 (encode_group (be_N [a; b; x00])) ++ [x3d]
  | S fuel', a :: b :: c :: r => encode_group (be_N [a; b; c]) ++ encode_std fuel' r
  end.

Definition group_value (a b c d : N) : N := a * 2 ^ 18 + b * 2 ^ 12 + c * 64 + d.

(** The padded last group: its unused bits must be zero. *)
Definition decode_last (a b c d : byte) : option bytes :=
  if decide (d = x3d) then
    if decide (c = x3d) then
      x ← char_sextet a; y ← char_sextet b;
      let n := group_value x y 0 0 in
      if n mod 2 ^ 16 =? 0 then Some (take 1 (be_bytes 3 n)) else None
    else
      x ← char_sextet a; y ← char_sextet b; z ← char_sextet c;
      let n := group_value x y z 0 in
      if n mod 2 ^ 8 =? 0 then Some (take 2 (be_bytes 3 n)) else None
  else
    x ← char_sextet a; y ← char_sextet b; z ← char_sextet c; w ← char_sextet d;
    Some (be_bytes 3 (group_value x y z w)).

Fixpoint decode_std (fuel : nat) (l : bytes) : option bytes :=
  match fuel, l with
  | _, [] => Some []
  | S _, [a; b; c; d] => decode_last a b c d
  | S fuel', a :: b :: c :: d :: r =>
      x ← char_sextet a; y ← char_sextet b; z ← char_sextet c; w ← char_sextet d;
      rest ← decode_std fuel' r;
      Some (be_bytes 3 (group_value x y z w) ++ rest)
  | _, _ => None
  end.

#[global] Instance base64_std : Base64 := {
  b64_encode b := of_bytes (encode_std (S (length b)) b);
  b64_decode s := decode_std (S (str_len s)) (as_bytes s);
}.

Lemma char_sextet_char n : n < 64 → char_sextet (sextet_char n) = Some n.
Proof.
  assert (H : forallb (λ n, bool_decide (char_sextet (sextet_char n) = Some n))
                (N.of_nat <$> seq 0 64) = true) by (vm_compute; reflexivity).
  intros Hn. rewrite forallb_forall in H. apply (bool_decide_unpack _), Is_true_true, (H n).
  apply list_elem_of_In, list_elem_of_fmap. exists (N.to_nat n).
  split; [lia|]. apply elem_of_seq. lia.
Qed.

Lemma sextet_char_pad n : n < 64 → sextet_char n ≠ x3d.
Proof.
  intros Hn He. pose proof (char_sextet_char n Hn) as H. rewrite He in H.
  by vm_compute in H.
Qed.

Lemma group_digits n :
  n < 2 ^ 24 → n / 2 ^ 18 < 64 ∧
  group_value (n / 2 ^ 18) (n / 2 ^ 12 mod 64) (n / 64 mod 64) (n mod 64) = n.
Proof.
  intros Hn. unfold group_value. split; [apply N.Div0.div_lt_upper_bound; lia|].
  replace (n / 2 ^ 12) with (n / 64 / 64) by (rewrite N.Div0.div_div; done).
  replace (n / 2 ^ 18) with (n / 64 / 64 / 64) by (rewrite !N.Div0.div_div; done).
  pose proof (N.div_mod n 64). pose proof (N.div_mod (n / 64) 64).
  pose proof (N.div_mod (n / 64 / 64) 64). lia.
Qed.

Lemma be_bytes_3 a b c : be_bytes 3 (be_N [a; b; c]) = [a; b; c].
Proof. apply (be_bytes_be_N [a; b; c]). Qed.

Lemma be_N_3_bound a b c : be_N [a; b; c] < 2 ^ 24.
Proof. apply (be_N_bound [a; b; c]). Qed.

Lemma be_N_3 a b c : be_N [a; b; c] = Byte.to_N a * 65536 + Byte.to_N b * 256 + Byte.to_N c.
Proof. unfold be_N. simpl. lia. Qed.

(** The four characters of a group read back as its digits. *)
Lemma decode_group n :
  n < 2 ^ 24 → ∃ p q r s, encode_group n = [p; q; r; s] ∧
    char_sextet p = Some (n / 2 ^ 18) ∧ char_sextet q = Some (n / 2 ^ 12 mod 64) ∧
    char_sextet r = Some (n / 64 mod 64) ∧ char_sextet s = Some (n mod 64) ∧
    r ≠ x3d ∧ s ≠ x3d ∧
    group_value (n / 2 ^ 18) (n / 2 ^ 12 mod 64) (n / 64 mod 64) (n mod 64) = n.
Proof.
  intros Hn. destruct (group_digits n Hn) as [Hd Hv].
  exists (sextet_char (n / 2 ^ 18)), (sextet_char (n / 2 ^ 12 mod 64)),
    (sextet_char (n / 64 mod 64)), (sextet_char (n mod 64)).
  assert (Hm : ∀ m, m mod 64 < 64) by (intros m; by apply N.mod_lt).
  rewrite !char_sextet_char by auto.
  split_and!; [reflexivity..|apply sextet_char_pad; auto|apply sextet_char_pad; auto|exact Hv].
Qed.

Lemma decode_last_1 a :
  ∃ p q, encode_std 1 [a] = [p; q; x3d; x3d] ∧ decode_last p q x3d x3d = Some [a].
Proof.
  destruct (decode_group (be_N [a; x00; x00]) (be_N_3_bound _ _ _))
    as (p & q & r & s & He & Hp & Hq & _ & _ & _ & _ & Hv).
  exists p, q. split; [unfold encode_std; by rewrite He|].
  unfold decode_last. rewrite !decide_True, Hp, Hq by done. cbn [mbind option_bind].
  assert (Hbe : be_N [a; x00; x00] = Byte.to_N a * 16 * 64 * 64).
  { rewrite be_N_3. change (Byte.to_N x00) with 0. lia. }
  assert (H3 : be_N [a; x00; x00] / 64 mod 64 = 0).
  { rewrite Hbe, N.div_mul by done. apply N.Div0.mod_mul. }
  assert (H4 : be_N [a; x00; x00] mod 64 = 0) by (rewrite Hbe; apply N.Div0.mod_mul).
  rewrite H3, H4 in Hv. rewrite Hv.
  replace (be_N [a; x00; x00] mod 2 ^ 16) with 0; [by rewrite be_bytes_3|].
  replace (be_N [a; x00; x00]) with (Byte.to_N a * 2 ^ 16) by lia.
  by rewrite N.Div0.mod_mul.
Qed.

Lemma decode_last_2 a b :
  ∃ p q r, encode_std 1 [a; b] = [p; q; r; x3d] ∧ decode_last p q r x3d = Some [a; b].
Proof.
  destruct (decode_group (be_N [a; b; x00]) (be_N_3_bound _ _ _))
    as (p & q & r & s & He & Hp & Hq & Hr & _ & Hrp & _ & Hv).
  exists p, q, r. split; [unfold encode_std; by rewrite He|].
  unfold decode_last. rewrite decide_True, decide_False, Hp, Hq, Hr by done.
  cbn [mbind option_bind].
  assert (Hbe : be_N [a; b; x00] = (Byte.to_N a * 256 + Byte.to_N b) * 2 ^ 8).
  { rewrite be_N_3. change (Byte.to_N x00) with 0. lia. }
  assert (H4 : be_N [a; b; x00] mod 64 = 0).
  { rewrite Hbe. change (2 ^ 8) with (4 * 64). rewrite N.mul_assoc.
    apply N.Div0.mod_mul. }
  rewrite H4 in Hv. rewrite Hv.
  replace (be_N [a; b; x00] mod 2 ^ 8) with 0; [by rewrite be_bytes_3|].
  rewrite Hbe. by rewrite N.Div0.mod_mul.
Qed.

Close Scope N_scope.

Lemma decode_encode_std n l k :
  length l < n → length (encode_std n l) < k → decode_std k (encode_std n l) = Some l.
Proof.
  revert l k. induction n as [|n IH]; intros l k Hn Hk; [lia|].
  destruct k as [|k]; [lia|].
  destruct l as [|a [|b [|c l]]].
  - done.
  - destruct (decode_last_1 a) as (p & q & He & Hd). change (encode_std (S n) [a]) with (encode_std 1 [a]).
    by rewrite He.
  - destruct (decode_last_2 a b) as (p & q & r & He & Hd).
    change (encode_std (S n) [a; b]) with (encode_std 1 [a; b]). by rewrite He.
  - cbn [encode_std] in *.
    destruct (decode_group (be_N [a; b; c]) (be_N_3_bound _ _ _))
      as (p & q & r & s & He & Hp & Hq & Hr & Hs & Hrp & Hsp & Hv).
    rewrite He in *. simpl in Hn, Hk.
    assert (Hrec : decode_std k (encode_std n l) = Some l) by (apply IH; lia).
    destruct (encode_std n l) as [|x xs] eqn:Ex; simpl app.
    + assert (l = []) as -> by (destruct k; simpl in Hrec; congruence).
      cbn [decode_std]. unfold decode_last. rewrite decide_False, Hp, Hq, Hr, Hs by done.
      cbn [mbind option_bind]. by rewrite Hv, be_bytes_3.
    + cbn [decode_std]. rewrite Hp, Hq, Hr, Hs, Hrec. cbn [mbind option_bind].
      by rewrite Hv, be_bytes_3.
Qed.

#[global] Instance base64_std_laws : Base64Laws.
Proof.
  intros b. unfold b64_decode, b64_encode, base64_std, str_len. rewrite as_of_bytes. apply decode_encode_std; lia.
Qed.

(** One of the iteration orders. *)
#[global] Instance tlv_order_std : TlvOrder := {
  tlv_iter := map_to_list NAMED_TLV_FIELDS;
  tlv_iter_perm := Permutation_refl _;
}.
