(* ===== verification/TimeFormat.v ===== *)
(** * SMPP times (src/field_codec.rs, [parse_absolute_relative_time])

    An absolute or relative time of sixteen characters, [YYMMDDhhmmsstnnp]. Instants are
    milliseconds since the epoch, in [Z]. What chrono computes is a parameter; the two
    reads of the clock inside one operation are the same instant [now]. *)
From S2P Require Export Json.

(** The chrono operations. [None] is a panic: the result of the conversion or of the
    calendar addition is not a local time. *)
Class Chrono := {
  (** [NaiveDateTime::parse_from_str(s, "%y%m%d%H%M%S")], in milliseconds. *)
  naive_parse : string → option Z;
  (** [Local.from_local_datetime(&dt).unwrap()] *)
  from_local_datetime : Z → option Z;
  (** [dt + Days::new(n)] and [dt + Months::new(n)] *)
  add_days : Z → N → option Z;
  add_months : Z → N → option Z;
}.

(** [Option::unwrap], [Result::unwrap] *)
Definition unwrap {E A} (o : option A) : outcome E A :=
  match o with Some a => Ok a | None => Panic end.

Section time.
Context `{Chrono}.

(** [time_str[a..b].parse::<u32>().unwrap()] *)
Definition u32_at (time_str : string) (a b : nat) : outcome string N :=
  s ← str_slice time_str a b; unwrap (parse_u32 (as_bytes s)).

(** [time_str[a..b].parse::<i64>().unwrap_or(0)] *)
Definition i64_at (time_str : string) (a b : nat) : outcome string Z :=
  s ← str_slice time_str a b; Ok (default 0%Z (parse_i64 (as_bytes s))).

Definition invalid_time (time_str : string) : outcome string Z :=
  Err ("Invalid absolute_time format: " +:+ time_str).

Definition parse_relative (now : Z) (time_str : string) : outcome string Z :=
  year ← u32_at time_str 0 2;
  month ← u32_at time_str 2 4;
  day ← u32_at time_str 4 6;
  hour ← u32_at time_str 6 8;
  minute ← u32_at time_str 8 10;
  second ← u32_at time_str 10 12;
  t ← unwrap (add_days now (day + year * 365)%N);
  t ← unwrap (add_months t month);
  Ok (t + Z.of_N hour * 3600000 + Z.of_N minute * 60000 + Z.of_N second * 1000)%Z.

Definition parse_absolute (time_str p : string) : outcome string Z :=
  s ← str_slice time_str 0 12;
  match naive_parse s with
  | Some dt =>
      nn ← i64_at time_str 13 15;
      t ← i64_at time_str 12 13;
      let dt := if decide (p = "+") then (dt - nn * 15 * 60000 + t * 100)%Z
                else (dt + nn * 15 * 60000 + t * 100)%Z in
      unwrap (from_local_datetime dt)
  | None => Err ("Failed to parse absolute_time: " +:+ time_str)
  end.

Definition parse_absolute_relative_time (now : Z) (time_str : string) : outcome string Z :=
  if Nat.eqb (str_len time_str) 16 then
    p ← str_slice time_str 15 16;
    if decide (p = "R") then parse_relative now time_str
    else if decide (p = "+" ∨ p = "-") then parse_absolute time_str p
    else invalid_time time_str
  else invalid_time time_str.

(** ** The times of a message *)

(** [Duration::seconds(n)], in milliseconds: chrono documents a panic outside of the
    milliseconds of an [i64]. *)
Definition duration_seconds {E} (n : Z) : outcome E Z :=
  if (Z.abs n <=? (2 ^ 63 - 1) / 1000)%Z then Ok (n * 1000)%Z else Panic.

(** [DateTime + Duration]: a panic before the year -262143 and after the year 262142. *)
Definition add_duration {E} (t d : Z) : outcome E Z :=
  if ((-8334601228800000 <=? t + d) && (t + d <=? 8210266876799999))%Z then Ok (t + d)%Z else Panic.

Definition get_schedule_delivery_time (now : Z) (value : Value) : outcome string Z :=
  match get_str value "schedule_delivery_time" with
  | Some s => parse_absolute_relative_time now s
  | None => Err "schedule_delivery_time not found in the message"
  end.

Definition get_validity_period (now : Z) (value : Value) (default_validity_period : N) :
    outcome string Z :=
  match get_str value "validity_period" with
  | Some s => parse_absolute_relative_time now s
  | None =>
      match get_str value "qos_time_to_live" with
      | Some q => d ← duration_seconds (default 0%Z (parse_i64 (as_bytes q))); add_duration now d
      | None =>
          match get_schedule_delivery_time now value with
          | Ok dt => d ← duration_seconds (Z.of_N default_validity_period); add_duration dt d
          | Err _ => d ← duration_seconds (Z.of_N default_validity_period); add_duration now d
          | Panic => Panic
          end
      end
  end.

(** [match get_...(message) { Ok(time) => Some(time), Err(_) => None }] *)
Definition ok_option {E F A} (r : outcome E A) : outcome F (option A) :=
  match r with Ok a => Ok (Some a) | Err _ => Ok None | Panic => Panic end.

Lemma ok_option_some {E F A} (r : outcome E A) (a : A) : ok_option (F := F) r = Ok (Some a) → r = Ok a.
Proof. by destruct r; intros [= ->]. Qed.

(** ** Sixteen digits and a suffix *)

Definition is_digit (b : byte) : bool := in_range 48 57 b.

Lemma in_range_ascii b : is_digit b = true → is_cont b = false.
Proof.
  unfold is_digit, is_cont. rewrite in_range_spec. intros H'.
  apply not_true_iff_false. rewrite in_range_spec. lia.
Qed.

(** The two decimal digits at an even position. *)
Definition digits2 (a b : byte) : N := (Byte.to_N a - 48) * 10 + (Byte.to_N b - 48).

Lemma digit_val_digit b : is_digit b = true → digit_val 10 b = Some (Byte.to_N b - 48)%N.
Proof.
  intros Hb. unfold digit_val. unfold is_digit in Hb. rewrite Hb.
  apply in_range_spec in Hb. by rewrite (proj2 (N.ltb_lt _ _)) by lia.
Qed.

Lemma parse_two_digits a b :
  is_digit a = true → is_digit b = true → parse_u32 [a; b] = Some (digits2 a b).
Proof.
  intros Ha Hb. unfold parse_u32, from_str_radix, digits2.
  assert (Hp : parse_digits 10 (2 ^ 32) [a; b] = Some ((Byte.to_N a - 48) * 10 + (Byte.to_N b - 48))%N).
  { unfold parse_digits. cbn [fold_left]. rewrite (digit_val_digit a Ha), (digit_val_digit b Hb).
    unfold is_digit in *. apply in_range_spec in Ha, Hb.
    rewrite (proj2 (N.ltb_lt (0 * 10 + _) _)) by lia. cbn beta iota.
    rewrite (proj2 (N.ltb_lt _ _)) by lia. f_equal. }
  unfold is_digit in Ha. destruct a; try (by vm_compute in Ha); exact Hp.
Qed.

Lemma slice_digits l a b :
  a ≤ b ≤ length l → Forall (λ c, is_digit c = true) (take 12 l) → b ≤ 12 → 12 < length l →
  (is_cont (default x00 (l !! 12)) = false) →
  slice_bytes (E := string) l a b = Ok (take (b - a) (drop a l)).
Proof.
  intros Hab Hd Hb Hl H12. unfold slice_bytes.
  assert (Hbound : ∀ i, i ≤ 12 → is_char_boundary l i = true).
  { intros i Hi. unfold is_char_boundary. destruct i as [|i]; [done|].
    destruct (l !! S i) as [c|] eqn:Ec.
    - destruct (decide (S i = 12)) as [He|Hne]; 
        [rewrite He, Ec in *; simpl in H12; by rewrite H12|].
      rewrite (in_range_ascii c); [done|]. rewrite Forall_forall in Hd. apply Hd.
      apply list_elem_of_lookup_2 with (S i). rewrite lookup_take_lt by lia. done.
    - apply lookup_ge_None in Ec. lia. }
  rewrite !Hbound by lia.
  rewrite (proj2 (Nat.leb_le a b)), (proj2 (Nat.leb_le b (length l))) by lia. done.
Qed.

(** A relative time of twelve digits, four ignored characters and [R] means the given
    number of years (of 365 days) and days, months, hours, minutes and seconds from now;
    the only failures left are those of the calendar. *)
Theorem parse_relative_time now y1 y2 m1 m2 d1 d2 h1 h2 i1 i2 s1 s2 t n1 n2 :
  Forall (λ c, is_digit c = true) [y1; y2; m1; m2; d1; d2; h1; h2; i1; i2; s1; s2; t; n1; n2] →
  parse_absolute_relative_time now
    (of_bytes [y1; y2; m1; m2; d1; d2; h1; h2; i1; i2; s1; s2; t; n1; n2; x52])
  = (d ← unwrap (add_days now (digits2 d1 d2 + digits2 y1 y2 * 365)%N);
     m ← unwrap (add_months d (digits2 m1 m2));
     Ok (m + Z.of_N (digits2 h1 h2) * 3600000 + Z.of_N (digits2 i1 i2) * 60000
         + Z.of_N (digits2 s1 s2) * 1000)%Z).
Proof.
  intros Hd. set (ts := of_bytes _).
  assert (Hp : str_slice (E := string) ts 15 16 = Ok "R").
  { unfold str_slice, ts, slice_bytes. rewrite as_of_bytes. reflexivity. }
  assert (Hl : str_len ts = 16) by (unfold str_len, ts; by rewrite as_of_bytes).
  unfold parse_absolute_relative_time. rewrite Hl, Hp. cbn [Nat.eqb mbind outcome_bind].
  rewrite decide_True by done.
  repeat (apply Forall_cons in Hd as [? Hd]). subst ts. clear Hp Hl.
  unfold parse_relative, u32_at, str_slice. rewrite as_of_bytes.
  rewrite !slice_digits; try (simpl; lia);
    try (by apply in_range_ascii); try (by repeat constructor).
  cbn [mbind fmap outcome_bind outcome_fmap take drop Nat.sub].
  rewrite !as_of_bytes, !parse_two_digits by done. done.
Qed.
End time.
