(* ===== verification/DeliveryQueue.v ===== *)
(** * Delivery queue (src/message_storage.rs, [DeliveryMessageInfo], [DeliveryMessageInfoManager])

    A list of messages kept in order by binary search. [slice::binary_search] answers as its
    documentation says, which leaves open which of several equal elements it finds, and
    everything when the list is not in order: it is the parameter [BinarySearch]. *)
From S2P Require Export Json.

Module DeliveryMessageInfo.

Record t : Type := mk {
  message_id : string;
  schedule_delivery_time : option Z;
  validity_period : option Z;
  message : option Value;
}.

#[export] Instance eq_dec : EqDecision t.
Proof. solve_decision. Defined.

Definition new (message_id : string) (schedule validity : option Z) (message : option Value) : t :=
  mk message_id schedule validity message.

Definition is_time_for_delivery (now : Z) (s : t) : bool :=
  match schedule_delivery_time s with
  | Some schedule_delivery_time => (schedule_delivery_time <=? now)%Z
  | None => true
  end.

(** [Ord::cmp] *)
Definition cmp (self other : t) : comparison :=
  match schedule_delivery_time self, schedule_delivery_time other with
  | None, None =>
      match validity_period self, validity_period other with
      | Some self_validity, Some other_validity => Z.compare self_validity other_validity
      | Some _, None => Lt
      | None, Some _ => Gt
      | None, None => Eq
      end
  | None, Some _ => Eq
  | Some _, None => Gt
  | Some self_schedule, Some other_schedule => Z.compare self_schedule other_schedule
  end.

(** [PartialEq::eq] *)
Definition eq (self other : t) : bool :=
  bool_decide (message_id self = message_id other)
  && bool_decide (schedule_delivery_time self = schedule_delivery_time other)
  && bool_decide (validity_period self = validity_period other)
  && bool_decide (message self = message other).

End DeliveryMessageInfo.

(** The elements before [i] are less than [x], those from [j] on are greater. *)
Record splits (l : list DeliveryMessageInfo.t) (x : DeliveryMessageInfo.t) (i j : nat) : Prop := {
  sp_less : Forall (λ y, DeliveryMessageInfo.cmp y x = Lt) (take i l);
  sp_equal : Forall (λ y, DeliveryMessageInfo.cmp y x = Eq) (take (j - i) (drop i l));
  sp_greater : Forall (λ y, DeliveryMessageInfo.cmp y x = Gt) (drop j l);
  sp_le : i ≤ j ≤ length l;
}.

Class BinarySearch := {
  binary_search : list DeliveryMessageInfo.t → DeliveryMessageInfo.t → nat + nat;
  (** [Ok(pos)] is some equal element, [Err(pos)] the place of a missing one. *)
  binary_search_law : ∀ l x i j, splits l x i j →
    match binary_search l x with
    | inl pos => i ≤ pos < j
    | inr pos => i = j ∧ pos = i
    end;
}.

Module DeliveryMessageInfoManager.

Definition t : Type := list DeliveryMessageInfo.t.

Definition new : t := [].

Section manager.
Context `{BinarySearch}.

(** [Vec::insert] panics past the end. *)
Definition add_delivery_message (delivery_message : DeliveryMessageInfo.t) (delivery_messages : t) :
    outcome string t :=
  let pos := match binary_search delivery_messages delivery_message with inl pos => pos | inr pos => pos end in
  if Nat.leb pos (length delivery_messages)
  then Ok (take pos delivery_messages ++ delivery_message :: drop pos delivery_messages)
  else Panic.

Definition get_delivery_message (now : Z) (delivery_messages : t) :
    outcome string DeliveryMessageInfo.t * t :=
  match delivery_messages with
  | delivery_message :: rest =>
      if DeliveryMessageInfo.is_time_for_delivery now delivery_message
      then (Ok delivery_message, rest)
      else (Err "No delivery messsage is available", delivery_messages)
  | [] => (Err "No delivery messsage is available", delivery_messages)
  end.

End manager.
End DeliveryMessageInfoManager.

Import DeliveryMessageInfoManager.

(** ** Scheduled messages are delivered in the order of their times *)

Section queue.
Context `{BinarySearch}.

Abbreviation info := DeliveryMessageInfo.t.

Definition at_time (x : info) : Z := default 0%Z (DeliveryMessageInfo.schedule_delivery_time x).
Definition scheduled (x : info) : Prop := is_Some (DeliveryMessageInfo.schedule_delivery_time x).

(** In the order of their times, each with one. *)
Definition in_order (l : list info) : Prop :=
  StronglySorted (λ x y, at_time x ≤ at_time y)%Z l ∧ Forall scheduled l.

Lemma cmp_scheduled x y : scheduled x → scheduled y → DeliveryMessageInfo.cmp x y = Z.compare (at_time x) (at_time y).
Proof. intros [a Ha] [b Hb]. unfold DeliveryMessageInfo.cmp, at_time. by rewrite Ha, Hb. Qed.

Lemma in_order_splits l x : in_order l → scheduled x → ∃ i j, splits l x i j.
Proof.
  intros [Hs Hl] Hx. induction Hs as [|y l Hs IH Hy]; [by exists 0, 0; split; [constructor..|cbn; lia]|].
  apply Forall_cons in Hl as [Hsy Hl]. destruct (IH Hl) as (i & j & [Hi He Hg Hij]).
  assert (Hcmp : ∀ z, z ∈ l → DeliveryMessageInfo.cmp z x = Z.compare (at_time z) (at_time x) ∧ (at_time y ≤ at_time z)%Z).
  { intros z Hz. rewrite Forall_forall in Hl, Hy. split; [apply cmp_scheduled; auto|]. by apply Hy. }
  pose proof (cmp_scheduled y x Hsy Hx) as Hyx.
  destruct (Z.compare_spec (at_time y) (at_time x)) as [E|E|E].
  - assert (i = 0) as ->.
    { destruct i as [|i]; [done|]. exfalso. destruct l as [|z l]; [cbn in Hij; lia|].
      cbn [take] in Hi. apply Forall_cons in Hi as [Hz _]. destruct (Hcmp z) as [Hc Hle]; [by left|].
      rewrite Hc in Hz. change (at_time z < at_time x)%Z in Hz. lia. }
    exists 0, (S j). split; cbn [take drop length]; [constructor| |exact Hg|lia].
    rewrite Nat.sub_0_r in *. cbn [take drop] in *. constructor; [done|exact He].
  - exists (S i), (S j). split; cbn [take drop length Nat.sub]; [by constructor|exact He|exact Hg|lia].
  - assert (j = 0) as ->.
    { destruct j as [|j]; [done|]. exfalso. destruct l as [|z l]; [cbn in Hij; lia|].
      destruct (Hcmp z) as [Hc Hle]; [by left|]. destruct i as [|i].
      - cbn [take drop Nat.sub] in He. apply Forall_cons in He as [Hz _]. rewrite Hc in Hz.
        apply (proj1 (Z.compare_eq_iff _ _)) in Hz. lia.
      - cbn [take] in Hi. apply Forall_cons in Hi as [Hz _]. rewrite Hc in Hz.
        change (at_time z < at_time x)%Z in Hz. lia. }
    assert (i = 0) as -> by lia.
    exists 0, 0. split; cbn [take drop length Nat.sub]; [constructor..| |lia]. by constructor.
Qed.

Lemma in_order_insert l x pos i j :
  in_order l → scheduled x → splits l x i j → i ≤ pos ≤ j → in_order (take pos l ++ x :: drop pos l).
Proof.
  intros [Hs Hl] Hx [Hi He Hg Hij] Hpos.
  assert (Hc : ∀ z, z ∈ l → DeliveryMessageInfo.cmp z x = Z.compare (at_time z) (at_time x)).
  { intros z Hz. rewrite Forall_forall in Hl. apply cmp_scheduled; auto. }
  assert (Hbefore : Forall (λ y, at_time y ≤ at_time x)%Z (take j l)).
  { replace (take j l) with (take i l ++ take (j - i) (drop i l))
      by (rewrite take_take_drop; f_equal; lia).
    rewrite Forall_forall in Hi, He. apply Forall_forall. intros z Hz.
    assert (Hzl : z ∈ l).
    { apply elem_of_app in Hz as [Hz|Hz]; [by eapply subseteq_take|].
      apply subseteq_take in Hz. by eapply subseteq_drop. }
    apply elem_of_app in Hz as [Hz|Hz]; [apply Hi in Hz|apply He in Hz]; rewrite (Hc z Hzl) in Hz.
    - change (at_time z < at_time x)%Z in Hz. lia.
    - apply (proj1 (Z.compare_eq_iff _ _)) in Hz. lia. }
  assert (Hafter : Forall (λ y, at_time x ≤ at_time y)%Z (drop i l)).
  { replace (drop i l) with (take (j - i) (drop i l) ++ drop j l)
      by (rewrite <-(take_drop (j - i) (drop i l)) at 2; rewrite drop_drop; f_equal; f_equal; lia).
    rewrite Forall_forall in He, Hg. apply Forall_forall. intros z Hz.
    assert (Hzl : z ∈ l).
    { apply elem_of_app in Hz as [Hz|Hz]; [|by eapply subseteq_drop].
      apply subseteq_take in Hz. by eapply subseteq_drop. }
    apply elem_of_app in Hz as [Hz|Hz]; [apply He in Hz|apply Hg in Hz]; rewrite (Hc z Hzl) in Hz.
    - apply (proj1 (Z.compare_eq_iff _ _)) in Hz. lia.
    - apply (proj1 (Z.compare_gt_iff _ _)) in Hz. lia. }
  split.
  - rewrite <-(take_drop pos l) in Hs. apply StronglySorted_app in Hs as (Hcross & Hs1 & Hs2).
    apply StronglySorted_app_2; [|done|].
    + intros y z Hy Hz. apply elem_of_cons in Hz as [->|Hz]; [|by apply Hcross].
      rewrite Forall_forall in Hbefore. apply Hbefore.
      replace (take pos l) with (take pos (take j l)) in Hy by (rewrite take_take; f_equal; lia).
      by eapply subseteq_take.
    + constructor; [done|]. replace (drop pos l) with (drop (pos - i) (drop i l))
        by (rewrite drop_drop; f_equal; lia).
      by apply Forall_drop.
  - apply Forall_app. split; [by apply Forall_take|]. constructor; [done|by apply Forall_drop].
Qed.

Lemma add_in_order l x :
  in_order l → scheduled x → ∃ l', add_delivery_message x l = Ok l' ∧ in_order l' ∧ l' ≡ₚ x :: l.
Proof.
  intros Hl Hx. destruct (in_order_splits l x Hl Hx) as (i & j & Hs).
  pose proof (binary_search_law l x i j Hs) as Hlaw. unfold add_delivery_message.
  set (pos := match binary_search l x with inl pos => pos | inr pos => pos end).
  assert (Hpos : i ≤ pos ≤ j) by (subst pos; destruct (binary_search l x); lia).
  pose proof (sp_le _ _ _ _ Hs) as Hle. rewrite (proj2 (Nat.leb_le pos (length l))) by lia.
  eexists. split; [done|]. split; [by eapply in_order_insert|].
  rewrite <-Permutation_middle. by rewrite take_drop.
Qed.

(** Every message that is due, one [get_delivery_message] after the other. *)
Fixpoint drain (now : Z) (fuel : nat) (l : DeliveryMessageInfoManager.t) : list info * DeliveryMessageInfoManager.t :=
  match fuel with
  | O => ([], l)
  | S fuel' =>
      match get_delivery_message now l with
      | (Ok x, l') => let '(out, rest) := drain now fuel' l' in (x :: out, rest)
      | (_, l') => ([], l')
      end
  end.

Definition add_all (ms : list info) : outcome string DeliveryMessageInfoManager.t :=
  foldl (λ r x, r ≫= add_delivery_message x) (Ok DeliveryMessageInfoManager.new) ms.

Lemma add_all_in_order ms :
  Forall scheduled ms → ∃ l, add_all ms = Ok l ∧ in_order l ∧ l ≡ₚ ms.
Proof.
  induction ms as [|x ms IH] using rev_ind; intros Hms.
  - exists []. split; [done|]. split; [split; constructor|done].
  - apply Forall_app in Hms as [Hms [Hx _]%Forall_cons]. destruct (IH Hms) as (l & E & Hl & Hp).
    destruct (add_in_order l x Hl Hx) as (l' & E' & Hl' & Hp').
    exists l'. split; [|split; [done|] ].
    + unfold add_all in *. rewrite foldl_app, E. exact E'.
    + rewrite Hp', Hp. apply Permutation_cons_append.
Qed.

Lemma drain_spec now l :
  in_order l → ∃ out rest, drain now (length l) l = (out, rest) ∧ l = out ++ rest ∧
    Forall (λ x, at_time x ≤ now)%Z out ∧ Forall (λ x, now < at_time x)%Z rest.
Proof.
  intros [Hs Hl]. induction Hs as [|x l Hs IH Hx]; [by exists [], []|].
  apply Forall_cons in Hl as [[t Ht] Hl]. destruct (IH Hl) as (out & rest & E & Heq & Ho & Hr).
  cbn [length drain get_delivery_message]. unfold DeliveryMessageInfo.is_time_for_delivery. rewrite Ht.
  assert (Hat : at_time x = t) by (unfold at_time; by rewrite Ht).
  destruct (Z.leb_spec t now) as [Hle|Hgt].
  - rewrite E. exists (x :: out), rest. split; [done|]. split; [by rewrite Heq|].
    split; [constructor; [lia|done]|done].
  - exists [], (x :: l). split; [done|]. split; [done|]. split; [constructor|].
    constructor; [lia|]. rewrite Forall_forall in Hx. apply Forall_forall. intros y Hy.
    specialize (Hx y Hy). cbn in Hx. lia.
Qed.

(** Messages with a delivery time, added in any order, come out in the order of their
    times, exactly those that are due, whichever of the places allowed the binary search
    finds. *)
Theorem queue_in_order ms now :
  Forall scheduled ms → ∃ l out rest,
    add_all ms = Ok l ∧ drain now (length l) l = (out, rest) ∧ out ++ rest ≡ₚ ms ∧
    StronglySorted (λ x y, at_time x ≤ at_time y)%Z out ∧
    Forall (λ x, at_time x ≤ now)%Z out ∧ Forall (λ x, now < at_time x)%Z rest.
Proof.
  intros Hms. destruct (add_all_in_order ms Hms) as (l & E & Hl & Hp).
  destruct (drain_spec now l Hl) as (out & rest & E' & Heq & Ho & Hr).
  exists l, out, rest. split; [done|]. split; [done|]. split; [by rewrite <-Heq|].
  split; [|done]. destruct Hl as [Hs _]. rewrite Heq in Hs. by apply StronglySorted_app in Hs as (_ & Hs & _).
Qed.

End queue.

(** With and without a delivery time is not compared: [cmp] is not an order. *)
Lemma cmp_not_antisymmetric : ∃ x y,
  DeliveryMessageInfo.cmp x y = Eq ∧ DeliveryMessageInfo.cmp y x = Gt.
Proof.
  exists (DeliveryMessageInfo.new "a" None None None), (DeliveryMessageInfo.new "b" (Some 0%Z) None None).
  by split.
Qed.

(** ** A search that meets the documentation *)

Fixpoint linear_search (l : list DeliveryMessageInfo.t) (x : DeliveryMessageInfo.t) : nat + nat :=
  match l with
  | [] => inr 0
  | y :: l' =>
      match DeliveryMessageInfo.cmp y x with
      | Lt => match linear_search l' x with inl pos => inl (S pos) | inr pos => inr (S pos) end
      | Eq => inl 0
      | Gt => inr 0
      end
  end.

#[export, refine] Instance search_linear : BinarySearch := { binary_search := linear_search }.
Proof.
  intros l x. induction l as [|y l IH]; intros i j [Hi He Hg Hij]; cbn [length linear_search] in *.
  { assert (i = 0 ∧ j = 0) as [-> ->] by lia. done. }
  destruct i as [|i].
  - destruct j as [|j]; cbn [Nat.sub take drop] in *.
    + apply Forall_cons in Hg as [-> _]. done.
    + apply Forall_cons in He as [-> _]. lia.
  - destruct j as [|j]; [lia|]. cbn [Nat.sub take drop] in *. apply Forall_cons in Hi as [-> Hi].
    assert (Hs : splits l x i j) by (split; [done..|lia]).
    specialize (IH i j Hs). destruct (linear_search l x); lia.
Defined.

Definition queued (id : string) (time : Z) : DeliveryMessageInfo.t :=
  DeliveryMessageInfo.new id (Some time) None None.

Lemma queue_in_order_witness : ∃ l out rest,
  add_all [queued "c" 30; queued "a" 10; queued "b" 20] = Ok l ∧ drain 20 (length l) l = (out, rest) ∧
  out ++ rest ≡ₚ [queued "c" 30; queued "a" 10; queued "b" 20] ∧
  StronglySorted (λ x y, at_time x ≤ at_time y)%Z out ∧
  Forall (λ x, at_time x ≤ 20)%Z out ∧ Forall (λ x, 20 < at_time x)%Z rest.
Proof.
  apply (queue_in_order [queued "c" 30; queued "a" 10; queued "b" 20] 20).
  repeat (apply Forall_cons; split; [by eexists|]). constructor.
Defined.
