(* ===== verification/MemoryStorage.v ===== *)
(** * In-memory message storage (src/message_storage.rs, [InMemoryMessageStorage])

    Messages waiting for delivery, by message id, each with its user address and times.
    The two locked maps are one state record; the order in which a hash map is iterated
    is the argument [order], a list of its keys. The background task is the two ticks
    [tick_clean] and [tick_deliver]. *)
From S2P Require Export TimeFormat Config.

(** [get_destination_address] *)
Definition get_destination_address (value : Value) : outcome string Address :=
  match get_str value "destination_addr", get_u64 value "dest_addr_ton",
        get_u64 value "dest_addr_npi" with
  | Some a, Some t, Some n => Ok (mkAddress (cast_u8 t) (cast_u8 n) a)
  | _, _, _ => Err "Missing destination address or its TON/NPI in the message"
  end.

(** What a cancel_sm or replace_sm asks of a message: empty and zero mean any. *)
Definition matches_str (want have : string) : bool :=
  is_empty_str want || bool_decide (want = have).
Definition matches_u8 (want have : N) : bool := (want =? 0)%N || (want =? have)%N.

Definition u8_field (v : Value) (k : string) : N := cast_u8 (u64_field v k).

Module InMemoryMessageStorage.

(** (user address, message, schedule_delivery_time, validity_period) *)
Record entry : Type := mkEntry {
  user_address : string;
  message : Value;
  schedule_delivery_time : option Z;
  validity_period : option Z;
}.

Record t : Type := mk {
  messages : gmap string (list entry);
  user_message_ids : gmap string (list string);
  default_validity_period : N;
}.

Definition new (default_validity_period : N) : t := mk ∅ ∅ default_validity_period.

Definition set_messages (m : gmap string (list entry)) (s : t) : t :=
  mk m (user_message_ids s) (default_validity_period s).
Definition set_users (u : gmap string (list string)) (s : t) : t :=
  mk (messages s) u (default_validity_period s).

Definition remove_user_message_id (user_address message_id : string) (s : t) : t :=
  match user_message_ids s !! user_address with
  | Some ids =>
      let ids := filter (λ id, id ≠ message_id) ids in
      set_users (if decide (ids = []) then delete user_address (user_message_ids s)
                 else <[user_address := ids]> (user_message_ids s)) s
  | None => s
  end.

(** [Vec::remove] panics when the index is out of range. *)
Definition remove_message_by_id (message_id : string) (index : nat) (s : t) :
    outcome io_error t :=
  match messages s !! message_id with
  | Some message_list =>
      if Nat.ltb index (length message_list) then
        let message_list := delete index message_list in
        Ok (set_messages (if decide (message_list = []) then delete message_id (messages s)
                          else <[message_id := message_list]> (messages s)) s)
      else Panic
  | None => Ok s
  end.

(** [v.is_some() && v.unwrap() < now] *)
Definition expired (now : Z) (e : entry) : bool :=
  match validity_period e with Some v => (v <? now)%Z | None => false end.

(** [s.is_some() && s.unwrap() > now] *)
Definition in_future (now : Z) (e : entry) : bool :=
  match schedule_delivery_time e with Some s => (now <? s)%Z | None => false end.

(** [while index >= 0]: the entries below [n], last first. *)
Fixpoint clean_list (now : Z) (message_id : string) (n : nat) (l : list entry) (s : t) :
    list entry * t :=
  match n with
  | O => (l, s)
  | S i =>
      match l !! i with
      | Some e =>
          if expired now e
          then clean_list now message_id i (delete i l)
                 (remove_user_message_id (user_address e) message_id s)
          else clean_list now message_id i l s
      | None => (l, s)
      end
  end.

(** The list of a message id, put back or dropped when it became empty. *)
Definition put_list (message_id : string) (l : list entry) (s : t) : t :=
  set_messages (if decide (l = []) then delete message_id (messages s)
                else <[message_id := l]> (messages s)) s.

Definition clean_one (now : Z) (s : t) (message_id : string) : t :=
  match messages s !! message_id with
  | Some l =>
      let '(l, s) := clean_list now message_id (length l) l s in put_list message_id l s
  | None => s
  end.

Definition clean_expired_messages (now : Z) (order : list string) (s : t) : t :=
  foldl (clean_one now) s order.

(** The message to deliver for one id, if any, with its index. *)
Fixpoint deliver_list (now : Z) (message_id : string) (n : nat) (l : list entry) (s : t) :
    option (nat * Value) * list entry * t :=
  match n with
  | O => (None, l, s)
  | S i =>
      match l !! i with
      | Some e =>
          if in_future now e then deliver_list now message_id i l s
          else if expired now e
          then deliver_list now message_id i (delete i l)
                 (remove_user_message_id (user_address e) message_id s)
          else (Some (i, message e), l, s)
      | None => (None, l, s)
      end
  end.

Definition deliver_one (now : Z) (acc : list (string * nat * Value) * t) (message_id : string) :
    list (string * nat * Value) * t :=
  let '(out, s) := acc in
  match messages s !! message_id with
  | Some l =>
      let '(o, l, s) := deliver_list now message_id (length l) l s in
      (match o with
       | Some (index, message) => out ++ [(message_id, index, message)]
       | None => out
       end, put_list message_id l s)
  | None => (out, s)
  end.

Definition get_delivery_messages (now : Z) (order : list string) (s : t) :
    list (string * nat * Value) * t :=
  foldl (deliver_one now) ([], s) order.

Section ops.
Context `{Chrono}.

Definition save (now : Z) (message_id : string) (message : Value) (s : t) : ioresult t :=
  let dest_address := str_field message "destination_addr" in
  if is_empty_str dest_address then io_err InvalidInput "Missing destination_addr in the message"
  else
    schedule_delivery_time ← ok_option (get_schedule_delivery_time now message);
    validity_period ← ok_option (get_validity_period now message (default_validity_period s));
    match schedule_delivery_time, validity_period with
    | None, None =>
        io_err InvalidInput "Message has neither schedule_delivery_time nor validity_period"
    | _, _ =>
        if match schedule_delivery_time, validity_period with
           | Some sd, Some v => (v <? sd)%Z | _, _ => false end
        then io_err InvalidInput "schedule_delivery_time is later than validity_period"
        else if match validity_period with Some v => (v <? now)%Z | None => false end
        then io_err InvalidInput "Message has already expired"
        else
          let e := mkEntry dest_address message schedule_delivery_time validity_period in
          let s := set_messages
                     (<[message_id := default [] (messages s !! message_id) ++ [e]]> (messages s)) s in
          Ok (set_users
                (<[dest_address := default [] (user_message_ids s !! dest_address) ++ [message_id]]>
                   (user_message_ids s)) s)
    end.

(** The tests of [cancel_message] on one stored message, in their order. *)
Definition cancel_matches (cancel_sm message : Value) : bool :=
  matches_str (str_field cancel_sm "service_type") (str_field message "service_type")
  && matches_str (str_field cancel_sm "source_addr") (str_field message "source_addr")
  && matches_str (str_field cancel_sm "destination_addr") (str_field message "destination_addr")
  && matches_u8 (u8_field cancel_sm "source_addr_ton") (u8_field message "source_addr_ton")
  && matches_u8 (u8_field cancel_sm "source_addr_npi") (u8_field message "source_addr_npi")
  && matches_u8 (u8_field cancel_sm "dest_addr_ton") (u8_field message "dest_addr_ton")
  && matches_u8 (u8_field cancel_sm "dest_addr_npi") (u8_field message "dest_addr_npi").

(** The entries removed, with what is left. *)
Fixpoint cancel_list (cancel_sm : Value) (n : nat) (l : list entry) : list entry * list entry :=
  match n with
  | O => ([], l)
  | S i =>
      match l !! i with
      | Some e =>
          if cancel_matches cancel_sm (message e) then
            let '(removed, l') := cancel_list cancel_sm i (delete i l) in (e :: removed, l')
          else cancel_list cancel_sm i l
      | None => ([], l)
      end
  end.

Definition cancel_one (cancel_sm : Value) (acc : list (string * string) * t)
    (message_id : string) : list (string * string) * t :=
  let '(removed, s) := acc in
  let cancel_message_id := str_field cancel_sm "message_id" in
  if negb (is_empty_str cancel_message_id) && bool_decide (message_id ≠ cancel_message_id)
  then acc
  else
    match messages s !! message_id with
    | Some l =>
        let '(gone, l) := cancel_list cancel_sm (length l) l in
        (removed ++ ((λ e, (user_address e, message_id)) <$> gone), put_list message_id l s)
    | None => acc
    end.

(** The keys of the map are collected first, in [order]. *)
Definition cancel_message (order : list string) (cancel_sm : Value) (s : t) : bool * t :=
  let '(removed, s) := foldl (cancel_one cancel_sm) ([], s) order in
  (Nat.ltb 0 (length removed),
   foldl (λ s '(user_addr, message_id), remove_user_message_id user_addr message_id s) s removed).

(** [if !text.is_empty() { Some(parse(text)?) } else { None }] *)
Definition parse_time_field (now : Z) (label text : string) : ioresult (option Z) :=
  if is_empty_str text then Ok None
  else Some <$> map_err (λ e, IoError InvalidInput ("Invalid " +:+ label +:+ ": " +:+ e))
                        (parse_absolute_relative_time now text).

(** The fields of a replace_sm that the update writes. *)
Record replacement : Type := mkReplacement {
  rep_default_msg_id : N;
  rep_short_message : string;
  rep_message_payload : string;
  rep_schedule : string * option Z;
  rep_validity : string * option Z;
  rep_registered_delivery : N;
}.

(** [if cond { message[key] = value }] *)
Definition set_when (cond : bool) (key : string) (value v : Value) : ioresult Value :=
  if cond then index_set v key value else Ok v.

Definition replace_entry (r : replacement) (e : entry) : ioresult entry :=
  m ← set_when (negb (rep_default_msg_id r =? 0)%N) "sm_default_msg_id"
        (jnum (rep_default_msg_id r)) (message e);
  m ← (if negb (is_empty_str (rep_short_message r))
       then index_set m "short_message" (JString (rep_short_message r))
       else set_when (negb (is_empty_str (rep_message_payload r))) "short_message"
              (JString (rep_message_payload r)) m);
  m ← set_when (bool_decide (is_Some (rep_schedule r).2)) "schedule_delivery_time"
        (JString (rep_schedule r).1) m;
  m ← set_when (bool_decide (is_Some (rep_validity r).2)) "validity_period"
        (JString (rep_validity r).1) m;
  m ← index_set m "registered_delivery" (jnum (rep_registered_delivery r));
  Ok (mkEntry (user_address e) m
        (match (rep_schedule r).2 with Some t => Some t | None => schedule_delivery_time e end)
        (match (rep_validity r).2 with Some t => Some t | None => validity_period e end)).

Definition replace_matches (replace_sm message : Value) : bool :=
  matches_u8 (u8_field replace_sm "source_addr_ton") (u8_field message "source_addr_ton")
  && matches_u8 (u8_field replace_sm "source_addr_npi") (u8_field message "source_addr_npi")
  && matches_str (str_field replace_sm "source_addr") (str_field message "source_addr").

(** The loop over the entries, last first. *)
Fixpoint replace_list (replace_sm : Value) (r : replacement) (n : nat) (l : list entry) :
    ioresult (list entry) :=
  match n with
  | O => Ok l
  | S i =>
      match l !! i with
      | Some e =>
          if replace_matches replace_sm (message e) then
            e' ← replace_entry r e; replace_list replace_sm r i (<[i := e']> l)
          else replace_list replace_sm r i l
      | None => Ok l
      end
  end.

(** The last statement of the source reads [messages[0]]: it panics on an empty list. *)
Definition replace_message (now : Z) (replace_sm : Value) (s : t) : ioresult (bool * t) :=
  let message_id := str_field replace_sm "message_id" in
  let sm_default_msg_id := u8_field replace_sm "sm_default_msg_id" in
  let short_message := str_field replace_sm "short_message" in
  let message_payload := str_field replace_sm "message_payload" in
  if is_empty_str message_id
  then io_err InvalidInput "Missing message_id in the replace_sm command"
  else if (sm_default_msg_id =? 0)%N && is_empty_str short_message && is_empty_str message_payload
  then io_err InvalidInput
         "Missing sm_default_msg_id, short_message, and message_payload in the replace_sm command"
  else
    match messages s !! message_id with
    | None => io_err NotFound ("Message with id " +:+ message_id +:+ " not found")
    | Some l =>
        let sdt := str_field replace_sm "schedule_delivery_time" in
        let vp := str_field replace_sm "validity_period" in
        sdt' ← parse_time_field now "schedule_delivery_time" sdt;
        vp' ← parse_time_field now "validity_period" vp;
        let r := mkReplacement sm_default_msg_id short_message message_payload (sdt, sdt')
                   (vp, vp') (u8_field replace_sm "registered_delivery") in
        l' ← replace_list replace_sm r (length l) l;
        if decide (l' = []) then Panic
        else Ok (true, set_messages (<[message_id := l']> (messages s)) s)
    end.

End ops.

(** ** The background task *)

(** The [t1] branch of the [select!] loop. *)
Definition tick_clean (now : Z) (order : list string) (s : t) : t :=
  clean_expired_messages now order s.

(** What [handle_schedule_delivery_message] returned for each message, [true] for [Ok]. *)
Fixpoint deliver_loop (handler : Value → bool) (values : list (string * nat * Value)) (s : t) :
    ioresult t :=
  match values with
  | [] => Ok s
  | (message_id, index, message) :: rest =>
      if handler message then deliver_loop handler rest s
      else s' ← remove_message_by_id message_id index s; deliver_loop handler rest s'
  end.

(** The [t2] branch: the messages handed to the handler, and the state after it. *)
Definition tick_deliver (now : Z) (order : list string) (handler : Value → bool) (s : t) :
    list Value * ioresult t :=
  let '(values, s) := get_delivery_messages now order s in
  ((λ v, v.2) <$> values, deliver_loop handler values s).

End InMemoryMessageStorage.
