(* ===== verification/MemoryStorageProps.v ===== *)
(** * In-memory message storage: properties

    Each operation against a whole-map reference: expiry and cancellation are filters,
    delivery takes at most one due message per id and a valid index for it. *)
From S2P Require Export MemoryStorage.
Import InMemoryMessageStorage.

(** No id is kept without a message. *)
Definition wf (s : t) : Prop := ∀ id l, messages s !! id = Some l → l ≠ [].

(** [order] visits every id of the map once. *)
Definition iterates (order : list string) (s : t) : Prop :=
  NoDup order ∧ ∀ id, is_Some (messages s !! id) → id ∈ order.

(** ** Lists and maps *)

(** The list of an id after dropping some entries: gone when empty. *)
Definition keep {A} (P : A → bool) (l : list A) : option (list A) :=
  let l' := filter (λ e, P e = true) l in if decide (l' = []) then None else Some l'.

Lemma foldl_alter {A} (f : option A → option A) (order : list string) (m : gmap string A) id :
  NoDup order →
  foldl (λ m k, partial_alter f k m) m order !! id
  = if decide (id ∈ order) then f (m !! id) else m !! id.
Proof.
  intros Hnd. revert m. induction Hnd as [|k order Hk Hnd IH]; intros m; [done|].
  simpl. rewrite IH. destruct (decide (id = k)) as [->|Hne].
  - rewrite (decide_False (P := k ∈ order)) by done. rewrite lookup_partial_alter_eq.
    by rewrite decide_True by (apply elem_of_cons; auto).
  - rewrite lookup_partial_alter_ne by done.
    destruct (decide (id ∈ order)) as [Hin|Hin]; [rewrite decide_True|rewrite decide_False];
      try done; rewrite elem_of_cons; [by right|by intros [|]].
Qed.

(** Removing from the end of the unvisited part. *)
Lemma take_drop_delete {A} i (l : list A) e :
  l !! i = Some e →
  take i (delete i l) = take i l ∧ drop i (delete i l) = drop (S i) l ∧
  take (S i) l = take i l ++ [e] ∧ i ≤ length (delete i l).
Proof.
  intros He. pose proof (lookup_lt_Some _ _ _ He) as Hlt.
  assert (Hlen : length (take i l) = i) by (rewrite length_take; lia).
  rewrite delete_take_drop. split_and!.
  - by rewrite take_app_length'.
  - by rewrite drop_app_length'.
  - by apply take_S_r.
  - rewrite length_app, Hlen. lia.
Qed.

Lemma messages_remove_user u id s : messages (remove_user_message_id u id s) = messages s.
Proof. unfold remove_user_message_id. by destruct (user_message_ids s !! u). Qed.

Lemma dflt_remove_user u id s :
  default_validity_period (remove_user_message_id u id s) = default_validity_period s.
Proof. unfold remove_user_message_id. by destruct (user_message_ids s !! u). Qed.

Lemma messages_put_list id l s :
  messages (put_list id l s)
  = partial_alter (λ _, if decide (l = []) then None else Some l) id (messages s).
Proof. unfold put_list. simpl. by destruct (decide (l = [])). Qed.

(** ** Expiry *)

Lemma clean_list_spec now id n l s :
  n ≤ length l →
  (clean_list now id n l s).1
  = filter (λ e, negb (expired now e) = true) (take n l) ++ drop n l
  ∧ messages (clean_list now id n l s).2 = messages s.
Proof.
  revert l s. induction n as [|n IH]; intros l s Hn; simpl; [by rewrite drop_0|].
  destruct (lookup_lt_is_Some_2 l n Hn) as [e He]. rewrite He.
  destruct (take_drop_delete n l e He) as (Ht & Hd & Hts & Hl).
  rewrite Hts, filter_app.
  destruct (expired now e) eqn:Ee.
  - destruct (IH (delete n l) (remove_user_message_id (user_address e) id s) Hl) as [-> ->].
    rewrite Ht, Hd, messages_remove_user. split; [|done].
    rewrite (filter_cons_False _ e) by (by rewrite Ee). by rewrite filter_nil, app_nil_r.
  - destruct (IH l s) as [-> ->]; [lia|]. split; [|done].
    rewrite (filter_cons_True _ e) by (by rewrite Ee). rewrite filter_nil, <-app_assoc.
    by rewrite (drop_S _ _ _ He).
Qed.

Lemma clean_one_messages now s id :
  messages (clean_one now s id)
  = partial_alter (λ o, o ≫= keep (λ e, negb (expired now e))) id (messages s).
Proof.
  unfold clean_one. destruct (messages s !! id) as [l|] eqn:El.
  - destruct (clean_list_spec now id (length l) l s (le_n _)) as [H1 H2].
    destruct (clean_list now id (length l) l s) as [l' s']. simpl in H1, H2. subst l'.
    rewrite messages_put_list, H2, take_ge, drop_ge, app_nil_r by lia.
    apply partial_alter_ext. intros x Hx. rewrite El in Hx. subst x. done.
  - apply map_eq. intros k. destruct (decide (k = id)) as [->|Hne].
    + by rewrite lookup_partial_alter_eq, El.
    + by rewrite lookup_partial_alter_ne.
Qed.

Lemma clean_expired_lookup now order s id :
  NoDup order →
  messages (clean_expired_messages now order s) !! id
  = if decide (id ∈ order) then messages s !! id ≫= keep (λ e, negb (expired now e))
    else messages s !! id.
Proof.
  intros Hnd. rewrite <-(foldl_alter (λ o, o ≫= keep (λ e, negb (expired now e)))) by done.
  f_equal. unfold clean_expired_messages. clear Hnd. revert s.
  induction order as [|k order IH]; intros s; [done|]. simpl. by rewrite IH, clean_one_messages.
Qed.

(** The expiry tick removes exactly the expired messages, for every iteration order
    of the hash map: the messages left under an id are the unexpired ones in their order,
    and an id with none left is gone. *)
Theorem clean_expired_exact now order s id :
  iterates order s →
  messages (clean_expired_messages now order s) !! id
  = messages s !! id ≫= keep (λ e, negb (expired now e)).
Proof.
  intros [Hnd Hall]. rewrite clean_expired_lookup by done.
  destruct (decide (id ∈ order)); [done|].
  destruct (messages s !! id) as [l|] eqn:El; [|done]. exfalso. eauto.
Qed.

(** ** Delivery *)

(** A message that may be delivered now. *)
Definition due (now : Z) (e : entry) : bool := negb (in_future now e) && negb (expired now e).

Lemma deliver_list_spec now id n l s :
  n ≤ length l →
  let '(o, l', s') := deliver_list now id n l s in
  messages s' = messages s ∧
  (∀ e, e ∈ l' → e ∈ l) ∧
  (∀ e, e ∈ l → e ∈ l' ∨ expired now e = true) ∧
  match o with
  | Some (i, m) => ∃ e, l' !! i = Some e ∧ message e = m ∧ due now e = true
  | None => ∀ e, e ∈ take n l → due now e = false
  end.
Proof.
  revert l s. induction n as [|n IH]; intros l s Hn; simpl.
  { split_and!; auto. intros e He. by apply elem_of_nil in He. }
  destruct (lookup_lt_is_Some_2 l n Hn) as [e He]. rewrite He.
  destruct (take_drop_delete n l e He) as (Ht & Hd & Hts & Hl).
  assert (Hskip : due now e = false → ∀ l1, take n l1 = take n l →
            (∀ x, x ∈ take n l1 → due now x = false) →
            ∀ x, x ∈ take (S n) l → due now x = false).
  { intros Hdue l1 Hl1 Hx x. rewrite Hts, elem_of_app, list_elem_of_singleton.
    intros [Hin|Heq]; [apply Hx; by rewrite Hl1|by rewrite Heq]. }
  destruct (in_future now e) eqn:Ef.
  - specialize (IH l s ltac:(lia)). destruct (deliver_list now id n l s) as [[o l'] s'].
    destruct IH as (H1 & H2 & H3 & H4). split_and!; try done.
    destruct o as [[i m]|]; [done|]. apply (Hskip ltac:(unfold due; by rewrite Ef) l); auto.
  - destruct (expired now e) eqn:Ee.
    + specialize (IH (delete n l) (remove_user_message_id (user_address e) id s) Hl).
      destruct (deliver_list now id n (delete n l) _) as [[o l'] s'].
      destruct IH as (H1 & H2 & H3 & H4). rewrite messages_remove_user in H1.
      split_and!; [done| | |].
      * intros x Hx. apply H2 in Hx. rewrite delete_take_drop in Hx.
        apply elem_of_app in Hx as [Hx|Hx].
        -- apply (subseteq_take n l). done.
        -- apply (subseteq_drop (S n) l). done.
      * intros x Hx. rewrite <-(take_drop (S n) l), Hts in Hx.
        rewrite !elem_of_app, list_elem_of_singleton in Hx.
        destruct Hx as [[Hx|Hx]|Hx]; [|right; by rewrite Hx|];
          apply H3; rewrite delete_take_drop, elem_of_app; [by left|by right].
      * destruct o as [[i m]|]; [done|].
        apply (Hskip ltac:(unfold due; by rewrite Ee, andb_false_r) (delete n l)); auto.
    + split_and!; auto. exists e. unfold due. by rewrite Ef, Ee.
Qed.


(** What [get_delivery_messages] does to the list of one id. *)
Definition delivered_list (now : Z) (id : string) (l : list entry) (s : t) :=
  deliver_list now id (length l) l s.

Lemma deliver_one_step now out s id :
  ∃ o, (deliver_one now (out, s) id).1 = out ++ o ∧
    (∀ k, k ≠ id → messages (deliver_one now (out, s) id).2 !! k = messages s !! k) ∧
    (∀ x, x ∈ o → x.1.1 = id) ∧ length o ≤ 1 ∧
    (∀ i m, (id, i, m) ∈ o → ∃ l e,
       messages (deliver_one now (out, s) id).2 !! id = Some l ∧ l !! i = Some e ∧
       message e = m ∧ due now e = true ∧
       ∃ l0, messages s !! id = Some l0 ∧ e ∈ l0) ∧
    (∀ l0 e, messages s !! id = Some l0 → e ∈ l0 → due now e = true → o ≠ []) ∧
    (∀ l0 e, messages s !! id = Some l0 → e ∈ l0 → expired now e = false →
       ∃ l, messages (deliver_one now (out, s) id).2 !! id = Some l ∧ e ∈ l) ∧
    (∀ l, messages (deliver_one now (out, s) id).2 !! id = Some l → l ≠ [] ∨ messages s !! id = Some l).
Proof.
  unfold deliver_one. destruct (messages s !! id) as [l|] eqn:El.
  2: { exists []. simpl. rewrite app_nil_r, El.
       split_and!; try done; try lia; intros; by apply elem_of_nil in H. }
  pose proof (deliver_list_spec now id (length l) l s (le_n _)) as Hs.
  destruct (deliver_list now id (length l) l s) as [[o l'] s'].
  destruct Hs as (H1 & H2 & H3 & H4). rewrite take_ge in H4 by lia.
  set (out' := match o with Some (index, m) => [(id, index, m)] | None => [] end).
  exists out'. subst out'. cbn [fst snd]. rewrite messages_put_list, H1.
  assert (Hl' : ∀ e, e ∈ l' → partial_alter (λ _, if decide (l' = []) then None else Some l') id
                                (messages s) !! id = Some l').
  { intros e He. rewrite lookup_partial_alter_eq, decide_False; [done|].
    intros ->. by apply elem_of_nil in He. }
  split_and!.
  - destruct o as [[i m]|]; [done|by rewrite app_nil_r].
  - intros k Hk. by rewrite lookup_partial_alter_ne.
  - intros x. destruct o as [[i m]|]; [rewrite list_elem_of_singleton; by intros ->|].
    intros Hx. by apply elem_of_nil in Hx.
  - destruct o as [[i m]|]; simpl; lia.
  - intros i m Hin. destruct o as [[i' m']|]; [|by apply elem_of_nil in Hin].
    apply list_elem_of_singleton in Hin. injection Hin as -> ->.
    destruct H4 as (e & He & Hm & Hd). pose proof (list_elem_of_lookup_2 _ _ _ He) as Hin.
    exists l', e. split_and!; eauto.
  - intros l0 e Hl0 He Hd. injection Hl0 as <-. destruct o as [[i m]|]; [done|].
    by rewrite (H4 e He) in Hd.
  - intros l0 e Hl0 He Hx. injection Hl0 as <-.
    destruct (H3 e He) as [Hin|Hin]; [|congruence]. exists l'. eauto.
  - intros l2. rewrite lookup_partial_alter_eq.
    destruct (decide (l' = [])); [done|]. intros Heq. left. congruence.
Qed.

(** What a delivery tick promises about the ids in [order]. *)
Record delivery_spec (now : Z) (order : list string) (s s' : t)
    (vs : list (string * nat * Value)) : Prop := {
  ds_other : ∀ k, k ∉ order → messages s' !! k = messages s !! k;
  ds_ids : ∀ x, x ∈ vs → x.1.1 ∈ order;
  ds_once : NoDup ((λ x, x.1.1) <$> vs);
  ds_sound : ∀ id i m, (id, i, m) ∈ vs → ∃ l e,
    messages s' !! id = Some l ∧ l !! i = Some e ∧ message e = m ∧ due now e = true ∧
    ∃ l0, messages s !! id = Some l0 ∧ e ∈ l0;
  ds_complete : ∀ id l0 e, id ∈ order → messages s !! id = Some l0 → e ∈ l0 →
    due now e = true → ∃ i m, (id, i, m) ∈ vs;
  ds_kept : ∀ id l0 e, messages s !! id = Some l0 → e ∈ l0 → expired now e = false →
    ∃ l, messages s' !! id = Some l ∧ e ∈ l;
}.

Lemma deliver_fold now order out s :
  NoDup order → ∃ vs,
    (foldl (deliver_one now) (out, s) order).1 = out ++ vs ∧
    delivery_spec now order s (foldl (deliver_one now) (out, s) order).2 vs.
Proof.
  intros Hnd. revert out s. induction Hnd as [|id order Hid Hnd IH]; intros out s.
  - exists []. rewrite app_nil_r. split; [done|]. split; simpl.
    + done.
    + intros x Hx. by apply elem_of_nil in Hx.
    + apply NoDup_nil_2.
    + intros id i m Hx. by apply elem_of_nil in Hx.
    + intros id l0 e Hx. by apply elem_of_nil in Hx.
    + intros id l0 e Hl He _. by exists l0.
  - cbn [foldl]. destruct (deliver_one_step now out s id)
      as (o & Hout & Hoth & Hids & Hlen & Hsound & Hcompl & Hkept & _).
    destruct (deliver_one now (out, s) id) as [out1 s1]. cbn [fst snd] in *. subst out1.
    destruct (IH (out ++ o) s1) as (vs & -> & [Doth Dids Donce Dsound Dcompl Dkept]).
    destruct (foldl (deliver_one now) (out ++ o, s1) order) as [out2 s2]. cbn [fst snd] in *.
    exists (o ++ vs). rewrite app_assoc. split; [done|]. split.
    + intros k Hk. apply not_elem_of_cons in Hk as [Hne Hk]. by rewrite Doth, Hoth.
    + intros x Hx. apply elem_of_app in Hx as [Hx|Hx]; apply elem_of_cons; [left; auto|right; auto].
    + rewrite fmap_app. destruct o as [|x [|y o]]; simpl in Hlen; [done| |lia].
      simpl. apply NoDup_cons. split; [|done]. intros Hin.
      apply list_elem_of_fmap in Hin as (y & Hy & Hin). apply Dids in Hin.
      rewrite <-Hy, (Hids x) in Hin by (by apply list_elem_of_singleton). done.
    + intros k i m Hin. apply elem_of_app in Hin as [Hin|Hin].
      * pose proof (Hids _ Hin) as Hk. simpl in Hk. subst k.
        destruct (Hsound i m Hin) as (l & e & Hl & He & Hm & Hd & H0).
        exists l, e. rewrite Doth by done. eauto 10.
      * pose proof (Dids _ Hin) as Hk. simpl in Hk.
        destruct (Dsound k i m Hin) as (l & e & Hl & He & Hm & Hd & l0 & H0 & Hin0).
        exists l, e. split_and!; try done. exists l0. split; [|done].
        rewrite <-Hoth; [done|]. intros ->. done.
    + intros k l0 e Hk Hl0 He Hd. apply elem_of_cons in Hk as [->|Hk].
      * pose proof (Hcompl l0 e Hl0 He Hd) as Hne. destruct o as [|[[k i] m] o]; [done|].
        pose proof (Hids (k, i, m)) as Hk. simpl in Hk. rewrite elem_of_cons in Hk.
        rewrite <-(Hk (or_introl eq_refl)). exists i, m. apply elem_of_app. left. by apply elem_of_cons; left.
      * destruct (Dcompl k l0 e Hk) as (i & m & Hin); [|done|done|].
        { rewrite Hoth; [done|]. intros ->. done. }
        exists i, m. apply elem_of_app. by right.
    + intros k l0 e Hl0 He Hx. destruct (decide (k = id)) as [->|Hne].
      * destruct (Hkept l0 e Hl0 He Hx) as (l & Hl & Hin). exists l. by rewrite Doth.
      * apply (Dkept k l0 e); [by rewrite Hoth|done|done].
Qed.

Lemma delivery_spec_holds now order s vs s' :
  NoDup order → get_delivery_messages now order s = (vs, s') → delivery_spec now order s s' vs.
Proof.
  intros Hnd Heq. unfold get_delivery_messages in Heq.
  destruct (deliver_fold now order [] s Hnd) as (vs' & Hvs & Hspec).
  rewrite Heq in Hvs, Hspec. cbn [fst snd app] in *. by subst vs'.
Qed.

(** C30: a delivery tick hands over only messages that are due and not expired, at most one
    per message id and one for every id that has such a message; the index returned with
    each is valid in the state it leaves, and no unexpired message is lost. *)
Theorem get_delivery_messages_spec now order s vs s' :
  iterates order s → get_delivery_messages now order s = (vs, s') →
  NoDup ((λ x, x.1.1) <$> vs) ∧
  (∀ id i m, (id, i, m) ∈ vs → ∃ l l0 e, messages s' !! id = Some l ∧ l !! i = Some e ∧
     message e = m ∧ due now e = true ∧ messages s !! id = Some l0 ∧ e ∈ l0) ∧
  (∀ id l e, messages s !! id = Some l → e ∈ l → due now e = true → ∃ i m, (id, i, m) ∈ vs) ∧
  (∀ id l e, messages s !! id = Some l → e ∈ l → expired now e = false →
     ∃ l', messages s' !! id = Some l' ∧ e ∈ l').
Proof.
  intros [Hnd Hall] Heq.
  destruct (delivery_spec_holds _ _ _ _ _ Hnd Heq) as [_ _ Honce Hsound Hcompl Hkept].
  split_and!; [done| | |done].
  - intros id i m Hin. destruct (Hsound id i m Hin) as (l & e & Hl & He & Hm & Hd & l0 & H0 & Hin0).
    by exists l, l0, e.
  - intros id l e Hl He Hd. apply (Hcompl id l e); try done. apply Hall. by exists l.
Qed.

(** *** After the handler *)

Lemma deliver_loop_ok values s : deliver_loop (λ _, true) values s = Ok s.
Proof. by induction values as [|[[id i] m] values IH]. Qed.

(** A message whose delivery succeeds is not taken out of the storage: after a tick in
    which the handler accepts everything, every message it was given is still stored
    (and due, so the next tick hands it over again). *)
Theorem delivered_messages_stay now order s vs r :
  iterates order s → tick_deliver now order (λ _, true) s = (vs, r) → ∃ s',
    r = Ok s' ∧ ∀ m, m ∈ vs → ∃ id l e,
      messages s' !! id = Some l ∧ e ∈ l ∧ message e = m ∧ due now e = true.
Proof.
  intros Hit. unfold tick_deliver.
  destruct (get_delivery_messages now order s) as [values s'] eqn:Eg.
  pose proof (delivery_spec_holds _ _ _ _ _ (proj1 Hit) Eg) as Hspec.
  rewrite deliver_loop_ok. intros Heq. injection Heq as <- <-. exists s'. split; [done|].
  intros m Hm. apply list_elem_of_fmap in Hm as ([[id i] m'] & -> & Hin).
  destruct (ds_sound _ _ _ _ _ Hspec id i m' Hin) as (l & e & Hl & He & Hme & Hd & _).
  exists id, l, e. split_and!; try done. by eapply list_elem_of_lookup_2.
Qed.

(** The tick never panics, whatever the handler answers: the index of each message is
    still valid when the message is removed. *)
Theorem tick_deliver_no_panic now order handler s :
  iterates order s → ∃ vs s', tick_deliver now order handler s = (vs, Ok s').
Proof.
  intros Hit. unfold tick_deliver.
  destruct (get_delivery_messages now order s) as [values s'] eqn:Eg.
  pose proof (delivery_spec_holds _ _ _ _ _ (proj1 Hit) Eg) as [_ _ Honce Hsound _ _].
  assert (Hvalid : ∀ id i m, (id, i, m) ∈ values → ∃ l, messages s' !! id = Some l ∧ i < length l).
  { intros id i m Hin. destruct (Hsound id i m Hin) as (l & e & Hl & He & _).
    exists l. split; [done|]. by eapply lookup_lt_Some. }
  clear Hsound Eg Hit. eexists. cut (∃ s2, deliver_loop handler values s' = Ok s2).
  { intros [s2 ->]. by exists s2. }
  revert s' Hvalid. induction values as [|[[id i] m] values IH]; intros s1 Hvalid; [by exists s1|].
  cbn [fmap list_fmap] in Honce. apply NoDup_cons in Honce as [Hid Honce]. simpl in Hid.
  assert (Hrest : ∀ s2, (∀ k, k ≠ id → messages s2 !! k = messages s1 !! k) →
            ∃ s3, deliver_loop handler values s2 = Ok s3).
  { intros s2 Hs2. apply IH; [done|]. intros k j v Hin.
    destruct (Hvalid k j v) as (l & Hl & Hj); [by apply elem_of_cons; right|].
    exists l. split; [|done]. rewrite Hs2; [done|]. intros ->.
    apply Hid, list_elem_of_fmap. by exists (id, j, v). }
  cbn [deliver_loop]. destruct (handler m); [by apply Hrest|].
  destruct (Hvalid id i m) as (l & Hl & Hi); [by apply elem_of_cons; left|].
  unfold remove_message_by_id. rewrite Hl, (proj2 (Nat.ltb_lt _ _)) by done.
  cbn [mbind outcome_bind]. apply Hrest. intros k Hk. simpl.
  destruct (decide (delete i l = [])); [by rewrite lookup_delete_ne|by rewrite lookup_insert_ne].
Qed.

(** ** Cancellation *)

Lemma cancel_list_spec c n l :
  n ≤ length l →
  (cancel_list c n l).2 = filter (λ e, negb (cancel_matches c (message e)) = true) (take n l) ++ drop n l
  ∧ ((cancel_list c n l).1 ≠ [] ↔ ∃ e, e ∈ take n l ∧ cancel_matches c (message e) = true).
Proof.
  revert l. induction n as [|n IH]; intros l Hn; simpl.
  { rewrite drop_0. split; [done|]. split; [done|]. intros (e & He & _). by apply elem_of_nil in He. }
  destruct (lookup_lt_is_Some_2 l n Hn) as [e He]. rewrite He.
  destruct (take_drop_delete n l e He) as (Ht & Hd & Hts & Hl).
  rewrite Hts, filter_app. setoid_rewrite elem_of_app. setoid_rewrite list_elem_of_singleton.
  destruct (cancel_matches c (message e)) eqn:Ee.
  - destruct (IH (delete n l) Hl) as [H1 _].
    destruct (cancel_list c n (delete n l)) as [gone l']. cbn [fst snd] in *.
    rewrite H1, Ht, Hd, (filter_cons_False _ e) by (by rewrite Ee).
    rewrite filter_nil, app_nil_r. split; [done|]. split; [|done]. intros _. exists e. auto.
  - destruct (IH l) as [H1 H2]; [lia|]. rewrite H1, H2. split.
    + rewrite (filter_cons_True _ e) by (by rewrite Ee). rewrite filter_nil, <-app_assoc.
      by rewrite (drop_S _ _ _ He).
    + split; [intros (x & Hx & Hm); exists x; auto|].
      intros (x & [Hx|Hx] & Hm); [exists x; auto|congruence].
Qed.

(** Whether a cancel_sm is about a message id at all. *)
Definition cancel_id_ok (c : Value) (id : string) : bool :=
  matches_str (str_field c "message_id") id.

Definition cancel_keep (c : Value) (e : entry) : bool := negb (cancel_matches c (message e)).

Lemma cancel_skip c id :
  negb (is_empty_str (str_field c "message_id")) && bool_decide (id ≠ str_field c "message_id")
  = negb (cancel_id_ok c id).
Proof.
  unfold cancel_id_ok, matches_str. rewrite negb_orb. f_equal.
  rewrite <-bool_decide_not. apply bool_decide_ext. split; congruence.
Qed.

(** The messages the request describes, among those of one id. *)
Definition cancels (c : Value) (s : t) (id : string) : Prop :=
  cancel_id_ok c id = true ∧
  ∃ l e, messages s !! id = Some l ∧ e ∈ l ∧ cancel_matches c (message e) = true.

Lemma alter_same {A} (f : option A → option A) (m : gmap string A) id :
  f (m !! id) = m !! id → partial_alter f id m = m.
Proof.
  intros Hf. apply map_eq. intros k. destruct (decide (k = id)) as [->|Hk];
    [by rewrite lookup_partial_alter_eq|by rewrite lookup_partial_alter_ne].
Qed.

Lemma cancel_one_spec c removed s id :
  messages (cancel_one c (removed, s) id).2
  = partial_alter (λ o, if cancel_id_ok c id then o ≫= keep (cancel_keep c) else o) id (messages s)
  ∧ ∃ gone, (cancel_one c (removed, s) id).1 = removed ++ gone ∧ (gone ≠ [] ↔ cancels c s id).
Proof.
  unfold cancel_one. rewrite cancel_skip. unfold cancels.
  destruct (cancel_id_ok c id) eqn:Eid; simpl negb; cbn iota.
  2: { cbn [fst snd]. rewrite alter_same by done. split; [done|]. exists [].
       rewrite app_nil_r. split; [done|]. split; [done|]. by intros [? _]. }
  destruct (messages s !! id) as [l|] eqn:El.
  - destruct (cancel_list_spec c (length l) l (le_n _)) as [H1 H2].
    destruct (cancel_list c (length l) l) as [gone l']. cbn [fst snd] in *.
    rewrite take_ge in H1, H2 by lia. rewrite drop_ge, app_nil_r in H1 by lia. subst l'. split.
    + rewrite messages_put_list. apply partial_alter_ext. intros x Hx. rewrite El in Hx. subst x. done.
    + eexists. split; [done|].
      assert (Hnil : (λ e, (user_address e, id)) <$> gone ≠ [] ↔ gone ≠ []) by (by destruct gone).
      rewrite Hnil, H2. split.
      * intros (e & He & Hm). split; [done|]. by exists l, e.
      * intros (_ & l0 & e & Hl0 & He & Hm). exists e. by simplify_eq.
  - cbn [fst snd]. rewrite alter_same by (by rewrite El). split; [done|]. exists [].
    rewrite app_nil_r. split; [done|]. split; [done|]. by intros (_ & l & e & Hl & _).
Qed.

Lemma cancel_fold_spec c order removed s :
  NoDup order →
  (∀ id, messages (foldl (cancel_one c) (removed, s) order).2 !! id
         = if decide (id ∈ order)
           then if cancel_id_ok c id then messages s !! id ≫= keep (cancel_keep c) else messages s !! id
           else messages s !! id)
  ∧ ∃ gone, (foldl (cancel_one c) (removed, s) order).1 = removed ++ gone ∧
    (gone ≠ [] ↔ ∃ id, id ∈ order ∧ cancels c s id).
Proof.
  intros Hnd. revert removed s. induction Hnd as [|id order Hid Hnd IH]; intros removed s.
  - cbn [foldl fst snd]. split; [done|]. exists []. rewrite app_nil_r. split; [done|].
    split; [done|]. intros (id & Hin & _). by apply elem_of_nil in Hin.
  - cbn [foldl]. destruct (cancel_one_spec c removed s id) as (Hm & gone & Hg & Hgone).
    destruct (cancel_one c (removed, s) id) as [removed1 s1]. cbn [fst snd] in *. subst removed1.
    destruct (IH (removed ++ gone) s1) as (Hmsg & gone' & -> & Hgone').
    assert (Hsame : ∀ k, k ≠ id → messages s1 !! k = messages s !! k).
    { intros k Hk. by rewrite Hm, lookup_partial_alter_ne. }
    assert (Hcan : ∀ k, k ≠ id → cancels c s1 k ↔ cancels c s k).
    { intros k Hk. unfold cancels. by rewrite Hsame. }
    split.
    + intros k. rewrite Hmsg. destruct (decide (k = id)) as [->|Hne].
      * rewrite decide_False, decide_True by (done || by apply elem_of_cons; left).
        by rewrite Hm, lookup_partial_alter_eq.
      * rewrite !Hsame by done. destruct (decide (k ∈ order)) as [Hk|Hk].
        -- by rewrite decide_True by (by apply elem_of_cons; right).
        -- rewrite decide_False; [done|]. by rewrite elem_of_cons; intros [|].
    + exists (gone ++ gone'). rewrite app_assoc. split; [done|].
      assert (Happ : gone ++ gone' ≠ [] ↔ gone ≠ [] ∨ gone' ≠ []).
      { destruct gone; simpl; split; [by right|by intros [?|?]|by left|done]. }
      rewrite Happ, Hgone, Hgone'. split.
      * intros [Hc|(k & Hk & Hc)]; [exists id|exists k]; rewrite elem_of_cons; [auto|].
        split; [auto|]. apply Hcan; [|done]. intros ->. done.
      * intros (k & Hk & Hc). apply elem_of_cons in Hk as [->|Hk]; [by left|].
        right. exists k. split; [done|]. apply Hcan; [|done]. intros ->. done.
Qed.

Lemma foldl_remove_users removed s :
  messages (foldl (λ s '(u, id), remove_user_message_id u id s) s removed) = messages s.
Proof.
  revert s. induction removed as [|[u id] removed IH]; intros s; [done|]. simpl.
  by rewrite IH, messages_remove_user.
Qed.

Lemma cancel_message_effect order c s b s' :
  iterates order s → cancel_message order c s = (b, s') →
  (∀ id, messages s' !! id
         = if cancel_id_ok c id then messages s !! id ≫= keep (cancel_keep c) else messages s !! id)
  ∧ (b = true ↔ ∃ id, cancels c s id).
Proof.
  intros [Hnd Hall] Heq. unfold cancel_message in Heq.
  destruct (cancel_fold_spec c order [] s Hnd) as (Hmsg & gone & Hg & Hgone).
  destruct (foldl (cancel_one c) ([], s) order) as [removed s1]. cbn [fst snd app] in *.
  subst removed. apply pair_equal_spec in Heq as [<- <-]. rewrite foldl_remove_users. split.
  - intros id. rewrite Hmsg. destruct (decide (id ∈ order)) as [|Hid]; [done|].
    destruct (messages s !! id) as [l|] eqn:El; [exfalso; apply Hid, Hall; by exists l|].
    by destruct (cancel_id_ok c id).
  - rewrite Nat.ltb_lt.
    assert (Hlen : 0 < length gone ↔ gone ≠ []) by (destruct gone; simpl; split; (done || lia)).
    rewrite Hlen, Hgone. split; [intros (id & _ & Hc); eauto|].
    intros (id & Hc). exists id. split; [|done]. destruct Hc as (_ & l & e & Hl & _).
    apply Hall. by exists l.
Qed.

(** Cancel_sm removes exactly the messages it describes (an empty or zero field of the
    request matches anything), whatever the iteration order, and answers [true] exactly
    when there was one. *)
Theorem cancel_message_exact order c s b s' :
  iterates order s → cancel_message order c s = (b, s') →
  (∀ id, messages s' !! id
         = if cancel_id_ok c id then messages s !! id ≫= keep (cancel_keep c) else messages s !! id)
  ∧ (b = true ↔ ∃ id, cancels c s id).
Proof. apply cancel_message_effect. Qed.

(** ** Saving *)

Section save.
Context `{Chrono}.

(** C31: [save] either refuses the message or appends it under its id with the times read
    from it; it accepts only a message that has a destination, has a delivery time or a
    validity period, is not scheduled past its validity and has not expired. *)
Theorem save_spec now id m s s' :
  save now id m s = Ok s' → ∃ sd v,
    ok_option (F := io_error) (get_schedule_delivery_time now m) = Ok sd ∧
    ok_option (F := io_error) (get_validity_period now m (default_validity_period s)) = Ok v ∧
    let e := mkEntry (str_field m "destination_addr") m sd v in
    user_address e ≠ "" ∧ (is_Some sd ∨ is_Some v) ∧ expired now e = false ∧
    (∀ a b, sd = Some a → v = Some b → (a ≤ b)%Z) ∧
    messages s' = <[id := default [] (messages s !! id) ++ [e]]> (messages s).
Proof.
  unfold save, is_empty_str. case_bool_decide as Hdest; [discriminate|].
  destruct (ok_option (get_schedule_delivery_time now m)) as [sd|e|] eqn:Esd; [|discriminate|discriminate].
  cbn [mbind outcome_bind].
  destruct (ok_option (get_validity_period now m _)) as [v|e|] eqn:Ev; [|discriminate|discriminate].
  cbn [mbind outcome_bind]. intros Hs. exists sd, v. split; [done|]. split; [done|].
  unfold expired. cbn [user_address validity_period].
  destruct sd as [a|], v as [b|]; cbn beta iota in Hs; try discriminate.
  - destruct (Z.ltb_spec b a); [discriminate|]. destruct (Z.ltb_spec b now); [discriminate|].
    injection Hs as <-. split_and!; try done; [by left|]. intros a' b' [= <-] [= <-]. lia.
  - injection Hs as <-. split_and!; try done. by left.
  - destruct (Z.ltb_spec b now); [discriminate|]. injection Hs as <-.
    split_and!; try done. by right.
Qed.

(** A message whose schedule_delivery_time and validity_period are both present and
    empty, as in every decoded submit_sm that does not set them, is refused: the
    configured default validity period only applies when the fields are absent. *)
Theorem save_refuses_default_times now id m s :
  str_field m "destination_addr" ≠ "" →
  get_str m "schedule_delivery_time" = Some "" → get_str m "validity_period" = Some "" →
  save now id m s = io_err InvalidInput "Message has neither schedule_delivery_time nor validity_period".
Proof.
  intros Hd Hs Hv. unfold save, is_empty_str, get_schedule_delivery_time, get_validity_period.
  rewrite bool_decide_eq_false_2, Hs, Hv by done. reflexivity.
Qed.

(** ** Replacing *)

Lemma replace_list_spec c r n l l' :
  n ≤ length l → replace_list c r n l = Ok l' →
  length l' = length l ∧
  ∀ i e, l !! i = Some e →
    if Nat.ltb i n && replace_matches c (message e)
    then ∃ e', replace_entry r e = Ok e' ∧ l' !! i = Some e'
    else l' !! i = Some e.
Proof.
  revert l l'. induction n as [|n IH]; intros l l' Hn; simpl.
  { intros [= <-]. done. }
  destruct (lookup_lt_is_Some_2 l n Hn) as [e He]. rewrite He.
  destruct (replace_matches c (message e)) eqn:Em.
  - destruct (replace_entry r e) as [e'| |] eqn:Er; [|discriminate|discriminate].
    cbn [mbind outcome_bind]. intros Hl'.
    assert (Hn' : n ≤ length (<[n:=e']> l)) by (rewrite length_insert; lia).
    destruct (IH _ _ Hn' Hl') as [Hlen Hi].
    rewrite length_insert in Hlen. split; [done|]. intros i x Hx.
    destruct (decide (i = n)) as [->|Hne].
    + specialize (Hi n e'). rewrite (proj2 (Nat.ltb_ge n n)) in Hi by lia.
      rewrite (proj2 (Nat.ltb_lt n (S n))) by lia. rewrite He in Hx. injection Hx as <-.
      rewrite Em. simpl. exists e'. split; [done|]. apply Hi. by rewrite list_lookup_insert_eq by lia.
    + specialize (Hi i x). rewrite list_lookup_insert_ne in Hi by done. specialize (Hi Hx).
      destruct (Nat.ltb_spec i n), (Nat.ltb_spec i (S n)); try lia; done.
  - intros Hl'. destruct (IH l l' (Nat.lt_le_incl _ _ Hn) Hl') as [Hlen Hi]. split; [done|].
    intros i x Hx. specialize (Hi i x Hx). destruct (decide (i = n)) as [->|Hne].
    + rewrite He in Hx. injection Hx as <-. rewrite Em, andb_false_r in *. done.
    + destruct (Nat.ltb_spec i n), (Nat.ltb_spec i (S n)); try lia; done.
Qed.

Lemma replace_message_inv now c s b s' :
  replace_message now c s = Ok (b, s') → ∃ l r l',
    messages s !! str_field c "message_id" = Some l ∧
    replace_list c r (length l) l = Ok l' ∧ l' ≠ [] ∧ b = true ∧
    messages s' = <[str_field c "message_id" := l']> (messages s).
Proof.
  unfold replace_message.
  destruct (is_empty_str _); [discriminate|]. destruct (_ && _ && _); [discriminate|].
  destruct (messages s !! _) as [l|]; [|discriminate].
  destruct (parse_time_field now "schedule_delivery_time" _) as [sdt| |];
    [|discriminate|discriminate].
  destruct (parse_time_field now "validity_period" _) as [vp| |]; [|discriminate|discriminate].
  cbn [mbind outcome_bind].
  destruct (replace_list _ _ _ _) as [l'| |] eqn:Er; [|discriminate|discriminate].
  cbn [mbind outcome_bind]. destruct (decide (l' = [])); [discriminate|].
  intros [= <- <-]. eauto 10.
Qed.

(** [replace_message] answers [true] for every id that is stored, even when no stored
    message has the source address of the request: then nothing changes and the sender
    is told that the message was replaced. *)
Theorem replace_message_true_unmatched now c s l b s' :
  messages s !! str_field c "message_id" = Some l →
  (∀ e, e ∈ l → replace_matches c (message e) = false) →
  replace_message now c s = Ok (b, s') → b = true ∧ messages s' = messages s.
Proof.
  intros Hl Hno (l0 & r & l' & Hl0 & Er & _ & -> & ->)%replace_message_inv.
  assert (l0 = l) as -> by congruence. split; [done|].
  apply replace_list_spec in Er as [Hlen Hi]; [|done].
  assert (l' = l) as ->; [|by rewrite insert_id].
  apply list_eq_same_length with (length l); [done|done|]. intros i x y Hi' Hx Hy.
  specialize (Hi i y Hy). rewrite Hno, andb_false_r in Hi by (by eapply list_elem_of_lookup_2).
  congruence.
Qed.

(** The messages of an id are objects, as [to_json] makes them. *)
Definition is_object (v : Value) : Prop := ∃ m, v = JObject m.

Lemma index_set_object {E} v k x : is_object v → ∃ v', index_set (E := E) v k x = Ok v' ∧ is_object v'.
Proof. intros [m ->]. eexists. split; [done|]. by eexists. Qed.

Lemma replace_entry_total r e : is_object (message e) → is_ok (replace_entry r e) = true.
Proof.
  intros [m Hm]. unfold replace_entry, set_when. rewrite Hm.
  repeat (case_match || case_bool_decide); by simplify_eq/=.
Qed.

End save.

(** ** The invariant *)

Lemma wf_new d : wf (new d).
Proof. intros id l Hl. simpl in Hl. by rewrite lookup_empty in Hl. Qed.

Lemma keep_ne {A} (P : A → bool) l l' : keep P l = Some l' → l' ≠ [].
Proof. unfold keep. case_decide; [done|]. by intros [= <-]. Qed.

Lemma save_messages `{Chrono} now id m s s' :
  save now id m s = Ok s' →
  ∃ e, messages s' = <[id := default [] (messages s !! id) ++ [e]]> (messages s).
Proof.
  unfold save. destruct (is_empty_str _); [discriminate|].
  destruct (ok_option (get_schedule_delivery_time now m)) as [sd|e|]; [|discriminate|discriminate].
  destruct (ok_option (get_validity_period now m _)) as [v|e|]; [|discriminate|discriminate].
  cbn [mbind outcome_bind]. intros Hs. eexists. revert Hs.
  repeat case_match; intros Hs; try discriminate; by injection Hs as <-.
Qed.

Lemma wf_deliver now order out s :
  wf s → wf (foldl (deliver_one now) (out, s) order).2.
Proof.
  revert out s. induction order as [|id order IH]; intros out s Hwf; [done|]. cbn [foldl].
  destruct (deliver_one_step now out s id) as (o & _ & Hoth & _ & _ & _ & _ & _ & Hl).
  destruct (deliver_one now (out, s) id) as [out1 s1]. cbn [fst snd] in *. apply IH.
  intros k l Hk. destruct (decide (k = id)) as [->|Hne].
  - destruct (Hl l Hk) as [?|Hl0]; [done|]. by apply (Hwf id).
  - rewrite Hoth in Hk by done. by apply (Hwf k).
Qed.

Lemma wf_deliver_loop handler values s s' :
  wf s → deliver_loop handler values s = Ok s' → wf s'.
Proof.
  revert s. induction values as [|[[id i] m] values IH]; intros s Hwf; [by intros [= <-]|].
  cbn [deliver_loop]. destruct (handler m); [by apply IH|].
  unfold remove_message_by_id. destruct (messages s !! id) as [l|]; [|by apply IH].
  destruct (Nat.ltb _ _); [|discriminate]. cbn [mbind outcome_bind]. apply IH.
  intros k l' Hk. simpl in Hk. destruct (decide (delete i l = [])) as [|Hne].
  - apply lookup_delete_Some in Hk as [_ Hk]. by apply (Hwf k).
  - apply lookup_insert_Some in Hk as [[_ <-]|[_ Hk]]; [done|]. by apply (Hwf k).
Qed.

(** No operation of the storage leaves an id with an empty list of messages, which is
    what its loops and its access to the first one rely on. *)
Theorem wf_preserved `{Chrono} now order c id m (handler : Value → bool) s :
  iterates order s → wf s →
  (∀ s', save now id m s = Ok s' → wf s') ∧
  wf (tick_clean now order s) ∧
  (∀ vs s', tick_deliver now order handler s = (vs, Ok s') → wf s') ∧
  (∀ b s', cancel_message order c s = (b, s') → wf s') ∧
  (∀ b s', replace_message now c s = Ok (b, s') → wf s').
Proof.
  intros [Hnd _] Hwf. split_and!.
  - intros s' [e Hm]%save_messages k l. rewrite Hm. destruct (decide (k = id)) as [->|Hne].
    + rewrite lookup_insert_eq. intros [= <-]. by intros [_ ?]%app_nil.
    + rewrite lookup_insert_ne by done. apply Hwf.
  - intros k l. unfold tick_clean. rewrite clean_expired_lookup by done.
    destruct (decide (k ∈ order)); [|apply Hwf].
    destruct (messages s !! k) as [l0|]; [|done]. apply keep_ne.
  - intros vs s'. unfold tick_deliver, get_delivery_messages.
    pose proof (wf_deliver now order [] s Hwf) as Hd.
    destruct (foldl _ _ _) as [values s1]. cbn [snd] in Hd.
    intros [_ Hl]%pair_equal_spec.
    by eapply wf_deliver_loop.
  - intros b s' Hc. unfold cancel_message in Hc.
    destruct (cancel_fold_spec c order [] s Hnd) as (Hmsg & gone & _ & _).
    destruct (foldl (cancel_one c) ([], s) order) as [removed s1]. cbn [fst snd] in *.
    apply pair_equal_spec in Hc as [_ <-]. intros k l. rewrite foldl_remove_users, Hmsg.
    destruct (decide (k ∈ order)); [|apply Hwf]. destruct (cancel_id_ok c k); [|apply Hwf].
    destruct (messages s !! k) as [l0|]; [|done]. apply keep_ne.
  - intros b s' (l0 & r & l' & _ & _ & Hne & _ & Hm)%replace_message_inv k l. rewrite Hm.
    destruct (decide (k = str_field c "message_id")) as [->|Hk].
    + rewrite lookup_insert_eq. by intros [= <-].
    + rewrite lookup_insert_ne by done. apply Hwf.
Qed.
