(* ===== verification/Handlers.v ===== *)
(** * Services behind the connections

    Sequence numbers (src/sequence_number_allocator.rs), message ids
    (src/id_generator.rs), user authentication (src/user_authentication.rs) and the handlers
    of inbound messages (src/message_handler.rs). HTTP and regular expressions are
    parameters. *)
From S2P Require Export Json Config.

(** ** Sequence numbers and ids *)

Module SequenceNumberAllocator.
(** [fetch_add(1)] on an [AtomicU32]: the old value, and the counter wraps. *)
Definition next (current : N) : N * N := (current, cast_u32 (current + 1)).

(** The first [k] numbers handed out. *)
Fixpoint take_next (k : nat) (current : N) : list N :=
  match k with
  | O => []
  | S k' => let '(n, c) := next current in n :: take_next k' c
  end.
End SequenceNumberAllocator.

Module AtomicIdGenerator.
(** [fetch_add(1)] on an [AtomicU64], formatted. *)
Definition generate (prefix : string) (counter : N) : string * N :=
  (prefix +:+ format_hex false 12 counter, cast_u64 (counter + 1)).

Fixpoint take_generate (k : nat) (prefix : string) (counter : N) : list string :=
  match k with
  | O => []
  | S k' => let '(id, c) := generate prefix counter in id :: take_generate k' prefix c
  end.
End AtomicIdGenerator.

(** The configured generator: its state is a counter of the ids handed out. *)
Class MessageIdGenerator := generate : N → string → string * N.

(** ** HTTP *)

(** What a request gives: no answer, or a status and the JSON body if it parses. *)
Inductive http_result : Type :=
| HttpFailed
| HttpResponse (success : bool) (body : option Value).

(** ** User authentication *)

Module SimpleUserAuthentication.
Definition new (valid_users : list (string * string)) : gmap string string :=
  foldl (λ m '(k, v), <[k := v]> m) ∅ valid_users.

Definition authenticate (valid_users : gmap string string) (system_id password : string) : bool :=
  match valid_users !! system_id with
  | Some pw => bool_decide (pw = password)
  | None => false
  end.
End SimpleUserAuthentication.

Module HttpUserAuthentication.
(** The request the source builds with [json!]. *)
Definition payload (system_id password : string) : Value :=
  JObject (jextend [("system_id", JString system_id); ("password", JString password)] []).

Definition authenticate (post : string → Value → http_result) (url system_id password : string) :
    bool :=
  match post url (payload system_id password) with
  | HttpResponse true (Some body) => default false (get body "authenticated" ≫= as_bool)
  | _ => false
  end.
End HttpUserAuthentication.

(** ** Message handlers *)

Class Regex := {
  re_valid : string → bool;
  re_match : string → string → bool;
}.

(** [for i in 0..n { l[(start + i) % n] }] *)
Definition rotation {A} (start : nat) (l : list A) : list A :=
  omap (λ i, l !! ((start + i) mod length l)) (seq 0 (length l)).

Module HttpMessageHandler.
Record t : Type := mk {
  addresses : list string;
  patterns : list string;
  urls : list string;
  next_index : N;
  algorithm : LoadBalancingAlgorithm.t;
}.

Section handler.
Context `{Regex}.

(** Patterns that do not compile are dropped. *)
Definition new (dest_addresses dest_address_patterns urls : list string)
    (algorithm : LoadBalancingAlgorithm.t) : t :=
  mk dest_addresses (filter (λ p, re_valid p = true) dest_address_patterns) urls 0 algorithm.

Definition create_from (config : RequestHandlerConfig) : t :=
  new (default [] (Config.dest_addresses config)) (default [] (Config.dest_address_patterns config))
    (Config.urls config)
    (match Config.algorithm config with
     | Some alg => LoadBalancingAlgorithm.from alg
     | None => LoadBalancingAlgorithm.RoundRobin
     end).

Definition match_any_pattern (h : t) (dest_address : string) : bool :=
  existsb (λ p, re_match p dest_address) (patterns h).

Definition match_any_address (h : t) (dest_address : string) : bool :=
  bool_decide (dest_address ∈ addresses h).

Definition is_my_request_address (h : t) (address : string) : bool :=
  if decide (addresses h = [] ∧ patterns h = []) then true
  else match_any_address h address || match_any_pattern h address.
End handler.

(** The urls in the order they are tried. *)
Definition url_order (h : t) : list string :=
  match algorithm h with
  | LoadBalancingAlgorithm.RoundRobin =>
      rotation (N.to_nat (next_index h mod N.of_nat (length (urls h)))) (urls h)
  | LoadBalancingAlgorithm.FailOver => rotation 0 (urls h)
  end.

Definition advance (h : t) : t :=
  match algorithm h with
  | LoadBalancingAlgorithm.RoundRobin =>
      mk (addresses h) (patterns h) (urls h) (cast_u64 (next_index h + 1)) (algorithm h)
  | LoadBalancingAlgorithm.FailOver => h
  end.

(** The first url that answers with success and a JSON body. *)
Fixpoint post_first (post : string → Value → http_result) (message : Value) (urls : list string) :
    ioresult Value :=
  match urls with
  | [] => io_err Other "All handler URLs failed"
  | url :: rest =>
      match post url message with
      | HttpResponse true (Some json_resp) => Ok json_resp
      | _ => post_first post message rest
      end
  end.

Definition handle_message (post : string → Value → http_result) (decoded_message : Value) (h : t) :
    ioresult Value * t :=
  if decide (urls h = []) then (io_err Other "No handler URLs configured", h)
  else (post_first post decoded_message (url_order h), advance h).
End HttpMessageHandler.

Module CompositeMessageHandler.
Section composite.
Context `{Regex}.

Definition is_my_request_address (handlers : list HttpMessageHandler.t) (address : string) : bool :=
  existsb (λ h, HttpMessageHandler.is_my_request_address h address) handlers.

(** The first handler that claims the address answers; its counter advances. *)
Fixpoint handle_with (post : string → Value → http_result) (destination_address : string)
    (decoded_message : Value) (handlers : list HttpMessageHandler.t) :
    ioresult Value * list HttpMessageHandler.t :=
  match handlers with
  | [] => (io_err Other "No suitable handler found", [])
  | h :: rest =>
      if HttpMessageHandler.is_my_request_address h destination_address then
        let '(r, h') := HttpMessageHandler.handle_message post decoded_message h in
        (r, h' :: rest)
      else
        let '(r, rest') := handle_with post destination_address decoded_message rest in
        (r, h :: rest')
  end.

Definition handle_message (post : string → Value → http_result) (decoded_message : Value)
    (handlers : list HttpMessageHandler.t) : ioresult Value * list HttpMessageHandler.t :=
  handle_with post (str_field decoded_message "destination_addr") decoded_message handlers.

Definition create_request_handler (configs : list RequestHandlerConfig) :
    list HttpMessageHandler.t := HttpMessageHandler.create_from <$> configs.
End composite.
End CompositeMessageHandler.

Module NoOpMessageHandler.
Definition is_my_request_address (address : string) : bool := false.
Definition handle_message (decoded_message : Value) : ioresult Value :=
  io_err Other "NoOpMessageHandler cannot handle messages".
End NoOpMessageHandler.

(** ** Properties *)

Lemma rotation_spec {A} start (l : list A) :
  start < length l → rotation start l = drop start l ++ take start l.
Proof.
  intros Hs. unfold rotation.
  assert (Hseq : seq 0 (length l) = seq 0 (length l - start) ++ seq (length l - start) start).
  { rewrite <-seq_app. f_equal. lia. }
  rewrite Hseq, omap_app. f_equal.
  - assert (Hg : ∀ k, start + k ≤ length l →
      omap (λ i, l !! ((start + i) mod length l)) (seq 0 k) = take k (drop start l)).
    { induction k as [|k IH]; intros Hk; [by rewrite take_0|].
      rewrite seq_S, omap_app, IH by lia. cbn [omap list_omap Nat.add].
      rewrite Nat.mod_small by lia.
      destruct (lookup_lt_is_Some_2 l (start + k)) as [x Hx]; [lia|]. rewrite Hx.
      symmetry. apply take_S_r. by rewrite lookup_drop. }
    rewrite Hg by lia. rewrite take_ge; [done|]. rewrite length_drop. lia.
  - assert (Hg : ∀ k, k ≤ start →
      omap (λ i, l !! ((start + i) mod length l)) (seq (length l - start) k) = take k l).
    { induction k as [|k IH]; intros Hk; [by rewrite take_0|].
      rewrite seq_S, omap_app, IH by lia. cbn [omap list_omap].
      replace (start + (length l - start + k)) with (k + 1 * length l) by lia.
      rewrite Nat.Div0.mod_add, Nat.mod_small by lia.
      destruct (lookup_lt_is_Some_2 l k) as [x Hx]; [lia|]. rewrite Hx.
      symmetry. by apply take_S_r. }
    by apply Hg.
Qed.

Lemma rotation_perm {A} start (l : list A) : start < length l → rotation start l ≡ₚ l.
Proof. intros Hs. rewrite rotation_spec, Permutation_app_comm by done. by rewrite take_drop. Qed.

Lemma post_first_ok post message us r :
  HttpMessageHandler.post_first post message us = Ok r ↔
  ∃ pre url suf, us = pre ++ url :: suf ∧ post url message = HttpResponse true (Some r) ∧
    Forall (λ u, ∀ b, post u message ≠ HttpResponse true (Some b)) pre.
Proof.
  induction us as [|u us IH]; simpl.
  - split; [discriminate|]. by intros ([|? ?] & url & suf & ? & _).
  - destruct (post u message) as [|[] [b|]] eqn:Ep; rewrite ?IH; split;
      try (intros (pre & url & suf & -> & Hp & Hpre); exists (u :: pre), url, suf;
           split_and!; [done|done|]; constructor; [by rewrite Ep|done]);
      try (intros (pre & url & suf & Heq & Hp & Hpre);
           destruct pre as [|v pre]; simpl in Heq; injection Heq as -> ->;
             [congruence|]; apply Forall_cons in Hpre as [Hv Hpre]; by exists pre, url, suf).
    + intros [= <-]. exists [], u, us. by split_and!.
    + intros (pre & url & suf & Heq & Hp & Hpre).
      destruct pre as [|v pre]; simpl in Heq; injection Heq as -> ->; [congruence|].
      apply Forall_cons in Hpre as [Hv _]. by destruct (Hv b).
Qed.

(** Where the turn of the handler is: with round robin the index, modulo the number of urls. *)
Definition turn_of (h : HttpMessageHandler.t) : nat :=
  match HttpMessageHandler.algorithm h with
  | LoadBalancingAlgorithm.RoundRobin =>
      N.to_nat (HttpMessageHandler.next_index h mod N.of_nat (length (HttpMessageHandler.urls h)))
  | LoadBalancingAlgorithm.FailOver => 0
  end.

Lemma url_order_spec h :
  HttpMessageHandler.urls h ≠ [] →
  HttpMessageHandler.url_order h
  = drop (turn_of h) (HttpMessageHandler.urls h) ++ take (turn_of h) (HttpMessageHandler.urls h).
Proof.
  intros Hne. assert (Hl : 0 < length (HttpMessageHandler.urls h))
    by (destruct (HttpMessageHandler.urls h); simpl; [done|lia]).
  unfold HttpMessageHandler.url_order, turn_of. destruct (HttpMessageHandler.algorithm h).
  - apply rotation_spec.
    pose proof (N.mod_lt (HttpMessageHandler.next_index h)
                 (N.of_nat (length (HttpMessageHandler.urls h))) ltac:(lia)) as Hlt.
    generalize dependent (HttpMessageHandler.next_index h
                 mod N.of_nat (length (HttpMessageHandler.urls h)))%N. intros k Hk. lia.
  - by apply rotation_spec.
Qed.

Lemma post_first_result post message us :
  match HttpMessageHandler.post_first post message us with
  | Ok v => ∃ pre url suf, us = pre ++ url :: suf ∧ post url message = HttpResponse true (Some v) ∧
      Forall (λ u, ∀ b, post u message ≠ HttpResponse true (Some b)) pre
  | Err _ => Forall (λ u, ∀ b, post u message ≠ HttpResponse true (Some b)) us
  | Panic => False
  end.
Proof.
  destruct (HttpMessageHandler.post_first post message us) as [v|e|] eqn:Ep; [by apply post_first_ok| |].
  - revert Ep. induction us as [|u us IH]; simpl; [constructor|].
    destruct (post u message) as [|[] [b|]] eqn:Eu; try discriminate; intros He;
      (constructor; [by rewrite Eu|by apply IH]).
  - revert Ep. induction us as [|u us IH]; simpl; [discriminate|].
    by destruct (post u message) as [|[] [b|]].
Qed.

(** C33: a message goes to the urls of its handler in turn: the first one asked is the one whose
    turn it is (with round robin the index modulo the number of urls, with fail over always the
    first), then the ones after it in the configured order, around the end of the list; the
    answer is that of the first url that answers with success and JSON, and the handler fails
    only when none does. With round robin the index has gone on by one, whatever the answer,
    and nothing else has changed. *)
Theorem http_handler_spec post m h r h' :
  HttpMessageHandler.urls h ≠ [] → HttpMessageHandler.handle_message post m h = (r, h') →
  let in_turn := drop (turn_of h) (HttpMessageHandler.urls h) ++ take (turn_of h) (HttpMessageHandler.urls h) in
  h' = HttpMessageHandler.mk (HttpMessageHandler.addresses h) (HttpMessageHandler.patterns h)
         (HttpMessageHandler.urls h)
         (match HttpMessageHandler.algorithm h with
          | LoadBalancingAlgorithm.RoundRobin => (HttpMessageHandler.next_index h + 1) mod 2 ^ 64
          | LoadBalancingAlgorithm.FailOver => HttpMessageHandler.next_index h
          end) (HttpMessageHandler.algorithm h) ∧
  match r with
  | Ok v => ∃ pre url suf, in_turn = pre ++ url :: suf ∧
      post url m = HttpResponse true (Some v) ∧
      Forall (λ u, ∀ b, post u m ≠ HttpResponse true (Some b)) pre
  | Err _ => Forall (λ u, ∀ b, post u m ≠ HttpResponse true (Some b)) in_turn
  | Panic => False
  end.
Proof.
  intros Hne Hh in_turn. unfold HttpMessageHandler.handle_message in Hh. rewrite decide_False in Hh by done.
  injection Hh as <- <-. split.
  - unfold HttpMessageHandler.advance. destruct h as [a p u n []]; reflexivity.
  - subst in_turn. rewrite <-url_order_spec by done. apply post_first_result.
Qed.

(** *** Ids *)

Lemma take_generate_ids k prefix c :
  (c + N.of_nat k ≤ 2 ^ 64)%N →
  AtomicIdGenerator.take_generate k prefix c
  = (λ i, prefix +:+ format_hex false 12 (c + N.of_nat i)) <$> seq 0 k.
Proof.
  revert c. induction k as [|k IH]; intros c Hc; [done|].
  cbn [AtomicIdGenerator.take_generate AtomicIdGenerator.generate].
  cbn [seq fmap list_fmap]. rewrite N.add_0_r. f_equal.
  destruct (decide (k = 0)) as [->|Hk]; [done|].
  unfold cast_u64. rewrite N.mod_small by lia. rewrite IH by lia.
  rewrite <-seq_shift, <-list_fmap_compose. apply list_fmap_ext. intros i x _. simpl.
  do 2 f_equal. lia.
Qed.

Lemma string_app_inj (p s t : string) : p +:+ s = p +:+ t → s = t.
Proof. induction p as [|c p IH]; [done|]. simpl. intros [= Heq]. auto. Qed.

(** The ids of the local generator are distinct until its 64-bit counter wraps. *)
Theorem atomic_ids_distinct k prefix c :
  (c + N.of_nat k ≤ 2 ^ 64)%N → NoDup (AtomicIdGenerator.take_generate k prefix c).
Proof.
  intros Hc. rewrite take_generate_ids by done. apply NoDup_fmap_2_strong; [|apply NoDup_seq].
  intros i j _ _ Heq%string_app_inj%format_hex_inj. lia.
Qed.

Lemma take_next_numbers k c :
  (c < 2 ^ 32)%N →
  SequenceNumberAllocator.take_next k c = (λ i, cast_u32 (c + N.of_nat i)) <$> seq 0 k.
Proof.
  revert c. induction k as [|k IH]; intros c Hc; [done|].
  cbn [SequenceNumberAllocator.take_next SequenceNumberAllocator.next].
  cbn [seq fmap list_fmap]. rewrite N.add_0_r. unfold cast_u32 at 2.
  rewrite N.mod_small by done. f_equal. rewrite IH by (by apply N.mod_lt).
  rewrite <-seq_shift, <-list_fmap_compose. apply list_fmap_ext. intros i x _. simpl.
  unfold cast_u32. rewrite N.Div0.add_mod_idemp_l. f_equal. lia.
Qed.

(** C34: any 2^32 consecutive sequence numbers are distinct, across the wrap. *)
Theorem sequence_numbers_distinct k c :
  (c < 2 ^ 32)%N → (N.of_nat k ≤ 2 ^ 32)%N → NoDup (SequenceNumberAllocator.take_next k c).
Proof.
  intros Hc Hk. rewrite take_next_numbers by done. apply NoDup_fmap_2_strong; [|apply NoDup_seq].
  intros i j Hi Hj. apply elem_of_seq in Hi, Hj. unfold cast_u32. intros Heq.
  assert (Hw : ∀ n, (n < 2 ^ 32)%N → ((c + n) mod 2 ^ 32 = if c + n <? 2 ^ 32 then c + n else c + n - 2 ^ 32)%N).
  { intros n Hn. destruct (N.ltb_spec (c + n) (2 ^ 32)); [by apply N.mod_small|].
    replace (c + n)%N with (c + n - 2 ^ 32 + 1 * 2 ^ 32)%N at 1 by lia.
    rewrite N.Div0.mod_add. apply N.mod_small. lia. }
  rewrite !Hw in Heq by lia.
  destruct (N.ltb_spec (c + N.of_nat i) (2 ^ 32)), (N.ltb_spec (c + N.of_nat j) (2 ^ 32)); lia.
Qed.
