(* ===== verification/Server.v ===== *)
(** * The SMSC server (src/smsc_server/)

    [ClientManager] routes messages to the connected clients; [SmscServerConnection] is
    the handler of one connection: the dispatch on the command, the bind, the submission
    in its three modes, submit_multi. A handler is a computation over the shared state
    ([world]): the clients, the counters, the storage, what was written to which socket
    and the tasks spawned. The configuration, the authentication, the request handlers,
    the answers of the sockets and of the peers are the environment [env]. *)
From S2P Require Export Message TimeFormat Handlers.

(** What the server asks of a storage of messages (the trait [MessageStorage]): each
    operation gives its result and the new state. *)
Class MessageStorage (S : Type) := {
  st_save : Z → string → Value → S → ioresult unit * S;
  st_cancel : Value → S → ioresult bool * S;
  st_replace : Z → Value → S → ioresult bool * S;
}.

(** ** Clients (src/smsc_server/client_manager.rs) *)

Module ClientManager.

(** Peer address to the regex of its address range and its writer. *)
Abbreviation t := (gmap string (string * nat)).

Definition new : t := ∅.

Section manager.
Context `{Regex}.

(** The regex of an address range: open on the side that is not anchored. *)
Definition range_regex (address_range : string) : string :=
  let starts s := starts_with (as_bytes "^") (as_bytes s) in
  let ends s := ends_with (as_bytes "$") (as_bytes s) in
  let r := if negb (starts address_range) && ends address_range
           then ".*" +:+ address_range else address_range in
  if starts r && negb (ends r) then r +:+ ".*" else r.

Definition add_client (peer_address address_range : string) (writer : nat) (c : t) : t :=
  if is_empty_str address_range then c
  else
    let r := range_regex address_range in
    if re_valid r then
      match c !! peer_address with
      | Some _ => c
      | None => <[peer_address := (r, writer)]> c
      end
    else c.

Definition remove_client (peer_address : string) (c : t) : t := delete peer_address c.

(** The writers of the clients whose range matches, in the order [iter] of the map. *)
Definition get_writer (iter : t → list (string * (string * nat))) (address : string) (c : t) :
    list nat :=
  omap (λ '(_, (regex, writer)), if re_match regex address then Some writer else None) (iter c).
End manager.
End ClientManager.

(** The iteration order of the map of clients: arbitrary. *)
Class ClientOrder := {
  client_iter : ClientManager.t → list (string * (string * nat));
  client_iter_perm : ∀ c, client_iter c ≡ₚ map_to_list c;
}.

(** ** State and environment *)

Inductive task : Type :=
| ForwardTask (decoded_message : Value)
| EnquireLinkTask (writer : nat) (timer : N).

Record world (S : Type) : Type := mkWorld {
  clients : ClientManager.t;
  next_sequence : N;
  id_counter : N;
  storage : S;
  sent : list (nat * bytes);
  closed : list nat;
  spawned : list task;
  responses : list (N * Value);
}.
Arguments mkWorld {S}.
Arguments clients {S}. Arguments next_sequence {S}. Arguments id_counter {S}.
Arguments storage {S}. Arguments sent {S}. Arguments closed {S}. Arguments spawned {S}.
Arguments responses {S}.

Record Env : Type := mkEnv {
  config : ServerConfig.t;
  peer_address : string;
  writer : nat;
  now : Z;
  authenticate : string → string → bool;
  is_my_request_address : string → bool;
  handle_request : Value → ioresult Value;
  write_ok : nat → bool;
  wait_response : N → option Value;
  distribution_list : DistrubutionList.t;
}.

(** Computations over the state of type [T]. *)
Definition StateM (T A : Type) : Type := T → ioresult A * T.

#[export] Instance StateM_ret T : MRet (StateM T) := λ A a w, (Ok a, w).
#[export] Instance StateM_bind T : MBind (StateM T) := λ A B f m w,
  match m w with
  | (Ok a, w') => f a w'
  | (Err e, w') => (Err e, w')
  | (Panic, w') => (Panic, w')
  end.

#[export] Instance StateM_fmap T : FMap (StateM T) := λ A B f m, m ≫= λ a, mret (f a).

Definition fails {T A} (e : io_error) : StateM T A := λ w, (Err e, w).
Definition panics {T A} : StateM T A := λ w, (Panic, w).
Definition lift {T A} (r : ioresult A) : StateM T A := λ w, (r, w).
Definition modify {T} (f : T → T) : StateM T unit := λ w, (Ok tt, f w).

(** [m.await.map_err(|e| Error::new(Other, format!("label: {}", e)))] *)
Definition relabel {T A} (label : string) (m : StateM T A) : StateM T A := λ w,
  let '(r, w') := m w in
  (map_err (λ e, IoError Other (label +:+ ": " +:+ err_msg e)) r, w').

(** [match m.await { Ok(a) => Ok(a), Err(e) => ... }]: the error becomes a value. *)
Definition attempt {T A} (m : StateM T A) : StateM T (outcome io_error A) := λ w,
  match m w with
  | (Panic, w') => (Panic, w')
  | (r, w') => (Ok r, w')
  end.

Section server.
Context {S : Type} `{MessageStorage S, Base64, TlvOrder, Chrono, Regex, MessageIdGenerator,
  ClientOrder}.

Abbreviation M := (StateM (world S)).

(** *** Primitive effects *)

Definition push_sent (w : nat) (message : bytes) (st : world S) : world S :=
  mkWorld (clients st) (next_sequence st) (id_counter st) (storage st)
    (sent st ++ [(w, message)]) (closed st) (spawned st) (responses st).

Definition set_clients (c : ClientManager.t) (st : world S) : world S :=
  mkWorld c (next_sequence st) (id_counter st) (storage st) (sent st) (closed st) (spawned st)
    (responses st).

Definition spawn (t : task) : M unit := modify (λ st,
  mkWorld (clients st) (next_sequence st) (id_counter st) (storage st) (sent st) (closed st)
    (spawned st ++ [t]) (responses st)).

Definition next_sequence_number : M N := λ st,
  let '(n, c) := SequenceNumberAllocator.next (next_sequence st) in
  (Ok n, mkWorld (clients st) c (id_counter st) (storage st) (sent st) (closed st) (spawned st)
           (responses st)).

Definition generate_id (prefix : string) : M string := λ st,
  let '(id, c) := generate (id_counter st) prefix in
  (Ok id, mkWorld (clients st) (next_sequence st) c (storage st) (sent st) (closed st) (spawned st)
            (responses st)).

Definition on_storage {A} (f : S → ioresult A * S) : M A := λ st,
  let '(r, s) := f (storage st) in
  (r, mkWorld (clients st) (next_sequence st) (id_counter st) s (sent st) (closed st) (spawned st)
         (responses st)).

(** [write_all] and [flush] on a socket: all of the message, or an error. *)
Definition write_to (env : Env) (w : nat) (message : bytes) : M unit := λ st,
  if write_ok env w then (Ok tt, push_sent w message st)
  else (io_err Other "write failed", st).

(** [from_json(v).map_or(vec![], |m| m.to_vec())] *)
Definition encode_or_empty (v : Value) : ioresult bytes :=
  match from_json v with
  | Ok m => Ok (SMPPMessage.to_vec m)
  | Err _ => Ok []
  | Panic => Panic
  end.

(** *** Routing to the clients *)

Fixpoint try_writers (env : Env) (writers : list nat) (message : bytes) : M unit :=
  match writers with
  | [] => fails (IoError Other "Failed to send message to client")
  | w :: rest => λ st,
      if write_ok env w then (Ok tt, push_sent w message st) else try_writers env rest message st
  end.

(** [ClientManager::send_message]: the first matching client whose socket accepts it. *)
Definition client_send_message (env : Env) (address : string) (message : bytes) : M unit := λ st,
  match ClientManager.get_writer client_iter address (clients st) with
  | [] => (io_err NotFound "Client not found", st)
  | writers => try_writers env writers message st
  end.

(** The errors of the delivery are logged only; an encoding failure panics ([unwrap]). *)
Definition forward_message_to_client (env : Env) (decoded_message : Value) : M unit :=
  match get_str decoded_message "destination_addr" with
  | Some dest_addr =>
      match from_json decoded_message with
      | Ok m => attempt (client_send_message env dest_addr (SMPPMessage.to_vec m)) ≫= λ _, mret tt
      | _ => panics
      end
  | None => mret tt
  end.

(** *** The connection *)

Definition send (env : Env) (message : bytes) : M unit := write_to env (writer env) message.

Definition close (env : Env) : M unit := modify (λ st,
  mkWorld (clients st) (next_sequence st) (id_counter st) (storage st) (sent st)
    (closed st ++ [writer env]) (spawned st) (responses st)).

(** Encodes and sends a response under the error label of its handler. *)
Definition respond (env : Env) (label : string) (response : Value) : M unit :=
  data ← lift (encode_or_empty response); relabel label (send env data).

Definition failed_response : string := "Failed to send response".

Definition handle_enquire_link (env : Env) (command_id sequence_number : N) : M unit :=
  respond env "Failed to send enquire link response"
    (create_json_response command_id sequence_number (CommandStatus.as_u32 CommandStatus.EsmeRok) []).

Definition handle_unbind (env : Env) (command_id sequence_number : N) : M unit :=
  respond env "Failed to send unbind response"
    (create_json_response command_id sequence_number (CommandStatus.as_u32 CommandStatus.EsmeRok) [])
  ≫= λ _, relabel "Failed to close connection" (close env).

Definition bind_response (env : Env) (command_id sequence_number status_code : N)
    (system_id : string) : Value :=
  create_json_response command_id sequence_number status_code
    [("system_id", JString system_id);
     ("sc_interface_version", jnum (ServerConfig.interface_version (config env)))].

(** The task is spawned before the response is sent. *)
Definition handle_bind (env : Env) (command_id sequence_number : N) (decoded_message : Value) :
    M unit :=
  let system_id := str_field decoded_message "system_id" in
  let password := str_field decoded_message "password" in
  let authenticated := authenticate env system_id password in
  let status_code := CommandStatus.as_u32
    (if authenticated then CommandStatus.EsmeRok else CommandStatus.EsmeRBindFail) in
  encoded_response ←
    lift (encode_or_empty (bind_response env command_id sequence_number status_code system_id));
  (if authenticated
   then spawn (EnquireLinkTask (writer env)
                 (default 30%N (ServerConfig.enquire_link_timer (config env))))
   else mret tt) ≫= λ _,
  relabel "Failed to send bind response" (send env encoded_response).

(** *** Preparing a submitted message *)

Definition replace_sm_default_msg_id_with_predefined_message (env : Env)
    (decoded_message : Value) : ioresult unit * Value :=
  let sm_default_msg_id := u64_field decoded_message "sm_default_msg_id" in
  if (sm_default_msg_id =? 0)%N then (Ok tt, decoded_message)
  else
    match ServerConfig.get_predefined_message (config env) sm_default_msg_id with
    | Some predefined_message =>
        replace_message_with_predefined
          (set_if_present decoded_message "sm_default_msg_id" (jnum 0)) predefined_message
    | None => (Ok tt, decoded_message)
    end.

Definition set_service_type (env : Env) (decoded_message : Value) : Value :=
  if is_empty_str (str_field decoded_message "service_type") then
    let default_service_type := ServerConfig.get_default_service_type (config env) in
    if is_empty_str default_service_type then decoded_message
    else set_if_present decoded_message "service_type" (JString default_service_type)
  else decoded_message.

Definition get_message_mode (env : Env) (decoded_message : Value) : MessageMode.t :=
  let esm_class := cast_u8 (u64_field decoded_message "esm_class") in
  let esm_class := default EsmClass.default (EsmClass.from_u8 esm_class) in
  match EsmClass.message_mode esm_class with
  | MessageMode.Default => ServerConfig.get_default_mc_mode (config env)
  | m => m
  end.

(** [obj.get_mut("command_id")] and [obj.get_mut("sequence_number")], if present. *)
Definition as_deliver_sm (new_sequence_number : N) (decoded_message : Value) : Value :=
  set_if_present
    (set_if_present decoded_message "command_id" (jnum (CommandId.as_u32 CommandId.DeliverSm)))
    "sequence_number" (jnum new_sequence_number).

Definition message_id_response (command_id sequence_number : N) (status : CommandStatus.t)
    (message_id : string) : Value :=
  create_json_response command_id sequence_number (CommandStatus.as_u32 status)
    [("message_id", JString message_id)].

(** *** The three modes: [inl] is the response to report as success, [inr] as failure *)

Definition send_message_in_datagram_mode (command_id sequence_number : N) (message_id : string)
    (decoded_message : Value) : M (Value + Value) :=
  new_sequence_number ← next_sequence_number;
  spawn (ForwardTask (as_deliver_sm new_sequence_number decoded_message)) ≫= λ _,
  mret (inl (message_id_response command_id sequence_number CommandStatus.EsmeRok message_id)).

(** The answer to a message that was forwarded, for the response its client gave in time. *)
Definition transaction_answer (command_id sequence_number : N) (message_id : string)
    (response : option Value) : Value + Value :=
  match response with
  | Some response =>
      let command_status :=
        cast_u32 (default (CommandStatus.as_u32 CommandStatus.EsmeRUnknownErr)
                          (get_u64 response "command_status")) in
      let response := create_json_response command_id sequence_number command_status
                        [("message_id", JString message_id)] in
      if (command_status =? CommandStatus.as_u32 CommandStatus.EsmeRok)%N
      then inl response else inr response
  | None => inr (message_id_response command_id sequence_number CommandStatus.EsmeRSubmitFail message_id)
  end.

Definition send_message_in_transaction_mode (env : Env) (command_id sequence_number : N)
    (message_id : string) (decoded_message : Value) : M (Value + Value) :=
  new_sequence_number ← next_sequence_number;
  r ← attempt (forward_message_to_client env (as_deliver_sm new_sequence_number decoded_message));
  match r with
  | Ok _ =>
      mret (transaction_answer command_id sequence_number message_id
              (wait_response env new_sequence_number))
  | _ =>
      mret (inr (message_id_response command_id sequence_number CommandStatus.EsmeRUnknownErr
                   message_id))
  end.

Definition store_and_forward_message (env : Env) (command_id sequence_number : N)
    (message_id : string) (decoded_message : Value) : M (Value + Value) :=
  let refuse status reason :=
    mret (inr (message_id_response command_id sequence_number status reason)) in
  schedule ← lift (ok_option (get_schedule_delivery_time (now env) decoded_message));
  if match schedule with Some t => (t <? now env)%Z | None => false end
  then refuse CommandStatus.EsmeRInvSched "invalid-schedule-delivery-time"
  else
    validity ← lift (ok_option (get_validity_period (now env) decoded_message
                       (ServerConfig.get_default_validity_period (config env))));
    if match validity with Some t => (t <? now env)%Z | None => false end
    then refuse CommandStatus.EsmeRInvExpiry "invalid-validity-period"
    else if match schedule, validity with Some s, Some v => (v <? s)%Z | _, _ => false end
    then refuse CommandStatus.EsmeRInvSched "schedule-delivery-time-after-validity-period"
    else
      r ← attempt (on_storage (st_save (now env) message_id decoded_message));
      match r with
      | Ok _ => mret (inl (message_id_response command_id sequence_number CommandStatus.EsmeRok
                             message_id))
      | _ => refuse CommandStatus.EsmeRUnknownErr "fail-to-store"
      end.

(** *** Messages for this system *)

Definition extract_tlv_fields_to (response : Value) (fields : list (string * Value)) :
    list (string * Value) :=
  match response with
  | JObject map => fields ++ filter (λ f, is_valid_tlv_field f.1 = true) map
  | _ => fields
  end.

Definition process_local_data_submit_message (env : Env) (command_id sequence_number : N)
    (decoded_message : Value) : M bytes :=
  response ←
    match handle_request env decoded_message with
    | Ok value =>
        mret (create_json_response command_id sequence_number
                (CommandStatus.as_u32 CommandStatus.EsmeRok)
                (extract_tlv_fields_to value
                   [("message_id", JString (str_field value "message_id"))]))
    | Err _ =>
        message_id ← generate_id "msg-";
        mret (message_id_response command_id sequence_number CommandStatus.EsmeRUnknownErr message_id)
    | Panic => panics
    end;
  match from_json response with
  | Ok encoded_response => mret (SMPPMessage.to_vec encoded_response)
  | Err _ =>
      message_id ← generate_id "msg-";
      lift (encode_or_empty
        (create_json_response command_id sequence_number
           (CommandStatus.as_u32 CommandStatus.EsmeRUnknownErr)
           [("message_id", JString message_id);
            ("command_status", jnum (CommandStatus.as_u32 CommandStatus.EsmeRUnknownErr))]))
  | Panic => panics
  end.

(** *** submit_sm and data_sm *)

Definition either {A} (r : A + A) : A := match r with inl a => a | inr a => a end.

Definition handle_data_submit_sm (env : Env) (command_id sequence_number : N)
    (decoded_message : Value) : M unit :=
  message_id ← generate_id "msg-";
  let '(r, decoded_message) := replace_sm_default_msg_id_with_predefined_message env decoded_message in
  lift r ≫= λ _,
  let decoded_message := set_service_type env decoded_message in
  new_sequence_number ← next_sequence_number;
  let decoded_message :=
    insert_in_object decoded_message "sequence_number" (jnum new_sequence_number) in
  if is_my_request_address env (str_field decoded_message "destination_addr") then
    response ← process_local_data_submit_message env command_id sequence_number decoded_message;
    relabel failed_response (send env response)
  else
    response ←
      match get_message_mode env decoded_message with
      | MessageMode.Datagram =>
          either <$> send_message_in_datagram_mode command_id sequence_number message_id decoded_message
      | MessageMode.Transaction =>
          either <$> send_message_in_transaction_mode env command_id sequence_number message_id
                       decoded_message
      | MessageMode.StoreAndForward =>
          either <$> store_and_forward_message env command_id sequence_number message_id
                       decoded_message
      | MessageMode.Default =>
          mret (message_id_response command_id sequence_number CommandStatus.EsmeRok message_id)
      end;
    respond env failed_response response.

(** *** submit_multi *)

(** The fields copied from the submit_multi when it has them. *)
Definition copied_fields : list string :=
  ["service_type"; "source_addr_ton"; "source_addr_npi"; "source_addr"; "esm_class";
   "protocol_id"; "priority_flag"; "schedule_delivery_time"; "validity_period";
   "registered_delivery"; "replace_if_present_flag"; "data_coding"; "sm_default_msg_id";
   "short_message"].

Definition create_submit_sm_from_submit_multi (decoded_message : Value) (dest_addr : Address) :
    Value :=
  let submit_sm := jextend
    [("command_id", jnum (CommandId.as_u32 CommandId.SubmitSm));
     ("sequence_number", default (jnum 0) (get decoded_message "sequence_number"));
     ("command_status", jnum 0);
     ("dest_addr_ton", jnum (ton dest_addr));
     ("dest_addr_npi", jnum (npi dest_addr));
     ("destination_addr", JString (address dest_addr))] [] in
  JObject (jextend (omap (λ f, (λ v, (f, v)) <$> get decoded_message f) copied_fields) submit_sm).

(** One destination: whether it failed. *)
Definition submit_one (env : Env) (command_id sequence_number : N) (message_id : string)
    (message_mode : MessageMode.t) (decoded_message : Value) (dest_addr : Address) : M bool :=
  let submit_sm := create_submit_sm_from_submit_multi decoded_message dest_addr in
  new_sequence_number ← next_sequence_number;
  let submit_sm := insert_in_object submit_sm "sequence_number" (jnum new_sequence_number) in
  let failed (r : Value + Value) := match r with inl _ => false | inr _ => true end in
  if is_my_request_address env (address dest_addr) then
    r ← attempt (process_local_data_submit_message env (CommandId.as_u32 CommandId.SubmitSm)
                   sequence_number submit_sm);
    mret (negb (is_ok r))
  else
    match message_mode with
    | MessageMode.Datagram =>
        failed <$> send_message_in_datagram_mode command_id sequence_number message_id submit_sm
    | MessageMode.Transaction =>
        failed <$> send_message_in_transaction_mode env command_id sequence_number message_id
                     submit_sm
    | MessageMode.StoreAndForward | MessageMode.Default =>
        failed <$> store_and_forward_message env (CommandId.as_u32 CommandId.SubmitSm)
                     sequence_number message_id submit_sm
    end.

(** The destinations that failed, in order. *)
Fixpoint submit_each (submit : Address → M bool) (dests : list Address) : M (list Address) :=
  match dests with
  | [] => mret []
  | d :: rest =>
      failed ← submit d;
      failures ← submit_each submit rest;
      mret (if failed : bool then d :: failures else failures)
  end.

Definition unsuccess_sme (addr : Address) : Value :=
  JObject (jextend
    [("dest_addr_ton", jnum (ton addr)); ("dest_addr_npi", jnum (npi addr));
     ("destination_addr", JString (address addr));
     ("error_status_code", jnum (CommandStatus.as_u32 CommandStatus.EsmeRUnknownErr))] []).

Definition submit_multi_response (sequence_number : N) (message_id : string)
    (failed_addresses : list Address) : Value :=
  create_json_response (CommandId.as_u32 CommandId.SubmitMulti) sequence_number
    (CommandStatus.as_u32
       (if decide (failed_addresses = []) then CommandStatus.EsmeRok
        else CommandStatus.EsmeRUnknownErr))
    [("message_id", JString message_id);
     ("unsuccess_smes", JArray (unsuccess_sme <$> failed_addresses))].

(** [self.send(...).await.unwrap()] *)
Definition send_unwrap (env : Env) (message : bytes) : M unit :=
  r ← attempt (send env message); match r with Ok _ => mret tt | _ => panics end.

Definition handle_submit_multi (env : Env) (command_id sequence_number : N)
    (decoded_message : Value) : M unit :=
  message_id ← generate_id "msg-";
  let message_mode := get_message_mode env decoded_message in
  let '(r, decoded_message) := replace_sm_default_msg_id_with_predefined_message env decoded_message in
  lift r ≫= λ _,
  let decoded_message := set_service_type env decoded_message in
  failed_addresses ←
    match extract_destionation_addresses decoded_message (distribution_list env) with
    | Ok dest_addresses =>
        submit_each (submit_one env command_id sequence_number message_id message_mode
                       decoded_message) dest_addresses
    | _ => mret []
    end;
  encoded_response ← lift (encode_or_empty
    (submit_multi_response sequence_number message_id failed_addresses));
  send_unwrap env encoded_response.

(** *** Dispatch *)

Definition response_received (sequence_number : N) (response : Value) : M unit := modify (λ st,
  mkWorld (clients st) (next_sequence st) (id_counter st) (storage st) (sent st) (closed st)
    (spawned st) (responses st ++ [(sequence_number, response)])).

Definition query_response (command_id sequence_number : N) (message_id : string) : Value :=
  create_json_response command_id sequence_number
    (CommandStatus.as_u32 CommandStatus.EsmeRQueryFail)
    [("message_id", JString message_id); ("final_date", JString "");
     ("message_state", jnum 5); ("error_code", jnum 0)].

Definition status_response (command_id sequence_number : N) (status : CommandStatus.t) : Value :=
  create_json_response command_id sequence_number (CommandStatus.as_u32 status) [].

(** [match storage.op(...) { Ok(r) => r, Err(_) => false }] *)
Definition storage_result (f : S → ioresult bool * S) : M bool :=
  r ← attempt (on_storage f); mret (match r with Ok b => b | _ => false end).

(** The arms of [handle_message] from the broadcast commands on. *)
Definition handle_other_command (env : Env) (command : CommandId.t) (sequence_number : N)
    (decoded_message : Value) : M unit :=
  let command_id := CommandId.as_u32 command in
  match command with
  | CommandId.BroadcastSm =>
      respond env failed_response
        (status_response command_id sequence_number CommandStatus.EsmeRBcastFail)
  | CommandId.QueryBroadcastSm =>
      respond env failed_response
        (status_response command_id sequence_number CommandStatus.EsmeRBcastQueryFail)
  | CommandId.CancelBroadcastSm =>
      respond env failed_response
        (status_response command_id sequence_number CommandStatus.EsmeRBcastCancelFail)
  | CommandId.EnquireLink => handle_enquire_link env command_id sequence_number
  | CommandId.EnquireLinkResp => mret tt
  | CommandId.DeliverSmResp => response_received sequence_number decoded_message
  | cmd_id =>
      if CommandId.is_request cmd_id then
        respond env failed_response
          (status_response command_id sequence_number CommandStatus.EsmeRInvCmdId)
      else mret tt
  end.

Definition handle_message (env : Env) (decoded_message : Value) : M unit :=
  let sequence_number := cast_u32 (u64_field decoded_message "sequence_number") in
  match extract_command_id decoded_message with
  | None => mret tt
  | Some command =>
      let command_id := CommandId.as_u32 command in
      match command with
      | CommandId.BindTransmitter | CommandId.BindReceiver | CommandId.BindTransceiver =>
          r ← attempt (handle_bind env command_id sequence_number decoded_message);
          match r with
          | Ok _ => modify (λ st, set_clients
                      (ClientManager.add_client (peer_address env)
                         (str_field decoded_message "address_range") (writer env) (clients st)) st)
          | _ => mret tt
          end
      | CommandId.Unbind => handle_unbind env command_id sequence_number
      | CommandId.SubmitSm | CommandId.DataSm =>
          handle_data_submit_sm env command_id sequence_number decoded_message
      | CommandId.SubmitMulti =>
          handle_submit_multi env command_id sequence_number decoded_message
      | CommandId.QuerySm =>
          respond env failed_response
            (query_response command_id sequence_number (str_field decoded_message "message_id"))
      | CommandId.CancelSm =>
          result ← storage_result (st_cancel decoded_message);
          respond env failed_response (status_response command_id sequence_number
            (if result : bool then CommandStatus.EsmeRok else CommandStatus.EsmeRCancelFail))
      | CommandId.ReplaceSm =>
          result ← storage_result (st_replace (now env) decoded_message);
          respond env failed_response (status_response command_id sequence_number
            (if result : bool then CommandStatus.EsmeRok else CommandStatus.EsmeRReplaceFail))
      | _ => handle_other_command env command sequence_number decoded_message
      end
  end.

(** *** The connection loop *)

(** [while let Some(message) = buffer.extract_message()]: a PDU that does not decode is
    dropped in silence, the error of a handler leaves the rest in the buffer. [None] when
    the fuel is used up ([extract_loop_diverges] says when that is for ever). *)
Fixpoint drain (env : Env) (fuel : nat) (buffer : SmppMessageBuffer.t) (st : world S) :
    option (ioresult SmppMessageBuffer.t * world S) :=
  match fuel with
  | O => None
  | Datatypes.S fuel' =>
      match SmppMessageBuffer.extract_message buffer with
      | (None, buffer) => Some (Ok buffer, st)
      | (Some message, buffer) =>
          match to_json message with
          | Ok decoded_message =>
              match handle_message env decoded_message st with
              | (Ok _, st) => drain env fuel' buffer st
              | (Err _, st) => Some (Ok buffer, st)
              | (Panic, st) => Some (Panic, st)
              end
          | Err _ => drain env fuel' buffer st
          | Panic => Some (Panic, st)
          end
      end
  end.

Definition remove_client (env : Env) (st : world S) : world S :=
  set_clients (ClientManager.remove_client (peer_address env) (clients st)) st.

(** The reads of the connection until the peer closes or a read fails, each with the
    environment it meets; a panic ends the task before the client is removed. *)
Fixpoint run (reads : list (Env * bytes)) (last : Env) (buffer : SmppMessageBuffer.t)
    (st : world S) : option (ioresult unit * world S) :=
  match reads with
  | [] => Some (Ok tt, remove_client last st)
  | (env, chunk) :: rest =>
      let buffer := SmppMessageBuffer.write chunk buffer in
      '(r, st) ← drain env (Datatypes.S (SmppMessageBuffer.len buffer)) buffer st;
      match r with
      | Ok buffer => run rest last buffer st
      | Err e => Some (Err e, st)
      | Panic => Some (Panic, st)
      end
  end.

(** *** The other tasks *)

(** One tick of the enquire-link task. *)
Definition enquire_link_tick (env : Env) (w : nat) : M unit :=
  sequence_number ← next_sequence_number;
  data ← lift (encode_or_empty
    (create_json_request (CommandId.as_u32 CommandId.EnquireLink) sequence_number []));
  write_to env w data.

Definition handle_schedule_delivery_message (env : Env) (message : Value) : M unit :=
  match extract_command_id message with
  | Some (CommandId.SubmitSm | CommandId.DataSm) =>
      new_sequence_number ← next_sequence_number;
      attempt (forward_message_to_client env (as_deliver_sm new_sequence_number message)) ≫= λ _,
      mret tt
  | _ => mret tt
  end.

Definition run_task (env : Env) (t : task) : M unit :=
  match t with
  | ForwardTask decoded_message => forward_message_to_client env decoded_message
  | EnquireLinkTask w _ => enquire_link_tick env w
  end.

(** [POST /v1/smpp]: what becomes of the message does not show in the answer. *)
Definition handle_rest_request (env : Env) (payload : Value) : M Value :=
  let received := JObject [("message", JString "SMPP message received"); ("status", JString "ok")] in
  match from_json payload with
  | Ok smpp_message =>
      match SMPPMessage.get_command_id smpp_message ≫= CommandId.from_u32 with
      | Some CommandId.DeliverSm =>
          attempt (client_send_message env
            (default "unknown" (get_str payload "destination_addr"))
            (SMPPMessage.to_vec smpp_message)) ≫= λ _, mret received
      | _ => mret received
      end
  | Err e => mret (JObject [("message", JString ("Failed to decode SMPP message: " +:+ err_msg e));
                            ("status", JString "error")])
  | Panic => panics
  end.

End server.
