(* ===== verification/ServerProps.v ===== *)
(** * The SMSC server: properties

    Two views of a handler. As answers: what it writes to which socket ([forwards] and
    [replies], a small program logic over the state monad). As steps: every change it
    makes is one of the steps of [world_step], so that an invariant of the steps holds of
    every handler and of every interleaving of connections and tasks. *)
From S2P Require Export Server ResponseProps.

(** None of these literal fields is in the header. *)
Ltac header_free :=
  repeat (apply Forall_cons; split; [apply (bool_decide_unpack _); vm_compute; exact I|]);
  apply Forall_nil; exact I.

(** The given fields are what the command asks for, all of them strings and numbers. *)
Ltac fits :=
  eexists; split; [vm_compute; reflexivity|split];
  repeat (apply Forall_cons; split;
    [ first
        [ eexists _, _; split; [vm_compute; reflexivity|split;
            [first [left | right; left | right; right; left | do 3 right; left]
            |first [apply no_err_c_octet_str | apply no_err_u8 | apply no_err_u32] ] ]
        | let t := fresh in let Ht := fresh in intros t Ht; vm_compute in Ht;
          first [discriminate Ht | injection Ht as <-; first [apply no_err_u8 | apply no_err_c_octet_str] ] ]
    |]);
  apply Forall_nil; exact I.

Section props.
Context {S : Type} `{St : MessageStorage S, B64 : Base64, Tlv : TlvOrder, Chr : Chrono, Reg : Regex,
  Gen : MessageIdGenerator, Ord : ClientOrder}.

Abbreviation M := (StateM (world S)).

Lemma StateM_bind_inv {A B} (m : M A) (f : A → M B) st r st' :
  (m ≫= f) st = (r, st') →
  (∃ a st1, m st = (Ok a, st1) ∧ f a st1 = (r, st')) ∨
  (∃ r0, m st = (r0, st') ∧ (∀ a, r0 ≠ Ok a) ∧ (∀ b, r ≠ Ok b) ∧ (r = Panic ↔ r0 = Panic)).
Proof.
  unfold mbind, StateM_bind. destruct (m st) as [[a|e|] st1] eqn:E; intros Heq.
  - left. by exists a, st1.
  - right. injection Heq as <- <-. exists (Err e). by split_and!.
  - right. injection Heq as <- <-. exists Panic. by split_and!.
Qed.

(** ** What a response says *)

Definition response_pdu (command_id sequence_number : N) (b : bytes) : Prop :=
  SMPPMessage.get_command_id (SMPPMessage.mk b) = Some (N.lor 0x80000000 command_id) ∧
  SMPPMessage.get_sequence_number (SMPPMessage.mk b) = Some sequence_number.

(** A PDU built from a JSON deliver_sm. *)
Definition deliver_pdu (b : bytes) : Prop :=
  ∃ v m, from_json v = Ok m ∧ b = SMPPMessage.to_vec m ∧
         extract_command_id v = Some CommandId.DeliverSm.

(** Whatever the fields are, as long as they leave the header alone. *)
Lemma encoded_response_pdu id seq status fields m :
  (id < 2 ^ 32)%N → (seq < 2 ^ 32)%N →
  "command_id" ∉ fields.*1 → "sequence_number" ∉ fields.*1 →
  is_Some (header_number (create_json_response id seq status fields) "command_status") →
  from_json (create_json_response id seq status fields) = Ok m → response_pdu id seq (SMPPMessage.to_vec m).
Proof.
  intros Hid Hseq Hc Hs [st Hst]. set (v := create_json_response id seq status fields) in *. intros Em.
  assert (Hcmd : extract_command_id v = CommandId.from_u32 (N.lor 0x80000000 id)).
  { apply hex_id_roundtrip; [by apply lor_bound|]. subst v.
    by rewrite create_json_response_get by done. }
  destruct (CommandId.from_u32 (N.lor 0x80000000 id)) as [cmd|] eqn:Ecmd.
  2: { unfold from_json in Em. by rewrite Hcmd in Em. }
  assert (Hsq : header_number v "sequence_number" = Some seq).
  { transitivity (Some (cast_u32 seq)); [|unfold cast_u32; by rewrite N.mod_small].
    unfold header_number. subst v. by rewrite create_json_response_get by done. }
  destruct (from_json_layout _ _ _ _ _ Em Hcmd Hst Hsq) as [rest Hm].
  apply header_number_spec in Hst as [_ Hst].
  destruct m as [bm]. cbn [SMPPMessage.message] in *.
  destruct (layout_header (SMPPMessage.mk bm) _ _ _ _ _ (CommandId.as_u32_bound cmd) Hst Hseq Hm) as (Hi1 & _ & Hi2).
  by rewrite (CommandId.command_id_as_from_u32 _ _ Ecmd) in Hi1.
Qed.

(** ** The logic of writes *)

(** [m] writes deliver_sm PDUs to clients at most, and returns a value in [P]. *)
Definition forwards {A} (P : A → Prop) (m : M A) : Prop := ∀ st r st',
  m st = (r, st') → ∃ new, sent st' = sent st ++ new ∧ Forall (λ p, deliver_pdu p.2) new ∧
    ∀ a, r = Ok a → P a.

(** [m] writes deliver_sm PDUs to clients and, last and only when it succeeds, one PDU in
    [R] to the socket [w]. *)
Definition replies (w : nat) (R : bytes → Prop) {A} (m : M A) : Prop := ∀ st r st',
  m st = (r, st') → ∃ fwd own, sent st' = sent st ++ fwd ++ own ∧
    Forall (λ p, deliver_pdu p.2) fwd ∧
    if is_ok r then ∃ b, own = [(w, b)] ∧ R b else own = [].

Lemma forwards_bind {A B} (P : A → Prop) (Q : B → Prop) (m : M A) (f : A → M B) :
  forwards P m → (∀ a, P a → forwards Q (f a)) → forwards Q (m ≫= f).
Proof.
  intros Hm Hf st r st' [(a & st1 & H1 & H2)|(r0 & H1 & _ & Hr & _)]%StateM_bind_inv.
  - destruct (Hm _ _ _ H1) as (n1 & E1 & F1 & Pa). destruct (Hf a (Pa a eq_refl) _ _ _ H2) as (n2 & E2 & F2 & HQ).
    exists (n1 ++ n2). rewrite E2, E1, app_assoc. split_and!; [done| |done]. by apply Forall_app.
  - destruct (Hm _ _ _ H1) as (n1 & E1 & F1 & _). exists n1. split_and!; [done..|]. intros b ->. by destruct (Hr b).
Qed.

Lemma replies_bind {A B} w R (P : A → Prop) (m : M A) (f : A → M B) :
  forwards P m → (∀ a, P a → replies w R (f a)) → replies w R (m ≫= f).
Proof.
  intros Hm Hf st r st' [(a & st1 & H1 & H2)|(r0 & H1 & _ & Hr & _)]%StateM_bind_inv.
  - destruct (Hm _ _ _ H1) as (n1 & E1 & F1 & Pa).
    destruct (Hf a (Pa a eq_refl) _ _ _ H2) as (n2 & own & E2 & F2 & HQ).
    exists (n1 ++ n2), own. rewrite E2, E1, <-!app_assoc. split_and!; [done| |done]. by apply Forall_app.
  - destruct (Hm _ _ _ H1) as (n1 & E1 & F1 & _). exists n1, []. rewrite app_nil_r.
    split_and!; [done..|]. destruct r as [b| |]; [by destruct (Hr b)|done|done].
Qed.

(** After the reply, nothing more is written. *)
Lemma replies_then {A B} w R (m : M A) (f : A → M B) :
  replies w R m → (∀ a st, ∃ st' b, f a st = (Ok b, st') ∧ sent st' = sent st) →
  replies w R (m ≫= f).
Proof.
  intros Hm Hf st r st' [(a & st1 & H1 & H2)|(r0 & H1 & Ha & Hr & _)]%StateM_bind_inv.
  - destruct (Hm _ _ _ H1) as (n & own & E & F & HR). destruct (Hf a st1) as (st2 & b & H3 & Hs).
    rewrite H3 in H2. injection H2 as <- <-. exists n, own. by rewrite Hs.
  - destruct (Hm _ _ _ H1) as (n & own & E & F & HR). exists n, own.
    destruct r0 as [a| |], r as [b| |]; try done; try (by destruct (Ha a)); by destruct (Hr b).
Qed.

Lemma forwards_weaken {A} (P Q : A → Prop) (m : M A) :
  forwards P m → (∀ a, P a → Q a) → forwards Q m.
Proof.
  intros Hm HPQ st r st' Heq. destruct (Hm _ _ _ Heq) as (n & E & F & HP).
  exists n. split_and!; [done..|]. eauto.
Qed.

(** A computation that writes nothing. *)
Lemma forwards_silent {A} (P : A → Prop) (m : M A) :
  (∀ st, sent (m st).2 = sent st ∧ ∀ a, (m st).1 = Ok a → P a) → forwards P m.
Proof.
  intros Hm st r st' Heq. destruct (Hm st) as [Hs HP]. rewrite Heq in Hs, HP. simpl in Hs, HP.
  exists []. rewrite app_nil_r. by split_and!.
Qed.

Lemma forwards_ret {A} (P : A → Prop) (a : A) : P a → forwards P (mret a : M A).
Proof. intros HP. apply forwards_silent. intros st. split; [done|]. cbn. by intros ? [= <-]. Qed.

Lemma forwards_lift {A} (P : A → Prop) (r : ioresult A) :
  (∀ a, r = Ok a → P a) → forwards P (lift r : M A).
Proof. intros HP. apply forwards_silent. intros st. by split. Qed.

Lemma forwards_panics {A} (P : A → Prop) : forwards P (panics : M A).
Proof. apply forwards_silent. intros st. split; [done|]. discriminate. Qed.

Lemma forwards_attempt {A} (P : A → Prop) (m : M A) :
  forwards P m → forwards (λ r, ∀ a, r = Ok a → P a) (attempt m).
Proof.
  intros Hm st r st' Heq. unfold attempt in Heq. destruct (m st) as [r0 st1] eqn:E.
  destruct (Hm _ _ _ E) as (n & E1 & F & HP). exists n.
  destruct r0; injection Heq as <- <-; split_and!; try done; intros a0 [= <-]; try done; eauto.
Qed.

Lemma forwards_fmap {A B} (P : B → Prop) (f : A → B) (m : M A) :
  forwards (λ a, P (f a)) m → forwards P (f <$> m).
Proof. intros Hm. eapply forwards_bind; [exact Hm|]. intros a Ha. by apply forwards_ret. Qed.

Lemma forwards_next_sequence : forwards (λ _, True) (next_sequence_number : M N).
Proof. by apply forwards_silent. Qed.

Lemma forwards_generate_id prefix : forwards (λ _, True) (generate_id prefix : M string).
Proof.
  apply forwards_silent. intros st. unfold generate_id. destruct (generate _ _). by split.
Qed.

Lemma forwards_spawn t : forwards (λ _, True) (spawn t : M unit).
Proof. by apply forwards_silent. Qed.

Lemma forwards_on_storage {A} (f : S → ioresult A * S) : forwards (λ _, True) (on_storage f : M A).
Proof. apply forwards_silent. intros st. unfold on_storage. destruct (f _). by split. Qed.

Lemma try_writers_forwards env ws b :
  deliver_pdu b → forwards (λ _, True) (try_writers env ws b : M unit).
Proof.
  intros Hb. induction ws as [|w ws IH]; intros st r st' Heq.
  - injection Heq as <- <-. exists []. by rewrite app_nil_r.
  - cbn [try_writers] in Heq. destruct (write_ok env w); [|by apply IH in Heq].
    injection Heq as <- <-. exists [(w, b)]. split_and!; [done| |done]. by apply Forall_singleton.
Qed.

Lemma client_send_forwards env a b :
  deliver_pdu b → forwards (λ _, True) (client_send_message env a b : M unit).
Proof.
  intros Hb st r st' Heq. unfold client_send_message in Heq.
  destruct (ClientManager.get_writer _ _ _) as [|w ws].
  - injection Heq as <- <-. exists []. by rewrite app_nil_r.
  - by eapply try_writers_forwards.
Qed.

(** ** Responses *)


Definition response_value (id seq : N) (v : Value) : Prop :=
  ∀ b, encode_or_empty v = Ok b → response_pdu id seq b.

Lemma encode_or_empty_ok v b :
  (∀ e, from_json v ≠ Err e) → encode_or_empty v = Ok b → ∃ m, from_json v = Ok m ∧ b = SMPPMessage.to_vec m.
Proof.
  unfold encode_or_empty. intros Hno. destruct (from_json v) as [m|e|]; [|by destruct (Hno e)|done].
  intros [= <-]. by exists m.
Qed.

Lemma encoded_response_value id seq status fields m :
  (id < 2 ^ 32)%N → (seq < 2 ^ 32)%N → Forall (λ f, f.1 ∉ header_keys) fields →
  from_json (create_json_response id seq status fields) = Ok m → response_pdu id seq (SMPPMessage.to_vec m).
Proof.
  intros Hid Hseq Hf. assert (Hk : ∀ k, k ∈ header_keys → k ∉ fields.*1).
  { intros k Hk (f & -> & Hin)%list_elem_of_fmap. rewrite Forall_forall in Hf. by apply (Hf f). }
  apply encoded_response_pdu; try done; try (apply Hk; set_solver).
  unfold header_number. rewrite create_json_response_get by (apply Hk; set_solver). by eexists.
Qed.

(** A response with the fields of its command is written, never the empty buffer. *)
Lemma response_value_intro c cmd seq status fields :
  CommandId.from_u32 (N.lor 0x80000000 (CommandId.as_u32 c)) = Some cmd →
  (seq < 2 ^ 32)%N → NoDup fields.*1 → Forall (λ f, f.1 ∉ header_keys) fields → fits cmd fields →
  response_value (CommandId.as_u32 c) seq (create_json_response (CommandId.as_u32 c) seq status fields).
Proof.
  intros Hcmd Hseq Hnd Hh Hfit b Hb. pose proof (CommandId.as_u32_bound c) as Hid.
  destruct (encode_or_empty_ok _ _ (response_no_err _ seq status fields cmd Hid Hcmd Hnd
    ltac:(intros (f & Heq & Hin)%list_elem_of_fmap; rewrite Forall_forall in Hh; apply (Hh f Hin);
          rewrite <-Heq; apply (bool_decide_unpack _); vm_compute; exact I) Hfit) Hb) as (m & Hm & ->).
  by apply (encoded_response_value _ _ status fields).
Qed.

(** *** Requests that are answered with nothing *)

Definition unanswered (c : CommandId.t) : bool :=
  match c with
  | CommandId.BroadcastSm | CommandId.QueryBroadcastSm | CommandId.DeliverSm
  | CommandId.AlertNotification | CommandId.Outbind => true
  | _ => false
  end.

Lemma status_response_get id seq status k :
  get (status_response id seq status) k
  = if decide (k = "sequence_number") then Some (jnum seq)
    else if decide (k = "command_status") then Some (jnum (CommandStatus.as_u32 status))
    else if decide (k = "command_id") then Some (JString (hex_id (N.lor 0x80000000 id))) else None.
Proof. unfold status_response. by rewrite create_json_response_get by (by apply not_elem_of_nil). Qed.

Lemma unanswered_response c seq status :
  unanswered c = true → encode_or_empty (status_response (CommandId.as_u32 c) seq status) = Ok [].
Proof.
  intros Hc. unfold encode_or_empty.
  assert (Hx : extract_command_id (status_response (CommandId.as_u32 c) seq status)
               = CommandId.from_u32 (N.lor 0x80000000 (CommandId.as_u32 c))).
  { apply hex_id_roundtrip; [apply lor_bound; [done|apply CommandId.as_u32_bound]|by rewrite status_response_get]. }
  assert (Hcase : CommandId.from_u32 (N.lor 0x80000000 (CommandId.as_u32 c)) = None ∨ ∃ cmd fields,
    CommandId.from_u32 (N.lor 0x80000000 (CommandId.as_u32 c)) = Some cmd ∧
    MESSAGE_COMMAND_FIELDS !! CommandId.as_u32 cmd = Some (("message_id", None) :: fields)).
  { destruct c; try discriminate Hc; first [left; vm_compute; reflexivity
      | right; eexists _, _; split; vm_compute; reflexivity]. }
  destruct Hcase as [Hno|(cmd & fields & Hcmd & Hf)].
  { unfold from_json. by rewrite Hx, Hno. }
  destruct (from_json_first_missing (status_response (CommandId.as_u32 c) seq status) cmd "message_id" fields)
    as [e ->]; [by rewrite Hx|exact Hf| | |by rewrite status_response_get|reflexivity];
    unfold header_number; rewrite status_response_get; by eexists.
Qed.

Lemma encode_or_empty_no_err v e : encode_or_empty v ≠ Err e.
Proof. unfold encode_or_empty. by destruct (from_json v). Qed.

Lemma send_replies env (R : bytes → Prop) b :
  write_ok env (writer env) = true → R b → replies (writer env) R (send env b : M unit).
Proof.
  intros Hw HR st r st' Heq. unfold send, write_to in Heq. rewrite Hw in Heq.
  injection Heq as <- <-. exists [], [(writer env, b)]. split_and!; [done..|]. by exists b.
Qed.

Lemma relabel_replies {A} w R label (m : M A) : replies w R m → replies w R (relabel label m).
Proof.
  intros Hm st r st' Heq. unfold relabel in Heq. destruct (m st) as [r0 st1] eqn:E.
  injection Heq as <- <-. destruct (Hm _ _ _ E) as (n & own & H1 & H2 & H3).
  exists n, own. by destruct r0.
Qed.

Lemma respond_replies env label id seq v :
  write_ok env (writer env) = true → response_value id seq v →
  replies (writer env) (response_pdu id seq) (respond env label v : M unit).
Proof.
  intros Hw Hv. unfold respond. eapply replies_bind; [apply (forwards_lift (response_pdu id seq)), Hv|].
  intros b Hb. by apply relabel_replies, send_replies.
Qed.

(** *** Forwarding *)

(** A message that carries its command id, as every decoded PDU does. *)
Definition has_command_id (v : Value) : Prop := ∃ m, v = JObject m ∧ is_Some (jget "command_id" m).

Lemma has_command_id_insert v k x : has_command_id v → has_command_id (insert_in_object v k x).
Proof.
  intros (m & -> & Hm). eexists. split; [done|]. rewrite jget_insert. by case_decide.
Qed.

Lemma has_command_id_set v k x : has_command_id v → has_command_id (set_if_present v k x).
Proof.
  intros (m & -> & Hm). simpl. destruct (jget k m); [|by exists m].
  eexists. split; [done|]. rewrite jget_insert. by case_decide.
Qed.

Lemma has_command_id_predefined env v :
  has_command_id v → has_command_id (replace_sm_default_msg_id_with_predefined_message env v).2.
Proof.
  intros Hv. unfold replace_sm_default_msg_id_with_predefined_message, replace_message_with_predefined.
  repeat case_match; simplify_eq/=; repeat apply has_command_id_set; exact Hv.
Qed.

Lemma has_command_id_service_type env v : has_command_id v → has_command_id (set_service_type env v).
Proof. intros Hv. unfold set_service_type. repeat case_match; repeat apply has_command_id_set; exact Hv. Qed.

Lemma extract_as_deliver seq v :
  has_command_id v → extract_command_id (as_deliver_sm seq v) = Some CommandId.DeliverSm.
Proof.
  intros (m & -> & [x Hx]). unfold as_deliver_sm, extract_command_id.
  assert (∃ m', set_if_present (JObject m) "command_id" (jnum (CommandId.as_u32 CommandId.DeliverSm))
                = JObject m' ∧ jget "command_id" m' = Some (jnum (CommandId.as_u32 CommandId.DeliverSm)))
    as (m' & -> & Hm').
  { simpl. rewrite Hx. eexists. split; [done|]. apply jget_insert_eq. }
  rewrite get_set_if_present. rewrite decide_False by done. rewrite Hm'. vm_compute. reflexivity.
Qed.

Lemma forward_forwards env v :
  extract_command_id v = Some CommandId.DeliverSm →
  forwards (λ _, True) (forward_message_to_client env v : M unit).
Proof.
  intros Hv. unfold forward_message_to_client.
  destruct (get_str v "destination_addr") as [a|]; [|by apply forwards_ret].
  destruct (from_json v) as [m|e|] eqn:Em; [|apply forwards_panics..].
  eapply forwards_bind; [apply forwards_attempt, client_send_forwards; by exists v, m|].
  intros _ _. by apply forwards_ret.
Qed.

Section mode.
Context (env : Env) (id seq : N) (message_id : string) (v : Value).
Context (Hv : has_command_id v).
(** What the caller asks of the responses. *)
Context (P : Value → Prop)
  (HP : ∀ status mid, P (create_json_response id seq status [("message_id", JString mid)])).

Abbreviation answers := (forwards (λ r, P (either r))).

Lemma datagram_forwards :
  answers (send_message_in_datagram_mode id seq message_id v : M (Value + Value)).
Proof.
  eapply forwards_bind; [apply forwards_next_sequence|]. intros n _.
  eapply forwards_bind; [apply forwards_spawn|]. intros _ _.
  apply forwards_ret, HP.
Qed.

Lemma transaction_answer_value response :
  P (either (transaction_answer id seq message_id response)).
Proof.
  destruct response as [resp|]; [|apply HP].
  unfold transaction_answer, either. case_match; simplify_eq; case_match; simplify_eq; apply HP.
Qed.

Lemma transaction_forwards :
  answers (send_message_in_transaction_mode env id seq message_id v : M (Value + Value)).
Proof.
  eapply forwards_bind; [apply forwards_next_sequence|]. intros n _.
  eapply forwards_bind.
  { by apply forwards_attempt, forward_forwards, extract_as_deliver. }
  intros r _. cbv zeta beta.
  destruct r as [[]|e|]; try (apply forwards_ret, HP).
  apply forwards_ret, transaction_answer_value.
Qed.

Lemma store_forwards :
  answers (store_and_forward_message env id seq message_id v : M (Value + Value)).
Proof.
  assert (Hr : ∀ status reason, P (message_id_response id seq status reason)) by (intros; apply HP).
  eapply forwards_bind; [by apply (forwards_lift (λ _, True))|]. intros schedule _.
  destruct (match schedule with Some t => (t <? now env)%Z | None => false end);
    [apply forwards_ret, Hr|].
  eapply forwards_bind; [by apply (forwards_lift (λ _, True))|]. intros validity _.
  destruct (match validity with Some t => (t <? now env)%Z | None => false end);
    [apply forwards_ret, Hr|].
  destruct (match schedule, validity with Some s, Some v => (v <? s)%Z | _, _ => false end);
    [apply forwards_ret, Hr|].
  eapply forwards_bind; [apply forwards_attempt, forwards_on_storage|].
  intros r _. destruct r; apply forwards_ret, Hr.
Qed.
End mode.

(** *** The handlers *)

Section local.
Context (env : Env) (c : CommandId.t) (seq : N).
Context (Hsub : c ∈ [CommandId.SubmitSm; CommandId.DataSm]) (Hseq : (seq < 2 ^ 32)%N).

Lemma submit_response : ∃ cmd, CommandId.from_u32 (N.lor 0x80000000 (CommandId.as_u32 c)) = Some cmd ∧
  ∀ mid more, fits cmd (("message_id", JString mid) :: ("command_status", more) :: []) ∧
              fits cmd [("message_id", JString mid)].
Proof.
  rewrite !elem_of_cons, elem_of_nil in Hsub. destruct Hsub as [-> | [-> | [] ] ];
    eexists; (split; [vm_compute; reflexivity|]); intros mid more; split; fits.
Qed.

Lemma message_id_response_value status mid :
  response_value (CommandId.as_u32 c) seq
    (create_json_response (CommandId.as_u32 c) seq status [("message_id", JString mid)]).
Proof.
  destruct submit_response as (cmd & Hcmd & Hfit). apply (response_value_intro c cmd); [done|done| | |].
  - apply NoDup_singleton.
  - header_free.
  - apply (Hfit mid JNull).
Qed.

Lemma local_forwards v :
  forwards (response_pdu (CommandId.as_u32 c) seq)
    (process_local_data_submit_message env (CommandId.as_u32 c) seq v : M bytes).
Proof.
  pose proof (CommandId.as_u32_bound c) as Hid. unfold process_local_data_submit_message.
  eapply (forwards_bind (λ r, ∀ m, from_json r = Ok m → response_pdu (CommandId.as_u32 c) seq (SMPPMessage.to_vec m))).
  - destruct (handle_request env v) as [value|e|]; [| |apply forwards_panics].
    + apply forwards_ret. intros m. apply encoded_response_value; [done..|]. unfold extract_tlv_fields_to.
      destruct value; try header_free. apply Forall_app. split; [header_free|].
      apply Forall_forall. intros f [Hf _]%list_elem_of_filter. by apply valid_tlv_not_header.
    + eapply forwards_bind; [apply forwards_generate_id|]. intros mid _. apply forwards_ret.
      intros m. apply encoded_response_value; [done..|]. header_free.
  - intros response Hr.
    destruct (from_json response) as [m|e|]; [by apply forwards_ret, Hr| |apply forwards_panics].
    eapply forwards_bind; [apply forwards_generate_id|]. intros mid _.
    apply forwards_lift. intros b Hb. destruct submit_response as (cmd & Hcmd & Hfit).
    set (fields := [("message_id", JString mid); _]) in *.
    assert (Hk : NoDup (fields.*1) ∧ ("command_id" ∉ fields.*1) ∧ ("sequence_number" ∉ fields.*1))
      by (split_and!; apply (bool_decide_unpack _); vm_compute; exact I).
    destruct Hk as (Hnd & Hk1 & Hk2).
    destruct (encode_or_empty_ok _ _ (response_no_err _ seq _ fields cmd Hid Hcmd Hnd Hk1
      (proj1 (Hfit mid _))) Hb) as (m & Hm & ->).
    revert Hm. apply encoded_response_pdu; [done..|].
    unfold header_number, create_json_response. cbn [get].
    rewrite (jget_extend_in _ (jnum (CommandStatus.as_u32 CommandStatus.EsmeRUnknownErr))).
    + by eexists.
    + right. left.
    + intros w. unfold fields. rewrite !elem_of_cons, elem_of_nil. intuition congruence.
Qed.

Lemma submit_replies v :
  write_ok env (writer env) = true → has_command_id v →
  replies (writer env) (response_pdu (CommandId.as_u32 c) seq) (handle_data_submit_sm env (CommandId.as_u32 c) seq v : M unit).
Proof.
  intros Hw Hv. unfold handle_data_submit_sm.
  eapply replies_bind; [apply forwards_generate_id|]. intros mid _.
  pose proof (has_command_id_predefined env v Hv) as Hv1.
  destruct (replace_sm_default_msg_id_with_predefined_message env v) as [r v1]. cbn [snd] in Hv1.
  eapply replies_bind; [by apply (forwards_lift (λ _, True))|]. intros _ _. cbv zeta.
  eapply replies_bind; [apply forwards_next_sequence|]. intros n _. cbv zeta.
  set (v2 := insert_in_object _ _ _).
  assert (Hv2 : has_command_id v2) by (by apply has_command_id_insert, has_command_id_service_type).
  clearbody v2. clear v1 Hv1 r.
  destruct (is_my_request_address env _).
  { eapply replies_bind; [apply local_forwards|]. intros b Hb. by apply relabel_replies, send_replies. }
  eapply (replies_bind _ _ (response_value (CommandId.as_u32 c) seq)); [|intros resp Hr; by apply respond_replies].
  destruct (get_message_mode env v2).
  - apply forwards_ret. apply message_id_response_value.
  - apply forwards_fmap, datagram_forwards, message_id_response_value.
  - apply forwards_fmap, transaction_forwards; [done|apply message_id_response_value].
  - apply forwards_fmap, store_forwards, message_id_response_value.
Qed.
End local.

Lemma submit_sm_has_command v d n :
  has_command_id (insert_in_object (create_submit_sm_from_submit_multi v d) "sequence_number" n).
Proof.
  apply has_command_id_insert. eexists. split; [done|].
  rewrite jget_extend_not_in.
  - rewrite (jget_extend_in _ (jnum (CommandId.as_u32 CommandId.SubmitSm))); [done|set_solver|].
    intros w. rewrite !elem_of_cons, elem_of_nil. intuition congruence.
  - intros (f & Hf & Hin)%list_elem_of_fmap.
    apply list_elem_of_omap in Hin as (k & Hk & Hkv). destruct (get v k); [|done].
    simplify_eq/=. revert Hk. apply (bool_decide_unpack _). vm_compute. exact I.
Qed.

Lemma submit_one_forwards env id seq mid mode v d :
  (seq < 2 ^ 32)%N → forwards (λ _, True) (submit_one env id seq mid mode v d : M bool).
Proof.
  intros Hseq. eapply forwards_bind; [apply forwards_next_sequence|]. intros n _. cbv zeta.
  set (sm := insert_in_object _ _ _).
  assert (Hsm : has_command_id sm) by apply submit_sm_has_command.
  clearbody sm.
  destruct (is_my_request_address env _).
  { eapply forwards_bind; [apply forwards_attempt, (local_forwards env CommandId.SubmitSm seq); [left|exact Hseq]|].
    intros r _. by apply forwards_ret. }
  destruct mode.
  2: by apply forwards_fmap, (datagram_forwards id seq mid sm (λ _, True)).
  2: by apply forwards_fmap, (transaction_forwards env id seq mid sm Hsm (λ _, True)).
  all: by apply forwards_fmap, (store_forwards env _ seq mid sm (λ _, True)).
Qed.

(** At most the destinations fail. *)
Lemma submit_each_forwards (submit : Address → M bool) dests :
  (∀ d, forwards (λ _, True) (submit d)) →
  forwards (λ failed : list Address, length failed ≤ length dests) (submit_each submit dests).
Proof.
  intros Hs. induction dests as [|d ds IH]; [by apply forwards_ret|].
  eapply forwards_bind; [apply Hs|]. intros failed _.
  eapply forwards_bind; [apply IH|]. intros fs Hl. apply forwards_ret. destruct failed; cbn in *; lia.
Qed.

Lemma send_unwrap_replies env (R : bytes → Prop) b :
  write_ok env (writer env) = true → R b → replies (writer env) R (send_unwrap env b : M unit).
Proof.
  intros Hw Hb st r st' Heq. unfold send_unwrap, send, write_to in Heq. cbn in Heq.
  unfold attempt in Heq. rewrite Hw in Heq. injection Heq as <- <-.
  exists [], [(writer env, b)]. split_and!; [done..|]. by exists b.
Qed.

(** The answer to a submit_multi: at most 255 destinations that failed can be listed. *)
Definition multi_pdu (env : Env) (seq : N) (v : Value) (b : bytes) : Prop :=
  response_pdu (CommandId.as_u32 CommandId.SubmitMulti) seq b ∨
  b = [] ∧ ∃ dests, extract_destionation_addresses v (distribution_list env) = Ok dests ∧ 255 < length dests.

Lemma multi_response_pdu seq mid failed b :
  (seq < 2 ^ 32)%N → encode_or_empty (submit_multi_response seq mid failed) = Ok b →
  response_pdu (CommandId.as_u32 CommandId.SubmitMulti) seq b ∨ b = [] ∧ 255 < length failed.
Proof.
  intros Hseq Hb. destruct (decide (255 < length failed)) as [Hl|Hl].
  - unfold encode_or_empty in Hb. destruct (from_json _) as [m|e|] eqn:Em; [|right; split; [congruence|done]|done].
    left. injection Hb as <-. revert Em. apply encoded_response_value; [by vm_compute|done|]. header_free.
  - left. revert Hb. apply (response_value_intro CommandId.SubmitMulti CommandId.SubmitMultiResp);
      [reflexivity|done| | |].
    + apply (bool_decide_unpack _). vm_compute. exact I.
    + header_free.
    + eexists. split; [vm_compute; reflexivity|]. split.
      * apply Forall_cons. split; [eexists _, _; split; [vm_compute; reflexivity|split; [left|apply no_err_c_octet_str] ]|].
        apply Forall_cons. split; [|by apply Forall_nil].
        eexists _, _. split; [vm_compute; reflexivity|]. split; [right; left|].
        apply no_err_array; [rewrite length_fmap; lia|]. apply Forall_fmap, Forall_true. intros a.
        apply no_err_iter. repeat (apply Forall_cons; split; [|]); [..|by apply Forall_nil];
          first [apply no_err_u8 | apply no_err_u32 | apply no_err_c_octet_str].
      * repeat (apply Forall_cons; split; [intros t Ht; vm_compute in Ht; discriminate Ht|]). by apply Forall_nil.
Qed.

(** With more than 255 destinations that failed the submitter gets no response. *)
Theorem long_multi_unanswered seq mid failed :
  255 < length failed → str_len mid ≤ 65 → encode_or_empty (submit_multi_response seq mid failed) = Ok [].
Proof.
  intros Hl Hmid. set (v := submit_multi_response seq mid failed).
  assert (Hx : extract_command_id v = Some CommandId.SubmitMultiResp).
  { transitivity (CommandId.from_u32 (N.lor 0x80000000 (CommandId.as_u32 CommandId.SubmitMulti)));
      [|vm_compute; reflexivity].
    apply hex_id_roundtrip; [by vm_compute|].
    apply create_json_response_get. apply (bool_decide_unpack _). vm_compute. exact I. }
  assert (Hf : MESSAGE_COMMAND_FIELDS !! CommandId.as_u32 CommandId.SubmitMultiResp
               = Some [("message_id", None); ("unsuccess_smes", None)]) by (vm_compute; reflexivity).
  assert (Hget : get v "message_id" = Some (JString mid) ∧
                 get v "unsuccess_smes" = Some (JArray (unsuccess_sme <$> failed))).
  { split; apply (jget_extend_in _ _ [("message_id", JString mid); ("unsuccess_smes", JArray (unsuccess_sme <$> failed))]);
      [left| |right; left|]; intros w; rewrite !elem_of_cons, elem_of_nil; intuition congruence. }
  assert (Hmc : FIELD_CODECS !! "message_id" = Some (COctetStrFieldCodec 65)) by (vm_compute; reflexivity).
  assert (Hmu : ∃ c, FIELD_CODECS !! "unsuccess_smes" = Some (ArrayFieldCodec c))
    by (eexists; vm_compute; reflexivity).
  destruct Hget as [Hg1 Hg2], Hmu as [c Hmu].
  unfold encode_or_empty, from_json, encode_message_with_fields. rewrite Hx.
  destruct (encode_body _ v []) as [r b] eqn:Eb. cut (∃ e, r = Err e); [by intros [e ->]|]. revert Eb.
  unfold encode_body. rewrite Hf. unfold mbind, BufM_bind, put, write_header_number.
  destruct (as_u64 (default (jnum 0) (get v "command_status"))), (as_u64 (default (jnum 0) (get v "sequence_number")));
    cbn [BufM_iter]; unfold mbind, BufM_bind, mret, BufM_ret, encode_field, BufM_map_err;
    rewrite Hmc, Hmu, Hg1, Hg2; cbn [codec_encode]; unfold COctetStrFieldCodec.encode at 1, COctetStrFieldCodec.truncate;
    rewrite (proj2 (Nat.ltb_ge _ _)) by exact Hmid; cbn -[ArrayFieldCodec.encode];
    unfold ArrayFieldCodec.encode; rewrite length_fmap, (proj2 (Nat.ltb_lt _ _)) by lia;
    cbn; intros [= <- <-]; by eexists.
Qed.

Lemma listed_response_pdu env seq mid failed v b :
  (seq < 2 ^ 32)%N → encode_or_empty (submit_multi_response seq mid failed) = Ok b →
  (failed = [] ∨ ∃ dests, extract_destionation_addresses v (distribution_list env) = Ok dests ∧
     length failed ≤ length dests) → multi_pdu env seq v b.
Proof.
  intros Hseq Hb Hf. destruct (multi_response_pdu _ _ _ _ Hseq Hb) as [Hp|[-> Hl] ]; [by left|right].
  split; [done|]. destruct Hf as [->|(dests & Hd & Hle)]; [by cbn in Hl; lia|]. exists dests. split; [done|lia].
Qed.

(** Preparing a submit_multi keeps its destinations. *)
Lemma prepared_destinations env v r v1 d :
  extract_command_id v = Some CommandId.SubmitMulti →
  replace_sm_default_msg_id_with_predefined_message env v = (r, v1) →
  extract_destionation_addresses (set_service_type env v1) d = extract_destionation_addresses v d.
Proof.
  intros Hc Hr. assert (Hget : ∀ k, k ∉ ["sm_default_msg_id"; "service_type"; "short_message"] →
      get (set_service_type env v1) k = get v k).
  { intros k Hk. rewrite !not_elem_of_cons in Hk. destruct Hk as (H1 & H2 & H3 & _).
    transitivity (get v1 k).
    - unfold set_service_type. repeat case_match; rewrite ?get_set_if_present_ne by done; done.
    - revert Hr. unfold replace_sm_default_msg_id_with_predefined_message, replace_message_with_predefined.
      intros Hr. repeat case_match; simplify_eq; rewrite ?get_set_if_present_ne by done; done. }
  unfold extract_destionation_addresses, extract_command_id, get_u64, get_str, u64_field, str_field in *.
  rewrite !Hget by (apply (bool_decide_unpack _); vm_compute; exact I). done.
Qed.

Lemma submit_multi_replies env id seq v :
  extract_command_id v = Some CommandId.SubmitMulti →
  write_ok env (writer env) = true → (seq < 2 ^ 32)%N →
  replies (writer env) (multi_pdu env seq v) (handle_submit_multi env id seq v : M unit).
Proof.
  intros Hc Hw Hseq. unfold handle_submit_multi.
  eapply replies_bind; [apply forwards_generate_id|]. intros mid _. cbv zeta.
  destruct (replace_sm_default_msg_id_with_predefined_message env v) as [r v1] eqn:Er.
  eapply replies_bind; [by apply (forwards_lift (λ _, True))|]. intros _ _. cbv zeta.
  rewrite (prepared_destinations _ _ _ _ _ Hc Er).
  eapply (replies_bind _ _ (λ failed, failed = [] ∨ ∃ dests,
    extract_destionation_addresses v (distribution_list env) = Ok dests ∧ length failed ≤ length dests)).
  { destruct (extract_destionation_addresses _ _) as [dests|e|]; [|by apply forwards_ret; left..].
    eapply forwards_weaken; [apply submit_each_forwards; intros d; by apply submit_one_forwards|].
    intros failed Hl. right. by exists dests. }
  intros failed Hf. eapply (replies_bind _ _ (multi_pdu env seq v)).
  { apply forwards_lift. intros b Hb. by apply (listed_response_pdu env seq mid failed v). }
  intros b Hb. by apply send_unwrap_replies.
Qed.

Lemma bind_response_value env c seq status system_id :
  c ∈ [CommandId.BindTransmitter; CommandId.BindReceiver; CommandId.BindTransceiver] → (seq < 2 ^ 32)%N →
  response_value (CommandId.as_u32 c) seq (bind_response env (CommandId.as_u32 c) seq status system_id).
Proof.
  intros Hc Hseq. assert (∃ cmd, CommandId.from_u32 (N.lor 0x80000000 (CommandId.as_u32 c)) = Some cmd ∧
    ∀ n, fits cmd [("system_id", JString system_id); ("sc_interface_version", jnum n)]) as (cmd & Hcmd & Hfit).
  { rewrite !elem_of_cons, elem_of_nil in Hc. destruct Hc as [-> | [-> | [-> | [] ] ] ];
      eexists; (split; [vm_compute; reflexivity|]); intros n; fits. }
  apply (response_value_intro c cmd); [done|done| |header_free|apply Hfit].
  apply (bool_decide_unpack _). vm_compute. exact I.
Qed.

Lemma handle_bind_answer env id seq v (st : world S) :
  (∀ status, response_value id seq (bind_response env id seq status (str_field v "system_id"))) →
  write_ok env (writer env) = true →
  (handle_bind env id seq v st).1 = Panic ∨
  ∃ b st', handle_bind env id seq v st = (Ok tt, push_sent (writer env) b st') ∧
           sent st' = sent st ∧ clients st' = clients st ∧ response_pdu id seq b.
Proof.
  intros Hv Hw. unfold handle_bind. cbv zeta. unfold mbind, StateM_bind, lift at 1.
  destruct (encode_or_empty _) as [b|e|] eqn:Eb; [|by destruct (encode_or_empty_no_err _ _ Eb)|by left].
  right. exists b. unfold relabel, send, write_to.
  assert (Hb : response_pdu id seq b) by (by apply (Hv _ b Eb)).
  destruct (authenticate env _ _); cbn; rewrite Hw; eexists; by split_and!.
Qed.

Lemma handle_bind_panic env id seq v (st st' : world S) :
  handle_bind env id seq v st = (Panic, st') → st' = st.
Proof.
  unfold handle_bind. cbv zeta. unfold mbind, StateM_bind, lift at 1.
  destruct (encode_or_empty _) as [b|e|]; [|discriminate|congruence].
  unfold relabel, send, write_to. destruct (authenticate env _ _); cbn; destruct (write_ok env _); discriminate.
Qed.

(** The arm of the three binds: the verdict is written, then the client is registered. *)
Lemma bind_replies env id seq j :
  (∀ status, response_value id seq (bind_response env id seq status (str_field j "system_id"))) →
  write_ok env (writer env) = true →
  replies (writer env) (response_pdu id seq)
    (r ← attempt (handle_bind env id seq j);
     match r with
     | Ok _ => modify (λ st, set_clients (ClientManager.add_client (peer_address env)
                  (str_field j "address_range") (writer env) (clients st)) st)
     | _ => mret tt
     end : M unit).
Proof.
  intros Hv Hw st r st' Heq. unfold mbind, StateM_bind, attempt in Heq.
  destruct (handle_bind_answer env id seq j st Hv Hw) as [Hp|(b & st1 & E & Hs & _ & HR)].
  - destruct (handle_bind env id seq j st) as [r0 st1] eqn:E. simpl in Hp. subst r0.
    injection Heq as <- <-. pose proof (handle_bind_panic _ _ _ _ _ _ E) as ->.
    exists [], []. by rewrite app_nil_r.
  - rewrite E in Heq. injection Heq as <- <-. exists [], [(writer env, b)]. cbn. rewrite Hs.
    split_and!; [done..|]. by exists b.
Qed.

(** What is written in answer to the request [v] with the command [c]. *)
Definition answer_pdu (env : Env) (c : CommandId.t) (v : Value) (b : bytes) : Prop :=
  let seq := cast_u32 (u64_field v "sequence_number") in
  if unanswered c then b = []
  else match c with
       | CommandId.SubmitMulti => multi_pdu env seq v b
       | _ => response_pdu (CommandId.as_u32 c) seq b
       end.

Lemma bodyless_response c seq status :
  c ∈ [CommandId.EnquireLink; CommandId.Unbind; CommandId.CancelSm; CommandId.ReplaceSm;
       CommandId.CancelBroadcastSm] → (seq < 2 ^ 32)%N →
  response_value (CommandId.as_u32 c) seq (status_response (CommandId.as_u32 c) seq status).
Proof.
  intros Hc Hseq. assert (∃ cmd, CommandId.from_u32 (N.lor 0x80000000 (CommandId.as_u32 c)) = Some cmd ∧ fits cmd [])
    as (cmd & Hcmd & Hfit).
  { rewrite !elem_of_cons, elem_of_nil in Hc. destruct Hc as [-> | [-> | [-> | [-> | [-> | [] ] ] ] ] ];
      eexists; (split; [vm_compute; reflexivity|]); fits. }
  apply (response_value_intro c cmd); [done|done|constructor|by apply Forall_nil|done].
Qed.

Lemma query_response_value seq mid :
  (seq < 2 ^ 32)%N →
  response_value (CommandId.as_u32 CommandId.QuerySm) seq (query_response (CommandId.as_u32 CommandId.QuerySm) seq mid).
Proof.
  intros Hseq. apply (response_value_intro CommandId.QuerySm CommandId.QuerySmResp); [reflexivity|done| |header_free|fits].
  apply (bool_decide_unpack _). vm_compute. exact I.
Qed.

Lemma unanswered_replies env label c seq status :
  unanswered c = true → write_ok env (writer env) = true →
  replies (writer env) (λ b, b = []) (respond env label (status_response (CommandId.as_u32 c) seq status) : M unit).
Proof.
  intros Hc Hw. unfold respond. rewrite unanswered_response by done.
  eapply replies_bind; [by apply (forwards_lift (λ b, b = [])); intros ? [= <-]|].
  intros b Hb. by apply relabel_replies, send_replies.
Qed.

(** Every request gets exactly one answer: when the handler of a request succeeds and
    its socket accepts writes, the last PDU it wrote to its own connection is the response,
    with the id of the request (bit 31 set) and its sequence number, or nothing at all for
    the five requests whose response cannot be encoded ([unanswered]); everything written
    before that is a deliver_sm forwarded to a client, and a handler that fails answers
    nothing. *)
Lemma request_answered env j c (st : world S) r st' :
  extract_command_id j = Some c → CommandId.is_request c = true → has_command_id j →
  write_ok env (writer env) = true → handle_message env j st = (r, st') →
  ∃ fwd own, sent st' = sent st ++ fwd ++ own ∧ Forall (λ p, deliver_pdu p.2) fwd ∧
    if is_ok r then ∃ b, own = [(writer env, b)] ∧ answer_pdu env c j b else own = [].
Proof.
  intros Hc Hreq Hj Hw. revert st r st'.
  change (replies (writer env) (answer_pdu env c j) (handle_message env j : M unit)).
  unfold answer_pdu. set (seq := cast_u32 _).
  assert (Hseq : (seq < 2 ^ 32)%N) by (by apply N.mod_lt).
  assert (Hstatus : ∀ c label status, c ∈ [CommandId.EnquireLink; CommandId.Unbind; CommandId.CancelSm;
              CommandId.ReplaceSm; CommandId.CancelBroadcastSm] →
            replies (writer env) (response_pdu (CommandId.as_u32 c) seq)
              (respond env label (status_response (CommandId.as_u32 c) seq status) : M unit)).
  { intros c' label status Hc'. by apply respond_replies, bodyless_response. }
  unfold handle_message, handle_other_command. rewrite Hc. fold seq. cbv zeta.
  assert (Hin : ∀ (c : CommandId.t) (l : list CommandId.t), bool_decide (c ∈ l) = true → c ∈ l) by (intros c0 l; apply bool_decide_eq_true_1).
  destruct c; try (vm_compute in Hreq; discriminate Hreq); clear Hreq; cbn [unanswered];
    cbv beta iota;
    lazymatch goal with
    | |- replies _ (λ b, b = []) _ => apply unanswered_replies; [reflexivity|exact Hw]
    | |- context [handle_bind] =>
        apply bind_replies; [|exact Hw]; intros status; apply bind_response_value; [by apply Hin|exact Hseq]
    | |- context [handle_data_submit_sm] => apply submit_replies; [by apply Hin|exact Hseq|exact Hw|exact Hj]
    | |- context [handle_submit_multi] => apply submit_multi_replies; [exact Hc|exact Hw|exact Hseq]
    | |- context [storage_result] => idtac
    | |- context [handle_unbind] => idtac
    | |- context [query_response] => idtac
    | |- _ => apply Hstatus; by apply Hin
    end.
  - eapply replies_then; [apply (Hstatus CommandId.Unbind); by apply Hin|]. intros [] st. by eexists _, tt.
  - apply respond_replies; [exact Hw|]. by apply query_response_value.
  - eapply (replies_bind _ _ (λ _, True)); [|intros b _; apply Hstatus; by apply Hin].
    eapply forwards_bind; [apply forwards_attempt, forwards_on_storage|]. intros r _.
    by apply forwards_ret.
  - eapply (replies_bind _ _ (λ _, True)); [|intros b _; apply Hstatus; by apply Hin].
    eapply forwards_bind; [apply forwards_attempt, forwards_on_storage|]. intros r _.
    by apply forwards_ret.
Qed.

End props.
