(* ===== verification/ServerSteps.v ===== *)
(** * The SMSC server: steps, routing and submission

    Every handler and task as a sequence of steps of the shared state, with the invariants
    that follow for every interleaving; which client a message reaches; what the
    store-and-forward mode refuses; the answers that are encoded without a body. *)
From S2P Require Export ServerProps.

Section steps.
Context {S : Type} `{St : MessageStorage S, B64 : Base64, Tlv : TlvOrder, Chr : Chrono, Reg : Regex,
  Gen : MessageIdGenerator, Ord : ClientOrder}.

Abbreviation M := (StateM (world S)).

(** ** Steps *)

(** One change of the shared state made on behalf of the connection of [peer]. *)
Inductive world_step (peer : string) : world S → world S → Prop :=
| step_sent w b st : world_step peer st (push_sent w b st)
| step_sequence st : world_step peer st (next_sequence_number st).2
| step_id prefix st : world_step peer st (generate_id prefix st).2
| step_storage {A} (f : S → ioresult A * S) st : world_step peer st (on_storage f st).2
| step_spawn t st : world_step peer st (spawn t st).2
| step_close env st : world_step peer st (close env st).2
| step_response n v st : world_step peer st (response_received n v st).2
| step_add range w st :
    world_step peer st (set_clients (ClientManager.add_client peer range w (clients st)) st).

Abbreviation steps peer := (rtc (world_step peer)).

Definition stepping (peer : string) {A} (m : M A) : Prop := ∀ st, steps peer st (m st).2.

Section rules.
Context (peer : string).

Lemma stepping_once {A} (m : M A) : (∀ st, world_step peer st (m st).2) → stepping peer m.
Proof. intros Hm st. by apply rtc_once. Qed.

Lemma stepping_pure {A} (m : M A) : (∀ st, (m st).2 = st) → stepping peer m.
Proof. intros Hm st. by rewrite Hm. Qed.

Lemma stepping_bind {A B} (m : M A) (f : A → M B) :
  stepping peer m → (∀ a, stepping peer (f a)) → stepping peer (m ≫= f).
Proof.
  intros Hm Hf st. unfold mbind, StateM_bind. specialize (Hm st).
  destruct (m st) as [[a|e|] st1]; simpl in *; [|done|done].
  etrans; [exact Hm|]. apply Hf.
Qed.

Lemma stepping_ret {A} (a : A) : stepping peer (mret a : M A).
Proof. by apply stepping_pure. Qed.

Lemma stepping_lift {A} (r : ioresult A) : stepping peer (lift r : M A).
Proof. by apply stepping_pure. Qed.

Lemma stepping_fails {A} e : stepping peer (fails e : M A).
Proof. by apply stepping_pure. Qed.

Lemma stepping_panics {A} : stepping peer (panics : M A).
Proof. by apply stepping_pure. Qed.

Lemma stepping_fmap {A B} (f : A → B) (m : M A) : stepping peer m → stepping peer (f <$> m).
Proof. intros Hm. apply stepping_bind; [done|]. intros a. apply stepping_ret. Qed.

Lemma stepping_attempt {A} (m : M A) : stepping peer m → stepping peer (attempt m).
Proof. intros Hm st. specialize (Hm st). unfold attempt. by destruct (m st) as [[]]. Qed.

Lemma stepping_relabel {A} label (m : M A) : stepping peer m → stepping peer (relabel label m).
Proof. intros Hm st. specialize (Hm st). unfold relabel. by destruct (m st). Qed.

Lemma stepping_next : stepping peer (next_sequence_number : M N).
Proof. apply stepping_once. intros st. apply step_sequence. Qed.

Lemma stepping_id prefix : stepping peer (generate_id prefix : M string).
Proof. apply stepping_once. intros st. apply step_id. Qed.

Lemma stepping_storage {A} (f : S → ioresult A * S) : stepping peer (on_storage f : M A).
Proof. apply stepping_once. intros st. apply step_storage. Qed.

Lemma stepping_spawn t : stepping peer (spawn t : M unit).
Proof. apply stepping_once. intros st. apply step_spawn. Qed.

Lemma stepping_close env : stepping peer (close env : M unit).
Proof. apply stepping_once. intros st. apply step_close. Qed.

Lemma stepping_response n v : stepping peer (response_received n v : M unit).
Proof. apply stepping_once. intros st. apply step_response. Qed.

Lemma stepping_write env w b : stepping peer (write_to env w b : M unit).
Proof.
  intros st. unfold write_to. destruct (write_ok env w); [|done]. apply rtc_once, step_sent.
Qed.

Lemma stepping_try env ws b : stepping peer (try_writers env ws b : M unit).
Proof.
  induction ws as [|w ws IH]; [apply stepping_fails|]. intros st. cbn [try_writers].
  destruct (write_ok env w); [|apply IH]. apply rtc_once, step_sent.
Qed.

Lemma stepping_client_send env a b : stepping peer (client_send_message env a b : M unit).
Proof.
  intros st. unfold client_send_message. destruct (ClientManager.get_writer _ _ _); [done|].
  apply stepping_try.
Qed.
End rules.

End steps.

Create HintDb steps discriminated.
#[export] Hint Resolve stepping_ret stepping_lift stepping_fails stepping_panics
  stepping_next stepping_id stepping_storage stepping_spawn stepping_close stepping_response
  stepping_write stepping_client_send : steps.

(** Down the structure of a handler, its case distinctions included. *)
Ltac stepping :=
  repeat first
    [ solve [auto with steps]
    | progress cbv zeta beta
    | lazymatch goal with
      | |- stepping _ (_ ≫= _) => apply stepping_bind; [|intros ?]
      | |- stepping _ (_ <$> _) => apply stepping_fmap
      | |- stepping _ (attempt _) => apply stepping_attempt
      | |- stepping _ (relabel _ _) => apply stepping_relabel
      | |- stepping _ (match ?x with _ => _ end) => destruct x
      end ].

Section handlers.
Context {S : Type} `{St : MessageStorage S, B64 : Base64, Tlv : TlvOrder, Chr : Chrono, Reg : Regex,
  Gen : MessageIdGenerator, Ord : ClientOrder}.

Abbreviation M := (StateM (world S)).
Abbreviation steps peer := (rtc (world_step (S := S) peer)).

Lemma stepping_send peer env b : stepping peer (send env b : M unit).
Proof. unfold send. stepping. Qed.

Lemma stepping_respond peer env label v : stepping peer (respond env label v : M unit).
Proof. unfold respond, send. stepping. Qed.

Lemma stepping_forward peer env v : stepping peer (forward_message_to_client env v : M unit).
Proof. unfold forward_message_to_client. stepping. Qed.

Hint Resolve stepping_send stepping_respond stepping_forward : steps.

Lemma stepping_datagram peer id seq mid v :
  stepping peer (send_message_in_datagram_mode id seq mid v : M (Value + Value)).
Proof. unfold send_message_in_datagram_mode. stepping. Qed.

Lemma stepping_transaction peer env id seq mid v :
  stepping peer (send_message_in_transaction_mode env id seq mid v : M (Value + Value)).
Proof. unfold send_message_in_transaction_mode. stepping. Qed.

Lemma stepping_store peer env id seq mid v :
  stepping peer (store_and_forward_message env id seq mid v : M (Value + Value)).
Proof. unfold store_and_forward_message. stepping. Qed.

Lemma stepping_local peer env id seq v :
  stepping peer (process_local_data_submit_message env id seq v : M bytes).
Proof. unfold process_local_data_submit_message. stepping. Qed.

Hint Resolve stepping_datagram stepping_transaction stepping_store stepping_local : steps.

Lemma stepping_submit peer env id seq v : stepping peer (handle_data_submit_sm env id seq v : M unit).
Proof. unfold handle_data_submit_sm. stepping. Qed.

Lemma stepping_submit_each peer (submit : Address → M bool) dests :
  (∀ d, stepping peer (submit d)) → stepping peer (submit_each submit dests).
Proof. intros Hs. induction dests as [|d ds IH]; cbn [submit_each]; stepping; apply Hs. Qed.

Lemma stepping_submit_multi peer env id seq v :
  stepping peer (handle_submit_multi env id seq v : M unit).
Proof.
  unfold handle_submit_multi, send_unwrap. stepping.
  apply stepping_submit_each. intros d. unfold submit_one. stepping.
Qed.

Lemma stepping_bind_handler peer env id seq v : stepping peer (handle_bind env id seq v : M unit).
Proof. unfold handle_bind. stepping. Qed.

Hint Resolve stepping_submit stepping_submit_multi stepping_bind_handler : steps.

(** A handler changes the shared state by steps of its own connection only. *)
Lemma handle_message_steps env j : stepping (peer_address env) (handle_message env j : M unit).
Proof.
  assert (Hadd : stepping (peer_address env)
    (modify (λ st, set_clients (ClientManager.add_client (peer_address env)
       (str_field j "address_range") (writer env) (clients st)) st) : M unit)).
  { apply stepping_once. intros st. apply step_add. }
  unfold handle_message, handle_other_command, handle_unbind, handle_enquire_link, storage_result.
  destruct (extract_command_id j) as [c|]; [|auto with steps].
  cbv zeta. generalize (cast_u32 (u64_field j "sequence_number")). intros seq.
  destruct c; cbv beta iota; stepping; exact Hadd.
Qed.

Lemma run_task_steps peer env t : stepping peer (run_task env t : M unit).
Proof. destruct t; unfold run_task, enquire_link_tick; stepping. Qed.

Lemma drain_steps env fuel buffer st r st' :
  drain env fuel buffer st = Some (r, st') → steps (peer_address env) st st'.
Proof.
  revert buffer st. induction fuel as [|fuel IH]; intros buffer st Hd; [discriminate|].
  cbn [drain] in Hd. destruct (SmppMessageBuffer.extract_message buffer) as [[m|] b1]; [|by simplify_eq].
  destruct (to_json m) as [j|e|]; [|by apply IH in Hd|by simplify_eq].
  pose proof (handle_message_steps env j st) as Hs.
  destruct (handle_message env j st) as [[[]|e|] st1]; cbn [snd] in Hs; [|by simplify_eq..].
  etrans; [exact Hs|]. by apply IH in Hd.
Qed.

(** ** Clients *)

(** A step leaves the registrations of the other peers alone and never replaces one:
    the address range of the first bind of a connection is the one that counts. *)
Lemma world_step_clients peer (st st' : world S) :
  world_step peer st st' →
  clients st' = clients st ∨
  clients st !! peer = None ∧ ∃ x, clients st' = <[peer := x]> (clients st).
Proof.
  intros Hs. destruct Hs; try (by left).
  - left. unfold generate_id. by destruct (generate _ _).
  - left. unfold on_storage. by destruct (f _).
  - cbn. unfold ClientManager.add_client.
    destruct (is_empty_str range); [by left|]. destruct (re_valid _); [|by left].
    destruct (clients st !! peer) eqn:E; [by left|]. right. split; [done|]. by eexists.
Qed.

Lemma steps_clients peer (st st' : world S) p :
  steps peer st st' →
  (p ≠ peer → clients st' !! p = clients st !! p) ∧
  (∀ x, clients st !! p = Some x → clients st' !! p = Some x).
Proof.
  intros Hs. induction Hs as [st|st st1 st2 Hs _ [IH1 IH2]]; [done|].
  apply world_step_clients in Hs as [E|[Hn [x E]]].
  - by rewrite E in IH1, IH2.
  - split.
    + intros Hp. rewrite IH1, E by done. by apply lookup_insert_ne.
    + intros y Hy. apply IH2. rewrite E, lookup_insert_ne; [done|]. congruence.
Qed.

(** C27: a connection registers and removes itself only: when its read loop ends, after
    any reads and any requests in them, the table of clients is the one it started from
    without its own entry. *)
Theorem run_clients peer reads last buffer (st st' : world S) :
  Forall (λ e, peer_address e.1 = peer) reads → peer_address last = peer →
  run reads last buffer st = Some (Ok tt, st') →
  clients st' = delete peer (clients st).
Proof.
  intros Hreads Hlast Hrun.
  assert (∃ st1, steps peer st st1 ∧ st' = remove_client last st1) as (st1 & Hs & ->).
  { revert buffer st Hrun. induction Hreads as [|[env chunk] reads He _ IH]; intros buffer st Hrun.
    - simpl in Hrun. simplify_eq. by exists st.
    - cbn [run fst] in Hrun, He. destruct (drain env _ _ st) as [[r st1]|] eqn:Ed; [|discriminate].
      cbn in Hrun. destruct r as [b|e|]; [|discriminate..].
      apply drain_steps in Ed. rewrite He in Ed.
      destruct (IH _ _ Hrun) as (st2 & Hs & ->). exists st2. split; [by etrans|done]. }
  unfold remove_client, ClientManager.remove_client. cbn. rewrite Hlast.
  apply map_eq. intros p. destruct (decide (p = peer)) as [->|Hp].
  - by rewrite !lookup_delete_eq.
  - rewrite !lookup_delete_ne by done. by apply (steps_clients peer st st1 p).
Qed.

(** C35: a bind that fails to authenticate is refused in the response, and still registers
    the connection for the address range it asked for: from then on the messages for that
    range go to it. *)
Theorem failed_bind_registers env j c range b (st : world S) :
  extract_command_id j = Some c →
  c ∈ [CommandId.BindTransmitter; CommandId.BindReceiver; CommandId.BindTransceiver] →
  authenticate env (str_field j "system_id") (str_field j "password") = false →
  get_str j "address_range" = Some range → range ≠ "" →
  re_valid (ClientManager.range_regex range) = true →
  write_ok env (writer env) = true → clients st !! peer_address env = None →
  encode_or_empty (bind_response env (CommandId.as_u32 c) (cast_u32 (u64_field j "sequence_number"))
    (CommandStatus.as_u32 CommandStatus.EsmeRBindFail) (str_field j "system_id")) = Ok b →
  handle_message env j st
  = (Ok tt, set_clients
       (<[peer_address env := (ClientManager.range_regex range, writer env)]> (clients st))
       (push_sent (writer env) b st)).
Proof.
  intros Hc Hin Hauth Hrange Hne Hre Hw Hnone Hb.
  assert (Hbind : handle_bind env (CommandId.as_u32 c) (cast_u32 (u64_field j "sequence_number")) j st
                  = (Ok tt, push_sent (writer env) b st)).
  { unfold handle_bind. rewrite Hauth, Hb. cbn. unfold mbind, StateM_bind, relabel, send, write_to.
    cbn. by rewrite Hw. }
  assert (Hadd : ClientManager.add_client (peer_address env) (str_field j "address_range")
                   (writer env) (clients st)
                 = <[peer_address env := (ClientManager.range_regex range, writer env)]> (clients st)).
  { assert (str_field j "address_range" = range) as -> by (unfold str_field; by rewrite Hrange).
    unfold ClientManager.add_client.
    cbv zeta. rewrite Hre, Hnone. by destruct range. }
  unfold handle_message, handle_other_command. rewrite Hc. cbv zeta.
  rewrite !elem_of_cons, elem_of_nil in Hin. destruct Hin as [-> | [-> | [-> | [] ] ] ]; cbv beta iota;
    unfold mbind, StateM_bind, attempt; rewrite Hbind; unfold modify;
    cbn [clients push_sent]; by rewrite Hadd.
Qed.

(** ** Routing *)

Lemma try_writers_spec env ws b (st : world S) :
  try_writers env ws b st
  = match find (write_ok env) ws with
    | Some w => (Ok tt, push_sent w b st)
    | None => (io_err Other "Failed to send message to client", st)
    end.
Proof. induction ws as [|w ws IH]; [done|]. simpl. by destruct (write_ok env w). Qed.

Lemma elem_of_get_writer w address (c : ClientManager.t) :
  w ∈ ClientManager.get_writer client_iter address c
  ↔ ∃ peer regex, c !! peer = Some (regex, w) ∧ re_match regex address = true.
Proof.
  unfold ClientManager.get_writer. rewrite list_elem_of_omap. split.
  - intros ([peer [regex w']] & Hin & Hw). rewrite client_iter_perm, elem_of_map_to_list in Hin.
    exists peer, regex. destruct (re_match regex address); [by simplify_eq|done].
  - intros (peer & regex & Hin & Hm). exists (peer, (regex, w)).
    rewrite client_iter_perm, elem_of_map_to_list. by rewrite Hm.
Qed.

(** C26: a message goes to at most one client: one registered with a range that matches the
    address and whose socket accepts the write; it fails only when there is none. *)
Theorem routing env address b (st : world S) :
  match client_send_message env address b st with
  | (Ok _, st') => ∃ peer regex w, clients st !! peer = Some (regex, w) ∧
      re_match regex address = true ∧ write_ok env w = true ∧ st' = push_sent w b st
  | (Err e, st') => st' = st ∧
      (∀ peer regex w, clients st !! peer = Some (regex, w) → re_match regex address = true →
         write_ok env w = false) ∧
      (err_kind e = NotFound ↔ ∀ peer regex w, clients st !! peer = Some (regex, w) →
         re_match regex address = false)
  | (Panic, _) => False
  end.
Proof.
  unfold client_send_message.
  pose proof (λ w, elem_of_get_writer w address (clients st)) as Hw.
  destruct (ClientManager.get_writer client_iter address (clients st)) as [|w0 ws] eqn:Ews.
  - assert (Hno : ∀ peer regex w, clients st !! peer = Some (regex, w) → re_match regex address = false).
    { intros peer regex w Hc. apply not_true_iff_false. intros Hm.
      apply (not_elem_of_nil w), Hw. by exists peer, regex. }
    split_and!; [done| |done]. intros peer regex w Hc Hm. by rewrite (Hno _ _ _ Hc) in Hm.
  - rewrite try_writers_spec. destruct (find (write_ok env) (w0 :: ws)) as [w|] eqn:Ef.
    + apply find_some in Ef as [Hin Hok]. apply list_elem_of_In in Hin.
      apply Hw in Hin as (peer & regex & Hc & Hm). by exists peer, regex, w.
    + split_and!; [done| |].
      * intros peer regex w Hc Hm. apply (find_none _ _ Ef). apply list_elem_of_In, Hw.
        by exists peer, regex.
      * split; [discriminate|]. intros Hno.
        destruct (proj1 (Hw w0)) as (peer & regex & Hc & Hm); [apply elem_of_cons; by left|].
        by rewrite (Hno _ _ _ Hc) in Hm.
Qed.

(** ** Scheduled delivery *)

Lemma tlv_names_not_short_message tag t :
  TAGGED_TLV_FIELDS !! tag = Some t → TLVFieldCodec.name t ≠ "short_message".
Proof.
  assert (Hb : forallb (λ e, bool_decide (TLVFieldCodec.name e.2 ≠ "short_message"))
                (map_to_list TAGGED_TLV_FIELDS) = true) by (vm_compute; reflexivity).
  intros Ht. rewrite <-elem_of_map_to_list, list_elem_of_In in Ht.
  rewrite forallb_forall in Hb. specialize (Hb _ Ht). by apply bool_decide_eq_true in Hb.
Qed.

Lemma data_sm_no_short_message m j :
  to_json m = Ok j → extract_command_id j = Some CommandId.DataSm →
  has_command_id j ∧ get j "short_message" = None.
Proof.
  intros (id & status & seq & fields & buf & m1 & b1 & m2 & b2 & _ & _ & _ & Hid & Ef & Ed & Et & -> & Hkeep)%to_json_inv.
  assert (Hcid : jget "command_id" m2 = Some (JString (hex_id id)))
    by (rewrite Hkeep by set_solver; done).
  rewrite (hex_id_roundtrip (JObject m2) id Hid Hcid). intros Hc.
  apply CommandId.command_id_as_from_u32 in Hc as <-. split; [exists m2; by rewrite Hcid|].
  cbn [get]. rewrite (decode_tlvs_other _ _ _ _ _ _ tlv_names_not_short_message Et).
  rewrite (decode_fields_other _ _ "short_message" _ _ _) by
    (try exact Ed; revert fields Ef Ed;
     assert (Hb : match MESSAGE_COMMAND_FIELDS !! CommandId.as_u32 CommandId.DataSm with
                  | Some fs => forallb (λ f, bool_decide (f.1 ≠ "short_message")) fs
                  | None => false end = true) by (vm_compute; reflexivity);
     intros fields Ef _; rewrite Ef in Hb; rewrite forallb_forall in Hb; apply Forall_forall;
     intros f Hf; apply list_elem_of_In in Hf; specialize (Hb _ Hf); by apply bool_decide_eq_true in Hb).
  done.
Qed.

Lemma deliver_sm_requires_short_message : ∃ fields,
  MESSAGE_COMMAND_FIELDS !! CommandId.as_u32 CommandId.DeliverSm = Some fields ∧
  ("short_message", None) ∈ fields.
Proof.
  assert (Hb : match MESSAGE_COMMAND_FIELDS !! CommandId.as_u32 CommandId.DeliverSm with
               | Some fs => bool_decide (("short_message", None) ∈ fs) | None => false end = true)
    by (vm_compute; reflexivity).
  destruct (MESSAGE_COMMAND_FIELDS !! _) as [fs|]; [|discriminate].
  exists fs. split; [done|]. by apply bool_decide_eq_true in Hb.
Qed.

(** The scheduled delivery of a data_sm panics: a data_sm has no short_message, the
    deliver_sm it is turned into requires one, and the failure is unwrapped. Whatever data_sm
    a peer sent, delivering it brings the caller down. *)
Theorem data_sm_delivery_panics env m j (st : world S) :
  to_json m = Ok j → extract_command_id j = Some CommandId.DataSm →
  is_Some (get_str j "destination_addr") →
  (handle_schedule_delivery_message env j st).1 = Panic.
Proof.
  intros Hm Hc [addr Haddr]. destruct (data_sm_no_short_message _ _ Hm Hc) as [Hid Hsm].
  unfold handle_schedule_delivery_message. rewrite Hc.
  unfold mbind, StateM_bind, next_sequence_number. cbn [SequenceNumberAllocator.next].
  set (n := next_sequence st). set (st1 := mkWorld _ _ _ _ _ _ _ _). clearbody n st1.
  assert (Hp : forward_message_to_client env (as_deliver_sm n j) st1 = (Panic, st1)).
  { destruct Hid as (jm & -> & x & Hx).
    assert (Hother : ∀ k, k ≠ "command_id" → k ≠ "sequence_number" →
              get (as_deliver_sm n (JObject jm)) k = get (JObject jm) k).
    { intros k H1 H2. unfold as_deliver_sm. simpl. rewrite Hx.
      rewrite get_set_if_present, decide_False by done. by rewrite jget_insert_ne. }
    unfold forward_message_to_client. unfold get_str in Haddr |- *.
    rewrite Hother by done. rewrite Haddr.
    destruct (from_json (as_deliver_sm n (JObject jm))) as [pdu|e|] eqn:Ef; [exfalso|done..].
    destruct deliver_sm_requires_short_message as (fields & Efs & Hin).
    assert (Hd : extract_command_id (as_deliver_sm n (JObject jm)) = Some CommandId.DeliverSm).
    { apply extract_as_deliver. by exists jm. }
    destruct (from_json_mandatory _ _ _ _ _ Ef Hd Efs Hin) as [y Hy].
    rewrite Hother in Hy by done. congruence. }
  unfold attempt. by rewrite Hp.
Qed.

(** ** Answers without a body *)

Definition bodyless (c : CommandId.t) : bool :=
  match c with
  | CommandId.EnquireLink | CommandId.Unbind | CommandId.CancelSm | CommandId.ReplaceSm
  | CommandId.CancelBroadcastSm => true
  | _ => false
  end.

Lemma bodyless_fields c : bodyless c = true → ∃ cmd,
  CommandId.from_u32 (N.lor 0x80000000 (CommandId.as_u32 c)) = Some cmd ∧
  MESSAGE_COMMAND_FIELDS !! CommandId.as_u32 cmd = Some [].
Proof. destruct c; try discriminate; intros _; eexists; split; vm_compute; reflexivity. Qed.

Lemma status_response_bytes c seq status :
  bodyless c = true → (seq < 2 ^ 32)%N →
  encode_or_empty (status_response (CommandId.as_u32 c) seq status)
  = Ok (be_bytes 4 16 ++ be_bytes 4 (N.lor 0x80000000 (CommandId.as_u32 c))
        ++ be_bytes 4 (CommandStatus.as_u32 status) ++ be_bytes 4 seq).
Proof.
  intros Hc Hseq. destruct (bodyless_fields c Hc) as (cmd & Hcmd & Hf).
  set (id := N.lor 0x80000000 (CommandId.as_u32 c)) in *.
  pose proof (status_response_get (CommandId.as_u32 c) seq status) as Hget. fold id in Hget.
  assert (Hid : (id < 2 ^ 32)%N) by (apply lor_bound; [done|apply CommandId.as_u32_bound]).
  unfold encode_or_empty.
  rewrite (from_json_bare _ cmd (CommandStatus.as_u32 status) seq).
  - by rewrite (CommandId.command_id_as_from_u32 _ _ Hcmd).
  - rewrite <-Hcmd. apply hex_id_roundtrip; [done|]. by rewrite Hget.
  - exact Hf.
  - unfold header_number. rewrite Hget. cbn [decide]. by destruct status.
  - transitivity (Some (cast_u32 seq)); [|unfold cast_u32; by rewrite N.mod_small].
    unfold header_number. by rewrite Hget.
  - intros name Hn. rewrite Hget. rewrite !decide_False; [done|..]; intros ->; apply Hn; set_solver.
Qed.

(** The commands the server does not implement are answered with nothing: the response
    it builds lacks a mandatory field, its encoding fails, and the empty buffer is what is
    written. The commands whose response takes no field are answered with its header: the
    id with bit 31, the status and the sequence number of the request. *)
Theorem status_answers env j c (st : world S) :
  extract_command_id j = Some c → write_ok env (writer env) = true →
  (c ∈ [CommandId.BroadcastSm; CommandId.QueryBroadcastSm] →
   handle_message env j st = (Ok tt, push_sent (writer env) [] st)) ∧
  (c ∈ [CommandId.EnquireLink; CommandId.CancelBroadcastSm] →
   handle_message env j st = (Ok tt, push_sent (writer env)
     (be_bytes 4 16 ++ be_bytes 4 (N.lor 0x80000000 (CommandId.as_u32 c))
      ++ be_bytes 4 (CommandStatus.as_u32 (if decide (c = CommandId.EnquireLink)
           then CommandStatus.EsmeRok else CommandStatus.EsmeRBcastCancelFail))
      ++ be_bytes 4 (cast_u32 (u64_field j "sequence_number"))) st)).
Proof.
  intros Hc Hw. set (seq := cast_u32 _).
  assert (Hseq : (seq < 2 ^ 32)%N) by (by apply N.mod_lt).
  assert (Hresp : ∀ label v b, encode_or_empty v = Ok b →
    respond env label v st = (Ok tt, push_sent (writer env) b st)).
  { intros label v b Hv. unfold respond, mbind, StateM_bind, lift. rewrite Hv.
    unfold relabel, send, write_to. by rewrite Hw. }
  unfold handle_message, handle_other_command. rewrite Hc. fold seq. cbv zeta.
  split; rewrite !elem_of_cons, elem_of_nil; intros [-> | [-> | [] ] ]; cbv beta iota;
    unfold handle_enquire_link; apply Hresp.
  - by apply unanswered_response.
  - by apply unanswered_response.
  - by apply status_response_bytes.
  - by apply status_response_bytes.
Qed.

(** ** Store and forward *)

(** The times of a message agree with the clock and with each other. *)
Definition in_order (now : Z) (schedule validity : option Z) : Prop :=
  (∀ s, schedule = Some s → (now ≤ s)%Z) ∧ (∀ v, validity = Some v → (now ≤ v)%Z) ∧
  (∀ s v, schedule = Some s → validity = Some v → (s ≤ v)%Z).

(** C19: in store-and-forward mode a message is accepted exactly when its times are in
    order and the storage takes it, and it is then in the storage; otherwise it is refused,
    with the status of the first test that fails, and refused for its times it never
    reaches the storage. *)
Theorem store_and_forward_spec env id seq mid v (st : world S) schedule validity :
  ok_option (E := string) (get_schedule_delivery_time (now env) v) = (Ok schedule : ioresult _) →
  ok_option (E := string) (get_validity_period (now env) v
    (ServerConfig.get_default_validity_period (config env))) = (Ok validity : ioresult _) →
  match store_and_forward_message env id seq mid v st with
  | (Ok (inl response), st') => in_order (now env) schedule validity ∧
      st_save (now env) mid v (storage st) = (Ok tt, storage st') ∧
      response = message_id_response id seq CommandStatus.EsmeRok mid
  | (Ok (inr response), st') => ∃ status reason,
      response = message_id_response id seq status reason ∧
      ((¬ in_order (now env) schedule validity ∧ st' = st ∧
        status = if match schedule with Some t => (t <? now env)%Z | None => false end
                 then CommandStatus.EsmeRInvSched
                 else if match validity with Some t => (t <? now env)%Z | None => false end
                 then CommandStatus.EsmeRInvExpiry else CommandStatus.EsmeRInvSched) ∨
       (in_order (now env) schedule validity ∧ status = CommandStatus.EsmeRUnknownErr ∧
        ∃ e, st_save (now env) mid v (storage st) = (Err e, storage st')))
  | (Err _, _) => False
  | (Panic, st') => st_save (now env) mid v (storage st) = (Panic, storage st')
  end.
Proof.
  intros Hs Hv. unfold store_and_forward_message, lift, mbind, StateM_bind. rewrite Hs, Hv.
  destruct (match schedule with Some t => (t <? now env)%Z | None => false end) eqn:E1; cbn.
  { eexists _, _. split; [done|]. left. split_and!; [|done..]. intros (H1 & _).
    destruct schedule as [s|]; [|done]. specialize (H1 s eq_refl). lia. }
  destruct (match validity with Some t => (t <? now env)%Z | None => false end) eqn:E2; cbn.
  { eexists _, _. split; [done|]. left. split_and!; [|done..]. intros (_ & H2 & _).
    destruct validity as [t|]; [|done]. specialize (H2 t eq_refl). lia. }
  destruct (match schedule, validity with Some s, Some v => (v <? s)%Z | _, _ => false end) eqn:E3; cbn.
  { eexists _, _. split; [done|]. left. split_and!; [|done..]. intros (_ & _ & H3).
    destruct schedule as [s|], validity as [t|]; try done. specialize (H3 s t eq_refl eq_refl). lia. }
  assert (Ho : in_order (now env) schedule validity).
  { split_and!.
    - intros s ->. lia.
    - intros t ->. lia.
    - intros s t -> ->. lia. }
  unfold attempt, on_storage. destruct (st_save (now env) mid v (storage st)) as [[[]|e|] s']; cbn.
  - by split_and!.
  - eexists _, _. split; [done|]. right. split_and!; [done..|]. by exists e.
  - done.
Qed.

End handlers.
