(* ===== verification/ServerAsync.v ===== *)
(** * The handlers of the server as resumptions

    In transaction mode the handler of a connection waits for the response of another
    connection (src/smsc_server/smsc_server.rs, [send_message_in_transaction_mode]). The
    handlers of Server.v take what is waited for as an input of one uninterrupted
    computation. Here a handler is the [async] function it is in the source: it runs to its
    next wait and goes on, with the answer, from whatever the shared state is by then. Giving
    the answers at once makes it the handler of Server.v again ([handle_message_runs]). *)
From S2P Require Export ServerSteps.

(** ** Resumptions *)

Section resumption.
Context {S : Type}.

(** What an [async] function is at an [await]: it has ended, or it waits for the response with
    a number. *)
Inductive resumption (A : Type) : Type :=
| Ended (r : ioresult A) (st : world S)
| Waits (n : N) (st : world S) (k : option Value → world S → resumption A).
Arguments Ended {A}. Arguments Waits {A}.

Definition Async (A : Type) : Type := world S → resumption A.

Fixpoint then_do {A B} (m : resumption A) (f : A → Async B) : resumption B :=
  match m with
  | Ended (Ok a) st => f a st
  | Ended (Err e) st => Ended (Err e) st
  | Ended Panic st => Ended Panic st
  | Waits n st k => Waits n st (λ v st', then_do (k v st') f)
  end.

#[export] Instance Async_ret : MRet Async := λ A a st, Ended (Ok a) st.
#[export] Instance Async_bind : MBind Async := λ A B f m st, then_do (m st) f.
#[export] Instance Async_fmap : FMap Async := λ A B f m, m ≫= λ a, mret (f a).

(** A computation without a wait. *)
Definition atomic {A} (m : StateM (world S) A) : Async A := λ st, let '(r, st') := m st in Ended r st'.

Definition wait_for (n : N) : Async (option Value) := λ st, Waits n st (λ v st', Ended (Ok v) st').

(** The whole of it, every answer being there at once. *)
Fixpoint answered_by {A} (answer : N → option Value) (m : resumption A) : ioresult A * world S :=
  match m with
  | Ended r st => (r, st)
  | Waits n st k => answered_by answer (k (answer n) st)
  end.

Definition at_once {A} (answer : N → option Value) (m : Async A) : StateM (world S) A :=
  λ st, answered_by answer (m st).

Lemma at_once_atomic {A} answer (m : StateM (world S) A) st : at_once answer (atomic m) st = m st.
Proof. unfold at_once, atomic. by destruct (m st). Qed.

Lemma at_once_bind {A B} answer (m : Async A) (f : A → Async B) (m' : StateM (world S) A)
    (f' : A → StateM (world S) B) st :
  (∀ st, at_once answer m st = m' st) → (∀ a st, at_once answer (f a) st = f' a st) →
  at_once answer (m ≫= f) st = (m' ≫= f') st.
Proof.
  intros Hm Hf. unfold at_once, mbind, Async_bind, StateM_bind in *. rewrite <-Hm.
  induction (m st) as [[a|e|] st'|n st' k IH]; cbn; [apply Hf|done|done|apply IH].
Qed.

Lemma at_once_fmap {A B} answer (g : A → B) (m : Async A) (m' : StateM (world S) A) st :
  (∀ st, at_once answer m st = m' st) → at_once answer (g <$> m) st = (g <$> m') st.
Proof. intros Hm. apply at_once_bind; [done|]. by intros a st'. Qed.

End resumption.
Arguments resumption : clear implicits.
Arguments Async : clear implicits.
Arguments Ended {S A}. Arguments Waits {S A}.

(** ** The handlers *)

Section handlers.
Context {S : Type} `{St : MessageStorage S, B64 : Base64, Tlv : TlvOrder, Chr : Chrono, Reg : Regex,
  Gen : MessageIdGenerator, Ord : ClientOrder}.

Abbreviation A := (Async S).

Definition transaction_mode (env : Env) (command_id sequence_number : N) (message_id : string)
    (decoded_message : Value) : A (Value + Value) :=
  new_sequence_number ← atomic next_sequence_number;
  r ← atomic (attempt (forward_message_to_client env (as_deliver_sm new_sequence_number decoded_message)));
  match r with
  | Ok _ =>
      response ← wait_for new_sequence_number;
      mret (transaction_answer command_id sequence_number message_id response)
  | _ =>
      mret (inr (message_id_response command_id sequence_number CommandStatus.EsmeRUnknownErr
                   message_id))
  end.

Definition data_submit_sm (env : Env) (command_id sequence_number : N) (decoded_message : Value) :
    A unit :=
  message_id ← atomic (generate_id "msg-");
  let '(r, decoded_message) := replace_sm_default_msg_id_with_predefined_message env decoded_message in
  atomic (lift r) ≫= λ _,
  let decoded_message := set_service_type env decoded_message in
  new_sequence_number ← atomic next_sequence_number;
  let decoded_message :=
    insert_in_object decoded_message "sequence_number" (jnum new_sequence_number) in
  if is_my_request_address env (str_field decoded_message "destination_addr") then
    response ← atomic (process_local_data_submit_message env command_id sequence_number decoded_message);
    atomic (relabel failed_response (send env response))
  else
    response ←
      match get_message_mode env decoded_message with
      | MessageMode.Datagram => either <$>
          atomic (send_message_in_datagram_mode command_id sequence_number message_id decoded_message)
      | MessageMode.Transaction =>
          either <$> transaction_mode env command_id sequence_number message_id decoded_message
      | MessageMode.StoreAndForward => either <$>
          atomic (store_and_forward_message env command_id sequence_number message_id decoded_message)
      | MessageMode.Default =>
          mret (message_id_response command_id sequence_number CommandStatus.EsmeRok message_id)
      end;
    atomic (respond env failed_response response).

Definition submit_to (env : Env) (command_id sequence_number : N) (message_id : string)
    (message_mode : MessageMode.t) (decoded_message : Value) (dest_addr : Address) : A bool :=
  match message_mode with
  | MessageMode.Transaction =>
      let submit_sm := create_submit_sm_from_submit_multi decoded_message dest_addr in
      new_sequence_number ← atomic next_sequence_number;
      let submit_sm := insert_in_object submit_sm "sequence_number" (jnum new_sequence_number) in
      if is_my_request_address env (address dest_addr) then
        r ← atomic (attempt (process_local_data_submit_message env (CommandId.as_u32 CommandId.SubmitSm)
                               sequence_number submit_sm));
        mret (negb (is_ok r))
      else
        (λ r : Value + Value, match r with inl _ => false | inr _ => true end) <$>
          transaction_mode env command_id sequence_number message_id submit_sm
  | _ => atomic (submit_one env command_id sequence_number message_id message_mode decoded_message dest_addr)
  end.

Fixpoint submit_all (submit : Address → A bool) (dests : list Address) : A (list Address) :=
  match dests with
  | [] => mret []
  | d :: rest =>
      failed ← submit d;
      failures ← submit_all submit rest;
      mret (if failed : bool then d :: failures else failures)
  end.

Definition submit_multi (env : Env) (command_id sequence_number : N) (decoded_message : Value) : A unit :=
  message_id ← atomic (generate_id "msg-");
  let message_mode := get_message_mode env decoded_message in
  let '(r, decoded_message) := replace_sm_default_msg_id_with_predefined_message env decoded_message in
  atomic (lift r) ≫= λ _,
  let decoded_message := set_service_type env decoded_message in
  failed_addresses ←
    match extract_destionation_addresses decoded_message (distribution_list env) with
    | Ok dest_addresses =>
        submit_all (submit_to env command_id sequence_number message_id message_mode decoded_message)
          dest_addresses
    | _ => mret []
    end;
  encoded_response ← atomic (lift (encode_or_empty
    (submit_multi_response sequence_number message_id failed_addresses)));
  atomic (send_unwrap env encoded_response).

(** Only the submissions wait. *)
Definition handle (env : Env) (decoded_message : Value) : A unit :=
  let sequence_number := cast_u32 (u64_field decoded_message "sequence_number") in
  match extract_command_id decoded_message with
  | Some ((CommandId.SubmitSm | CommandId.DataSm) as command) =>
      data_submit_sm env (CommandId.as_u32 command) sequence_number decoded_message
  | Some CommandId.SubmitMulti =>
      submit_multi env (CommandId.as_u32 CommandId.SubmitMulti) sequence_number decoded_message
  | _ => atomic (handle_message env decoded_message)
  end.

(** *** The same handlers *)

Abbreviation runs env m m' := (∀ st, at_once (wait_response env) m st = m' st).

Lemma transaction_mode_runs env id seq mid v :
  runs env (transaction_mode env id seq mid v) (send_message_in_transaction_mode env id seq mid v).
Proof.
  intros st. apply at_once_bind; [apply at_once_atomic|]. intros n st1.
  apply at_once_bind; [apply at_once_atomic|]. by intros [|?|] st2.
Qed.

Lemma data_submit_sm_runs env id seq v :
  runs env (data_submit_sm env id seq v) (handle_data_submit_sm env id seq v).
Proof.
  intros st. apply at_once_bind; [apply at_once_atomic|]. intros mid st1.
  destruct (replace_sm_default_msg_id_with_predefined_message env v) as [r v1].
  apply at_once_bind; [apply at_once_atomic|]. intros _ st2. cbv zeta.
  apply at_once_bind; [apply at_once_atomic|]. intros n st3. cbv zeta.
  destruct (is_my_request_address env _).
  { apply at_once_bind; [apply at_once_atomic|]. intros b st4. apply at_once_atomic. }
  apply at_once_bind; [|intros resp st4; apply at_once_atomic].
  intros st4. destruct (get_message_mode env _); [done|..];
    apply at_once_fmap; [apply at_once_atomic|apply transaction_mode_runs|apply at_once_atomic].
Qed.

Lemma submit_to_runs env id seq mid mode v d :
  runs env (submit_to env id seq mid mode v d) (submit_one env id seq mid mode v d).
Proof.
  intros st. destruct mode; try apply at_once_atomic.
  apply at_once_bind; [apply at_once_atomic|]. intros n st1. cbv zeta.
  destruct (is_my_request_address env _).
  - apply at_once_bind; [apply at_once_atomic|]. by intros r st2.
  - apply at_once_fmap, transaction_mode_runs.
Qed.

Lemma submit_all_runs env submit submit' dests :
  (∀ d, runs env (submit d) (submit' d)) →
  runs env (submit_all submit dests) (submit_each submit' dests).
Proof.
  intros Hs. induction dests as [|d ds IH]; intros st; [done|].
  apply at_once_bind; [apply Hs|]. intros failed st1. by apply at_once_bind.
Qed.

Lemma submit_multi_runs env id seq v :
  runs env (submit_multi env id seq v) (handle_submit_multi env id seq v).
Proof.
  intros st. apply at_once_bind; [apply at_once_atomic|]. intros mid st1. cbv zeta.
  destruct (replace_sm_default_msg_id_with_predefined_message env v) as [r v1].
  apply at_once_bind; [apply at_once_atomic|]. intros _ st2.
  apply at_once_bind.
  - intros st3. destruct (extract_destionation_addresses _ _); [|done..].
    apply submit_all_runs. intros d. apply submit_to_runs.
  - intros failed st3. apply at_once_bind; [apply at_once_atomic|]. intros b st4. apply at_once_atomic.
Qed.

(** A handler that is given its answers at once is the one of Server.v: the theorems on that one
    are about this one where nothing comes in between. *)
Theorem handle_message_runs env j : runs env (handle env j) (handle_message env j).
Proof.
  intros st. unfold handle. cbv zeta.
  destruct (extract_command_id j) as [c|] eqn:Ec; [|apply at_once_atomic].
  destruct c; try apply at_once_atomic; unfold handle_message; rewrite Ec; cbv zeta beta iota;
    [apply data_submit_sm_runs|apply submit_multi_runs|apply data_submit_sm_runs].
Qed.

End handlers.
