(* ===== verification/AsyncProps.v ===== *)
(** * What a handler does, whatever happens while it waits

    A program logic for the handlers of ServerAsync.v. A handler leaves a list of actions: what
    it wrote, and the answers it was given. [always m Q] says that they and the result satisfy
    [Q], from every state, with every answer, and with every change that others make to the
    shared state while it waits. *)
From S2P Require Export ServerAsync.

Inductive action : Type :=
| Wrote (p : nat * bytes)
| Answered (n : N) (answer : option Value).

Section logic.
Context {S : Type}.

Abbreviation post A := (list action → ioresult A → Prop).

(** From the state [st0] at its last start on. *)
Fixpoint ends {A} (m : resumption S A) (st0 : world S) (Q : post A) : Prop :=
  match m with
  | Ended r st => ∃ new, sent st = sent st0 ++ new ∧ Q (Wrote <$> new) r
  | Waits n st k => ∃ new, sent st = sent st0 ++ new ∧
      ∀ v st', ends (k v st') st' (λ l, Q ((Wrote <$> new) ++ Answered n v :: l))
  end.

Definition always {A} (m : Async S A) (Q : post A) : Prop := ∀ st, ends (m st) st Q.

Lemma ends_mono {A} (m : resumption S A) st0 (Q Q' : post A) :
  (∀ l r, Q l r → Q' l r) → ends m st0 Q → ends m st0 Q'.
Proof.
  revert st0 Q Q'. induction m as [r st|n st k IH]; intros st0 Q Q' HQ (new & Hs & Hq); exists new.
  - split; [done|]. by apply HQ.
  - split; [done|]. intros v st'. eapply IH; [|apply Hq]. intros l r. apply HQ.
Qed.

(** What was written before counts. *)
Lemma ends_after {A} (m : resumption S A) st0 st new (Q : post A) :
  sent st = sent st0 ++ new → ends m st (λ l, Q ((Wrote <$> new) ++ l)) → ends m st0 Q.
Proof.
  intros Hs. destruct m as [r st'|n st' k]; intros (more & Hm & Hq);
    exists (new ++ more); rewrite Hm, Hs, app_assoc; (split; [done|]).
  - by rewrite fmap_app.
  - intros v st''. eapply ends_mono; [|apply Hq]. intros l r. by rewrite fmap_app, <-app_assoc.
Qed.

Lemma always_mono {A} (m : Async S A) (Q Q' : post A) :
  (∀ l r, Q l r → Q' l r) → always m Q → always m Q'.
Proof. intros HQ Hm st. by eapply ends_mono. Qed.

Lemma ends_bind {A B} (m : Async S A) (f : A → Async S B) st (Q : post B) :
  ends (m st) st (λ l r, match r with
                         | Ok a => always (f a) (λ l', Q (l ++ l'))
                         | Err e => Q l (Err e)
                         | Panic => Q l Panic
                         end) → ends ((m ≫= f) st) st Q.
Proof.
  unfold mbind, Async_bind. generalize (m st). intros t.
  revert st Q. induction t as [r st1|n st1 k IH]; intros st0 Q (new & Hs & Hq); cbn.
  - destruct r as [a|e|]; [|by exists new..]. eapply ends_after; [exact Hs|]. apply Hq.
  - exists new. split; [done|]. intros v st'. apply IH. eapply ends_mono; [|apply Hq].
    intros l r. destruct r as [a|e|]; [|done..]. apply always_mono. intros l' r'. by rewrite <-app_assoc.
Qed.

Lemma always_bind {A B} (m : Async S A) (f : A → Async S B) (Q : post B) :
  always m (λ l r, match r with
                   | Ok a => always (f a) (λ l', Q (l ++ l'))
                   | Err e => Q l (Err e)
                   | Panic => Q l Panic
                   end) → always (m ≫= f) Q.
Proof. intros Hm st. apply ends_bind, Hm. Qed.

(** A computation that is over at once and wrote nothing. *)
Lemma ends_silent {A B} (m : StateM (world S) A) (f : A → Async S B) st a st' (Q : post B) :
  m st = (Ok a, st') → sent st' = sent st → ends (f a st') st' Q → ends ((atomic m ≫= f) st) st Q.
Proof.
  intros Hm Hs Hf. unfold mbind, Async_bind, atomic. rewrite Hm. cbn.
  apply (ends_after _ st st' []); [by rewrite app_nil_r|exact Hf].
Qed.

(** Some actions and some result there are. *)
Lemma ends_inhabited {A} (m : resumption S A) st (Q : post A) : ends m st Q → ∃ l r, Q l r.
Proof.
  revert st Q. induction m as [r st'|n st' k IH]; intros st Q (new & _ & Hq); [by eexists _, r|].
  destruct (IH None st' _ _ (Hq None st')) as (l & r & H). by eexists _, r.
Qed.

Lemma always_ret {A} (a : A) (Q : post A) : Q [] (Ok a) → always (mret a) Q.
Proof. intros HQ st. exists []. by rewrite app_nil_r. Qed.

Lemma always_fmap {A B} (g : A → B) (m : Async S A) (Q : post B) :
  always m (λ l r, Q l (g <$> r)) → always (g <$> m) Q.
Proof.
  intros Hm. apply always_bind. eapply always_mono; [|exact Hm]. intros l [a|e|] HQ; [|exact HQ..].
  apply always_ret. by rewrite app_nil_r.
Qed.

Lemma always_wait n (Q : post (option Value)) :
  (∀ v, Q [Answered n v] (Ok v)) → always (wait_for n) Q.
Proof.
  intros HQ st. exists []. rewrite app_nil_r. split; [done|]. intros v st'.
  exists []. rewrite app_nil_r. split; [done|]. apply HQ.
Qed.

Lemma always_atomic {A} (m : StateM (world S) A) (Q : post A) :
  (∀ st r st', m st = (r, st') → ∃ new, sent st' = sent st ++ new ∧ Q (Wrote <$> new) r) →
  always (atomic m) Q.
Proof.
  intros Hm st. unfold atomic. destruct (m st) as [r st'] eqn:E. by apply Hm.
Qed.

(** A computation that writes nothing. *)
Lemma always_silent {A} (m : StateM (world S) A) (Q : post A) :
  (∀ st, sent (m st).2 = sent st ∧ Q [] (m st).1) → always (atomic m) Q.
Proof.
  intros Hm. apply always_atomic. intros st r st' E. specialize (Hm st). rewrite E in Hm.
  exists []. rewrite app_nil_r. exact Hm.
Qed.

End logic.

(** ** One answer to each request *)

Section rules.
Context {S : Type} `{B64 : Base64, Tlv : TlvOrder}.

(** What a handler may do before it answers: forward messages, and wait. *)
Definition passing (a : action) : Prop :=
  match a with Wrote p => deliver_pdu p.2 | Answered _ _ => True end.

Definition passes {A} (P : A → Prop) (l : list action) (r : ioresult A) : Prop :=
  Forall passing l ∧ ∀ a, r = Ok a → P a.

Definition replied (w : nat) (R : bytes → Prop) {A} (l : list action) (r : ioresult A) : Prop :=
  ∃ before own, l = before ++ own ∧ Forall passing before ∧
    if is_ok r then ∃ b, own = [Wrote (w, b)] ∧ R b else own = [].

Lemma passing_wrote new : Forall (λ p : nat * bytes, deliver_pdu p.2) new → Forall passing (Wrote <$> new).
Proof. intros Hn. rewrite Forall_fmap. exact Hn. Qed.

Lemma forwards_passes {A} (P : A → Prop) (m : StateM (world S) A) :
  forwards P m → always (atomic m) (passes P).
Proof.
  intros Hm. apply always_atomic. intros st r st' (new & Hs & Hf & HP)%Hm.
  exists new. split; [done|]. split; [by apply passing_wrote|done].
Qed.

Lemma replies_replied {A} w R (m : StateM (world S) A) :
  replies w R m → always (atomic m) (replied w R).
Proof.
  intros Hm. apply always_atomic. intros st r st' (fwd & own & Hs & Hf & Ho)%Hm.
  exists (fwd ++ own). split; [done|]. exists (Wrote <$> fwd), (Wrote <$> own).
  split_and!; [by rewrite fmap_app|by apply passing_wrote|].
  destruct (is_ok r); [|by subst]. destruct Ho as (b & -> & HR). by exists b.
Qed.

Lemma passes_bind {A B} (P : A → Prop) (Q : B → Prop) (m : Async S A) (f : A → Async S B) :
  always m (passes P) → (∀ a, P a → always (f a) (passes Q)) → always (m ≫= f) (passes Q).
Proof.
  intros Hm Hf. apply always_bind. eapply always_mono; [|exact Hm].
  intros l [a|e|] [Hl HP]; [|by split..].
  eapply always_mono; [|apply Hf, HP; done]. intros l' r [Hl' HQ]. split; [by apply Forall_app|done].
Qed.

Lemma passes_replied {A B} w R (P : A → Prop) (m : Async S A) (f : A → Async S B) :
  always m (passes P) → (∀ a, P a → always (f a) (replied w R)) → always (m ≫= f) (replied w R).
Proof.
  intros Hm Hf. apply always_bind. eapply always_mono; [|exact Hm].
  intros l [a|e|] [Hl HP]; [|by exists l, []; rewrite app_nil_r..].
  eapply always_mono; [|apply Hf, HP; done]. intros l' r (before & own & -> & Hb & Ho).
  exists (l ++ before), own. split_and!; [by rewrite app_assoc|by apply Forall_app|done].
Qed.

Lemma passes_ret {A} (P : A → Prop) (a : A) : P a → always (mret a : Async S A) (passes P).
Proof. intros HP. apply always_ret. split; [done|]. by intros ? [= <-]. Qed.

Lemma passes_weaken {A} (P Q : A → Prop) (m : Async S A) :
  (∀ a, P a → Q a) → always m (passes P) → always m (passes Q).
Proof. intros HPQ. apply always_mono. intros l r [Hl HP]. split; [done|]. eauto. Qed.

Lemma passes_fmap {A B} (P : B → Prop) (g : A → B) (m : Async S A) :
  always m (passes (λ a, P (g a))) → always (g <$> m) (passes P).
Proof.
  intros Hm. eapply passes_bind; [exact Hm|]. intros a Ha. by apply passes_ret.
Qed.

Lemma passes_wait (P : option Value → Prop) n : (∀ v, P v) → always (wait_for n : Async S _) (passes P).
Proof. intros HP. apply always_wait. intros v. split; [by apply Forall_singleton|done]. Qed.

End rules.

Section handlers.
Context {S : Type} `{St : MessageStorage S, B64 : Base64, Tlv : TlvOrder, Chr : Chrono, Reg : Regex,
  Gen : MessageIdGenerator, Ord : ClientOrder}.

Lemma transaction_passes env id seq mid v (P : Value → Prop) :
  (∀ status mid, P (create_json_response id seq status [("message_id", JString mid)])) →
  has_command_id v →
  always (transaction_mode env id seq mid v : Async S _) (passes (λ r, P (either r))).
Proof.
  intros HP Hv. eapply passes_bind; [apply forwards_passes, forwards_next_sequence|]. intros n _.
  eapply passes_bind.
  { by apply forwards_passes, forwards_attempt, forward_forwards, extract_as_deliver. }
  intros [[]|e|] _; try (by apply passes_ret, HP).
  eapply passes_bind; [by apply (passes_wait (λ _, True))|]. intros v' _.
  by apply passes_ret, transaction_answer_value.
Qed.

Lemma data_submit_replied env c seq v :
  c ∈ [CommandId.SubmitSm; CommandId.DataSm] → (seq < 2 ^ 32)%N →
  write_ok env (writer env) = true → has_command_id v →
  always (data_submit_sm env (CommandId.as_u32 c) seq v : Async S unit)
    (replied (writer env) (response_pdu (CommandId.as_u32 c) seq)).
Proof.
  intros Hc Hseq Hw Hv. unfold data_submit_sm.
  pose proof (message_id_response_value c seq Hc Hseq) as HP.
  eapply passes_replied; [apply forwards_passes, forwards_generate_id|]. intros mid _.
  pose proof (has_command_id_predefined env v Hv) as Hv1.
  destruct (replace_sm_default_msg_id_with_predefined_message env v) as [r v1]. cbn [snd] in Hv1.
  eapply passes_replied; [by apply forwards_passes, (forwards_lift (λ _, True))|]. intros _ _. cbv zeta.
  eapply passes_replied; [apply forwards_passes, forwards_next_sequence|]. intros n _. cbv zeta.
  set (v2 := insert_in_object _ _ _).
  assert (Hv2 : has_command_id v2) by (by apply has_command_id_insert, has_command_id_service_type).
  clearbody v2. destruct (is_my_request_address env _).
  { eapply passes_replied; [by apply forwards_passes, local_forwards|]. intros b Hb.
    by apply replies_replied, relabel_replies, send_replies. }
  eapply (passes_replied _ _ (response_value (CommandId.as_u32 c) seq));
    [|intros resp Hr; by apply replies_replied, respond_replies].
  destruct (get_message_mode env v2).
  - by apply passes_ret, HP.
  - by apply passes_fmap, forwards_passes, datagram_forwards.
  - by apply passes_fmap, transaction_passes.
  - by apply passes_fmap, forwards_passes, store_forwards.
Qed.

Lemma submit_to_passes env id seq mid mode v d :
  (seq < 2 ^ 32)%N → always (submit_to env id seq mid mode v d : Async S bool) (passes (λ _, True)).
Proof.
  intros Hseq. destruct mode; try (by apply forwards_passes, submit_one_forwards).
  eapply passes_bind; [apply forwards_passes, forwards_next_sequence|]. intros n _. cbv zeta.
  destruct (is_my_request_address env _).
  - eapply passes_bind; [|intros r _; by apply passes_ret].
    apply forwards_passes, forwards_attempt, (local_forwards env CommandId.SubmitSm); [left|exact Hseq].
  - by apply passes_fmap, (transaction_passes _ _ _ _ _ (λ _, True)); [|apply submit_sm_has_command].
Qed.

Lemma submit_all_passes (submit : Address → Async S bool) dests :
  (∀ d, always (submit d) (passes (λ _, True))) →
  always (submit_all submit dests) (passes (λ failed, length failed ≤ length dests)).
Proof.
  intros Hs. induction dests as [|d ds IH]; [by apply passes_ret|].
  eapply passes_bind; [apply Hs|]. intros failed _.
  eapply passes_bind; [apply IH|]. intros fs Hl. apply passes_ret. destruct failed; cbn in *; lia.
Qed.

Lemma submit_multi_replied env id seq v :
  extract_command_id v = Some CommandId.SubmitMulti →
  write_ok env (writer env) = true → (seq < 2 ^ 32)%N →
  always (submit_multi env id seq v : Async S unit) (replied (writer env) (multi_pdu env seq v)).
Proof.
  intros Hc Hw Hseq. unfold submit_multi.
  eapply passes_replied; [apply forwards_passes, forwards_generate_id|]. intros mid _. cbv zeta.
  destruct (replace_sm_default_msg_id_with_predefined_message env v) as [r v1] eqn:Er.
  eapply passes_replied; [by apply forwards_passes, (forwards_lift (λ _, True))|]. intros _ _. cbv zeta.
  rewrite (prepared_destinations _ _ _ _ _ Hc Er).
  eapply (passes_replied _ _ (λ failed, failed = [] ∨ ∃ dests,
    extract_destionation_addresses v (distribution_list env) = Ok dests ∧ length failed ≤ length dests)).
  { destruct (extract_destionation_addresses _ _) as [dests|e|]; [|by apply passes_ret; left..].
    eapply passes_weaken; [|apply submit_all_passes; intros d; by apply submit_to_passes].
    intros failed Hl. right. by exists dests. }
  intros failed Hf. eapply passes_replied.
  { apply forwards_passes, (forwards_lift (multi_pdu env seq v)). intros b Hb.
    by apply (listed_response_pdu env seq mid failed v). }
  intros b Hb. by apply replies_replied, send_unwrap_replies.
Qed.

(** A handler answers its request once, whatever happens while it waits. *)
Lemma handle_replied env j c :
  extract_command_id j = Some c → CommandId.is_request c = true → has_command_id j →
  write_ok env (writer env) = true →
  always (handle env j : Async S unit) (replied (writer env) (answer_pdu env c j)).
Proof.
  intros Hc Hr Hj Hw. unfold handle. rewrite Hc. cbv zeta.
  assert (Hseq : (cast_u32 (u64_field j "sequence_number") < 2 ^ 32)%N) by (by apply N.mod_lt).
  destruct c; try (apply replies_replied; intros st r st'; by apply request_answered).
  - apply (data_submit_replied env CommandId.SubmitSm); [left|exact Hseq|exact Hw|exact Hj].
  - apply submit_multi_replied; [exact Hc|exact Hw|exact Hseq].
  - apply (data_submit_replied env CommandId.DataSm); [right; left|exact Hseq|exact Hw|exact Hj].
Qed.

End handlers.
