(* ===== verification/Responses.v ===== *)
(** * Waiting for responses

    The two tables of waiting requests: [TransactionResponseManager]
    (src/smsc_server/transaction_response_manager.rs) and [ResponseManager]
    (src/smsc_client/response_manager.rs). A table maps a sequence number to the sending
    half of a one-shot channel; the task that holds the receiving half waits. Tasks
    interleave at the lock of the table, so the manager is a state machine over three
    events: a task starts to wait, a response arrives, the time of a waiter runs out. *)
From S2P Require Export Json.

Module Channels.

(** A one-shot channel, by the number of the task that waits on it. *)
Abbreviation waiter := nat.

Record t : Type := mk {
  transactions : gmap N waiter;
  waiting : gmap waiter N;
  results : gmap waiter (option Value);
  next : waiter;
}.

Definition new : t := mk ∅ ∅ ∅ 0.

(** The receiving task wakes up with [r]: a value sent, or [None] when the sender was
    dropped. A task that already left is not woken again. *)
Definition wake (w : waiter) (r : option Value) (s : t) : t :=
  match waiting s !! w with
  | Some _ => mk (transactions s) (delete w (waiting s)) (<[w := r]> (results s)) (next s)
  | None => s
  end.

(** [HashMap::insert] drops the sender it replaces. *)
Definition insert (sequence_number : N) (s : t) : t :=
  let w := next s in
  let s := match transactions s !! sequence_number with Some old => wake old None s | None => s end in
  mk (<[sequence_number := w]> (transactions s)) (<[w := sequence_number]> (waiting s))
     (results s) (S w).

(** [HashMap::remove], whose value the caller sends on or drops. *)
Definition remove (sequence_number : N) (s : t) : t :=
  mk (delete sequence_number (transactions s)) (waiting s) (results s) (next s).

Definition response_received (sequence_number : N) (response : Value) (s : t) : t :=
  match transactions s !! sequence_number with
  | Some w => wake w (Some response) (remove sequence_number s)
  | None => s
  end.

Inductive event : Type :=
| Wait (sequence_number : N)
| Received (sequence_number : N) (response : Value)
| Timeout (w : waiter).

End Channels.
Import Channels.

Module TransactionResponseManager.
(** The timeout branch of the [select!]: the receiver is gone, then the entry of the
    number is removed, whoever registered it last. *)
Definition timeout (w : waiter) (s : t) : t :=
  match waiting s !! w with
  | Some sequence_number =>
      let s := wake w None s in
      match transactions s !! sequence_number with
      | Some w' => wake w' None (remove sequence_number s)
      | None => s
      end
  | None => s
  end.

Definition step (s : t) (e : event) : t :=
  match e with
  | Wait n => insert n s
  | Received n v => response_received n v s
  | Timeout w => timeout w s
  end.

Definition run (s : t) (es : list event) : t := foldl step s es.
End TransactionResponseManager.

Module ResponseManager.
(** [tokio::time::timeout]: the receiver is dropped, the entry stays in the table. *)
Definition timeout (w : waiter) (s : t) : t := wake w None s.

Definition step (s : t) (e : event) : t :=
  match e with
  | Wait n => insert n s
  | Received n v => response_received n v s
  | Timeout w => timeout w s
  end.

Definition run (s : t) (es : list event) : t := foldl step s es.
End ResponseManager.

(** ** Invariant *)

(** A sender in the table belongs to its own number; a task waits or has its result, and
    new tasks get new channels. *)
Record wf (s : t) : Prop := {
  wf_own : ∀ n w m, transactions s !! n = Some w → waiting s !! w = Some m → m = n;
  wf_one : ∀ w, is_Some (waiting s !! w) → results s !! w = None;
  wf_next : ∀ w, is_Some (waiting s !! w) ∨ is_Some (results s !! w) ∨
                 (∃ n, transactions s !! n = Some w) → w < next s;
}.

(** Every task that waits has its sender in the table. *)
Definition served (s : t) : Prop := ∀ w n, waiting s !! w = Some n → transactions s !! n = Some w.

Lemma wf_start : wf new.
Proof.
  split; simpl.
  - intros n w m. by rewrite lookup_empty.
  - intros w [n Hw]. by rewrite lookup_empty in Hw.
  - intros w [[n Hw]|[[r Hw]|[n Hw]]]; by rewrite lookup_empty in Hw.
Qed.

Lemma wake_transactions w r s : transactions (wake w r s) = transactions s.
Proof. unfold wake. by destruct (waiting s !! w). Qed.

Lemma wake_next w r s : next (wake w r s) = next s.
Proof. unfold wake. by destruct (waiting s !! w). Qed.

Lemma wake_waiting w r s : waiting (wake w r s) = delete w (waiting s).
Proof.
  unfold wake. destruct (waiting s !! w) eqn:E; [done|]. symmetry. by apply delete_id.
Qed.

Lemma wake_results w r s v :
  results (wake w r s) !! v
  = if decide (v = w ∧ is_Some (waiting s !! w)) then Some r else results s !! v.
Proof.
  unfold wake. destruct (waiting s !! w) as [n|] eqn:E; simpl.
  - destruct (decide (v = w)) as [->|Hne].
    + rewrite decide_True by (split; [done|by eexists]). by rewrite lookup_insert_eq.
    + rewrite decide_False by (by intros [? _]). by rewrite lookup_insert_ne.
  - by rewrite decide_False by (by intros [_ [? ?]]).
Qed.

Lemma wf_wake w r s : wf s → wf (wake w r s).
Proof.
  intros [H1 H2 H3]. split.
  - intros n v m. rewrite wake_transactions, wake_waiting, lookup_delete_Some.
    intros Hn [_ Hv]. by apply (H1 n v m).
  - intros v. rewrite wake_waiting, wake_results. intros [n [Hne Hn]%lookup_delete_Some].
    rewrite decide_False by (intros [? _]; congruence). apply H2. by exists n.
  - intros v. rewrite wake_transactions, wake_waiting, wake_results, wake_next.
    intros [[n [_ Hn]%lookup_delete_Some]|[Hr|Hr]]; apply H3.
    + left. by exists n.
    + destruct (decide _) as [[-> Hw]|]; [by left|by right; left].
    + by right; right.
Qed.

Lemma wf_remove n s : wf s → wf (remove n s).
Proof.
  intros [H1 H2 H3]. split; simpl.
  - intros k w m [_ Hk]%lookup_delete_Some. by apply H1.
  - exact H2.
  - intros w [Hw|[Hw|[k [_ Hk]%lookup_delete_Some]]]; apply H3; [by left|by right; left|].
    right. right. by exists k.
Qed.

Lemma wf_insert n s : wf s → wf (insert n s).
Proof.
  intros Hwf. unfold insert.
  set (s1 := match transactions s !! n with Some old => wake old None s | None => s end).
  assert (H1 : wf s1 ∧ next s1 = next s).
  { subst s1. destruct (transactions s !! n); [|done]. split; [by apply wf_wake|apply wake_next]. }
  destruct H1 as [[H1 H2 H3] Hnext]. clearbody s1.
  assert (Hfresh : waiting s1 !! next s = None ∧ results s1 !! next s = None ∧
                   ∀ k, transactions s1 !! k ≠ Some (next s)).
  { split_and!.
    - apply eq_None_not_Some. intros Hw. pose proof (H3 (next s) (or_introl Hw)). lia.
    - apply eq_None_not_Some. intros Hw. pose proof (H3 (next s) (or_intror (or_introl Hw))). lia.
    - intros k Hk. pose proof (H3 (next s) (or_intror (or_intror (ex_intro _ k Hk)))). lia. }
  destruct Hfresh as (Hw & Hr & Ht). split; simpl.
  - intros k w m. rewrite !lookup_insert_Some.
    intros [[<- <-]|[Hne Hk]] [[He <-]|[Hne' Hm]]; try done.
    + by subst w; destruct (Ht k).
    + by apply (H1 k w m).
  - intros w. rewrite lookup_insert_is_Some. intros [<-|[_ Hs]]; [done|]. by apply H2.
  - intros w. rewrite lookup_insert_is_Some. intros [[<-|[_ Hs]]|[Hs|[k Hk]]]; [lia| | |].
    + pose proof (H3 w (or_introl Hs)). lia.
    + pose proof (H3 w (or_intror (or_introl Hs))). lia.
    + apply lookup_insert_Some in Hk as [[_ <-]|[_ Hk]]; [lia|].
      pose proof (H3 w (or_intror (or_intror (ex_intro _ k Hk)))). lia.
Qed.

Lemma served_wake w r s : wf s → served s → served (wake w r s).
Proof.
  intros Hwf Hs v n. rewrite wake_waiting, wake_transactions. intros [_ Hv]%lookup_delete_Some.
  by apply Hs.
Qed.

(** Waking the task whose sender was just taken out. *)
Lemma served_wake_remove n w r s :
  served s → transactions s !! n = Some w → served (wake w r (remove n s)).
Proof.
  intros Hs Hn v m. rewrite wake_waiting, wake_transactions. simpl.
  intros [Hne Hv]%lookup_delete_Some. apply Hs in Hv.
  rewrite lookup_delete_ne; [done|]. intros ->. congruence.
Qed.

Lemma served_insert n s : wf s → served s → served (insert n s).
Proof.
  intros Hwf Hs v m. unfold insert.
  destruct (transactions s !! n) as [old|] eqn:Eold; simpl;
    rewrite ?wake_waiting, ?wake_transactions, ?wake_next; intros Hv;
    apply lookup_insert_Some in Hv as [[<- <-]|[Hne Hv]].
  - by rewrite lookup_insert_eq.
  - apply lookup_delete_Some in Hv as [Hold Hv]. apply Hs in Hv.
    rewrite lookup_insert_ne; [done|]. intros ->. congruence.
  - by rewrite lookup_insert_eq.
  - apply Hs in Hv. rewrite lookup_insert_ne; [done|]. intros ->. congruence.
Qed.

Lemma wf_received n v s : wf s → wf (response_received n v s).
Proof.
  intros Hwf. unfold response_received. destruct (transactions s !! n); [|done].
  by apply wf_wake, wf_remove.
Qed.

Lemma served_received n v s : served s → served (response_received n v s).
Proof.
  intros Hs. unfold response_received. destruct (transactions s !! n) as [w|] eqn:E; [|done].
  by apply served_wake_remove.
Qed.

(** ** Transactions *)

Section transactions.
Import TransactionResponseManager.

Lemma step_inv s e : wf s → served s → wf (step s e) ∧ served (step s e).
Proof.
  intros Hwf Hs. destruct e as [n|n v|w]; simpl.
  - split; [by apply wf_insert|by apply served_insert].
  - split; [by apply wf_received|by apply served_received].
  - unfold timeout. destruct (waiting s !! w) as [n|] eqn:Ew; [|done].
    rewrite wake_transactions, (Hs _ _ Ew). split.
    + by apply wf_wake, wf_remove, wf_wake.
    + apply served_wake_remove; [by apply served_wake|]. rewrite wake_transactions. by apply Hs.
Qed.

Lemma run_inv es s : wf s → served s → wf (run s es) ∧ served (run s es).
Proof.
  revert s. induction es as [|e es IH]; intros s Hwf Hs; [done|].
  destruct (step_inv s e Hwf Hs). by apply IH.
Qed.

(** An event that concerns the number [n] or its task [w]. *)
Definition touches (n : N) (w : waiter) (e : event) : Prop :=
  match e with Wait m | Received m _ => m = n | Timeout u => u = w end.

Lemma step_other n w s e :
  wf s → served s → waiting s !! w = Some n → ¬ touches n w e → waiting (step s e) !! w = Some n.
Proof.
  intros Hwf Hs Hw Ht. pose proof (Hs _ _ Hw) as Hn. destruct e as [m|m v|u]; simpl in *.
  - assert (Hlt : w < next s) by (apply (wf_next _ Hwf); left; by exists n).
    unfold insert. destruct (transactions s !! m) as [old|] eqn:Eold; simpl;
      rewrite ?wake_next, ?wake_waiting; (rewrite lookup_insert_ne by lia); [|done].
    rewrite lookup_delete_ne; [done|]. intros ->.
    pose proof (wf_own _ Hwf m w n Eold Hw). congruence.
  - unfold response_received. destruct (transactions s !! m) as [u|] eqn:Eu; [|done].
    rewrite wake_waiting. simpl. rewrite lookup_delete_ne; [done|]. intros ->.
    pose proof (wf_own _ Hwf m w n Eu Hw). congruence.
  - unfold timeout. destruct (waiting s !! u) as [m|] eqn:Eu; [|done].
    rewrite wake_transactions, (Hs _ _ Eu). rewrite wake_waiting. simpl. rewrite wake_waiting.
    rewrite !lookup_delete_ne by congruence. done.
Qed.

Lemma run_other n w es s :
  wf s → served s → waiting s !! w = Some n → Forall (λ e, ¬ touches n w e) es →
  wf (run s es) ∧ served (run s es) ∧ waiting (run s es) !! w = Some n.
Proof.
  intros Hwf Hs Hw Hes. revert s Hwf Hs Hw.
  induction Hes as [|e es He _ IH]; intros s Hwf Hs Hw; [done|].
  destruct (step_inv s e Hwf Hs) as [Hwf' Hs']. apply IH; [done|done|]. by apply step_other.
Qed.

Lemma waiting_insert n s : waiting (insert n s) !! next s = Some n.
Proof. unfold insert. simpl. by rewrite lookup_insert_eq. Qed.

(** A transaction that is waiting gets the response to its own number: whatever
    other transactions start, end and time out in between, in any order, the response that
    arrives for the number wakes the task that registered it with that response. *)
Theorem response_reaches_waiter s n v es :
  wf s → served s → Forall (λ e, ¬ touches n (next s) e) es →
  results (run (step s (Wait n)) (es ++ [Received n v])) !! next s = Some (Some v).
Proof.
  intros Hwf Hs Hes. unfold run. rewrite foldl_app. fold (run (step s (Wait n)) es).
  destruct (step_inv s (Wait n) Hwf Hs) as [Hwf1 Hs1].
  destruct (run_other n (next s) es (step s (Wait n)) Hwf1 Hs1 (waiting_insert n s) Hes)
    as (Hwf2 & Hs2 & Hw2).
  set (s2 := run (step s (Wait n)) es) in *. clearbody s2. simpl. unfold response_received.
  rewrite (Hs2 _ _ Hw2), wake_results. simpl. rewrite Hw2, decide_True; [done|].
  split; [done|]. by eexists.
Qed.

(** A response that arrives before its transaction waits is lost: the transaction then
    waits until its time runs out and gets nothing. The server forwards a message before
    it starts to wait for the response to it. *)
Theorem early_response_lost s n v es :
  wf s → served s → transactions s !! n = None → Forall (λ e, ¬ touches n (next s) e) es →
  results (run s (Received n v :: Wait n :: es ++ [Timeout (next s)])) !! next s = Some None.
Proof.
  intros Hwf Hs Hn Hes. unfold run. simpl. unfold response_received. rewrite Hn.
  rewrite foldl_app. fold (run (insert n s) es).
  destruct (step_inv s (Wait n) Hwf Hs) as [Hwf1 Hs1].
  destruct (run_other n (next s) es (insert n s) Hwf1 Hs1 (waiting_insert n s) Hes)
    as (Hwf2 & Hs2 & Hw2).
  set (s2 := run (insert n s) es) in *. clearbody s2. simpl. unfold timeout. rewrite Hw2, wake_transactions, (Hs2 _ _ Hw2).
  rewrite !wake_results. simpl. rewrite wake_waiting, lookup_delete_eq, wake_results.
  rewrite decide_False by (by intros [_ [? ?]]). rewrite Hw2, decide_True; [done|].
  split; [done|]. by eexists.
Qed.

(** *** No response goes astray *)

(** The numbers waited for, in the order of the tasks. *)
Definition waits (es : list event) : list N :=
  omap (λ e, match e with Wait n => Some n | _ => None end) es.

Record sound (es : list event) (s : t) : Prop := {
  sound_next : next s = length (waits es);
  sound_waiting : ∀ w n, waiting s !! w = Some n → waits es !! w = Some n;
  sound_results : ∀ w v, results s !! w = Some (Some v) →
    ∃ n, waits es !! w = Some n ∧ Received n v ∈ es;
}.

Lemma waits_app es e : waits (es ++ [e]) = waits es ++ waits [e].
Proof. apply omap_app. Qed.

Lemma sound_app es e s : waits [e] = [] → sound es s → sound (es ++ [e]) s.
Proof.
  intros He [H1 H2 H3]. split; rewrite ?waits_app, ?He, ?app_nil_r; [done|done|].
  intros w v Hr. destruct (H3 w v Hr) as (n & Hn & Hin). exists n.
  rewrite elem_of_app. auto.
Qed.

Lemma sound_remove es n s : sound es s → sound es (remove n s).
Proof. intros [H1 H2 H3]. by split. Qed.

Lemma sound_wake es w r s :
  sound es s → (∀ n v, waiting s !! w = Some n → r = Some v → Received n v ∈ es) →
  sound es (wake w r s).
Proof.
  intros [H1 H2 H3] Hr. split.
  - by rewrite wake_next.
  - intros u n. rewrite wake_waiting. intros [_ Hu]%lookup_delete_Some. by apply H2.
  - intros u v. rewrite wake_results. destruct (decide _) as [[-> [n Hw]]|]; [|apply H3].
    intros [= ->]. exists n. split; [by apply H2|by apply (Hr n v)].
Qed.

Lemma sound_insert es n s : wf s → sound es s → sound (es ++ [Wait n]) (insert n s).
Proof.
  intros Hwf Hs. unfold insert.
  set (s1 := match transactions s !! n with Some old => wake old None s | None => s end).
  assert (H1 : sound es s1 ∧ next s1 = next s).
  { subst s1. destruct (transactions s !! n); [|done]. rewrite wake_next.
    split; [|done]. by apply sound_wake. }
  destruct H1 as [[Hn Hw Hr] Hnext]. clearbody s1. rewrite Hnext in Hn.
  assert (Hlook : ∀ u m, waits es !! u = Some m → waits (es ++ [Wait n]) !! u = Some m).
  { intros u m Hu. rewrite waits_app. by apply lookup_app_l_Some. }
  split; simpl.
  - rewrite waits_app, length_app, Hn. simpl. lia.
  - intros u m [[<- <-]|[_ Hu]]%lookup_insert_Some; [|by apply Hlook, Hw].
    rewrite waits_app, Hn. by apply list_lookup_middle.
  - intros u v Hu. destruct (Hr u v Hu) as (m & Hm & Hin). exists m.
    split; [by apply Hlook|]. apply elem_of_app. by left.
Qed.

Lemma sound_step es s e : wf s → served s → sound es s → sound (es ++ [e]) (step s e).
Proof.
  intros Hwf Hsv Hs. destruct e as [n|n v|w]; [by apply sound_insert| |].
  - apply (sound_app _ (Received n v)) in Hs; [|done]. simpl. unfold response_received.
    destruct (transactions s !! n) as [w|] eqn:En; [|done].
    apply sound_wake; [by apply sound_remove|]. simpl. intros m v' Hm [= <-].
    rewrite (wf_own _ Hwf n w m En Hm). apply elem_of_app. right. by apply list_elem_of_singleton.
  - apply (sound_app _ (Timeout w)) in Hs; [|done]. simpl. unfold timeout.
    destruct (waiting s !! w) as [n|] eqn:Ew; [|done].
    rewrite wake_transactions, (Hsv _ _ Ew).
    apply sound_wake; [|done]. by apply sound_remove, sound_wake.
Qed.

(** No response goes astray: a transaction is only ever woken with a response that was
    received for the number it waits for, in every interleaving of waits, responses and
    timeouts. *)
Theorem responses_sound es w v :
  results (run new es) !! w = Some (Some v) → ∃ n, waits es !! w = Some n ∧ Received n v ∈ es.
Proof.
  assert (Hall : wf (run new es) ∧ served (run new es) ∧ sound es (run new es)).
  { induction es as [|e es IH] using rev_ind.
    - split_and!; [apply wf_start|by intros u n; simpl; rewrite lookup_empty|].
      split; simpl; [done|intros u n; by rewrite lookup_empty|intros u x; by rewrite lookup_empty].
    - destruct IH as (Hwf & Hs & Hsd). unfold run. rewrite foldl_app. fold (run new es). simpl.
      destruct (step_inv (run new es) e Hwf Hs). split_and!; [done|done|by apply sound_step]. }
  apply (sound_results _ _ (proj2 (proj2 Hall))).
Qed.
End transactions.

(** ** The client's table *)

(** The table of the client keeps the entry of a request whose time ran out: it is still
    there after any events that do not concern its number, so every request that is never
    answered leaves one behind. *)
Theorem timed_out_entry_stays s n es :
  Forall (λ e, match e with Wait m | Received m _ => m ≠ n | Timeout _ => True end) es →
  transactions (ResponseManager.run s (Wait n :: Timeout (next s) :: es)) !! n = Some (next s).
Proof.
  intros Hes.
  assert (Hstart : transactions (ResponseManager.timeout (next s) (insert n s)) !! n = Some (next s)).
  { unfold ResponseManager.timeout. rewrite wake_transactions. simpl. by rewrite lookup_insert_eq. }
  unfold ResponseManager.run. simpl. revert Hstart.
  generalize (ResponseManager.timeout (next s) (insert n s)). generalize (next s). clear s.
  intros w. induction Hes as [|e es He _ IH]; intros s Hs; [done|]. simpl. apply IH.
  destruct e as [m|m v|u]; simpl.
  - unfold insert. simpl. rewrite lookup_insert_ne by done.
    destruct (transactions s !! m); by rewrite ?wake_transactions.
  - unfold response_received. destruct (transactions s !! m); [|done].
    rewrite wake_transactions. simpl. by rewrite lookup_delete_ne.
  - unfold ResponseManager.timeout. by rewrite wake_transactions.
Qed.

(** *** Witnesses *)

Lemma response_reaches_waiter_witness :
  results (TransactionResponseManager.run
    (TransactionResponseManager.step new (Wait 7)) ([Wait 8; Timeout 1] ++ [Received 7 JNull])) !! 0
  = Some (Some JNull).
Proof.
  apply (response_reaches_waiter new 7 JNull [Wait 8; Timeout 1]).
  - apply wf_start.
  - intros w n. simpl. by rewrite lookup_empty.
  - repeat (apply Forall_cons; split; [simpl; lia|]). by apply Forall_nil.
Defined.

Lemma early_response_lost_witness :
  results (TransactionResponseManager.run new (Received 7 JNull :: Wait 7 :: [Wait 8] ++ [Timeout 0])) !! 0
  = Some None.
Proof.
  apply (early_response_lost new 7 JNull [Wait 8]).
  - apply wf_start.
  - intros w n. simpl. by rewrite lookup_empty.
  - reflexivity.
  - repeat (apply Forall_cons; split; [simpl; lia|]). by apply Forall_nil.
Defined.

Lemma responses_sound_witness : ∃ n,
  waits [Wait 7; Wait 8; Received 8 JNull] !! 1 = Some n ∧
  Received n JNull ∈ [Wait 7; Wait 8; Received 8 JNull].
Proof. apply responses_sound. vm_compute. reflexivity. Defined.

Lemma timed_out_entry_stays_witness :
  transactions (ResponseManager.run new (Wait 7 :: Timeout 0 :: [Wait 8; Received 8 JNull])) !! 7%N
  = Some 0.
Proof.
  apply (timed_out_entry_stays new 7 [Wait 8; Received 8 JNull]).
  repeat (apply Forall_cons; split; [done|]). by apply Forall_nil.
Defined.
