(* ===== verification/Transactions.v ===== *)
(** * Transactions in a running server

    The connections of a server beside one another: each handles its messages one after the
    other (src/smsc_server/smsc_server.rs, [run]), a handler that is in transaction mode waits
    for a response at the table the connections share
    (src/smsc_server/transaction_response_manager.rs), and a deliver_sm_resp wakes it. A turn of
    one task is a step; any sequence of turns is an execution. *)
From S2P Require Export AsyncProps Responses.

(** ** The system *)

Section system.
Context {S : Type} `{St : MessageStorage S, B64 : Base64, Tlv : TlvOrder, Chr : Chrono, Reg : Regex,
  Gen : MessageIdGenerator, Ord : ClientOrder}.

(** A message that is being handled, with the shared state it was received in and what was done
    about it so far. *)
Record job : Type := mkJob {
  job_env : Env;
  job_message : Value;
  job_start : world S;
  actions : list action;
}.

Definition act (l : list action) (j : job) : job :=
  mkJob (job_env j) (job_message j) (job_start j) (actions j ++ l).

(** A connection that is not free for its next message: the message is forwarded and the lock
    of the table is next; it waits on a channel; its task has ended. *)
Inductive activity : Type :=
| Parked (n : N) (j : job) (k : option Value → world S → resumption S unit)
| Blocked (w : Channels.waiter) (n : N) (j : job) (k : option Value → world S → resumption S unit)
| Gone.

(** A connection is known by its writer. [history]: the messages that were handled, with the
    results of their handlers. *)
Record sys : Type := mkSys {
  shared : world S;
  table : Channels.t;
  connections : gmap nat activity;
  history : list (job * ioresult unit);
}.

Definition started (st : world S) : sys := mkSys st Channels.new ∅ [].

Definition set_table (t : Channels.t) (s : sys) : sys := mkSys (shared s) t (connections s) (history s).
Definition set_shared (st : world S) (s : sys) : sys := mkSys st (table s) (connections s) (history s).
Definition set_activity (i : nat) (a : activity) (s : sys) : sys :=
  mkSys (shared s) (table s) (<[i := a]> (connections s)) (history s).

(** The handler of [j] has run to its end or to its next wait. *)
Definition settle (j : job) (m : resumption S unit) (s : sys) : sys :=
  let i := writer (job_env j) in
  let wrote st := Wrote <$> drop (length (sent (shared s))) (sent st) in
  match m with
  | Ended r st =>
      mkSys st (table s)
        (match r with Panic => <[i := Gone]> (connections s) | _ => delete i (connections s) end)
        (history s ++ [(act (wrote st) j, r)])
  | Waits n st k =>
      mkSys st (table s) (<[i := Parked n (act (wrote st) j) k]> (connections s)) (history s)
  end.

(** The arm of deliver_sm_resp: the table is asked for the number of the message. *)
Definition hand_over (v : Value) (t : Channels.t) : Channels.t :=
  match extract_command_id v with
  | Some CommandId.DeliverSmResp =>
      Channels.response_received (cast_u32 (u64_field v "sequence_number")) v t
  | _ => t
  end.

Inductive event : Type :=
| Receive (env : Env) (v : Value)
| Enroll (i : nat) (number : N)
| Expire (i : nat)
| Resume (i : nat)
| Background (env : Env) (task : nat)
| Deliver (env : Env) (message : Value)
| Disconnect (env : Env).

(** [None]: the event is not possible. A connection takes a message when it is done with the
    one before. *)
Definition turn (s : sys) (e : event) : option sys :=
  match e with
  | Receive env v =>
      match connections s !! writer env with
      | None => Some (settle (mkJob env v (shared s) []) (handle env v (shared s)) (set_table (hand_over v (table s)) s))
      | Some _ => None
      end
  | Enroll i number =>
      match connections s !! i with
      | Some (Parked n j k) =>
          if decide (n = number) then
          Some (set_activity i (Blocked (Channels.next (table s)) n j k)
                  (set_table (Channels.insert n (table s)) s))
          else None
      | _ => None
      end
  | Expire i =>
      match connections s !! i with
      | Some (Blocked w n j k) =>
          if decide (Channels.results (table s) !! w = None)
          then Some (set_table (TransactionResponseManager.timeout w (table s)) s) else None
      | _ => None
      end
  | Resume i =>
      match connections s !! i with
      | Some (Blocked w n j k) =>
          match Channels.results (table s) !! w with
          | Some v => Some (settle (act [Answered n v] j) (k v (shared s)) s)
          | None => None
          end
      | _ => None
      end
  | Background env task =>
      match spawned (shared s) !! task with
      | Some t => Some (set_shared (run_task env t (shared s)).2 s)
      | None => None
      end
  | Deliver env message => Some (set_shared (handle_schedule_delivery_message env message (shared s)).2 s)
  | Disconnect env =>
      match connections s !! writer env with
      | None => Some (set_activity (writer env) Gone (set_shared (remove_client env (shared s)) s))
      | Some _ => None
      end
  end.

Fixpoint execute (s : sys) (es : list event) : option sys :=
  match es with
  | [] => Some s
  | e :: es => match turn s e with Some s => execute s es | None => None end
  end.

Lemma run_app s es es' : execute s (es ++ es') = match execute s es with Some s => execute s es' | None => None end.
Proof. revert s. induction es as [|e es IH]; intros s; [done|]. cbn. by destruct (turn s e). Qed.

(** What [hand_over] gives to the table is what the handler of Server.v notes. *)
Lemma hand_over_noted env v (st : world S) t :
  extract_command_id v = Some CommandId.DeliverSmResp →
  handle env v st = Ended (Ok tt) (response_received (cast_u32 (u64_field v "sequence_number")) v st).2 ∧
  hand_over v t = foldl (λ t p, Channels.response_received p.1 p.2 t) t
    (drop (length (responses st)) (responses
       (response_received (cast_u32 (u64_field v "sequence_number")) v st).2)).
Proof.
  intros Hv. unfold handle, hand_over, atomic, handle_message. rewrite Hv. split; [done|].
  cbn. by rewrite drop_app_length.
Qed.

(** ** Invariants of executions *)

Section invariant.
Context (s0 : world S) (P : list event → sys → Prop).
Context (P_start : P [] (started s0))
  (P_step : ∀ es s e s', P es s → turn s e = Some s' → P (es ++ [e]) s').

Lemma run_invariant es s : execute (started s0) es = Some s → P es s.
Proof.
  revert s. induction es as [|e es IH] using rev_ind; intros s; [by intros [= <-]|].
  rewrite run_app. destruct (execute (started s0) es) as [s1|]; [|done]. cbn.
  destruct (turn s1 e) as [s2|] eqn:E; [|done]. intros [= <-]. by eapply P_step; [apply IH|].
Qed.
End invariant.

(** *** The program logic applies to executions *)

Section adequacy.
Context (pre : Env → Value → Prop) (Q : Env → Value → world S → list action → ioresult unit → Prop).

Definition ensured (j : job) (P : Prop) : Prop := pre (job_env j) (job_message j) → P.

(** What is known of the message [j] of connection [i] while its handler waits for [n]. *)
Definition on_the_way (i : nat) (n : N) (j : job) (k : option Value → world S → resumption S unit) : Prop :=
  writer (job_env j) = i ∧
  ensured j (∀ v st, ends (k v st) st
    (λ l, Q (job_env j) (job_message j) (job_start j) (actions j ++ Answered n v :: l))).

Definition keeps_promises (s : sys) : Prop :=
  (∀ i a, connections s !! i = Some a →
     match a with Parked n j k | Blocked _ n j k => on_the_way i n j k | Gone => True end) ∧
  Forall (λ p, ensured p.1 (Q (job_env p.1) (job_message p.1) (job_start p.1) (actions p.1) p.2)) (history s).

Lemma settle_keeps j m s :
  keeps_promises s →
  ensured j (ends m (shared s) (λ l, Q (job_env j) (job_message j) (job_start j) (actions j ++ l))) →
  keeps_promises (settle j m s).
Proof.
  intros [Hc Hh]. destruct m as [r st|n st k]; intros Hj; split; cbn.
  - intros i a Ha. destruct r.
    3: apply lookup_insert_Some in Ha as [[_ <-]|[_ Ha]]; [exact I|by apply Hc].
    all: apply lookup_delete_Some in Ha as [_ Ha]; by apply Hc.
  - apply Forall_app. split; [done|]. apply Forall_singleton. intros (new & Hs & Hq)%Hj.
    cbn. by rewrite Hs, drop_app_length.
  - intros i a [[<- <-]|[_ Ha]]%lookup_insert_Some; [|by apply Hc]. split; [done|].
    intros (new & Hs & Hq)%Hj v st'. eapply ends_mono; [|apply Hq]. intros l r. cbn.
    by rewrite Hs, drop_app_length, <-app_assoc.
  - done.
Qed.

Lemma set_activity_keeps i a s :
  keeps_promises s →
  match a with Parked n j k | Blocked _ n j k => on_the_way i n j k | Gone => True end →
  keeps_promises (set_activity i a s).
Proof.
  intros [Hc Hh] Ha. split; [|done]. cbn. intros i' a'. rewrite lookup_insert_Some.
  intros [[<- <-]|[_ Hl]]; [done|by apply Hc].
Qed.

Context (Hall : ∀ env v st, pre env v → ends (handle env v st) st (Q env v st)).

Lemma step_keeps s e s' : keeps_promises s → turn s e = Some s' → keeps_promises s'.
Proof.
  intros Hs. assert (Ht : ∀ t, keeps_promises (set_table t s)) by done.
  assert (Hsh : ∀ st, keeps_promises (set_shared st s)) by done.
  destruct e as [env v|i number|i|i|env task|env m|env]; cbn.
  - destruct (connections s !! writer env); [done|]. intros [= <-].
    apply settle_keeps; [apply Ht|]. intros Hpre. by apply Hall.
  - destruct (connections s !! i) as [[n j k|w n j k|]|] eqn:E; [|done..]. case_decide; [|done].
    intros [= <-]. apply set_activity_keeps; [apply Ht|]. apply (proj1 Hs i _ E).
  - destruct (connections s !! i) as [[n j k|w n j k|]|]; [done| |done..].
    case_decide; [|done]. intros [= <-]. apply Ht.
  - destruct (connections s !! i) as [[n j k|w n j k|]|] eqn:E; [done| |done..].
    destruct (Channels.results (table s) !! w) as [v|]; [|done]. intros [= <-].
    apply settle_keeps; [done|]. intros Hpre. eapply ends_mono; [|apply (proj2 (proj1 Hs i _ E) Hpre)].
    intros l r. cbn. by rewrite <-app_assoc.
  - destruct (spawned (shared s) !! task); [|done]. intros [= <-]. apply Hsh.
  - intros [= <-]. apply Hsh.
  - destruct (connections s !! writer env); [done|]. intros [= <-].
    by apply set_activity_keeps; [apply Hsh|].
Qed.

Lemma run_keeps s0 es s : execute (started s0) es = Some s → keeps_promises s.
Proof.
  apply (run_invariant s0 (λ _, keeps_promises)).
  - split; [|constructor]. intros i a. cbn. by rewrite lookup_empty.
  - intros _ s1 e s2 H1 Hst. by eapply step_keeps.
Qed.

(** What holds of every handler by itself holds of the handlers that ended in an execution. *)
Lemma history_adequate s0 es s j r :
  execute (started s0) es = Some s → (j, r) ∈ history s → pre (job_env j) (job_message j) →
  Q (job_env j) (job_message j) (job_start j) (actions j) r.
Proof.
  intros Hrun Hin. destruct (run_keeps s0 es s Hrun) as [_ Hh]. rewrite Forall_forall in Hh. apply (Hh _ Hin).
Qed.

(** The handler that waits on a channel keeps its promise from there on. *)
Lemma blocked_adequate s0 es s i w n j k :
  execute (started s0) es = Some s → connections s !! i = Some (Blocked w n j k) →
  pre (job_env j) (job_message j) → writer (job_env j) = i ∧
  ∀ v st, ends (k v st) st
    (λ l, Q (job_env j) (job_message j) (job_start j) (actions j ++ Answered n v :: l)).
Proof.
  intros Hrun Hi Hpre. destruct (run_keeps s0 es s Hrun) as [Hc _].
  destruct (Hc i _ Hi) as [Hw Hk]. split; [exact Hw|by apply Hk].
Qed.
End adequacy.

(** *** Where the jobs come from *)

(** The message of the job was received, in the state the job remembers. *)
Definition begun (s0 : world S) (es : list event) (j : job) : Prop :=
  ∃ es1 s1 es2, es = es1 ++ Receive (job_env j) (job_message j) :: es2 ∧
    execute (started s0) es1 = Some s1 ∧ job_start j = shared s1.

Definition all_begun (s0 : world S) (es : list event) (s : sys) : Prop :=
  (∀ i a, connections s !! i = Some a →
     match a with Parked _ j _ | Blocked _ _ j _ => begun s0 es j | Gone => True end) ∧
  Forall (λ p, begun s0 es p.1) (history s).

Lemma begun_more s0 es e j : begun s0 es j → begun s0 (es ++ [e]) j.
Proof.
  intros (es1 & s1 & es2 & -> & H). exists es1, s1, (es2 ++ [e]). by rewrite <-app_assoc.
Qed.

Lemma settle_begun s0 es j m s : all_begun s0 es s → begun s0 es j → all_begun s0 es (settle j m s).
Proof.
  intros [Hc Hh] Hj. destruct m as [r st|n st k]; split; cbn.
  - intros i a Ha. destruct r.
    3: apply lookup_insert_Some in Ha as [[_ <-]|[_ Ha]]; [exact I|by apply (Hc i a)].
    all: apply lookup_delete_Some in Ha as [_ Ha]; by apply (Hc i a).
  - apply Forall_app. split; [done|]. by apply Forall_singleton.
  - intros i a [[_ <-]|[_ Ha]]%lookup_insert_Some; [exact Hj|by apply (Hc i a)].
  - done.
Qed.

Lemma run_begun s0 es s : execute (started s0) es = Some s → all_begun s0 es s.
Proof.
  intros Hrun. cut (execute (started s0) es = Some s ∧ all_begun s0 es s); [by intros [_ H]|].
  revert es s Hrun. apply run_invariant.
  { split; [done|]. split; [intros i a; cbn; by rewrite lookup_empty|constructor]. }
  intros es s e s' [Hrun Hb] Ht. split; [by rewrite run_app, Hrun; cbn; rewrite Ht|].
  assert (Hm : all_begun s0 (es ++ [e]) s).
  { destruct Hb as [Hc Hh]. split.
    - intros i a Ha. specialize (Hc i a Ha). destruct a; try done; by apply begun_more.
    - eapply Forall_impl; [exact Hh|]. intros p. apply begun_more. }
  clear Hb. assert (Hset : ∀ i a t st, match a with Parked _ j _ | Blocked _ _ j _ => begun s0 (es ++ [e]) j | Gone => True end →
      all_begun s0 (es ++ [e]) (set_activity i a (set_table t (set_shared st s)))).
  { intros i a t st Ha. destruct Hm as [Hc Hh]. split; [|done]. cbn.
    intros i' a' [[_ <-]|[_ Hl]]%lookup_insert_Some; [done|by apply (Hc i' a')]. }
  destruct e as [env v|i number|i|i|env task|env m|env]; cbn in Ht.
  - destruct (connections s !! writer env); [done|]. injection Ht as <-. apply settle_begun; [exact Hm|].
    exists es, s, []. by split_and!.
  - destruct (connections s !! i) as [[n j k|w n j k|]|] eqn:E; [|done..]. case_decide; [|done].
    injection Ht as <-. apply (Hset i _ _ (shared s)). apply (proj1 Hm i _ E).
  - destruct (connections s !! i) as [[n j k|w n j k|]|]; [done| |done..]. case_decide; [|done]. by injection Ht as <-.
  - destruct (connections s !! i) as [[n j k|w n j k|]|] eqn:E; [done| |done..].
    destruct (Channels.results (table s) !! w) as [v|]; [|done]. injection Ht as <-.
    apply settle_begun; [exact Hm|]. apply (proj1 Hm i _ E).
  - destruct (spawned (shared s) !! task); [|done]. by injection Ht as <-.
  - by injection Ht as <-.
  - destruct (connections s !! writer env); [done|]. injection Ht as <-. by apply (Hset _ Gone (table s)).
Qed.

(** *** Where the responses come from *)

(** Somebody else sent [x] as a response with the number [n]. *)
Definition heard (es : list event) (i : nat) (n : N) (x : Value) : Prop :=
  ∃ env, Receive env x ∈ es ∧ writer env ≠ i ∧
    extract_command_id x = Some CommandId.DeliverSmResp ∧ cast_u32 (u64_field x "sequence_number") = n.

Lemma heard_more es e i n x : heard es i n x → heard (es ++ [e]) i n x.
Proof. intros (env & Hin & H). exists env. split; [|done]. apply elem_of_app. by left. Qed.

(** The channel [w] is open, or was used for a value in [good]. *)
Definition channel (good : option Value → Prop) (w : Channels.waiter) (n : N) (t : Channels.t) : Prop :=
  Channels.waiting t !! w = Some n ∨ ∃ v, Channels.results t !! w = Some v ∧ good v.

Lemma channel_wake good w n u r t :
  wf t → channel good w n t → (u = w → Channels.waiting t !! w = Some n → good r) →
  channel good w n (Channels.wake u r t).
Proof.
  intros Hwf Hc Hr. unfold channel. rewrite wake_waiting, wake_results.
  destruct Hc as [Hw|(v & Hv & Hg)].
  - destruct (decide (u = w)) as [->|Hne].
    + right. exists r. rewrite decide_True by (split; [done|by exists n]). split; [done|by apply Hr].
    + left. by rewrite lookup_delete_ne.
  - right. exists v. rewrite decide_False; [done|]. intros [-> Hw].
    pose proof (wf_one _ Hwf _ Hw). congruence.
Qed.

Lemma channel_lt good w n t : wf t → channel good w n t → w < Channels.next t.
Proof.
  intros Hwf [Hw|(v & Hv & _)]; apply (wf_next _ Hwf); [left|right; left]; by eexists.
Qed.

Lemma channel_insert good w n m t :
  good None → wf t → channel good w n t → channel good w n (Channels.insert m t).
Proof.
  intros Hg Hwf Hc. pose proof (channel_lt _ _ _ _ Hwf Hc) as Hlt. unfold Channels.insert.
  set (t1 := match Channels.transactions t !! m with Some _ => _ | None => _ end).
  assert (H1 : channel good w n t1) by (subst t1; case_match; [by apply channel_wake|done]).
  unfold channel. cbn. rewrite lookup_insert_ne by lia. exact H1.
Qed.

Lemma channel_received (good : option Value → Prop) w n m x t :
  wf t → channel good w n t → (m = n → good (Some x)) →
  channel good w n (Channels.response_received m x t).
Proof.
  intros Hwf Hc Hx. unfold Channels.response_received.
  destruct (Channels.transactions t !! m) as [u|] eqn:E; [|done].
  apply channel_wake; [by apply wf_remove|done|]. intros -> Hw. apply Hx. symmetry.
  by apply (wf_own _ Hwf m w n).
Qed.

Lemma channel_timeout (good : option Value → Prop) w n u t :
  good None → wf t → channel good w n t → channel good w n (TransactionResponseManager.timeout u t).
Proof.
  intros Hg Hwf Hc. unfold TransactionResponseManager.timeout.
  destruct (Channels.waiting t !! u); [|done]. rewrite wake_transactions.
  case_match; [|by apply channel_wake].
  apply channel_wake; [by apply wf_remove, wf_wake| |done]. by apply (channel_wake good w n u None t).
Qed.

(** Every answer of a handler came from another connection, and so does what is on the channel
    it waits on. *)
Definition answers_heard (es : list event) (i : nat) (l : list action) : Prop :=
  ∀ n x, Answered n (Some x) ∈ l → heard es i n x.

Definition channel_heard (es : list event) (i : nat) (n : N) (v : option Value) : Prop :=
  ∀ x, v = Some x → heard es i n x.

Record sound_system (es : list event) (s : sys) : Prop := {
  system_wf : wf (table s);
  system_served : served (table s);
  system_activity : ∀ i a, connections s !! i = Some a →
    match a with
    | Parked n j _ => writer (job_env j) = i ∧ answers_heard es i (actions j)
    | Blocked w n j _ => writer (job_env j) = i ∧ answers_heard es i (actions j) ∧
                         channel (channel_heard es i n) w n (table s)
    | Gone => True
    end;
  system_distinct : ∀ i i' w n n' j j' k k',
    connections s !! i = Some (Blocked w n j k) → connections s !! i' = Some (Blocked w n' j' k') → i = i';
  system_history : Forall (λ p, answers_heard es (writer (job_env p.1)) (actions p.1)) (history s);
}.

Lemma channel_mono (good good' : option Value → Prop) w n t :
  (∀ v, good v → good' v) → channel good w n t → channel good' w n t.
Proof. intros Hg [Hw|(v & Hv & H)]; [by left|right; exists v; auto]. Qed.

Lemma answers_heard_more es e i l : answers_heard es i l → answers_heard (es ++ [e]) i l.
Proof. intros H n x Hin. by apply heard_more, H. Qed.

Lemma sound_more es e s : sound_system es s → sound_system (es ++ [e]) s.
Proof.
  intros [Hwf Hsv Hact Hd Hh]. split; [done|done| |done|].
  - intros i a Ha. specialize (Hact i a Ha). destruct a as [n j k|w n j k|]; [| |done].
    + destruct Hact. split; [done|by apply answers_heard_more].
    + destruct Hact as (? & ? & Hc). split_and!; [done|by apply answers_heard_more|].
      revert Hc. apply channel_mono. intros v Hv x Hx. by apply heard_more, Hv.
  - eapply Forall_impl; [exact Hh|]. intros p. apply answers_heard_more.
Qed.

Lemma sound_table es s t :
  sound_system es s → wf t → served t →
  (∀ i w n j k, connections s !! i = Some (Blocked w n j k) →
     channel (channel_heard es i n) w n (table s) → channel (channel_heard es i n) w n t) →
  sound_system es (set_table t s).
Proof.
  intros [Hwf Hsv Hact Hh] Hwf' Hsv' Ht. split; [done|done| |done|done].
  intros i a Ha. specialize (Hact i a Ha). destruct a as [n j k|w n j k|]; [done| |done].
  destruct Hact as (? & ? & Hc). split_and!; [done..|]. by eapply Ht.
Qed.

Lemma answers_wrote es i (l : list action) new :
  answers_heard es i l → answers_heard es i (l ++ (Wrote <$> new)).
Proof.
  intros Hl n x [Hin|Hin]%elem_of_app; [by apply Hl|].
  apply list_elem_of_fmap in Hin as (p & Hp & _). discriminate.
Qed.

(** Settling blocks nobody. *)
Lemma settle_blocked j m s i w n j' k' :
  connections (settle j m s) !! i = Some (Blocked w n j' k') → connections s !! i = Some (Blocked w n j' k').
Proof.
  destruct m as [[| |] st|n0 st k]; cbn.
  1,2: by intros [_ Ha]%lookup_delete_Some.
  all: by intros [[_ Ha]|[_ Ha]]%lookup_insert_Some.
Qed.

Lemma sound_settle es j m s :
  sound_system es s → answers_heard es (writer (job_env j)) (actions j) →
  sound_system es (settle j m s).
Proof.
  intros [Hwf Hsv Hact Hd Hh] Hj. split; [by destruct m|by destruct m| | |].
  - intros i a. destruct m as [r st|n st k]; cbn.
    + intros Ha. destruct r.
      3: apply lookup_insert_Some in Ha as [[_ <-]|[_ Ha]]; [exact I|by apply (Hact i a)].
      all: apply lookup_delete_Some in Ha as [_ Ha]; by apply (Hact i a).
    + intros [[<- <-]|[_ Ha]]%lookup_insert_Some; [|by apply (Hact i a)].
      split; [done|]. by apply answers_wrote.
  - intros i i' w n n' j1 j2 k1 k2 H1%settle_blocked H2%settle_blocked. by eapply Hd.
  - destruct m as [r st|n st k]; [|done]. cbn. apply Forall_app. split; [done|].
    apply Forall_singleton. by apply answers_wrote.
Qed.

Lemma sound_activity es i a s :
  sound_system es s →
  match a with
  | Parked n j _ => writer (job_env j) = i ∧ answers_heard es i (actions j)
  | Blocked w n j _ => writer (job_env j) = i ∧ answers_heard es i (actions j) ∧
                       channel (channel_heard es i n) w n (table s) ∧
                       ∀ i' n' j' k', connections s !! i' ≠ Some (Blocked w n' j' k')
  | Gone => True
  end → sound_system es (set_activity i a s).
Proof.
  intros [Hwf Hsv Hact Hd Hh] Ha. split; [done|done| | |done]; cbn.
  - intros i' a' [[<- <-]|[_ Hl]]%lookup_insert_Some; [|by apply (Hact i' a')].
    destruct a as [n j k|w n j k|]; [done| |done]. by destruct Ha as (? & ? & ? & _).
  - intros i1 i2 w n n' j j' k k' [[<- ->]|[_ H1]]%lookup_insert_Some
      [[<- Heq]|[_ H2]]%lookup_insert_Some; [done| | |by eapply Hd].
    + destruct Ha as (_ & _ & _ & Hno). by destruct (Hno _ _ _ _ H2).
    + subst a. destruct Ha as (_ & _ & _ & Hno). by destruct (Hno _ _ _ _ H1).
Qed.

Lemma sound_shared es s st : sound_system es s → sound_system es (set_shared st s).
Proof. intros [Hwf Hsv Hact Hd Hh]. by split. Qed.

Lemma system_step es s e s' : sound_system es s → turn s e = Some s' → sound_system (es ++ [e]) s'.
Proof.
  intros Hs. assert (Hm : sound_system (es ++ [e]) s) by (by apply sound_more).
  pose proof (system_wf _ _ Hm) as Hwf. pose proof (system_served _ _ Hm) as Hsv.
  destruct e as [env v|i number|i|i|env task|env m|env]; cbn.
  - destruct (connections s !! writer env) eqn:Ei; [done|]. intros [= <-].
    apply sound_settle; [|by intros n x Hin%elem_of_nil]. unfold hand_over.
    assert (Hsame : sound_system (es ++ [Receive env v]) (set_table (table s) s)) by (by apply sound_table).
    destruct (extract_command_id v) as [[]|] eqn:Ec; try exact Hsame. clear Hsame.
    apply sound_table; [done|by apply wf_received|by apply served_received|].
    intros i w n j k Hi Hc. apply channel_received; [done|done|]. intros Hn x [= <-].
    exists env. split_and!; [apply elem_of_app; right; by apply list_elem_of_singleton| |done|done].
    intros Heq. congruence.
  - destruct (connections s !! i) as [[n j k|w n j k|]|] eqn:Ei; [|done..]. case_decide; [|done]. intros [= <-].
    destruct (system_activity _ _ Hm i _ Ei) as [Hj Ha]. apply sound_activity.
    + apply sound_table; [done|by apply wf_insert|by apply served_insert|].
      intros i' w' n' j' k' _ Hc. by apply channel_insert.
    + split_and!; [done..|left; apply waiting_insert|]. cbn. intros i' n' j' k' Hi'.
      destruct (system_activity _ _ Hm i' _ Hi') as (_ & _ & Hc).
      pose proof (channel_lt _ _ _ _ Hwf Hc). lia.
  - destruct (connections s !! i) as [[n j k|w n j k|]|]; [done| |done..].
    case_decide; [|done]. intros [= <-].
    destruct (step_inv (table s) (Channels.Timeout w) Hwf Hsv) as [Hwf' Hsv'].
    apply sound_table; [done|exact Hwf'|exact Hsv'|]. intros i' w' n' j' k' _ Hc. by apply channel_timeout.
  - destruct (connections s !! i) as [[n j k|w n j k|]|] eqn:Ei; [done| |done..].
    destruct (Channels.results (table s) !! w) as [v|] eqn:Er; [|done]. intros [= <-].
    destruct (system_activity _ _ Hm i _ Ei) as (Hj & Ha & Hc). apply sound_settle; [done|].
    cbn. rewrite Hj. intros n' x [Hin|Hin%list_elem_of_singleton]%elem_of_app; [by apply Ha|].
    injection Hin as -> Hx. destruct Hc as [Hw|(u & Hu & Hg)].
    + pose proof (wf_one _ Hwf w (ex_intro _ n Hw)). congruence.
    + apply (Hg x). congruence.
  - destruct (spawned (shared s) !! task); [|done]. intros [= <-]. by apply sound_shared.
  - intros [= <-]. by apply sound_shared.
  - destruct (connections s !! writer env); [done|]. intros [= <-].
    by apply sound_activity; [apply sound_shared|].
Qed.

Lemma run_sound s0 es s : execute (started s0) es = Some s → sound_system es s.
Proof.
  apply run_invariant.
  - split; [apply wf_start|by intros w n; cbn; rewrite lookup_empty| | |constructor];
      intros i; cbn; intros *; by rewrite lookup_empty.
  - apply system_step.
Qed.

End system.
Arguments sys : clear implicits.
Arguments job : clear implicits.
