(* ===== verification/Receipts.v ===== *)
(** * Delivery receipts (src/smsc_client/delivery_receipt_manager.rs)

    Where to post the receipts of a message the client sent: a url per message id, with
    what was requested, what has come so far and when the entry expires. Instants are
    milliseconds in [Z]; the reads of the clock inside one operation are the same instant
    [now]. *)
From S2P Require Export EsmClass RegisteredDelivery Json.

Module DeliveryReceiptManager.

Record entry : Type := mkEntry {
  receipt_url : string;
  registered_delivery : RegisteredDelivery.t;
  esm_class : EsmClass.t;
  expire_time : Z;
}.

Record t : Type := mk {
  receipt_urls : gmap string entry;
  next_clean_time : Z;
}.

Definition minutes (n : Z) : Z := (n * 60000)%Z.
Definition hours (n : Z) : Z := (n * 3600000)%Z.

Definition new (now : Z) : t := mk ∅ (now + minutes 5).

Definition clean_expired_entries (now : Z) (s : t) : t :=
  if (now <? next_clean_time s)%Z then s
  else mk (filter (λ e, (now < expire_time e.2)%Z) (receipt_urls s)) (now + minutes 5).

(** Nothing requested at all. *)
Definition no_receipt (r : RegisteredDelivery.t) : bool :=
  bool_decide (RegisteredDelivery.delivery_receipt r = DeliveryReceipt.NoRequested)
  && bool_decide (RegisteredDelivery.intermediate_notification r = IntermediateNotification.NoRequested)
  && bool_decide (RegisteredDelivery.sme_acked r = SMEOriginatedAcknowledgement.NoRequested).

Definition register_receipt_url (now : Z) (message_id receipt_url : string)
    (registered_delivery : RegisteredDelivery.t) (s : t) : t :=
  if no_receipt registered_delivery then s
  else
    let s := clean_expired_entries now s in
    mk (<[message_id := mkEntry receipt_url registered_delivery EsmClass.default (now + hours 1)]>
          (receipt_urls s)) (next_clean_time s).

Definition is_all_receipt_requested (registered_delivery : RegisteredDelivery.t)
    (esm_class : EsmClass.t) : bool :=
  if DeliveryReceipt.is_delivery_receipt_requested
       (RegisteredDelivery.delivery_receipt registered_delivery)
     && bool_decide (EsmClass.message_type esm_class ≠ MessageType.DeliveryReceipt)
  then false
  else if bool_decide (RegisteredDelivery.intermediate_notification registered_delivery
                       = IntermediateNotification.Requested)
          && bool_decide (EsmClass.message_type esm_class
                          ≠ MessageType.IntermediateDeliveryNotification)
  then false
  else if SMEOriginatedAcknowledgement.is_sme_ack_requested
            (RegisteredDelivery.sme_acked registered_delivery)
          && negb (Ansi41Specific.is_delivery_ack (EsmClass.ansi41_specific esm_class))
  then false
  else true.

(** The stored class is merged in place, the test reads the incoming one. *)
Definition get_receipt_url (now : Z) (message_id : string) (incoming : EsmClass.t) (s : t) :
    option string * t :=
  match receipt_urls s !! message_id with
  | Some e =>
      let url := if (now <? expire_time e)%Z then Some (receipt_url e) else None in
      let e' := mkEntry (receipt_url e) (registered_delivery e)
                  (EsmClass.merge_from (esm_class e) incoming) (expire_time e) in
      let urls := <[message_id := e']> (receipt_urls s) in
      (url, mk (if is_all_receipt_requested (registered_delivery e) incoming
                then delete message_id urls else urls) (next_clean_time s))
  | None => (None, s)
  end.

Definition remove_receipt_info (message_id : string) (s : t) : t :=
  mk (delete message_id (receipt_urls s)) (next_clean_time s).

End DeliveryReceiptManager.
Import DeliveryReceiptManager.

(** ** Operations in sequence *)

Inductive op : Type :=
| Register (message_id url : string) (r : RegisteredDelivery.t)
| Lookup (message_id : string) (incoming : EsmClass.t)
| Remove (message_id : string).

Definition apply_op (now : Z) (o : op) (s : t) : t :=
  match o with
  | Register id url r => register_receipt_url now id url r s
  | Lookup id c => (get_receipt_url now id c s).2
  | Remove id => remove_receipt_info id s
  end.

(** Each operation with its instant. *)
Definition apply_ops (ops : list (Z * op)) (s : t) : t :=
  foldl (λ s '(now, o), apply_op now o s) s ops.

Definition op_id (o : op) : string :=
  match o with Register id _ _ | Lookup id _ | Remove id => id end.

Lemma clean_lookup now s id e :
  receipt_urls s !! id = Some e → (now < expire_time e)%Z →
  receipt_urls (clean_expired_entries now s) !! id = Some e.
Proof.
  intros He Ht. unfold clean_expired_entries. destruct (_ <? _)%Z; [done|]. simpl.
  apply map_lookup_filter_Some. done.
Qed.

Lemma apply_op_other now o s id e :
  op_id o ≠ id → (now < expire_time e)%Z → receipt_urls s !! id = Some e →
  receipt_urls (apply_op now o s) !! id = Some e.
Proof.
  intros Hid Ht He. destruct o as [k url r|k c|k]; simpl in *.
  - unfold register_receipt_url. destruct (no_receipt r); [done|]. simpl.
    rewrite lookup_insert_ne by done. by apply clean_lookup.
  - unfold get_receipt_url. destruct (receipt_urls s !! k); [|done]. simpl.
    destruct (is_all_receipt_requested _ _); rewrite ?lookup_delete_ne, lookup_insert_ne by done; done.
  - by rewrite lookup_delete_ne.
Qed.

(** C32: a receipt within the hour finds its url: after a message asked for any receipt, and
    whatever is registered, looked up and removed for other messages meanwhile, the first
    lookup before the hour is over returns the url that was registered. *)
Theorem receipt_found t0 now id url r ops s c :
  no_receipt r = false → Forall (λ x, op_id x.2 ≠ id ∧ (x.1 < t0 + hours 1)%Z) ops →
  (now < t0 + hours 1)%Z →
  (get_receipt_url now id c (apply_ops ops (register_receipt_url t0 id url r s))).1 = Some url.
Proof.
  intros Hr Hops Hnow.
  set (e := mkEntry url r EsmClass.default (t0 + hours 1)).
  assert (He : receipt_urls (register_receipt_url t0 id url r s) !! id = Some e).
  { unfold register_receipt_url. rewrite Hr. simpl. by rewrite lookup_insert_eq. }
  generalize dependent (register_receipt_url t0 id url r s). clear s.
  induction Hops as [|[t1 o] ops [Hid Ht] _ IH]; intros s He; simpl.
  - unfold get_receipt_url. rewrite He. simpl. by rewrite (proj2 (Z.ltb_lt _ _)).
  - apply IH. by apply apply_op_other.
Qed.

(** An entry that asks for two kinds of receipt is never complete: the test reads the
    class of the receipt that just came and not the merged one, so no sequence of receipts
    removes the entry. *)
Theorem two_receipts_never_complete s id e lookups :
  receipt_urls s !! id = Some e →
  DeliveryReceipt.is_delivery_receipt_requested
    (RegisteredDelivery.delivery_receipt (registered_delivery e)) = true →
  RegisteredDelivery.intermediate_notification (registered_delivery e)
    = IntermediateNotification.Requested →
  is_Some (receipt_urls (apply_ops ((λ x, (x.1, Lookup id x.2)) <$> lookups) s) !! id).
Proof.
  intros He Hd Hi. revert s e He Hd Hi.
  induction lookups as [|[now c] lookups IH]; intros s e He Hd Hi; [by exists e|]. simpl.
  assert (Hfalse : is_all_receipt_requested (registered_delivery e) c = false).
  { unfold is_all_receipt_requested. rewrite Hd, Hi.
    destruct (EsmClass.message_type c); reflexivity. }
  eapply (IH _ (mkEntry (receipt_url e) (registered_delivery e)
                  (EsmClass.merge_from (esm_class e) c) (expire_time e))); [|done|done].
  unfold get_receipt_url. rewrite He, Hfalse. simpl. by rewrite lookup_insert_eq.
Qed.

(** *** Witnesses *)

Definition both : RegisteredDelivery.t :=
  RegisteredDelivery.mk DeliveryReceipt.RequestedWhenDeliverySuccess
    SMEOriginatedAcknowledgement.NoRequested IntermediateNotification.Requested.

Definition receipt_class : EsmClass.t :=
  EsmClass.mk MessageMode.Default MessageType.DeliveryReceipt Ansi41Specific.Unknown
    GSMSpecific.NoSpecific.

Lemma receipt_found_witness :
  (get_receipt_url 5000 "m1" receipt_class
     (apply_ops [(2000%Z, Register "m2" "u2" both); (3000%Z, Remove "m2")]
        (register_receipt_url 1000 "m1" "u1" both (new 0)))).1 = Some "u1".
Proof.
  apply receipt_found.
  - reflexivity.
  - repeat (apply Forall_cons; split; [split; [discriminate|simpl; unfold hours; lia]|]).
    by apply Forall_nil.
  - unfold hours. lia.
Defined.

Lemma two_receipts_never_complete_witness :
  is_Some (receipt_urls (apply_ops ((λ x, (x.1, Lookup "m1" x.2)) <$> [(5000%Z, receipt_class)])
    (register_receipt_url 1000 "m1" "u1" both (new 0))) !! "m1").
Proof.
  eapply (two_receipts_never_complete _ "m1" (mkEntry "u1" both EsmClass.default 3601000)
            [(5000%Z, receipt_class)]); vm_compute; reflexivity.
Defined.
