(* ===== verification/ClientConnection.v ===== *)
(** * One connection to an SMSC (src/smsc_client/smsc_connection.rs)

    [SmscConnection] binds, answers what the SMSC sends and carries the requests of the
    REST side. The write half of the socket is behind a lock that a request keeps until
    its response comes, so a computation may have to wait ([AsyncM]), and the interleaving
    of the read loop with the requests is a step function over events ([step]). The answers
    of the message handler and the bytes read are inputs. *)
From S2P Require Export Message Handlers Responses Receipts.

(** ** Computations that may wait

    [None]: the task is still waiting for a lock; nothing has happened yet and it is tried
    again when the state has changed. *)
Definition AsyncM (T A : Type) : Type := T → option (ioresult A * T).

#[export] Instance AsyncM_ret T : MRet (AsyncM T) := λ A a s, Some (Ok a, s).
#[export] Instance AsyncM_bind T : MBind (AsyncM T) := λ A B f m s,
  match m s with
  | Some (Ok a, s') => f a s'
  | Some (Err e, s') => Some (Err e, s')
  | Some (Panic, s') => Some (Panic, s')
  | None => None
  end.

Definition async_lift {T A} (r : ioresult A) : AsyncM T A := λ s, Some (r, s).
Definition async_modify {T} (f : T → T) : AsyncM T unit := λ s, Some (Ok tt, f s).

(** ** Addresses *)

(** [str::rfind] of an ASCII character, in bytes. *)
Fixpoint rfind (c : byte) (l : bytes) : option nat :=
  match l with
  | [] => None
  | b :: l' =>
      match rfind c l' with
      | Some i => Some (S i)
      | None => if decide (b = c) then Some 0 else None
      end
  end.

(** [parse::<u16>()] *)
Definition parse_u16 (l : bytes) : option N := from_str_radix 10 (2 ^ 16) l.

Definition parse_host_port (address : string) : string * N :=
  let l := as_bytes address in
  match rfind x3a l with
  | Some colon_pos =>
      (of_bytes (take colon_pos l), default 0%N (parse_u16 (drop (colon_pos + 1) l)))
  | None => (address, 0%N)
  end.

Module SmscConnection.

(** ** Configuration and state *)

Record params : Type := mkParams {
  bind_type : string;
  session_init_timer : N;
  enquire_link_timer : N;
  inactive_timer : N;
  response_timer : N;
  config : SmscConnectionConfig.t;
}.

(** [socket]: the write half, if there is one, and whether it takes a write. [holder]: the
    request that holds its lock, by the number of its channel. [callbacks] is the table of
    the response manager. [active_connections] and [inbound_messages] are the two metrics;
    [receipt_posts] are the receipts handed to tasks that post them. *)
Record state : Type := mkState {
  next_sequence : N;
  receipts : DeliveryReceiptManager.t;
  socket : option bool;
  holder : option Channels.waiter;
  callbacks : Channels.t;
  sent : list bytes;
  receipt_posts : list (string * Value);
  inbound_messages : N;
  active_connections : Z;
}.

Definition new (next_sequence : N) (receipts : DeliveryReceiptManager.t) : state :=
  mkState next_sequence receipts None None Channels.new [] [] 0 0.

Definition get_address (c : params) : string := SmscConnectionConfig.address (config c).

Definition set_holder (h : option Channels.waiter) (s : state) : state :=
  mkState (next_sequence s) (receipts s) (socket s) h (callbacks s) (sent s) (receipt_posts s)
    (inbound_messages s) (active_connections s).
Definition set_callbacks (c : Channels.t) (s : state) : state :=
  mkState (next_sequence s) (receipts s) (socket s) (holder s) c (sent s) (receipt_posts s)
    (inbound_messages s) (active_connections s).
Definition set_receipts (r : DeliveryReceiptManager.t) (s : state) : state :=
  mkState (next_sequence s) r (socket s) (holder s) (callbacks s) (sent s) (receipt_posts s)
    (inbound_messages s) (active_connections s).
Definition set_socket (k : option bool) (s : state) : state :=
  mkState (next_sequence s) (receipts s) k (holder s) (callbacks s) (sent s) (receipt_posts s)
    (inbound_messages s) (active_connections s).
Definition push_sent (b : bytes) (s : state) : state :=
  mkState (next_sequence s) (receipts s) (socket s) (holder s) (callbacks s) (sent s ++ [b])
    (receipt_posts s) (inbound_messages s) (active_connections s).
Definition push_receipt (url : string) (v : Value) (s : state) : state :=
  mkState (next_sequence s) (receipts s) (socket s) (holder s) (callbacks s) (sent s)
    (receipt_posts s ++ [(url, v)]) (inbound_messages s) (active_connections s).
Definition inc_inbound (s : state) : state :=
  mkState (next_sequence s) (receipts s) (socket s) (holder s) (callbacks s) (sent s)
    (receipt_posts s) (inbound_messages s + 1) (active_connections s).
Definition add_active (d : Z) (s : state) : state :=
  mkState (next_sequence s) (receipts s) (socket s) (holder s) (callbacks s) (sent s)
    (receipt_posts s) (inbound_messages s) (active_connections s + d)%Z.

Abbreviation M := (AsyncM state).

(** [self.seq_allocator.next()] *)
Definition next_sequence_number : M N := λ s,
  let '(n, c) := SequenceNumberAllocator.next (next_sequence s) in
  Some (Ok n, mkState c (receipts s) (socket s) (holder s) (callbacks s) (sent s)
                (receipt_posts s) (inbound_messages s) (active_connections s)).

(** What the connection asks of the outside: the clock, the message handler and, for a
    request, what its channel gives within [response_timer]: nothing in time, the sender
    dropped ([Some None]) or a response. *)
Record Env : Type := mkEnv {
  now : Z;
  handle_message : Value → ioresult Value;
  await_channel : N → option (option Value);
}.

(** ** Sending *)

(** [self.writer.lock().await] *)
Definition lock_writer : M unit := λ s,
  match holder s with Some _ => None | None => Some (Ok tt, s) end.

(** [if let Some(ref mut writer) = *writer { writer.write_all(b).await? } else { Err }] *)
Definition write_all (b : bytes) : M unit := λ s,
  match socket s with
  | Some true => Some (Ok tt, push_sent b s)
  | Some false => Some (io_err Other "write failed", s)
  | None => Some (io_err NotConnected "SMSC writer not available", s)
  end.

(** The requests whose response is waited for: all but enquire_link. *)
Definition expects_response (message : SMPPMessage.t) : bool :=
  SMPPMessage.is_request message
  && negb (default 0%N (SMPPMessage.get_command_id message)
           =? CommandId.as_u32 CommandId.EnquireLink)%N.

Definition register_callback (seq_num : N) : M unit :=
  async_modify (λ s, set_callbacks (Channels.insert seq_num (callbacks s)) s).

(** The channel's answer as the caller gets it. *)
Definition wait_response (answer : option (option Value)) : ioresult Value :=
  match answer with
  | Some (Some resp) => Ok resp
  | Some None => io_err Other "Failed to receive response"
  | None => io_err TimedOut "Timeout waiting for response"
  end.

Definition send_message (env : Env) (message : SMPPMessage.t) : M (option Value) :=
  let seq_num := default 0%N (SMPPMessage.get_sequence_number message) in
  let waits := expects_response message in
  (if waits then register_callback seq_num else mret tt) ≫= λ _,
  lock_writer ≫= λ _,
  write_all (SMPPMessage.to_vec message) ≫= λ _,
  if waits
  then response ← async_lift (wait_response (await_channel env seq_num)); mret (Some response)
  else mret None.

(** ** Binding *)

Definition bind_command_id (bind_type : string) : CommandId.t :=
  if decide (bind_type = "transmitter") then CommandId.BindTransmitter
  else if decide (bind_type = "receiver") then CommandId.BindReceiver
  else if decide (bind_type = "transceiver") then CommandId.BindTransceiver
  else CommandId.BindTransceiver.

(** The bytes before [update_length], which panics on less than a length field. *)
Definition bind_message_bytes (c : params) (seq_num : N) : bytes :=
  let cfg := config c in
  let buffer := SMPPMessage.write_u32 0 [] in
  let buffer := SMPPMessage.write_u32 (CommandId.as_u32 (bind_command_id (bind_type c))) buffer in
  let buffer := SMPPMessage.write_u32 0 buffer in
  let buffer := SMPPMessage.write_u32 seq_num buffer in
  let buffer := SMPPMessage.write_c_octet_str (SmscConnectionConfig.system_id cfg) buffer in
  let buffer := SMPPMessage.write_c_octet_str (SmscConnectionConfig.password cfg) buffer in
  let buffer := SMPPMessage.write_c_octet_str (SmscConnectionConfig.system_type cfg) buffer in
  let buffer := SMPPMessage.write_u8 (SmscConnectionConfig.interface_version cfg) buffer in
  let buffer := SMPPMessage.write_u8 (SmscConnectionConfig.addr_ton cfg) buffer in
  let buffer := SMPPMessage.write_u8 (SmscConnectionConfig.addr_npi cfg) buffer in
  SMPPMessage.write_c_octet_str (SmscConnectionConfig.address_range cfg) buffer.

Definition create_bind_message (c : params) : M SMPPMessage.t :=
  seq_num ← next_sequence_number;
  async_lift (SMPPMessage.update_length (SMPPMessage.from_bytes_mut (bind_message_bytes c seq_num))).

Definition is_bind_ok (response : Value) : bool :=
  match extract_command_id response with
  | Some (CommandId.BindTransmitterResp | CommandId.BindReceiverResp
         | CommandId.BindTransceiverResp) =>
      (default (CommandStatus.as_u32 CommandStatus.EsmeRInvBndSts)
         (get_u64 response "command_status")
       =? CommandStatus.as_u32 CommandStatus.EsmeRok)%N
  | _ => false
  end.

(** What a read gives: [Ok(n)] with the [n] bytes (none at the end of the stream), or an
    error. *)
Inductive read_result : Type :=
| WouldBlock
| ReadFailed (e : io_error)
| ReadBytes (b : bytes).

Section connection.
Context `{B64 : Base64, Tlv : TlvOrder}.

(** One turn of the bind loop on a readable socket: an error of the read is ignored and the
    end of the stream is a read of no bytes. [None]: the loop goes on. *)
Definition bind_turn (r : read_result) (buffer : SmppMessageBuffer.t) :
    option (ioresult unit) * SmppMessageBuffer.t :=
  match r with
  | ReadBytes b =>
      match SmppMessageBuffer.extract_message (SmppMessageBuffer.write b buffer) with
      | (Some message, buffer) =>
          (Some (match to_json message with
                 | Ok response =>
                     if is_bind_ok response then Ok tt else io_err Other "Bind failed"
                 | Err _ => io_err Other "Failed to decode bind response"
                 | Panic => Panic
                 end), buffer)
      | (None, buffer) => (None, buffer)
      end
  | WouldBlock | ReadFailed _ => (None, buffer)
  end.

(** The loop over the reads, each with the milliseconds since the turn before: the sleep of
    the [select!] is created anew in every turn, so the time that counts is that of one
    turn. [None]: still waiting when the reads end. *)
Fixpoint bind_loop (session_init_timer : N) (reads : list (N * read_result))
    (buffer : SmppMessageBuffer.t) : option (ioresult unit * SmppMessageBuffer.t) :=
  match reads with
  | [] => None
  | (idle, r) :: reads' =>
      if (session_init_timer * 1000 <=? idle)%N
      then Some (io_err TimedOut "Timeout waiting for bind response", buffer)
      else
        match bind_turn r buffer with
        | (Some result, buffer) => Some (result, buffer)
        | (None, buffer) => bind_loop session_init_timer reads' buffer
        end
  end.

(** [do_bind]; the outer [None] of the result is the loop that is still waiting. *)
Definition do_bind (c : params) (reads : list (N * read_result)) (buffer : SmppMessageBuffer.t) :
    M (option SmppMessageBuffer.t) :=
  bind_message ← create_bind_message c;
  lock_writer ≫= λ _,
  write_all (SMPPMessage.to_vec bind_message) ≫= λ _,
  match bind_loop (session_init_timer c) reads buffer with
  | Some (Ok _, buffer) => mret (Some buffer)
  | Some (Err e, _) => async_lift (Err e)
  | Some (Panic, _) => async_lift Panic
  | None => mret None
  end.

(** ** The messages of the SMSC *)

Definition enquire_link_message (seq_num : N) : Value :=
  JObject (jextend [("command_id", JString "0x00000015"); ("command_status", jnum 0);
                    ("sequence_number", jnum seq_num)] []).

(** A failed encoding becomes an empty message. *)
Definition enquire_link_pdu : M SMPPMessage.t :=
  seq_num ← next_sequence_number;
  async_lift (match from_json (enquire_link_message seq_num) with
              | Ok m => Ok m | Err _ => Ok (SMPPMessage.new []) | Panic => Panic end).

Definition send_enquire_link (env : Env) : M unit :=
  message ← enquire_link_pdu; send_message env message ≫= λ _, mret tt.

(** [try_read] and the drain loop; the outer [None] is the drain loop that never ends. *)
Definition read_messages (r : read_result) (buffer : SmppMessageBuffer.t) :
    option (ioresult (option (list SMPPMessage.t)) * SmppMessageBuffer.t) :=
  match r with
  | WouldBlock => Some (Ok None, buffer)
  | ReadFailed e => Some (Err e, buffer)
  | ReadBytes [] => Some (io_err UnexpectedEof "SMSC connection closed", buffer)
  | ReadBytes b =>
      '(messages, buffer) ← SmppMessageBuffer.extract_all (SmppMessageBuffer.write b buffer);
      Some (Ok (Some messages), buffer)
  end.

Definition enquire_link_resp_message (seq_num : N) : Value :=
  JObject (jextend [("command_id", JString "0x80000015"); ("command_status", jnum 0);
                    ("sequence_number", jnum seq_num)] []).

Definition process_enquire_link (env : Env) (message : SMPPMessage.t) : M unit :=
  let seq_num := default 0%N (SMPPMessage.get_sequence_number message) in
  encoded_resp_message ← async_lift (from_json (enquire_link_resp_message seq_num));
  send_message env encoded_resp_message ≫= λ _, mret tt.

Definition send_deliver_sm_resp (env : Env) (sequence_number command_id command_status : N) :
    M unit :=
  let response :=
    create_json_response command_id sequence_number command_status [("message_id", JString "")] in
  v ← async_lift (map_err (λ _, IoError InvalidData "Failed to encode response")
                    (from_json response));
  send_message env v ≫= λ _, mret tt.

(** The status the handler's answer asks for. *)
Definition handler_status (r : ioresult Value) : ioresult N :=
  match r with
  | Ok response =>
      Ok (cast_u32 (match get response "command_status" with
                    | Some v => default 0%N (as_u64 v) | None => 0%N end))
  | Err _ => Ok (CommandStatus.as_u32 CommandStatus.EsmeRSysErr)
  | Panic => Panic
  end.

Definition lookup_receipt (env : Env) (receipted_message_id : string) (esm_class : EsmClass.t) :
    M (option string) := λ s,
  let '(url, r) :=
    DeliveryReceiptManager.get_receipt_url (now env) receipted_message_id esm_class (receipts s) in
  Some (Ok url, set_receipts r s).

(** A receipt with a registered url is posted and not answered. *)
Definition handle_deliver_sm (env : Env) (message : SMPPMessage.t) (decoded_message : Value) :
    M unit :=
  async_modify inc_inbound ≫= λ _,
  let receipted_message_id := str_field decoded_message "receipted_message_id" in
  let ems_class := cast_u8 (u64_field decoded_message "esm_class") in
  let esm_class := default EsmClass.default (EsmClass.from_u8 ems_class) in
  receipt_url ← (if Nat.ltb 0 (str_len receipted_message_id)
                 then lookup_receipt env receipted_message_id esm_class else mret None);
  match receipt_url with
  | Some url => async_modify (push_receipt url decoded_message)
  | None =>
      command_status ← async_lift (handler_status (handle_message env decoded_message));
      send_deliver_sm_resp env (default 0%N (SMPPMessage.get_sequence_number message))
        (default 0%N (SMPPMessage.get_command_id message)) command_status
  end.

Definition process_in_message (env : Env) (message : SMPPMessage.t) : M unit :=
  let sequence_number := default 0%N (SMPPMessage.get_sequence_number message) in
  let command_id := default CommandId.Unknown
    (CommandId.from_u32 (default 0%N (SMPPMessage.get_command_id message))) in
  match to_json message with
  | Ok decoded_message =>
      match command_id with
      | CommandId.EnquireLink => process_enquire_link env message
      | CommandId.EnquireLinkResp => mret tt
      | CommandId.DeliverSm | CommandId.DataSm => handle_deliver_sm env message decoded_message
      | CommandId.AlertNotification => mret tt
      | CommandId.GenericNack => mret tt
      | _ =>
          if CommandId.is_response command_id
          then async_modify (λ s, set_callbacks
                 (Channels.response_received sequence_number decoded_message (callbacks s)) s)
          else mret tt
      end
  | Err _ => async_lift (io_err InvalidData "Failed to decode message from SMSC")
  | Panic => async_lift Panic
  end.

End connection.
End SmscConnection.
