(* ===== verification/ClientLoop.v ===== *)
(** * The life of a client connection (src/smsc_client/smsc_connection.rs, [connect_smsc_to]
      and [run])

    The read loop of a connection and the requests of the REST side are tasks that meet at
    the lock of the writer and at the table of the response manager. [step] is one event of
    one of them: the start of a request, its getting the lock, the end of its wait, a read,
    the processing of one message, a timer. [run_once] is one turn of the reconnection loop
    with its alarms. *)
From S2P Require Export ClientConnection.

Module ConnectionLoop.
Import SmscConnection.

(** [requests]: every request that was started, by the number of its channel, with its
    result in [done] when it has one. [inbox]: the messages of the last read that the loop
    has still to process; [enquiring]: the enquire_link it has made and not yet sent.
    [processed] keeps those it has processed, for the statements.
    [loop_end]: how the loop ended. *)
Record sys : Type := mkSys {
  conn : state;
  requests : gmap Channels.waiter SMPPMessage.t;
  done : gmap Channels.waiter (ioresult Value);
  inbox : list SMPPMessage.t;
  processed : list SMPPMessage.t;
  enquiring : option SMPPMessage.t;
  buffer : SmppMessageBuffer.t;
  messages_received : N;
  loop_end : option (ioresult unit);
}.

(** After a bind: the buffer keeps what followed the response. *)
Definition start (s : state) (buffer : SmppMessageBuffer.t) : sys :=
  mkSys (add_active 1 s) ∅ ∅ [] [] None buffer 0 None.

Inductive event : Type :=
| Request (message : SMPPMessage.t)
| Acquire (w : Channels.waiter)
| Finish (w : Channels.waiter)
| Timeout (w : Channels.waiter)
| Read (r : read_result)
| Process
| EnquireTimer
| EnquireSend
| InactiveTimer.

Definition set_conn (c : state) (s : sys) : sys :=
  mkSys c (requests s) (done s) (inbox s) (processed s) (enquiring s) (buffer s) (messages_received s) (loop_end s).

Definition set_done (w : Channels.waiter) (r : ioresult Value) (s : sys) : sys :=
  mkSys (conn s) (requests s) (<[w := r]> (done s)) (inbox s) (processed s) (enquiring s) (buffer s)
    (messages_received s) (loop_end s).

Definition set_enquiring (m : option SMPPMessage.t) (s : sys) : sys :=
  mkSys (conn s) (requests s) (done s) (inbox s) (processed s) m (buffer s) (messages_received s)
    (loop_end s).

(** The request gives the lock back with its result. *)
Definition finish (w : Channels.waiter) (r : ioresult Value) (s : sys) : sys :=
  set_done w r (set_conn (set_holder None (conn s)) s).

(** The loop is left: [break] and what follows it, or an early return. *)
Definition leave (r : ioresult unit) (s : sys) : sys :=
  mkSys (match r with Ok _ => add_active (-1) (conn s) | _ => conn s end) (requests s) (done s)
    (inbox s) (processed s) (enquiring s) (buffer s) (messages_received s) (Some r).

(** The first half of [send_message]: the callback is registered, the lock is next. *)
Definition request (message : SMPPMessage.t) (s : sys) : sys :=
  let c := callbacks (conn s) in
  let seq_num := default 0%N (SMPPMessage.get_sequence_number message) in
  mkSys (set_callbacks (Channels.insert seq_num c) (conn s))
    (<[Channels.next c := message]> (requests s)) (done s) (inbox s) (processed s) (enquiring s) (buffer s)
    (messages_received s) (loop_end s).

(** The loop is in its [select!]. *)
Definition selecting (s : sys) : bool :=
  bool_decide (inbox s = []) && bool_decide (enquiring s = None) && bool_decide (loop_end s = None).

Section loop.
Context `{B64 : Base64, Tlv : TlvOrder}.

Definition acquire (w : Channels.waiter) (s : sys) : option sys :=
  message ← requests s !! w;
  if decide (done s !! w = None) then
    '(r, c) ← (lock_writer ≫= λ _, write_all (SMPPMessage.to_vec message)) (conn s);
    Some (match r with
          | Ok _ => set_conn (set_holder (Some w) c) s
          | Err e => set_done w (Err e) (set_conn c s)
          | Panic => set_done w Panic (set_conn c s)
          end)
  else None.

(** A chunk is read: the messages become the loop's to process. *)
Definition read (r : read_result) (s : sys) : option sys :=
  '(result, b) ← read_messages r (buffer s);
  let s := mkSys (conn s) (requests s) (done s) (inbox s) (processed s) (enquiring s) b (messages_received s)
             (loop_end s) in
  Some (match result with
        | Ok (Some messages) =>
            mkSys (conn s) (requests s) (done s) messages (processed s) (enquiring s) b
              (cast_u32 (messages_received s + 1)) (loop_end s)
        | Ok None => s
        | _ => leave (Ok tt) s
        end).

(** One turn of the [for] loop over the messages; errors are logged. *)
Definition process (env : Env) (s : sys) : option sys :=
  match inbox s with
  | [] => None
  | message :: rest =>
      '(r, c) ← process_in_message env message (conn s);
      let s := mkSys c (requests s) (done s) rest (processed s ++ [message]) (enquiring s) (buffer s)
                 (messages_received s) (loop_end s) in
      Some (match r with Panic => leave Panic s | _ => s end)
  end.

Definition step (env : Env) (s : sys) (e : event) : option sys :=
  match e with
  | Request message => if expects_response message then Some (request message s) else None
  | Acquire w => acquire w s
  | Finish w =>
      if decide (holder (conn s) = Some w) then
        r ← Channels.results (callbacks (conn s)) !! w;
        Some (finish w (wait_response (Some r)) s)
      else None
  | Timeout w =>
      if decide (holder (conn s) = Some w ∧ Channels.results (callbacks (conn s)) !! w = None) then
        Some (finish w (wait_response None)
          (set_conn (set_callbacks (ResponseManager.timeout w (callbacks (conn s))) (conn s)) s))
      else None
  | Read r => if selecting s then read r s else None
  | Process => if decide (loop_end s = None) then process env s else None
  | EnquireTimer =>
      if selecting s then
        '(r, c) ← enquire_link_pdu (conn s);
        let s := set_conn c s in
        Some (match r with
              | Ok message => set_enquiring (Some message) s
              | Err e => leave (Err e) s
              | Panic => leave Panic s
              end)
      else None
  | EnquireSend =>
      message ← (if decide (loop_end s = None) then enquiring s else None);
      '(r, c) ← send_message env message (conn s);
      let s := set_enquiring None (set_conn c s) in
      Some (match r with
            | Ok _ => s
            | Err e => leave (Err e) s
            | Panic => leave Panic s
            end)
  | InactiveTimer =>
      if selecting s then
        Some (if (messages_received s =? 0)%N then leave (Ok tt) s
              else mkSys (conn s) (requests s) (done s) (inbox s) (processed s) (enquiring s) (buffer s) 0
                     (loop_end s))
      else None
  end.

(** [None]: some event was not possible where it stands. *)
Fixpoint run (env : Env) (s : sys) (es : list event) : option sys :=
  match es with
  | [] => Some s
  | e :: es' => s' ← step env s e; run env s' es'
  end.

End loop.
End ConnectionLoop.

(** ** Reconnection and alarms *)

Module Reconnection.

Inductive alarm : Type :=
| RaiseAlarm (host : string) (port : N) (description : string)
| ClearAlarm (host : string) (port : N) (description : string).

(** What one call of [connect_smsc_to] did: it failed before the bind was accepted, or it
    was bound and its loop ended. *)
Inductive attempt : Type :=
| NotBound (e : io_error)
| WasBound (r : outcome io_error unit).

(** [alarms]: the notifications sent; [has_notifier]: whether one is configured. *)
Record t : Type := mk {
  has_notifier : bool;
  alarm_active : bool;
  alarms : list alarm;
}.

Definition new (has_notifier : bool) : t := mk has_notifier false [].

Definition notify (a : alarm) (active : bool) (s : t) : t :=
  mk (has_notifier s) active (alarms s ++ [a]).

Definition host_port_text (host : string) (port : N) : string := host +:+ ":" +:+ format_dec port.

(** The alarm is cleared when the connection is bound again. *)
Definition on_bound (address : string) (s : t) : t :=
  if alarm_active s then
    let '(host, port) := parse_host_port address in
    if has_notifier s
    then notify (ClearAlarm host port
                   ("Connection to SMSC " +:+ host_port_text host port +:+ " restored")) false s
    else mk (has_notifier s) false (alarms s)
  else s.

Definition on_disconnected (address : string) (s : t) : t :=
  let '(host, port) := parse_host_port address in
  if has_notifier s
  then notify (RaiseAlarm host port
                 ("Connection to SMSC " +:+ host_port_text host port +:+ " lost")) true s
  else s.

(** [display] is the [Display] of the error. *)
Definition on_failed (display : io_error → string) (address : string) (e : io_error) (s : t) : t :=
  let '(host, port) := parse_host_port address in
  if has_notifier s && negb (alarm_active s)
  then notify (RaiseAlarm host port
                 ("Failed to connect to SMSC " +:+ host_port_text host port +:+ ": " +:+ display e))
         true s
  else s.

(** One turn of the loop of [run]; a panic ends the task. *)
Definition run_once (display : io_error → string) (address : string) (s : t) (a : attempt) : t :=
  match a with
  | NotBound e => on_failed display address e s
  | WasBound r =>
      let s := on_bound address s in
      match r with
      | Ok _ => on_disconnected address s
      | Err e => on_failed display address e s
      | Panic => s
      end
  end.

Definition run (display : io_error → string) (address : string) (s : t) (attempts : list attempt) : t :=
  foldl (run_once display address) s attempts.

End Reconnection.
