(* ===== verification/ClientProps.v ===== *)
(** * One connection to an SMSC: properties

    Addresses, the bind message, the bind loop, what is answered and what is lost. *)
From S2P Require Export ClientConnection ResponseProps.
Import SmscConnection.

(** ** Addresses *)

Lemma rfind_app c l r :
  c ∉ r → rfind c (l ++ c :: r) = Some (length l).
Proof.
  intros Hr. induction l as [|b l IH]; simpl.
  - assert (rfind c r = None) as ->.
    { induction r as [|b r IH]; [done|]. apply not_elem_of_cons in Hr as [Hne Hr]. simpl.
      by rewrite IH, decide_False by congruence. }
    by rewrite decide_True.
  - by rewrite IH.
Qed.

Lemma digit_byte_range d : (d < 10)%N → is_hex_digit (digit_byte false d) = true ∧ digit_byte false d ≠ x3a.
Proof.
  intros Hd. assert (Hn : Byte.to_N (digit_byte false d) = (48 + d)%N).
  { unfold digit_byte. rewrite (proj2 (N.ltb_lt _ _)) by done. rewrite to_N_byte_of_N.
    apply N.mod_small. lia. }
  split; [|intros He; rewrite He in Hn; change (Byte.to_N x3a) with 58%N in Hn; lia].
  unfold is_hex_digit. apply orb_true_iff. left. apply in_range_spec. lia.
Qed.

Lemma fmt_dec_bytes n : Forall (λ b, ∃ d, (d < 10)%N ∧ b = digit_byte false d) (fmt_radix 10 false n).
Proof.
  unfold fmt_radix, digits_of. apply Forall_fmap.
  generalize (S (N.size_nat n)). intros fuel. revert n.
  induction fuel as [|fuel IH]; intros n; simpl; [constructor|].
  destruct (N.ltb_spec n 10).
  - constructor; [by exists n|constructor].
  - apply Forall_app. split; [apply IH|]. constructor; [|constructor].
    exists (n mod 10)%N. split; [by apply N.mod_lt|done].
Qed.

(** Parsing a printed number, in any unsigned type it fits in. *)
Lemma from_str_radix_dec bound n :
  (n < bound)%N → from_str_radix 10 bound (fmt_radix 10 false n) = Some n.
Proof.
  intros Hn. pose proof (parse_fmt_radix 10 bound false n ltac:(lia) Hn) as Hp.
  pose proof (fmt_dec_bytes n) as Hb. unfold from_str_radix.
  destruct (fmt_radix 10 false n) as [|b l] eqn:E.
  - exfalso. unfold fmt_radix, digits_of in E. apply fmap_nil_inv in E.
    by apply (radix_digits_ne (S (N.size_nat n)) 10 n) in E; [|lia].
  - apply Forall_cons in Hb as [(d & Hd & Hb) _].
    assert (Hne : b ≠ x2b).
    { intros ->. assert (Byte.to_N (digit_byte false d) = (48 + d)%N) as Hx.
      { unfold digit_byte. rewrite (proj2 (N.ltb_lt _ _)) by done. rewrite to_N_byte_of_N.
        apply N.mod_small. lia. }
      rewrite <-Hb in Hx. change (Byte.to_N x2b) with 43%N in Hx. lia. }
    destruct b; done.
Qed.

(** The address an alarm names is the configured one: [host:port] comes apart into the
    host, which may itself contain colons, and the port. *)
Theorem parse_host_port_roundtrip host port :
  (port < 2 ^ 16)%N → parse_host_port (host +:+ ":" +:+ format_dec port) = (host, port).
Proof.
  intros Hp. unfold parse_host_port, format_dec.
  rewrite !as_bytes_app, as_of_bytes. change (as_bytes ":") with [x3a]. cbn [app].
  rewrite rfind_app.
  2: { intros Hin. pose proof (fmt_dec_bytes port) as Hb. rewrite Forall_forall in Hb.
       destruct (Hb _ Hin) as (d & Hd & He). by destruct (digit_byte_range d Hd). }
  rewrite take_app_length, of_as_bytes. rewrite <-drop_drop, drop_app_length. simpl drop.
  rewrite drop_0. unfold parse_u16. by rewrite from_str_radix_dec.
Qed.

(** ** The bind message *)

Section bind.
Context `{B64 : Base64, Tlv : TlvOrder}.

(** A configured string as it can travel: Rust strings are UTF-8; no zero byte inside. *)
Definition config_ok (cfg : SmscConnectionConfig.t) : Prop :=
  Forall (λ s, cstr_ok s = true)
    [SmscConnectionConfig.system_id cfg; SmscConnectionConfig.password cfg;
     SmscConnectionConfig.system_type cfg; SmscConnectionConfig.address_range cfg] ∧
  Forall (λ n, n < 256)%N
    [SmscConnectionConfig.interface_version cfg; SmscConnectionConfig.addr_ton cfg;
     SmscConnectionConfig.addr_npi cfg].

(** The JSON form of the bind for a configuration. *)
Definition bind_fields (cfg : SmscConnectionConfig.t) : list (string * Value) :=
  [("system_id", JString (SmscConnectionConfig.system_id cfg));
   ("password", JString (SmscConnectionConfig.password cfg));
   ("system_type", JString (SmscConnectionConfig.system_type cfg));
   ("interface_version", jnum (SmscConnectionConfig.interface_version cfg));
   ("addr_ton", jnum (SmscConnectionConfig.addr_ton cfg));
   ("addr_npi", jnum (SmscConnectionConfig.addr_npi cfg));
   ("address_range", JString (SmscConnectionConfig.address_range cfg))].

Definition bind_json (c : params) (seq : N) : Value :=
  JObject (jextend (bind_fields (config c))
    (header_map (CommandId.as_u32 (bind_command_id (bind_type c))) 0 seq)).

(** The mandatory fields of the three binds, with the codec of each. *)
Definition bind_codecs : list (string * FieldCodec) :=
  [("system_id", COctetStrFieldCodec 16); ("password", COctetStrFieldCodec 9);
   ("system_type", COctetStrFieldCodec 13); ("interface_version", U8FieldCodec);
   ("addr_ton", U8FieldCodec); ("addr_npi", U8FieldCodec);
   ("address_range", COctetStrFieldCodec 41)].

Lemma bind_command_fields bt : ∃ fields,
  MESSAGE_COMMAND_FIELDS !! CommandId.as_u32 (bind_command_id bt) = Some fields ∧
  fields.*1 = bind_codecs.*1.
Proof.
  assert (Hall : ∀ c, c ∈ [CommandId.BindTransmitter; CommandId.BindReceiver; CommandId.BindTransceiver] →
    ∃ fields, MESSAGE_COMMAND_FIELDS !! CommandId.as_u32 c = Some fields ∧ fields.*1 = bind_codecs.*1).
  { intros c. rewrite !elem_of_cons, elem_of_nil.
    intros [->|[->|[->|[]]]]; eexists; (split; [vm_compute; reflexivity|reflexivity]). }
  apply Hall. unfold bind_command_id. repeat case_decide; apply (bool_decide_unpack _); vm_compute; exact I.
Qed.

Lemma bind_field_codecs : Forall (λ f, FIELD_CODECS !! f.1 = Some f.2) bind_codecs.
Proof. repeat (apply Forall_cons; split; [vm_compute; reflexivity|]). constructor. Qed.

(** What a codec reads, one field after the other. *)
Lemma decode_fields_parses (fields : list (string * option Value)) codecs bss vs m :
  fields.*1 = codecs.*1 → Forall (λ f, FIELD_CODECS !! f.1 = Some f.2) codecs →
  Forall2 (λ c p, parses (codec_decode c.2) p.1 p.2) codecs (zip bss vs) →
  length bss = length codecs → length vs = length codecs →
  parses (decode_fields fields m) (concat bss) (jextend (zip codecs.*1 vs) m).
Proof.
  revert fields bss vs m. induction codecs as [|[n c] codecs IH]; intros [|[n' d] fields] [|bs bss] [|v vs] m Hn Hc Hp Hb Hv;
    try discriminate; [apply parses_ret|].
  cbn [length] in Hb, Hv. rewrite !fmap_cons in *. cbn [fst zip zip_with concat] in *.
  injection Hn as -> Hn. apply Forall_cons in Hc as [Hc0 Hc].
  apply Forall2_cons in Hp as [Hp0 Hp]. cbn [fst snd] in *. rewrite jextend_cons.
  apply (parses_bind (decode_field (n, d) m) (decode_fields fields) (jinsert n v m)).
  - unfold decode_field. rewrite Hc0. rewrite <-(app_nil_r bs).
    apply parses_bind with v; [by apply parses_map_err|apply parses_ret].
  - apply IH; [done..|lia|lia].
Qed.

Lemma parses_cstr k s :
  cstr_ok s = true → parses (codec_decode (COctetStrFieldCodec k)) (as_bytes s ++ [x00]) (JString s).
Proof.
  intros Hs. edestruct (carries_cstr s) as [_ Hp]; [done|]. cbn.
  by apply (parses_ret_after _ JString).
Qed.

Lemma parses_octet n :
  (n < 256)%N → parses (codec_decode U8FieldCodec) (be_bytes 1 n) (jnum n).
Proof.
  intros Hn rest. cbn [codec_decode]. unfold U8FieldCodec.decode. cbn [be_bytes app].
  change (256 ^ N.of_nat 0)%N with 1%N. rewrite N.div_1_r, to_N_byte_of_N.
  by rewrite N.mod_small.
Qed.

(** The bytes of each field. *)
Definition bind_parts (cfg : SmscConnectionConfig.t) : list bytes :=
  [as_bytes (SmscConnectionConfig.system_id cfg) ++ [x00];
   as_bytes (SmscConnectionConfig.password cfg) ++ [x00];
   as_bytes (SmscConnectionConfig.system_type cfg) ++ [x00];
   be_bytes 1 (SmscConnectionConfig.interface_version cfg);
   be_bytes 1 (SmscConnectionConfig.addr_ton cfg);
   be_bytes 1 (SmscConnectionConfig.addr_npi cfg);
   as_bytes (SmscConnectionConfig.address_range cfg) ++ [x00]].

Lemma bind_parts_decode cfg fields m :
  config_ok cfg → fields.*1 = bind_codecs.*1 →
  parses (decode_fields fields m) (concat (bind_parts cfg)) (jextend (bind_fields cfg) m).
Proof.
  intros [Hstr Hnum] Hf. repeat (apply Forall_cons in Hstr as [? Hstr]).
  repeat (apply Forall_cons in Hnum as [? Hnum]).
  change (bind_fields cfg) with (zip bind_codecs.*1 (bind_fields cfg).*2).
  apply decode_fields_parses; [done|apply bind_field_codecs| |done..].
  repeat first [apply Forall2_cons; split; [cbn [fst snd]; first [by apply parses_cstr|by apply parses_octet]|]
               |apply Forall2_nil_2].
Qed.

Lemma bind_bytes_layout c seq :
  bind_message_bytes c seq
  = be_bytes 4 0 ++ be_bytes 4 (CommandId.as_u32 (bind_command_id (bind_type c)))
    ++ be_bytes 4 0 ++ be_bytes 4 seq ++
    concat (bind_parts (config c)).
Proof.
  unfold bind_message_bytes, SMPPMessage.write_c_octet_str, SMPPMessage.write_u32, SMPPMessage.write_u8.
  unfold bind_parts. cbn [concat]. by rewrite !app_nil_r, <-!app_assoc.
Qed.

(** The bind message, whatever the connection has sent before. *)
Lemma create_bind_message_spec c s :
  config_ok (config c) → (next_sequence s < 2 ^ 32)%N → ∃ m s',
    create_bind_message c s = Some (Ok m, s') ∧ sent s' = sent s ∧ holder s' = holder s ∧
    socket s' = socket s ∧
    to_json m = Ok (bind_json c (next_sequence s)) ∧
    SMPPMessage.get_command_id m = Some (CommandId.as_u32 (bind_command_id (bind_type c))) ∧
    SMPPMessage.get_sequence_number m = Some (next_sequence s) ∧
    ((N.of_nat (SMPPMessage.len m) < 2 ^ 32)%N → SmppMessageBuffer.framed (SMPPMessage.to_vec m)).
Proof.
  intros Hok Hseq. unfold create_bind_message, mbind, AsyncM_bind, next_sequence_number.
  cbn [SequenceNumberAllocator.next]. unfold async_lift, SMPPMessage.from_bytes_mut.
  set (seq := next_sequence s) in *. set (id := CommandId.as_u32 (bind_command_id (bind_type c))).
  pose proof (bind_bytes_layout c seq) as Hl. fold id in Hl.
  set (fbs := concat (A := byte) _) in Hl.
  destruct (update_length_spec (bind_message_bytes c seq)) as (b & -> & Hb & Hlen).
  { rewrite Hl, !length_app, !length_be_bytes. lia. }
  rewrite Hl, drop_app_length' in Hb by (by rewrite length_be_bytes). rewrite <-Hl in Hb.
  assert (Hidb : (id < 2 ^ 32)%N) by apply CommandId.as_u32_bound.
  eexists _, _. split; [reflexivity|]. split_and!; [done..| | | |].
  - destruct (bind_command_fields (bind_type c)) as (fields & Hf & Hnames). fold id in Hf.
    pose proof (to_json_spec (cast_u32 (N.of_nat (length (bind_message_bytes c seq)))) id 0 seq fields
      fbs [] (bind_fields (config c)) [] Hf Hidb ltac:(done) Hseq) as Hj.
    rewrite !app_nil_r in Hj. rewrite Hb. unfold bind_json. fold id. apply Hj.
    + intros m. by apply bind_parts_decode.
    + intros fuel m _. apply decode_tlvs_nil.
  - rewrite Hb. by apply (layout_header (SMPPMessage.mk _) id 0 seq fbs _ Hidb ltac:(done) Hseq eq_refl).
  - rewrite Hb. by apply (layout_header (SMPPMessage.mk _) id 0 seq fbs _ Hidb ltac:(done) Hseq eq_refl).
  - unfold SMPPMessage.len, SMPPMessage.to_vec. cbn [SMPPMessage.message]. intros Hlt. split.
    + rewrite Hlen, Hl, !length_app, !length_be_bytes. lia.
    + rewrite Hb at 1. rewrite take_app_length', be_N_be_bytes by (by rewrite length_be_bytes).
      rewrite Hlen in *. unfold cast_u32. change (256 ^ N.of_nat 4)%N with (2 ^ 32)%N.
      rewrite N.Div0.mod_mod. by apply N.mod_small.
Qed.

End bind.

(** ** Answers *)

Section answers.
Context `{B64 : Base64, Tlv : TlvOrder}.

Lemma get_be32_bound off b n : get_be32 off b = Some n → (n < 2 ^ 32)%N.
Proof.
  unfold get_be32. destruct (Nat.leb _ _); [|discriminate]. intros [= <-]. apply be_N_take4_bound.
Qed.

Lemma sequence_number_bound m : (default 0%N (SMPPMessage.get_sequence_number m) < 2 ^ 32)%N.
Proof.
  unfold SMPPMessage.get_sequence_number. destruct (get_be32 12 _) eqn:E; [|done].
  by apply get_be32_bound in E.
Qed.

Lemma command_id_bound m : (default 0%N (SMPPMessage.get_command_id m) < 2 ^ 32)%N.
Proof.
  unfold SMPPMessage.get_command_id. destruct (get_be32 4 _) eqn:E; [|done].
  by apply get_be32_bound in E.
Qed.

(** A response is not itself waited for. *)
Lemma response_not_waited m id :
  SMPPMessage.get_command_id m = Some id → N.land id 0x80000000 ≠ 0%N → expects_response m = false.
Proof.
  intros Hid Hr. unfold expects_response, SMPPMessage.is_request. rewrite Hid.
  by rewrite (proj2 (N.eqb_neq _ _)).
Qed.

(** Sending a message that is not waited for: wait for the lock, write. *)
Lemma send_not_waited env m :
  expects_response m = false →
  send_message env m = (lock_writer ≫= λ _, write_all (SMPPMessage.to_vec m) ≫= λ _, mret None).
Proof. intros Hm. unfold send_message. by rewrite Hm. Qed.

Definition bare_pdu (id seq : N) : SMPPMessage.t :=
  SMPPMessage.mk (be_bytes 4 16 ++ be_bytes 4 id ++ be_bytes 4 0 ++ be_bytes 4 seq).

Lemma bare_pdu_command id seq :
  (id < 2 ^ 32)%N → (seq < 2 ^ 32)%N → SMPPMessage.get_command_id (bare_pdu id seq) = Some id.
Proof.
  intros Hid Hseq. apply (layout_header _ id 0 seq [] 16 Hid ltac:(done) Hseq).
  unfold bare_pdu. cbn [SMPPMessage.message]. by rewrite app_nil_r.
Qed.

(** The two messages of the link test, encoded. *)
Lemma link_message_bytes cmd text seq :
  CommandId.from_str text = Some cmd → cmd ∈ [CommandId.EnquireLink; CommandId.EnquireLinkResp] →
  from_json (JObject (jextend [("command_id", JString text); ("command_status", jnum 0);
                               ("sequence_number", jnum seq)] []))
  = Ok (bare_pdu (CommandId.as_u32 cmd) (cast_u32 seq)).
Proof.
  intros Ht Hcmd. set (v := JObject _).
  assert (Hget : ∀ k, get v k = if decide (k = "sequence_number") then Some (jnum seq)
      else if decide (k = "command_status") then Some (jnum 0)
      else if decide (k = "command_id") then Some (JString text) else None).
  { intros k. subst v. cbn [get jextend fold_left]. rewrite !jget_insert. repeat case_decide; by subst. }
  apply from_json_bare.
  - unfold extract_command_id. by rewrite Hget.
  - rewrite !elem_of_cons, elem_of_nil in Hcmd. destruct Hcmd as [->|[->|[]]]; vm_compute; reflexivity.
  - unfold header_number. by rewrite Hget.
  - unfold header_number. by rewrite Hget.
  - intros name Hn. rewrite Hget. rewrite !decide_False; [done|..]; intros ->; apply Hn;
      apply (bool_decide_unpack _); vm_compute; exact I.
Qed.

Lemma enquire_link_resp_bytes seq :
  (seq < 2 ^ 32)%N →
  from_json (enquire_link_resp_message seq) = Ok (bare_pdu (CommandId.as_u32 CommandId.EnquireLinkResp) seq).
Proof.
  intros Hs. rewrite <-(N.mod_small seq (2 ^ 32)) at 2 by done.
  apply link_message_bytes; [vm_compute; reflexivity|].
  apply (bool_decide_unpack _). vm_compute. exact I.
Qed.

Lemma enquire_link_bytes seq :
  from_json (enquire_link_message seq)
  = Ok (bare_pdu (CommandId.as_u32 CommandId.EnquireLink) (cast_u32 seq)).
Proof.
  apply link_message_bytes; [vm_compute; reflexivity|].
  apply (bool_decide_unpack _). vm_compute. exact I.
Qed.

Lemma enquire_link_not_waited seq :
  (seq < 2 ^ 32)%N → expects_response (bare_pdu (CommandId.as_u32 CommandId.EnquireLink) seq) = false.
Proof.
  intros Hs. unfold expects_response.
  rewrite bare_pdu_command by (try apply CommandId.as_u32_bound; done).
  cbn [default]. by rewrite N.eqb_refl, andb_false_r.
Qed.

(** *** deliver_sm_resp *)

Definition deliver_json (id seq status : N) : Value :=
  create_json_response id seq status [("message_id", JString "")].

Lemma message_id_codec : ∃ n, FIELD_CODECS !! "message_id" = Some (COctetStrFieldCodec n) ∧
  COctetStrFieldCodec.truncate n "" = Ok "".
Proof. eexists. split; vm_compute; reflexivity. Qed.

Lemma deliver_resp_encodes c seq status :
  c ∈ [CommandId.DeliverSm; CommandId.DataSm] → (seq < 2 ^ 32)%N → (status < 2 ^ 32)%N → ∃ m,
    from_json (deliver_json (CommandId.as_u32 c) seq status) = Ok m ∧ expects_response m = false ∧
    SMPPMessage.get_command_id m = Some (N.lor 0x80000000 (CommandId.as_u32 c)) ∧
    SMPPMessage.get_command_status m = Some status ∧
    SMPPMessage.get_sequence_number m = Some seq.
Proof.
  intros Hc Hseq Hst. set (id := CommandId.as_u32 c). set (v := deliver_json id seq status).
  assert (∃ cmd, CommandId.from_u32 (N.lor 0x80000000 id) = Some cmd ∧
    (MESSAGE_COMMAND_FIELDS !! CommandId.as_u32 cmd = Some [("message_id", None)])) as (cmd & Hcmd & Hf).
  { subst id v. rewrite !elem_of_cons, elem_of_nil in Hc.
    destruct Hc as [->|[->|[]]]; eexists; split; vm_compute; reflexivity. }
  assert (Hid : (id < 2 ^ 32)%N) by apply CommandId.as_u32_bound.
  assert (Hkeys : ∀ k, k ∈ header_keys → k ∉ [("message_id", JString "")].*1).
  { intros k Hk. cbn. rewrite list_elem_of_singleton. intros ->. revert Hk.
    apply (bool_decide_unpack _). vm_compute. exact I. }
  assert (Hmid : get v "message_id" = Some (JString "")).
  { unfold v, deliver_json, create_json_response. cbn [get jextend fold_left]. apply jget_insert_eq. }
  destruct (from_json_normalizes v (JObject (jextend ([("message_id", JString "")] ++ [])
              (header_map (N.lor 0x80000000 id) status seq)))) as (m & Hm & _ & _).
  { apply (response_normal id seq status _ cmd Hid Hst Hseq Hkeys Hcmd [("message_id", None)] _ _ Hf).
    - destruct message_id_codec as (n & Hn & Ht). cbn [mapM].
      unfold normalize_field. cbn [fst snd]. rewrite Hn. cbn [mbind option_bind].
      fold (deliver_json id seq status). fold v. rewrite Hmid.
      cbn [mbind option_bind normalize as_str]. by rewrite Ht.
    - apply normalize_tlvs_absent, Forall_forall. intros [name t] Hin. cbn [fst].
      apply response_get_other.
      + apply map_to_list_tlv_name. by apply (list_elem_of_fmap_2 fst _ (name, t)).
      + cbn. rewrite list_elem_of_singleton. intros ->. rewrite elem_of_map_to_list in Hin.
        revert Hin. apply eq_None_ne_Some. vm_compute. reflexivity. }
  exists m. split; [done|].
  destruct (response_pdu_header id seq status _ cmd Hid Hst Hseq Hkeys Hcmd m Hm) as (G1 & G2 & G3).
  split_and!; [|done..]. apply (response_not_waited _ _ G1), lor_response_bit.
Qed.

End answers.

(** ** Incoming messages *)

Section inbound.
Context `{B64 : Base64, Tlv : TlvOrder}.

(** The url a deliver_sm is posted to, if it is a receipt that was registered. *)
Definition receipt_url_of (env : Env) (j : Value) (s : state) : option string :=
  let id := str_field j "receipted_message_id" in
  if Nat.ltb 0 (str_len id)
  then (DeliveryReceiptManager.get_receipt_url (now env) id
          (default EsmClass.default (EsmClass.from_u8 (cast_u8 (u64_field j "esm_class"))))
          (receipts s)).1
  else None.

Lemma handler_status_cases env j :
  handle_message env j ≠ Panic → ∃ st, handler_status (handle_message env j) = Ok st ∧ (st < 2 ^ 32)%N.
Proof.
  intros Hp. destruct (handle_message env j) as [r|e|]; [| |done]; eexists; (split; [reflexivity|]).
  - by apply N.mod_lt.
  - done.
Qed.

(** The command a PDU names, by number. *)
Lemma command_of_id m c :
  SMPPMessage.get_command_id m = Some (CommandId.as_u32 c) → c ≠ CommandId.Unknown →
  default CommandId.Unknown (CommandId.from_u32 (default 0%N (SMPPMessage.get_command_id m))) = c.
Proof.
  intros -> Hc. cbn [default]. by destruct c.
Qed.

(** An answer written: its header. *)
Definition answers (id seq status : N) (b : bytes) : Prop :=
  SMPPMessage.get_command_id (SMPPMessage.mk b) = Some (N.lor 0x80000000 id) ∧
  SMPPMessage.get_command_status (SMPPMessage.mk b) = Some status ∧
  SMPPMessage.get_sequence_number (SMPPMessage.mk b) = Some seq.

(** Sending an answer: the lock has to be free, the socket to take it. *)
Lemma send_answer env m s :
  expects_response m = false → holder s = None → socket s = Some true →
  send_message env m s = Some (Ok None, push_sent (SMPPMessage.to_vec m) s).
Proof.
  intros Hm Hh Hs. rewrite send_not_waited by done.
  unfold mbind, AsyncM_bind, lock_writer. rewrite Hh. unfold write_all. by rewrite Hs.
Qed.

Lemma send_answer_waits env m s w :
  expects_response m = false → holder s = Some w → send_message env m s = None.
Proof.
  intros Hm Hh. rewrite send_not_waited by done. unfold mbind, AsyncM_bind, lock_writer. by rewrite Hh.
Qed.

Lemma handle_deliver_no_receipt env m j c s st :
  c ∈ [CommandId.DeliverSm; CommandId.DataSm] →
  SMPPMessage.get_command_id m = Some (CommandId.as_u32 c) →
  receipt_url_of env j s = None → handler_status (handle_message env j) = Ok st → (st < 2 ^ 32)%N →
  ∃ a s1, holder s1 = holder s ∧ socket s1 = socket s ∧ sent s1 = sent s ∧
    receipt_posts s1 = receipt_posts s ∧ callbacks s1 = callbacks s ∧
    expects_response a = false ∧
    answers (CommandId.as_u32 c) (default 0%N (SMPPMessage.get_sequence_number m)) st
      (SMPPMessage.to_vec a) ∧
    handle_deliver_sm env m j s = (send_message env a ≫= λ _, mret tt) s1.
Proof.
  intros Hc Hid Hu Hst Hstb.
  destruct (deliver_resp_encodes c _ st Hc (sequence_number_bound m) Hstb) as (a & Ha & Hw & H1 & H2 & H3).
  assert (Htail : ∀ s2, (command_status ← async_lift (handler_status (handle_message env j));
    send_deliver_sm_resp env (default 0%N (SMPPMessage.get_sequence_number m))
      (default 0%N (SMPPMessage.get_command_id m)) command_status) s2
    = (send_message env a ≫= λ _, mret tt) s2).
  { intros s2. rewrite Hst, Hid. change (default 0%N (Some ?x)) with x. unfold mbind at 1, AsyncM_bind at 1, async_lift at 1.
    unfold send_deliver_sm_resp. cbv zeta. unfold deliver_json in Ha. rewrite Ha. reflexivity. }
  exists a. unfold handle_deliver_sm. unfold receipt_url_of in Hu. cbv zeta in *.
  destruct (Nat.ltb 0 (str_len (str_field j "receipted_message_id"))).
  - unfold mbind at 1 2, AsyncM_bind at 1 2, async_modify at 1, lookup_receipt.
    change (receipts (inc_inbound s)) with (receipts s).
    destruct (DeliveryReceiptManager.get_receipt_url _ _ _ _) as [url r]. cbn [fst] in Hu. subst url.
    exists (set_receipts r (inc_inbound s)). by split_and!.
  - exists (inc_inbound s). split_and!; try done. apply (Htail (inc_inbound s)).
Qed.

(** C12: while no request holds the writer and the socket takes writes, what the SMSC sends is
    answered exactly once: an enquire_link, a deliver_sm and a data_sm that can be decoded are
    each followed by one PDU, the response with their own command and sequence number and the
    status of the message handler (zero for an enquire_link). The only exception is a receipt
    with a registered url, which is posted to it and not answered. *)
Theorem inbound_answered_once env m j c s :
  to_json m = Ok j → SMPPMessage.get_command_id m = Some (CommandId.as_u32 c) →
  c ∈ [CommandId.EnquireLink; CommandId.DeliverSm; CommandId.DataSm] →
  holder s = None → socket s = Some true → handle_message env j ≠ Panic → ∃ s',
  process_in_message env m s = Some (Ok tt, s') ∧
  match (if decide (c = CommandId.EnquireLink) then None else receipt_url_of env j s) with
  | Some url => sent s' = sent s ∧ receipt_posts s' = receipt_posts s ++ [(url, j)]
  | None => receipt_posts s' = receipt_posts s ∧ ∃ b status, sent s' = sent s ++ [b] ∧
      answers (CommandId.as_u32 c) (default 0%N (SMPPMessage.get_sequence_number m)) status b ∧
      (if decide (c = CommandId.EnquireLink) then status = 0%N
       else handler_status (handle_message env j) = Ok status)
  end.
Proof.
  intros Hj Hid Hc Hh Hs Hp.
  assert (Hne : c ≠ CommandId.Unknown) by (intros ->; revert Hc; apply (bool_decide_unpack _); vm_compute; exact I).
  unfold process_in_message. rewrite Hj. rewrite (command_of_id m c Hid Hne). cbv zeta.
  pose proof (sequence_number_bound m) as Hsq. set (seq := default 0%N (SMPPMessage.get_sequence_number m)) in *.
  assert (Hdel : c ∈ [CommandId.DeliverSm; CommandId.DataSm] → ∃ s',
    handle_deliver_sm env m j s = Some (Ok tt, s') ∧
    match receipt_url_of env j s with
    | Some url => sent s' = sent s ∧ receipt_posts s' = receipt_posts s ++ [(url, j)]
    | None => receipt_posts s' = receipt_posts s ∧ ∃ b status, sent s' = sent s ++ [b] ∧
        answers (CommandId.as_u32 c) seq status b ∧ handler_status (handle_message env j) = Ok status
    end).
  { intros Hcd. destruct (receipt_url_of env j s) as [url|] eqn:Eu.
    - unfold handle_deliver_sm. unfold receipt_url_of in Eu. cbv zeta in *.
      destruct (Nat.ltb 0 _); [|discriminate].
      unfold mbind at 1 2, AsyncM_bind at 1 2, async_modify at 1, lookup_receipt.
      change (receipts (inc_inbound s)) with (receipts s).
      destruct (DeliveryReceiptManager.get_receipt_url _ _ _ _) as [u r]. cbn [fst] in Eu. subst u.
      eexists. split; [reflexivity|]. done.
    - destruct (handler_status_cases env j Hp) as (st & Hst & Hstb).
      destruct (handle_deliver_no_receipt env m j c s st Hcd Hid Eu Hst Hstb)
        as (a & s1 & E1 & E2 & E3 & E4 & E5 & Ew & Ha & ->).
      unfold mbind, AsyncM_bind. rewrite send_answer by congruence.
      eexists. split; [reflexivity|]. cbn [sent receipt_posts push_sent]. rewrite E3, E4.
      split; [done|]. by exists (SMPPMessage.to_vec a), st. }
  rewrite !elem_of_cons, elem_of_nil in Hc. destruct Hc as [->|[->|[->|[]]]].
  - unfold process_enquire_link, mbind, AsyncM_bind, async_lift. fold seq.
    rewrite enquire_link_resp_bytes by done.
    set (idr := CommandId.as_u32 CommandId.EnquireLinkResp).
    assert (Hidr : (idr < 2 ^ 32)%N) by apply CommandId.as_u32_bound.
    rewrite send_answer; [|apply (response_not_waited _ idr); [by apply bare_pdu_command|done]|done..].
    eexists. split; [reflexivity|]. split; [done|]. eexists _, 0%N. split; [reflexivity|].
    split; [|done]. apply (layout_header (bare_pdu idr seq) idr 0 seq [] 16 Hidr ltac:(done) Hsq).
    unfold bare_pdu. cbn [SMPPMessage.message]. by rewrite app_nil_r.
  - rewrite decide_False by done. apply Hdel. apply (bool_decide_unpack _). vm_compute. exact I.
  - rewrite decide_False by done. apply Hdel. apply (bool_decide_unpack _). vm_compute. exact I.
Qed.

(** What has to be answered, whatever the state of the connection is. *)
Definition must_answer (env : Env) (m : SMPPMessage.t) : Prop := ∃ j c,
  to_json m = Ok j ∧ SMPPMessage.get_command_id m = Some (CommandId.as_u32 c) ∧
  (c = CommandId.EnquireLink ∨
   c ∈ [CommandId.DeliverSm; CommandId.DataSm] ∧ str_field j "receipted_message_id" = "" ∧
   handle_message env j ≠ Panic).

(** While a request holds the writer an answer waits for it. *)
Lemma must_answer_waits env m s w :
  must_answer env m → holder s = Some w → process_in_message env m s = None.
Proof.
  intros (j & c & Hj & Hid & Hc) Hh.
  assert (Hne : c ≠ CommandId.Unknown).
  { intros ->. destruct Hc as [|[Hc _]]; [done|]. revert Hc. apply (bool_decide_unpack _). vm_compute. exact I. }
  unfold process_in_message. rewrite Hj, (command_of_id m c Hid Hne). cbv zeta.
  destruct Hc as [->|(Hc & Hr & Hp)].
  - unfold process_enquire_link, mbind, AsyncM_bind, async_lift.
    rewrite enquire_link_resp_bytes by apply sequence_number_bound.
    rewrite (send_answer_waits _ _ _ w); [done| |done].
    eapply response_not_waited; [apply bare_pdu_command; [apply CommandId.as_u32_bound|apply sequence_number_bound]|done].
  - assert (Hd : handle_deliver_sm env m j s = None).
    { assert (Eu : receipt_url_of env j s = None) by (unfold receipt_url_of; by rewrite Hr).
      destruct (handler_status_cases env j Hp) as (st & Hst & Hstb).
      destruct (handle_deliver_no_receipt env m j c s st Hc Hid Eu Hst Hstb)
        as (a & s1 & E1 & _ & _ & _ & _ & Ew & _ & ->).
      unfold mbind, AsyncM_bind. by rewrite (send_answer_waits _ _ _ w) by congruence. }
    rewrite !elem_of_cons, elem_of_nil in Hc. destruct Hc as [->|[->|[]]]; exact Hd.
Qed.

(** *** Responses without a body *)

Definition with_body : list CommandId.t :=
  [CommandId.SubmitSmResp; CommandId.SubmitMultiResp; CommandId.DataSmResp; CommandId.QuerySmResp;
   CommandId.BroadcastSmResp; CommandId.QueryBroadcastSmResp;
   CommandId.BindTransmitterResp; CommandId.BindReceiverResp; CommandId.BindTransceiverResp].

Lemma with_body_first c : c ∈ with_body → ∃ name d fields n,
  MESSAGE_COMMAND_FIELDS !! CommandId.as_u32 c = Some ((name, d) :: fields) ∧
  FIELD_CODECS !! name = Some (COctetStrFieldCodec n).
Proof.
  unfold with_body. rewrite !elem_of_cons, elem_of_nil.
  intros [->|[->|[->|[->|[->|[->|[->|[->|[->|[]]]]]]]]]];
    eexists _, _, _, _; split; vm_compute; reflexivity.
Qed.

(** A header alone does not decode when its command has a mandatory field. *)
Lemma header_only_undecoded m c :
  c ∈ with_body → SMPPMessage.get_command_id m = Some (CommandId.as_u32 c) → SMPPMessage.len m = 16 →
  ∃ e, to_json m = Err e.
Proof.
  intros Hc Hid Hl. destruct (with_body_first c Hc) as (name & d & fields & n & Hf & Hn).
  destruct m as [b]. unfold SMPPMessage.len in Hl. cbn [SMPPMessage.message] in Hl.
  assert (Hread : ∀ k, k + 4 ≤ 16 → SMPPMessage.read_u32 (drop k b)
            = (Some (be_N (take 4 (drop k b))), drop (k + 4) b)).
  { intros k Hk. unfold SMPPMessage.read_u32, SMPPMessage.try_get.
    rewrite (proj2 (Nat.leb_le _ _)) by (rewrite length_drop; lia). by rewrite drop_drop. }
  unfold SMPPMessage.get_command_id in Hid. cbn [SMPPMessage.message] in Hid.
  rewrite get_be32_read in Hid by (rewrite Hl; lia). injection Hid as Hid.
  pose proof (Hread 0) as H0. rewrite drop_0 in H0.
  unfold to_json. cbn [SMPPMessage.message]. rewrite H0 by lia. cbn [Nat.add].
  rewrite (Hread 4) by lia. cbn [Nat.add]. rewrite (Hread 8) by lia. cbn [Nat.add].
  rewrite (Hread 12) by lia. cbn [Nat.add]. change (default 0%N (Some ?x)) with x. rewrite Hid.
  cbv zeta. rewrite Hf. rewrite (drop_ge b 16) by lia.
  cbn [decode_fields]. unfold mbind at 1, BufM_bind at 1. unfold decode_field. rewrite Hn.
  by eexists.
Qed.

(** An SMSC that refuses a request usually answers with a header alone, its status not
    zero. Such a response is not decoded, so it is dropped: the request that waits for it is
    not woken and nothing else changes. *)
Theorem response_without_body_lost env m c s :
  c ∈ with_body → SMPPMessage.get_command_id m = Some (CommandId.as_u32 c) → SMPPMessage.len m = 16 →
  process_in_message env m s
  = Some (io_err InvalidData "Failed to decode message from SMSC", s).
Proof.
  intros Hc Hid Hl. destruct (header_only_undecoded m c Hc Hid Hl) as [e He].
  unfold process_in_message. by rewrite He.
Qed.

End inbound.
