(* ===== verification/ClientLoopProps.v ===== *)
(** * The life of a client connection: properties

    What holds of every interleaving of the read loop, the timers and the requests: which
    response a request gets, when it can only time out, how the loop ends; and the alarms
    of the reconnection loop. *)
From S2P Require Export ClientLoop ClientProps.
Import SmscConnection ConnectionLoop.

Section loop.
Context `{B64 : Base64, Tlv : TlvOrder}.

(** ** What processing a message changes *)

Definition seq_of (m : SMPPMessage.t) : N := default 0%N (SMPPMessage.get_sequence_number m).

(** The part of the state that only requests and the processing of responses change. *)
Definition same_calls (s s' : state) : Prop :=
  holder s' = holder s ∧ callbacks s' = callbacks s ∧ active_connections s' = active_connections s.

Lemma send_not_waited_calls env m s r s' :
  expects_response m = false → send_message env m s = Some (r, s') → same_calls s s'.
Proof.
  intros Hm. rewrite send_not_waited by done.
  unfold mbind, AsyncM_bind, lock_writer, write_all, same_calls.
  destruct (holder s) eqn:Eh; [discriminate|].
  destruct (socket s) as [[]|]; intros [= <- <-]; cbn; by rewrite Eh.
Qed.

Lemma handle_deliver_calls env m j c s r s' :
  c ∈ [CommandId.DeliverSm; CommandId.DataSm] →
  SMPPMessage.get_command_id m = Some (CommandId.as_u32 c) →
  handle_deliver_sm env m j s = Some (r, s') → same_calls s s'.
Proof.
  intros Hc Hid. unfold handle_deliver_sm. cbv zeta.
  assert (Hin : same_calls s (inc_inbound s)) by done.
  assert (Hre : ∀ rr, same_calls s (set_receipts rr (inc_inbound s))) by done.
  assert (Hresp : ∀ s1, same_calls s s1 →
    (command_status ← async_lift (handler_status (handle_message env j));
     send_deliver_sm_resp env (default 0%N (SMPPMessage.get_sequence_number m))
       (default 0%N (SMPPMessage.get_command_id m)) command_status) s1 = Some (r, s') →
    same_calls s s').
  { intros s1 (H1 & H2 & H3). rewrite Hid. change (default 0%N (Some ?x)) with x.
    unfold mbind at 1, AsyncM_bind at 1, async_lift at 1.
    destruct (handler_status (handle_message env j)) as [st|e|] eqn:Est;
      [|intros [= <- <-]; by split_and!..].
    assert (Hst : (st < 2 ^ 32)%N).
    { destruct (handle_message env j); cbn in Est; simplify_eq; [by apply N.mod_lt|done]. }
    destruct (deliver_resp_encodes c (seq_of m) st Hc (sequence_number_bound m) Hst) as (a & Ha & Hw & _).
    unfold send_deliver_sm_resp. cbv zeta. unfold deliver_json, seq_of in Ha. rewrite Ha.
    unfold mbind, AsyncM_bind, async_lift. cbn [map_err].
    destruct (send_message env a s1) as [[r0 s2]|] eqn:Es; [|discriminate].
    destruct (send_not_waited_calls _ _ _ _ _ Hw Es) as (G1 & G2 & G3).
    destruct r0; intros [= <- <-]; unfold same_calls; rewrite G1, G2, G3; by split_and!. }
  destruct (Nat.ltb 0 (str_len (str_field j "receipted_message_id"))).
  - unfold mbind at 1 2, AsyncM_bind at 1 2, async_modify at 1, lookup_receipt.
    destruct (DeliveryReceiptManager.get_receipt_url _ _ _ _) as [url rr].
    destruct url; [by intros [= <- <-]|]. apply Hresp, Hre.
  - unfold mbind at 1 2, AsyncM_bind at 1 2, async_modify at 1. apply Hresp, Hin.
Qed.

(** A message changes the table of waiting requests only as the response it is. *)
Lemma process_calls env m s r s' :
  process_in_message env m s = Some (r, s') →
  same_calls s s' ∨
  ∃ v, to_json m = Ok v ∧ r = Ok tt ∧
       s' = set_callbacks (Channels.response_received (seq_of m) v (callbacks s)) s.
Proof.
  unfold process_in_message. cbv zeta.
  destruct (to_json m) as [j|e|] eqn:Ej; [|intros [= <- <-]; by left..].
  destruct (to_json_header_get m j Ej) as (id & st & seq & Hid & _ & _ & _).
  rewrite Hid. change (default 0%N (Some id)) with id.
  set (c := default CommandId.Unknown (CommandId.from_u32 id)).
  assert (Hc : c ≠ CommandId.Unknown → id = CommandId.as_u32 c).
  { subst c. destruct (CommandId.from_u32 id) eqn:E; [|done].
    by intros _; apply CommandId.command_id_as_from_u32 in E. }
  destruct c eqn:Ec; fold (seq_of m);
    try (destruct (CommandId.is_response _); intros [= <- <-]; [right; by exists j|by left]);
    try (intros [= <- <-]; by left); intros Hp; left.
  - apply (handle_deliver_calls env m j CommandId.DeliverSm s r); [|by rewrite <-Hc|done].
    apply (bool_decide_unpack _). vm_compute. exact I.
  - apply (handle_deliver_calls env m j CommandId.DataSm s r); [|by rewrite <-Hc|done].
    apply (bool_decide_unpack _). vm_compute. exact I.
  - revert Hp. unfold process_enquire_link, mbind, AsyncM_bind, async_lift.
    rewrite enquire_link_resp_bytes by apply sequence_number_bound.
    destruct (send_message env _ s) as [[r0 s2]|] eqn:Es; [|discriminate].
    apply send_not_waited_calls in Es; [by destruct r0; intros [= <- <-]|].
    eapply response_not_waited;
      [apply bare_pdu_command; [apply CommandId.as_u32_bound|apply sequence_number_bound]|done].
Qed.

(** ** A request that can only time out *)

(** The read loop is busy with something that has to be written: a message to answer, or
    its own enquire_link. *)
Definition loop_writes (env : Env) (s : sys) : Prop :=
  (∃ m rest, inbox s = m :: rest ∧ must_answer env m ∧ enquiring s = None) ∨
  (∃ m, enquiring s = Some m ∧ expects_response m = false ∧ inbox s = []).

Record blocked (env : Env) (w : Channels.waiter) (seq : N) (s : sys) : Prop := {
  bl_wf : Responses.wf (callbacks (conn s));
  bl_holder : holder (conn s) = Some w;
  bl_waiting : Channels.waiting (callbacks (conn s)) !! w = Some seq;
  bl_loop : loop_writes env s;
}.

(** Another request, with a number of its own. *)
Definition other_event (w : Channels.waiter) (seq : N) (e : event) : Prop :=
  match e with Request m => seq_of m ≠ seq | Timeout u => u ≠ w | _ => True end.

Lemma insert_keeps_waiting n w seq c :
  Responses.wf c → Channels.waiting c !! w = Some seq → n ≠ seq →
  Channels.waiting (Channels.insert n c) !! w = Some seq.
Proof.
  intros Hwf Hw Hne. assert (Hlt : w < Channels.next c) by (apply (wf_next _ Hwf); left; by exists seq).
  unfold Channels.insert. destruct (Channels.transactions c !! n) as [old|] eqn:Eo; cbn.
  - rewrite wake_waiting, lookup_insert_ne by lia.
    rewrite lookup_delete_ne; [done|]. intros ->. pose proof (wf_own _ Hwf n w seq Eo Hw). congruence.
  - by rewrite lookup_insert_ne by lia.
Qed.

Lemma not_selecting env s : loop_writes env s → selecting s = false.
Proof.
  unfold selecting. intros [(m & rest & -> & _)|(m & -> & _)].
  - by rewrite bool_decide_eq_false_2.
  - rewrite (bool_decide_eq_false_2 (Some m = None)) by done. by rewrite andb_false_r.
Qed.

Lemma step_blocked env w seq s e s' :
  blocked env w seq s → other_event w seq e → step env s e = Some s' →
  blocked env w seq s' ∧ sent (conn s') = sent (conn s) ∧ inbox s' = inbox s ∧
  done s' !! w = done s !! w.
Proof.
  intros [Hwf Hh Hw Hl] He Hs. pose proof (not_selecting _ _ Hl) as Hsel.
  destruct e as [m|u|u|u|r| | | |]; cbn [step] in Hs.
  - destruct (expects_response m); [|discriminate]. injection Hs as <-.
    unfold other_event, seq_of in He. split_and!; [|done..]. split; cbn.
    + by apply wf_insert.
    + done.
    + by apply insert_keeps_waiting.
    + exact Hl.
  - exfalso. unfold acquire in Hs. destruct (requests s !! u); [|discriminate].
    cbn [mbind option_bind] in Hs. case_decide; [|discriminate].
    unfold mbind at 2, AsyncM_bind, lock_writer in Hs. by rewrite Hh in Hs.
  - exfalso. case_decide as Hd; [|discriminate]. assert (u = w) as -> by congruence.
    rewrite (wf_one _ Hwf) in Hs by (by exists seq). discriminate.
  - exfalso. case_decide as Hd; [|discriminate]. destruct Hd as [Hd _]. apply He. congruence.
  - by rewrite Hsel in Hs.
  - exfalso. case_decide; [|discriminate]. unfold process in Hs.
    destruct Hl as [(m & rest & Hi & Hm & _)|(m & _ & _ & Hi)]; rewrite Hi in Hs; [|discriminate].
    by rewrite (must_answer_waits env m _ w Hm Hh) in Hs.
  - by rewrite Hsel in Hs.
  - exfalso. destruct Hl as [(m & rest & _ & _ & Hq)|(m & Hq & Hm & _)]; rewrite Hq in Hs;
      (case_decide; [|discriminate]); [discriminate|].
    cbn [mbind option_bind] in Hs. by rewrite (send_answer_waits env m _ w Hm Hh) in Hs.
  - by rewrite Hsel in Hs.
Qed.

Lemma run_blocked env w seq s es s' :
  blocked env w seq s → Forall (other_event w seq) es → run env s es = Some s' →
  blocked env w seq s' ∧ sent (conn s') = sent (conn s) ∧ inbox s' = inbox s ∧
  done s' !! w = done s !! w.
Proof.
  intros Hb Hes. revert s Hb. induction Hes as [|e es He _ IH]; intros s Hb Hr; cbn [run] in Hr.
  { by injection Hr as <-. }
  destruct (step env s e) as [s1|] eqn:Es; [|discriminate]. cbn [mbind option_bind] in Hr.
  destruct (step_blocked _ _ _ _ _ _ Hb He Es) as (Hb1 & H1 & H2 & H3).
  destruct (IH s1 Hb1 Hr) as (Hb2 & G1 & G2 & G3). split_and!; [done|congruence..].
Qed.

(** C36: a request keeps the writer until its response comes. When the read loop has to
    write in the meantime (an enquire_link or a deliver_sm of the SMSC is before the
    response, or its own enquire_link is due), it waits for the writer and no longer reads:
    until the request times out nothing is written and no further message is processed,
    whatever else happens, and a response that has already arrived does not help. *)
Theorem request_waits_behind_answer env w seq s es s' :
  blocked env w seq s → Forall (other_event w seq) es → run env s es = Some s' →
  sent (conn s') = sent (conn s) ∧ inbox s' = inbox s ∧ done s' !! w = done s !! w ∧
  ∃ s'', step env s' (Timeout w) = Some s'' ∧
    done s'' !! w = Some (io_err TimedOut "Timeout waiting for response").
Proof.
  intros Hb Hes Hr. destruct (run_blocked _ _ _ _ _ _ Hb Hes Hr) as ([Hwf Hh Hw _] & H1 & H2 & H3).
  split_and!; [done..|]. cbn [step].
  rewrite decide_True by (split; [done|apply (wf_one _ Hwf); by exists seq]).
  eexists. split; [reflexivity|]. unfold finish, set_done. cbn [done]. by rewrite lookup_insert_eq.
Qed.

(** ** A request that is answered *)

(** A message that is neither answered nor the response to [seq]. *)
Definition bystander (seq : N) (m : SMPPMessage.t) : Prop :=
  (∀ c, SMPPMessage.get_command_id m = Some (CommandId.as_u32 c) →
     c ∉ [CommandId.EnquireLink; CommandId.DeliverSm; CommandId.DataSm]) ∧
  seq_of m ≠ seq.

(** The messages that go to the table of waiting requests. *)
Definition correlated (c : CommandId.t) : bool :=
  CommandId.is_response c && bool_decide (c ≠ CommandId.EnquireLinkResp)
  && bool_decide (c ≠ CommandId.GenericNack) && bool_decide (c ≠ CommandId.Unknown).

Lemma process_bystander env seq m s :
  bystander seq m → ∃ r c, process_in_message env m s = Some (r, set_callbacks c s) ∧ r ≠ Panic ∧
    (c = callbacks s ∨ ∃ v, c = Channels.response_received (seq_of m) v (callbacks s)).
Proof.
  intros [Hc Hs]. unfold process_in_message. cbv zeta.
  assert (Hid : ∀ s0 : state, set_callbacks (callbacks s0) s0 = s0) by (by intros []).
  destruct (to_json m) as [j|e|] eqn:Ej.
  2: { eexists _, _. rewrite Hid. split; [reflexivity|]. split; [done|by left]. }
  2: { by destruct (to_json_total m). }
  destruct (to_json_header_get m j Ej) as (id & st & sq & Hi & _).
  rewrite Hi in Hc |- *. change (default 0%N (Some id)) with id.
  set (c := default CommandId.Unknown (CommandId.from_u32 id)).
  assert (Hcid : c ≠ CommandId.Unknown → c ∉ [CommandId.EnquireLink; CommandId.DeliverSm; CommandId.DataSm]).
  { subst c. destruct (CommandId.from_u32 id) eqn:E; [|done]. intros _.
    apply CommandId.command_id_as_from_u32 in E. apply (Hc t). by rewrite E. }
  destruct c eqn:Ec; fold (seq_of m);
    try (exfalso; apply Hcid; [done|apply (bool_decide_unpack _); vm_compute; exact I]);
    try (destruct (CommandId.is_response _));
    first [eexists _, _; split; [reflexivity|]; split; [done|]; right; by eexists
          |exists (Ok tt), (callbacks s); rewrite Hid; split; [reflexivity|]; split; [done|by left]].
Qed.

Lemma received_other n v w seq c :
  Responses.wf c → Channels.transactions c !! seq = Some w → Channels.waiting c !! w = Some seq →
  n ≠ seq →
  Channels.transactions (Channels.response_received n v c) !! seq = Some w ∧
  Channels.waiting (Channels.response_received n v c) !! w = Some seq.
Proof.
  intros Hwf Ht Hw Hne. unfold Channels.response_received.
  destruct (Channels.transactions c !! n) as [u|] eqn:Eu; [|done].
  rewrite wake_transactions, wake_waiting. cbn. split; [by rewrite lookup_delete_ne|].
  rewrite lookup_delete_ne; [done|]. intros ->. pose proof (wf_own _ Hwf n w seq Eu Hw). congruence.
Qed.

(** C21: a request that holds the writer and waits on its channel gets the response to its
    sequence number as soon as the read loop comes to it, when the response can be decoded and
    its command is one that is correlated, and the messages before it are responses to other
    requests, notifications or undecodable (bystanders, which do not need the writer); it then
    returns the decoded response and gives the writer back. A response that is a header only
    cannot be decoded and is lost. *)
Theorem request_gets_response env w seq c m j others rest s :
  loop_end s = None → holder (conn s) = Some w → Responses.wf (callbacks (conn s)) →
  Channels.transactions (callbacks (conn s)) !! seq = Some w →
  Channels.waiting (callbacks (conn s)) !! w = Some seq →
  inbox s = others ++ m :: rest → Forall (bystander seq) others →
  to_json m = Ok j → SMPPMessage.get_command_id m = Some (CommandId.as_u32 c) →
  correlated c = true → seq_of m = seq → ∃ s',
  run env s (replicate (length others) Process ++ [Process; Finish w]) = Some s' ∧
  done s' !! w = Some (Ok j) ∧ holder (conn s') = None ∧ inbox s' = rest.
Proof.
  intros Hend Hh Hwf Ht Hw Hi Ho Hj Hid Hc Hs. revert s Hend Hh Hwf Ht Hw Hi.
  induction Ho as [|o others Hob _ IH]; intros s Hend Hh Hwf Ht Hw Hi.
  - cbn [length replicate app run step]. rewrite decide_True by done. unfold process.
    rewrite Hi. cbn [app].
    assert (Hp : process_in_message env m (conn s) = Some (Ok tt, set_callbacks
              (Channels.response_received seq j (callbacks (conn s))) (conn s))).
    { unfold process_in_message. cbv zeta. rewrite Hj.
      assert (Hne : c ≠ CommandId.Unknown) by (by intros ->).
      rewrite (command_of_id m c Hid Hne). fold (seq_of m). rewrite Hs.
      destruct c; try discriminate; reflexivity. }
    rewrite Hp. cbn [mbind option_bind]. cbn [conn holder set_callbacks callbacks].
    rewrite decide_True by done.
    unfold Channels.response_received. rewrite Ht, wake_results.
    assert (Hrm : Channels.waiting (Channels.remove seq (callbacks (conn s))) !! w = Some seq) by exact Hw.
    rewrite decide_True by (split; [done|by rewrite Hrm]). cbn [mbind option_bind].
    eexists. split; [reflexivity|]. unfold finish, set_done. cbn [done]. rewrite lookup_insert_eq.
    by split_and!.
  - cbn [length replicate app run step]. rewrite decide_True by done. unfold process. rewrite Hi.
    cbn [app]. destruct (process_bystander env seq o (conn s) Hob) as (r & cb & -> & Hr & Hcb).
    cbn [mbind option_bind].
    set (s1 := mkSys _ _ _ _ _ _ _ _ _).
    assert (Hs1 : match r with Panic => leave Panic s1 | _ => s1 end = s1) by (by destruct r).
    rewrite Hs1. destruct Hob as [_ Hno]. apply (IH s1); try done; cbn.
    + destruct Hcb as [->|(v & ->)]; [done|by apply wf_received].
    + destruct Hcb as [->|(v & ->)]; [done|by apply received_other].
    + destruct Hcb as [->|(v & ->)]; [done|by apply received_other].
Qed.

(** ** No response goes astray *)

(** The request [w] has been answered with [v]: by a message that was processed and has its
    sequence number. *)
Definition answered (s : sys) (w : Channels.waiter) (v : Value) : Prop := ∃ msg m,
  requests s !! w = Some msg ∧ m ∈ processed s ∧ seq_of m = seq_of msg ∧ to_json m = Ok v.

Record calls_ok (s : sys) : Prop := {
  ok_wf : Responses.wf (callbacks (conn s));
  ok_next : ∀ w, is_Some (requests s !! w) → w < Channels.next (callbacks (conn s));
  ok_wait : ∀ w n, Channels.waiting (callbacks (conn s)) !! w = Some n →
    ∃ msg, requests s !! w = Some msg ∧ seq_of msg = n;
  ok_result : ∀ w v, Channels.results (callbacks (conn s)) !! w = Some (Some v) → answered s w v;
  ok_done : ∀ w v, done s !! w = Some (Ok v) → answered s w v;
  ok_enquiring : ∀ m, enquiring s = Some m → expects_response m = false;
}.

(** Steps that leave the requests and the table alone. *)
Lemma calls_ok_same s s' :
  callbacks (conn s') = callbacks (conn s) → requests s' = requests s →
  (∀ w v, done s' !! w = Some (Ok v) → answered s w v) →
  (∀ m, m ∈ processed s → m ∈ processed s') →
  (∀ m, enquiring s' = Some m → expects_response m = false) → calls_ok s → calls_ok s'.
Proof.
  intros Hc Hr Hd Hp He [H1 H2 H3 H4 H5 H6].
  assert (Ha : ∀ w v, answered s w v → answered s' w v).
  { intros w v (msg & m & G1 & G2 & G3). exists msg, m. rewrite Hr. auto. }
  split; rewrite ?Hc, ?Hr; auto.
Qed.

Lemma calls_ok_request m s : calls_ok s → calls_ok (request m s).
Proof.
  intros [H1 H2 H3 H4 H5 H6]. unfold request. fold (seq_of m).
  set (c := callbacks (conn s)) in *. set (w0 := Channels.next c).
  assert (Hfresh : requests s !! w0 = None).
  { apply eq_None_not_Some. intros Hs. pose proof (H2 _ Hs). subst w0. lia. }
  assert (Ha : ∀ w v, answered s w v → answered (request m s) w v).
  { intros w v (msg & k & G1 & G2 & G3). exists msg, k. unfold request. cbn. fold c. fold w0.
    rewrite lookup_insert_ne; [done|]. intros Hw. rewrite <-Hw in G1. congruence. }
  split; cbn.
  - by apply wf_insert.
  - intros w. rewrite lookup_insert_is_Some. fold c w0. intros [<-|[_ Hs]]; [lia|].
    specialize (H2 _ Hs). subst w0. lia.
  - intros w n. unfold Channels.insert. cbn. fold w0.
    rewrite lookup_insert_Some. intros [[<- <-]|[Hne Hw]].
    + exists m. by rewrite lookup_insert_eq.
    + rewrite lookup_insert_ne by done. apply H3.
      destruct (Channels.transactions c !! seq_of m); [|done].
      rewrite wake_waiting in Hw. by apply lookup_delete_Some in Hw as [_ Hw].
  - intros w v Hw. apply (Ha w v), H4. revert Hw. unfold Channels.insert. cbn.
    destruct (Channels.transactions c !! seq_of m); [|done].
    rewrite wake_results. by case_decide.
  - intros w v Hw. by apply (Ha w v), H5.
  - exact H6.
Qed.

Lemma calls_ok_received s m v :
  calls_ok s → to_json m = Ok v → m ∈ processed s →
  calls_ok (set_conn (set_callbacks (Channels.response_received (seq_of m) v (callbacks (conn s)))
                        (conn s)) s).
Proof.
  intros [H1 H2 H3 H4 H5 H6] Hj Hm.
  split; cbn; [by apply wf_received| | | |exact H5|exact H6];
    unfold Channels.response_received;
    destruct (Channels.transactions (callbacks (conn s)) !! seq_of m) as [u|] eqn:Eu; try done.
  - by rewrite wake_next.
  - intros w n. rewrite wake_waiting. intros [_ Hw]%lookup_delete_Some. by apply H3.
  - intros w v'. rewrite wake_results. case_decide as Hd; [|apply H4].
    destruct Hd as [-> [n Hn]]. intros [= <-]. cbn in Hn.
    destruct (H3 u n Hn) as (msg & Hreq & Hsq). exists msg, m. split_and!; [done..| |done].
    rewrite Hsq. symmetry. by apply (wf_own _ H1 (seq_of m) u n Eu).
Qed.

Lemma calls_ok_timeout s w :
  calls_ok s →
  calls_ok (set_conn (set_callbacks (ResponseManager.timeout w (callbacks (conn s))) (conn s)) s).
Proof.
  intros [H1 H2 H3 H4 H5 H6]. unfold ResponseManager.timeout.
  split; cbn; [by apply wf_wake| | | |exact H5|exact H6].
  - by rewrite wake_next.
  - intros u n. rewrite wake_waiting. intros [_ Hw]%lookup_delete_Some. by apply H3.
  - intros u v. rewrite wake_results. case_decide; [discriminate|apply H4].
Qed.

(** The loop ends without a change to the requests. *)
Lemma calls_ok_leave r s : calls_ok s → calls_ok (leave r s).
Proof.
  intros Hs. apply (calls_ok_same s); [by destruct r|done| |done| |done]; apply Hs.
Qed.

Lemma calls_ok_finish w r s :
  (∀ v, r = Ok v → answered s w v) → calls_ok s → calls_ok (finish w r s).
Proof.
  intros Hr Hs. apply (calls_ok_same s); [done|done| |done|apply Hs|done].
  intros u v. cbn. rewrite lookup_insert_Some. intros [[<- ->]|[_ Hd]]; [by apply Hr|].
  by apply (ok_done _ Hs).
Qed.

Lemma step_calls_ok env s e s' : calls_ok s → step env s e = Some s' → calls_ok s'.
Proof.
  intros Hs Hst. destruct e as [m|u|u|u|r| | | |]; cbn [step] in Hst.
  - destruct (expects_response m); [|discriminate]. injection Hst as <-. by apply calls_ok_request.
  - unfold acquire in Hst. destruct (requests s !! u) as [msg|]; [|discriminate].
    cbn [mbind option_bind] in Hst. case_decide; [|discriminate].
    unfold mbind at 2, AsyncM_bind, lock_writer, write_all in Hst.
    destruct (holder (conn s)); [discriminate|].
    destruct (socket (conn s)) as [[]|]; cbn in Hst; injection Hst as <-.
    + by apply (calls_ok_same s); try done; apply Hs.
    + apply (calls_ok_same s); try done; [|apply Hs]. intros w v. cbn.
      rewrite lookup_insert_Some. intros [[_ ?]|[_ Hd]]; [done|]. by apply (ok_done _ Hs).
    + apply (calls_ok_same s); try done; [|apply Hs]. intros w v. cbn.
      rewrite lookup_insert_Some. intros [[_ ?]|[_ Hd]]; [done|]. by apply (ok_done _ Hs).
  - case_decide; [|discriminate].
    destruct (Channels.results (callbacks (conn s)) !! u) as [r|] eqn:Er; [|discriminate].
    injection Hst as <-. apply calls_ok_finish; [|done]. intros v Hv.
    destruct r as [v'|]; cbn in Hv; simplify_eq. by apply (ok_result _ Hs).
  - case_decide; [|discriminate]. injection Hst as <-.
    apply calls_ok_finish; [by intros v|]. by apply calls_ok_timeout.
  - destruct (selecting s); [|discriminate]. unfold read in Hst.
    destruct (read_messages r (buffer s)) as [[res b]|]; [|discriminate].
    cbn [mbind option_bind] in Hst. injection Hst as <-.
    destruct res as [[ms|]|e|]; [..|apply calls_ok_leave|apply calls_ok_leave];
      by apply (calls_ok_same s); try done; apply Hs.
  - case_decide; [|discriminate]. unfold process in Hst.
    destruct (inbox s) as [|m rest]; [discriminate|].
    destruct (process_in_message env m (conn s)) as [[r c]|] eqn:Ep; [|discriminate].
    cbn [mbind option_bind] in Hst. injection Hst as <-.
    set (s1 := mkSys c _ _ _ _ _ _ _ _).
    assert (H1 : calls_ok s1); [|destruct r; [exact H1|exact H1|by apply calls_ok_leave] ].
    assert (Hsub : ∀ k, k ∈ processed s → k ∈ processed s1) by (intros k Hk; apply elem_of_app; by left).
    destruct (process_calls env m _ _ _ Ep) as [(_ & Hcb & _)|(v & Hj & _ & ->)].
    + apply (calls_ok_same s); try done; apply Hs.
    + set (s0 := mkSys (conn s) (requests s) (done s) rest (processed s ++ [m]) (enquiring s)
                   (buffer s) (messages_received s) (loop_end s)).
      assert (H0 : calls_ok s0) by (apply (calls_ok_same s); try done; apply Hs).
      apply (calls_ok_received s0 m v H0 Hj). apply elem_of_app. right. by apply list_elem_of_singleton.
  - destruct (selecting s); [|discriminate].
    unfold enquire_link_pdu, mbind at 2, AsyncM_bind, next_sequence_number in Hst.
    cbn [SequenceNumberAllocator.next] in Hst. rewrite enquire_link_bytes in Hst.
    unfold async_lift in Hst. cbn [mbind option_bind] in Hst. injection Hst as <-.
    apply (calls_ok_same s); try done; [apply Hs|]. intros m. cbn. intros [= <-].
    apply enquire_link_not_waited. by apply N.mod_lt.
  - case_decide; [|discriminate]. destruct (enquiring s) as [m|] eqn:Em; [|discriminate].
    cbn [mbind option_bind] in Hst.
    destruct (send_message env m (conn s)) as [[r c]|] eqn:Es; [|discriminate].
    injection Hst as <-.
    apply send_not_waited_calls in Es as (_ & Hcb & _); [|by apply (ok_enquiring _ Hs)].
    assert (H1 : calls_ok (set_enquiring None (set_conn c s))) by
      (apply (calls_ok_same s); try done; apply Hs).
    destruct r; [exact H1|by apply calls_ok_leave..].
  - destruct (selecting s); [|discriminate]. destruct (messages_received s =? 0)%N; injection Hst as <-.
    + by apply calls_ok_leave.
    + apply (calls_ok_same s); try done; apply Hs.
Qed.

Lemma start_calls_ok s b : callbacks s = Channels.new → calls_ok (start s b).
Proof.
  intros Hc. split; cbn; rewrite ?Hc; [apply wf_start|..]; try done;
    intros w; by rewrite ?lookup_empty.
Qed.

(** C13: no response goes astray: in every interleaving, a request on a new connection that
    returns a value returns the decoded form of a message the SMSC sent with the
    sequence number of that request. *)
Theorem requests_sound env s b es s' w v :
  callbacks s = Channels.new → run env (start s b) es = Some s' → done s' !! w = Some (Ok v) →
  ∃ msg m, requests s' !! w = Some msg ∧ m ∈ processed s' ∧ seq_of m = seq_of msg ∧ to_json m = Ok v.
Proof.
  intros Hc Hr. apply (start_calls_ok s b) in Hc. revert Hc Hr. generalize (start s b). clear s b.
  induction es as [|e es IH]; intros s Hs Hr Hd; cbn [run] in Hr.
  - injection Hr as <-. by apply (ok_done _ Hs).
  - destruct (step env s e) as [s1|] eqn:Es; [|discriminate].
    exact (IH s1 (step_calls_ok _ _ _ _ Hs Es) Hr Hd).
Qed.

(** ** How the loop ends *)

Lemma enquire_link_pdu_spec s :
  enquire_link_pdu s = Some
    (Ok (bare_pdu (CommandId.as_u32 CommandId.EnquireLink) (cast_u32 (next_sequence s))),
     mkState (cast_u32 (next_sequence s + 1)) (receipts s) (socket s) (holder s) (callbacks s)
       (sent s) (receipt_posts s) (inbound_messages s) (active_connections s)).
Proof.
  unfold enquire_link_pdu, mbind, AsyncM_bind, next_sequence_number.
  cbn [SequenceNumberAllocator.next]. by rewrite enquire_link_bytes.
Qed.

(** What the gauge of active connections should be, given how the loop ended. *)
Definition gauge (g : Z) (s : sys) : Prop :=
  active_connections (conn s)
  = (g + match loop_end s with Some (Ok _) => 0 | _ => 1 end)%Z.

Definition enquiring_ok (s : sys) : Prop := ∀ m, enquiring s = Some m → expects_response m = false.

Lemma gauge_leave g r s : gauge g s → loop_end s = None → gauge g (leave r s).
Proof. unfold gauge, leave. intros Hg El. rewrite El in Hg. destruct r; cbn; rewrite Hg; lia. Qed.

Lemma step_gauge env g s e s' :
  enquiring_ok s → gauge g s → step env s e = Some s' → enquiring_ok s' ∧ gauge g s'.
Proof.
  intros He Hg Hst. destruct e as [m|u|u|u|r| | | |]; cbn [step] in Hst.
  - destruct (expects_response m); [|discriminate]. by injection Hst as <-.
  - unfold acquire in Hst. destruct (requests s !! u) as [msg|]; [|discriminate].
    cbn [mbind option_bind] in Hst. case_decide; [|discriminate].
    unfold mbind at 2, AsyncM_bind, lock_writer, write_all in Hst.
    destruct (holder (conn s)); [discriminate|].
    by destruct (socket (conn s)) as [[]|]; cbn in Hst; injection Hst as <-.
  - case_decide; [|discriminate].
    destruct (Channels.results (callbacks (conn s)) !! u); [|discriminate]. by injection Hst as <-.
  - case_decide; [|discriminate]. by injection Hst as <-.
  - unfold selecting in Hst. destruct (bool_decide (loop_end s = None)) eqn:El;
      [|by rewrite andb_false_r in Hst]. apply bool_decide_eq_true in El.
    destruct (_ && _); [|discriminate]. unfold read in Hst.
    destruct (read_messages r (buffer s)) as [[res b]|]; [|discriminate].
    cbn [mbind option_bind] in Hst. injection Hst as <-.
    destruct res as [[ms|]|e|]; (split; [done|]); [done|done|by apply gauge_leave..].
  - case_decide as El; [|discriminate]. unfold process in Hst.
    destruct (inbox s) as [|m rest]; [discriminate|].
    destruct (process_in_message env m (conn s)) as [[r c]|] eqn:Ep; [|discriminate].
    cbn [mbind option_bind] in Hst. injection Hst as <-.
    assert (Hc : active_connections c = active_connections (conn s)).
    { by destruct (process_calls env m _ _ _ Ep) as [(_ & _ & Ha)|(v & _ & _ & ->)]. }
    set (s1 := mkSys c _ _ _ _ _ _ _ _).
    assert (H1 : gauge g s1) by (unfold gauge in *; cbn; by rewrite Hc).
    by destruct r; (split; [done|]); [..|apply gauge_leave].
  - unfold selecting in Hst. destruct (bool_decide (loop_end s = None)) eqn:El;
      [|by rewrite andb_false_r in Hst].
    destruct (_ && _); [|discriminate]. rewrite enquire_link_pdu_spec in Hst.
    cbn [mbind option_bind] in Hst. injection Hst as <-. split; [|done].
    intros m [= <-]. apply enquire_link_not_waited. by apply N.mod_lt.
  - case_decide as El; [|discriminate]. destruct (enquiring s) as [m|] eqn:Em; [|discriminate].
    cbn [mbind option_bind] in Hst.
    destruct (send_message env m (conn s)) as [[r c]|] eqn:Es; [|discriminate].
    injection Hst as <-. apply send_not_waited_calls in Es as (_ & _ & Hc); [|by apply He].
    assert (H1 : gauge g (set_enquiring None (set_conn c s))) by (unfold gauge in *; cbn; by rewrite Hc).
    destruct r; (split; [by intros ?|]); [done|by apply gauge_leave..].
  - unfold selecting in Hst. destruct (bool_decide (loop_end s = None)) eqn:El;
      [|by rewrite andb_false_r in Hst]. apply bool_decide_eq_true in El.
    destruct (_ && _); [|discriminate].
    destruct (messages_received s =? 0)%N; injection Hst as <-; (split; [done|]); [|done].
    by apply gauge_leave.
Qed.

(** The gauge of active connections goes up by one for a bound connection and comes back
    down only when the loop is left by a failed read or by inactivity: when the connection
    is lost because its enquire_link cannot be written, it stays up for good. *)
Theorem gauge_of_connection env s b es s' :
  run env (start s b) es = Some s' →
  active_connections (conn s')
  = (active_connections s + match loop_end s' with Some (Ok _) => 0 | _ => 1 end)%Z.
Proof.
  intros Hr. assert (Hs : enquiring_ok (start s b) ∧ gauge (active_connections s) (start s b)).
  { by split; [intros m|]. }
  change (gauge (active_connections s) s').
  revert Hs Hr. generalize (active_connections s), (start s b). clear s b. intros g s.
  revert s. induction es as [|e es IH]; intros s [He Hg] Hr; cbn [run] in Hr.
  - by injection Hr as <-.
  - destruct (step env s e) as [s1|] eqn:Es; [|discriminate].
    apply (IH s1); [by apply (step_gauge env g s e)|done].
Qed.

End loop.

(** ** Alarms *)

Section alarms.
Import Reconnection.

(** Raised and cleared in turn, from the state of the last one. *)
Fixpoint alternate (active : bool) (l : list alarm) : Prop :=
  match l with
  | [] => True
  | RaiseAlarm _ _ _ :: l' => active = false ∧ alternate true l'
  | ClearAlarm _ _ _ :: l' => active = true ∧ alternate false l'
  end.

(** The state after the notifications. *)
Definition raised (l : list alarm) : bool :=
  match last l with Some (RaiseAlarm _ _ _) => true | _ => false end.

Lemma alternate_app active l a :
  alternate active (l ++ [a]) ↔
  alternate active l ∧ alternate (match l with [] => active | _ => raised l end) [a].
Proof.
  revert active. induction l as [|b l IH]; intros active; [by split; [|intros [_ ?]]|].
  assert (Hr : ∀ act', match l with [] => act' | _ => raised l end
    = if decide (l = []) then act' else raised (b :: l)).
  { intros act'. by destruct l. }
  destruct b; cbn [app alternate]; rewrite IH, Hr;
    (destruct l as [|c l]; [cbn; tauto|]); rewrite decide_False by done; tauto.
Qed.

(** An operator sees alarms in turn: over any sequence of connection attempts the
    notifications of a connection alternate, first raised, then cleared, and the last one says
    whether it is down; without a notifier there are none. *)
Theorem alarms_alternate display address notifier attempts :
  let s := run display address (new notifier) attempts in
  alternate false (alarms s) ∧
  (if notifier then alarm_active s = raised (alarms s) else alarms s = []).
Proof.
  cbv zeta. assert (Hstep : ∀ s, has_notifier s = notifier →
    alternate false (alarms s) ∧ (if notifier then alarm_active s = raised (alarms s) else alarms s = []) →
    ∀ a, let s' := run_once display address s a in has_notifier s' = notifier ∧
    alternate false (alarms s') ∧
    (if notifier then alarm_active s' = raised (alarms s') else alarms s' = [])).
  { assert (Hraise : ∀ l h p d, alternate false l → raised l = false →
      alternate false (l ++ [RaiseAlarm h p d]) ∧ raised (l ++ [RaiseAlarm h p d]) = true).
    { intros l h p d Hl Hr. split; [|unfold raised; by rewrite last_snoc].
      apply alternate_app. split; [done|]. rewrite Hr. by destruct l. }
    assert (Hclear : ∀ l h p d, alternate false l → raised l = true →
      alternate false (l ++ [ClearAlarm h p d]) ∧ raised (l ++ [ClearAlarm h p d]) = false).
    { intros l h p d Hl Hr. split; [|unfold raised; by rewrite last_snoc].
      apply alternate_app. split; [done|]. rewrite Hr. by destruct l. }
    intros [hn act l] Hn [Hl Hc] a. cbn in Hn, Hl, Hc. subst hn.
    destruct a as [e|r]; unfold run_once, on_failed, on_bound, on_disconnected; cbn [alarm_active has_notifier];
      destruct (parse_host_port address) as [host port], notifier; try subst l;
      destruct act; try destruct r; cbn;
      repeat first
        [ done
        | split
        | match goal with
          | H : true = raised ?l, Ha : alternate false ?l |- context [?l ++ [ClearAlarm ?h ?p ?d]] =>
              let G1 := fresh in let G2 := fresh in
              destruct (Hclear l h p d Ha (eq_sym H)) as [G1 G2]; clear H; symmetry in G2; revert G1 G2;
              generalize (l ++ [ClearAlarm h p d]); intros ? G1 G2
          | H : false = raised ?l, Ha : alternate false ?l |- context [?l ++ [RaiseAlarm ?h ?p ?d]] =>
              let G1 := fresh in let G2 := fresh in
              destruct (Hraise l h p d Ha (eq_sym H)) as [G1 G2]; clear H; symmetry in G2; revert G1 G2;
              generalize (l ++ [RaiseAlarm h p d]); intros ? G1 G2
          end ]. }
  assert (Hall : ∀ s, has_notifier s = notifier →
    alternate false (alarms s) ∧ (if notifier then alarm_active s = raised (alarms s) else alarms s = []) →
    alternate false (alarms (run display address s attempts)) ∧
    (if notifier then alarm_active (run display address s attempts)
       = raised (alarms (run display address s attempts))
     else alarms (run display address s attempts) = [])).
  { induction attempts as [|a attempts IH]; intros s Hn Hs; [exact Hs|].
    destruct (Hstep s Hn Hs a) as (Hn' & Hs'). by apply (IH (run_once display address s a)). }
  apply Hall; [done|]. by destruct notifier.
Qed.

End alarms.
