(* ===== verification/SmscClient.v ===== *)
(** * The client as a whole (src/smsc_client/smsc_connection_manager.rs, smsc_client.rs)

    [SmscConnectionManager] spreads requests over the connections; the handlers of the REST
    interface are computations over [app], the shared state. A connection is known by its
    number; a [pool] has the state of each, and the sequence numbers and the delivery receipts
    that all of them share with the REST interface. The listeners are in RestListeners.v, the routes
    in RestApi.v. *)
From S2P Require Export ClientConnection.

(** ** Requests and records of src/config.rs *)

Module SmppConnectionInfo.
Record t : Type := mk {
  connection_id : string;
  name : string;
  host : string;
  port : N;
  system_id : string;
  bind_type : string;
  status : string;
  reconnect_enabled : bool;
  heartbeat_interval : N;
}.

#[export] Instance eq_dec : EqDecision t.
Proof. solve_decision. Defined.

(** The serde form. *)
Definition to_value (c : t) : Value :=
  JObject (jextend
    [("connection_id", JString (connection_id c)); ("name", JString (name c));
     ("host", JString (host c)); ("port", jnum (port c)); ("system_id", JString (system_id c));
     ("bind_type", JString (bind_type c)); ("status", JString (status c));
     ("reconnect_enabled", JBool (reconnect_enabled c));
     ("heartbeat_interval", jnum (heartbeat_interval c))] []).

Definition set_status (s : string) (c : t) : t :=
  mk (connection_id c) (name c) (host c) (port c) (system_id c) (bind_type c) s
    (reconnect_enabled c) (heartbeat_interval c).
End SmppConnectionInfo.

Module CreateSmppConnectionRequest.
Record t : Type := mk {
  name : string;
  host : string;
  port : N;
  system_id : string;
  password : string;
  bind_type : option string;
  system_type : option string;
  reconnect_enabled : option bool;
  reconnect_interval : option N;
  heartbeat_interval : option N;
  enquire_link_interval : option N;
  throughput_limit : option N;
}.
End CreateSmppConnectionRequest.

Module UpdateSmppConnectionRequest.
Record t : Type := mk {
  name : option string;
  reconnect_enabled : option bool;
  reconnect_interval : option N;
  heartbeat_interval : option N;
}.
End UpdateSmppConnectionRequest.

Module AddSmscRequest.
Record t : Type := mk {
  bind_type : string;
  session_init_timer : N;
  enquire_link_timer : N;
  inactive_timer : N;
  response_timer : N;
  address : string;
  system_id : string;
  password : string;
  system_type : option string;
  addr_ton : option N;
  addr_npi : option N;
  address_range : option string;
  interface_version : option N;
  weight : option N;
}.
End AddSmscRequest.

(** ** The connections *)

Module SmscConnectionManager.

(** An [Arc<SmscConnection>]: which connection, and how it is configured. *)
Record handle : Type := mkHandle {
  number : nat;
  params : SmscConnection.params;
}.

Record t : Type := mk {
  connections : list handle;
  algorithm : LoadBalancingAlgorithm.t;
  index : N;
}.

Definition new (algorithm : LoadBalancingAlgorithm.t) : t := mk [] algorithm 0.

Definition get_connection_addresses (m : t) : list string :=
  (λ h, SmscConnection.get_address (params h)) <$> connections m.

Definition add_connection (h : handle) (m : t) : t :=
  mk (connections m ++ [h]) (algorithm m) (index m).

Definition remove_connection (address : string) (m : t) : t :=
  mk (filter (λ h, SmscConnection.get_address (params h) ≠ address) (connections m))
    (algorithm m) (index m).

(** The index is advanced before the remainder is taken, which panics for no connections. *)
Definition get_connections (m : t) : ioresult (list handle) * t :=
  let n := N.of_nat (length (connections m)) in
  match algorithm m with
  | LoadBalancingAlgorithm.RoundRobin =>
      let m' := mk (connections m) (algorithm m) (cast_u32 (index m + 1)) in
      (if (n =? 0)%N then Panic
       else Ok (rotation (N.to_nat (index m mod n)) (connections m)), m')
  | LoadBalancingAlgorithm.FailOver => (Ok (rotation 0 (connections m)), m)
  end.

(** The states of the connections, by number. The allocator of sequence numbers and the delivery
    receipts are clones of one [Arc]: what a connection has of its own is the rest. *)
Record pool : Type := mkPool {
  seq_allocator : N;
  receipts : DeliveryReceiptManager.t;
  states : nat → SmscConnection.state;
}.

(** The connection [i] as its methods see it: its own state and the shared one. *)
Definition view (i : nat) (p : pool) : SmscConnection.state :=
  let s := states p i in
  SmscConnection.mkState (seq_allocator p) (receipts p) (SmscConnection.socket s)
    (SmscConnection.holder s) (SmscConnection.callbacks s) (SmscConnection.sent s)
    (SmscConnection.receipt_posts s) (SmscConnection.inbound_messages s)
    (SmscConnection.active_connections s).

(** A method of the connection [i]: what it does to the shared state is done to it for all. *)
Definition on_connection {A} (i : nat) (m : AsyncM SmscConnection.state A) : AsyncM pool A := λ p,
  match m (view i p) with
  | Some (r, s') => Some (r, mkPool (SmscConnection.next_sequence s') (SmscConnection.receipts s')
                               (λ j, if decide (j = i) then s' else states p j))
  | None => None
  end.

(** The loop over the connections: the first response is the result. An enquire_link has none
    and goes to every connection. *)
Fixpoint try_connections (env : nat → SmscConnection.Env) (message : SMPPMessage.t)
    (hs : list handle) : AsyncM pool Value := λ st,
  match hs with
  | [] => Some (io_err Other "Failed to send message to any SMSC connection", st)
  | h :: rest =>
      match on_connection (number h) (SmscConnection.send_message (env (number h)) message) st with
      | Some (Ok (Some inner_response), st') => Some (Ok inner_response, st')
      | Some (Ok None, st') | Some (Err _, st') => try_connections env message rest st'
      | Some (Panic, st') => Some (Panic, st')
      | None => None
      end
  end.

Definition send_message (env : nat → SmscConnection.Env) (message : SMPPMessage.t) :
    AsyncM (t * pool) Value := λ '(m, st),
  match get_connections m with
  | (Ok [], m') => Some (io_err Other "No active SMSC connections available", (m', st))
  | (Ok connections, m') =>
      '(r, st') ← try_connections env message connections st; Some (r, (m', st'))
  | (Err e, m') => Some (Err e, (m', st))
  | (Panic, m') => Some (Panic, (m', st))
  end.

End SmscConnectionManager.

(** ** The REST interface *)

(** [error_json] *)
Definition error_json (code message : string) : Value :=
  JObject (jextend
    [("success", JBool false);
     ("error", JObject (jextend [("code", JString code); ("message", JString message)] []))] []).

(** [json!({"success": true, "data": v})] *)
Definition success_json (v : Value) : Value :=
  JObject (jextend [("success", JBool true); ("data", v)] []).

(** [json!({"error": text})] *)
Definition request_error (text : string) : Value := JObject [("error", JString text)].

Module SmscClient.

(** [running]: the connections whose reconnection loop was spawned. *)
Record app : Type := mkApp {
  smpp_connections_store : list SmppConnectionInfo.t;
  id_counter : N;
  manager : SmscConnectionManager.t;
  pool : SmscConnectionManager.pool;
  running : list SmscConnection.params;
}.

Definition seq_allocator (a : app) : N := SmscConnectionManager.seq_allocator (pool a).
Definition states (a : app) : nat → SmscConnection.state := SmscConnectionManager.states (pool a).

Definition set_store (l : list SmppConnectionInfo.t) (a : app) : app :=
  mkApp l (id_counter a) (manager a) (pool a) (running a).

(** [seq_allocator.next()] *)
Definition set_allocator (n : N) (a : app) : app :=
  mkApp (smpp_connections_store a) (id_counter a) (manager a)
    (SmscConnectionManager.mkPool n (SmscConnectionManager.receipts (pool a))
       (SmscConnectionManager.states (pool a))) (running a).

(** *** Start *)

Definition connection_params (c : ClientConfig.t) (conn_config : SmscConnectionConfig.t) :
    SmscConnection.params :=
  SmscConnection.mkParams (ClientConfig.bind_type c) (ClientConfig.session_init_timer c)
    (ClientConfig.enquire_link_timer c) (ClientConfig.inactive_timer c)
    (ClientConfig.response_timer c) conn_config.

(** The connections are numbered in the order of the configuration; there is one allocator and
    one table of receipts. *)
Definition new (config : ClientConfig.t) (now : Z) : app :=
  mkApp [] 0
    (SmscConnectionManager.new
       (LoadBalancingAlgorithm.from
          (default "round_robin" (ClientConfig.load_balancing_algorithm config))))
    (SmscConnectionManager.mkPool 0 (DeliveryReceiptManager.new now)
       (λ _, SmscConnection.new 0 (DeliveryReceiptManager.new now))) [].

Definition start_connection (config : ClientConfig.t) (a : app)
    (conn_config : SmscConnectionConfig.t) : app :=
  let p := connection_params config conn_config in
  let n := length (running a) in
  mkApp (smpp_connections_store a) (id_counter a)
    (SmscConnectionManager.add_connection (SmscConnectionManager.mkHandle n p) (manager a))
    (pool a) (running a ++ [p]).

Definition start (config : ClientConfig.t) (now : Z) : app :=
  foldl (start_connection config) (new config now) (ClientConfig.connections config).

(** *** Requests to the SMSC *)

Section handlers.
Context `{B64 : Base64, Tlv : TlvOrder, Gen : MessageIdGenerator}.

Definition smpp_api_handler (env : nat → SmscConnection.Env) (payload : Value) : AsyncM app Value :=
  λ a,
  match from_json payload with
  | Ok message =>
      match CommandId.from_u32 (default 0%N (SMPPMessage.get_command_id message)) with
      | None => Some (Ok (request_error "Unknown command_id"), a)
      | Some c =>
          if CommandId.is_client_request c then
            let '(sequence_number, next) := SequenceNumberAllocator.next (seq_allocator a) in
            let a := set_allocator next a in
            match SMPPMessage.update_sequence_number message sequence_number with
            | Ok message =>
                '(r, (m, p)) ← SmscConnectionManager.send_message env message (manager a, pool a);
                let a := mkApp (smpp_connections_store a) (id_counter a) m p (running a) in
                Some (match r with
                      | Ok response => Ok response
                      | Err _ => Ok (request_error "Failed to send message")
                      | Panic => Panic
                      end, a)
            | _ => Some (Panic, a)
            end
          else Some (Ok (request_error "Command_id is not a client request"), a)
      end
  | Err _ => Some (Ok (request_error "Failed to create message"), a)
  | Panic => Some (Panic, a)
  end.

(** *** The connection store *)

Definition OK : N := 200.
Definition CREATED : N := 201.
Definition NOT_FOUND : N := 404.

(** A status and a body, and the new state. *)
Abbreviation response := ((N * Value) * app)%type.

Definition get_gateway_status (uptime : N) (a : app) : Value :=
  success_json (JObject (jextend
    [("gateway", JObject (jextend [("version", JString "1.0.0"); ("uptime_seconds", jnum uptime);
                                   ("status", JString "healthy")] []));
     ("smpp_connections", JArray (SmppConnectionInfo.to_value <$> smpp_connections_store a))] [])).

Definition list_smpp_connections (a : app) : Value :=
  success_json (JArray (SmppConnectionInfo.to_value <$> smpp_connections_store a)).

Definition create_smpp_connection (req : CreateSmppConnectionRequest.t) (a : app) : response :=
  let '(connection_id, c) := generate (id_counter a) "smpp_conn-" in
  let conn := SmppConnectionInfo.mk connection_id (CreateSmppConnectionRequest.name req)
    (CreateSmppConnectionRequest.host req) (CreateSmppConnectionRequest.port req)
    (CreateSmppConnectionRequest.system_id req)
    (default "transceiver" (CreateSmppConnectionRequest.bind_type req)) "disconnected"
    (default true (CreateSmppConnectionRequest.reconnect_enabled req))
    (default 30%N (CreateSmppConnectionRequest.heartbeat_interval req)) in
  ((CREATED, success_json (SmppConnectionInfo.to_value conn)),
   mkApp (smpp_connections_store a ++ [conn]) c (manager a) (pool a) (running a)).

Definition update_info (req : UpdateSmppConnectionRequest.t) (c : SmppConnectionInfo.t) :
    SmppConnectionInfo.t :=
  SmppConnectionInfo.mk (SmppConnectionInfo.connection_id c)
    (default (SmppConnectionInfo.name c) (UpdateSmppConnectionRequest.name req))
    (SmppConnectionInfo.host c) (SmppConnectionInfo.port c) (SmppConnectionInfo.system_id c)
    (SmppConnectionInfo.bind_type c) (SmppConnectionInfo.status c)
    (default (SmppConnectionInfo.reconnect_enabled c)
       (UpdateSmppConnectionRequest.reconnect_enabled req))
    (default (SmppConnectionInfo.heartbeat_interval c)
       (UpdateSmppConnectionRequest.heartbeat_interval req)).

(** [conns.iter_mut().find(|c| c.connection_id == connection_id)] and the change to it. *)
Fixpoint update_first (f : SmppConnectionInfo.t → SmppConnectionInfo.t) (connection_id : string)
    (l : list SmppConnectionInfo.t) : option (SmppConnectionInfo.t * list SmppConnectionInfo.t) :=
  match l with
  | [] => None
  | c :: l' =>
      if decide (SmppConnectionInfo.connection_id c = connection_id) then Some (f c, f c :: l')
      else '(c', l'') ← update_first f connection_id l'; Some (c', c :: l'')
  end.

Definition not_found : N * Value := (NOT_FOUND, error_json "NOT_FOUND" "Connection not found").

Definition update_smpp_connection (connection_id : string) (req : UpdateSmppConnectionRequest.t)
    (a : app) : response :=
  match update_first (update_info req) connection_id (smpp_connections_store a) with
  | Some (conn, l) => ((OK, success_json (SmppConnectionInfo.to_value conn)), set_store l a)
  | None => (not_found, a)
  end.

Definition delete_smpp_connection (connection_id : string) (a : app) : response :=
  let conns := smpp_connections_store a in
  let left := filter (λ c, SmppConnectionInfo.connection_id c ≠ connection_id) conns in
  (if Nat.ltb (length left) (length conns)
   then (OK, success_json (JObject [("deleted", JBool true)])) else not_found,
   set_store left a).

Definition rebind_smpp_connection (connection_id : string) (a : app) : response :=
  match update_first (SmppConnectionInfo.set_status "reconnecting") connection_id
          (smpp_connections_store a) with
  | Some (_, l) =>
      ((OK, success_json (JObject (jextend [("connection_id", JString connection_id);
                                            ("status", JString "reconnecting")] []))),
       set_store l a)
  | None => (not_found, a)
  end.

(** *** Live connections *)

Definition list_live_smsc_connections (a : app) : Value :=
  success_json (JArray (imap (λ i address,
    JObject (jextend [("index", jnum (N.of_nat i)); ("address", JString address)] []))
    (SmscConnectionManager.get_connection_addresses (manager a)))).

Definition live_params (req : AddSmscRequest.t) : SmscConnection.params :=
  SmscConnection.mkParams (AddSmscRequest.bind_type req) (AddSmscRequest.session_init_timer req)
    (AddSmscRequest.enquire_link_timer req) (AddSmscRequest.inactive_timer req)
    (AddSmscRequest.response_timer req)
    (SmscConnectionConfig.mk (AddSmscRequest.address req) (AddSmscRequest.system_id req)
       (AddSmscRequest.password req) (default "" (AddSmscRequest.system_type req))
       (default 0%N (AddSmscRequest.addr_ton req)) (default 0%N (AddSmscRequest.addr_npi req))
       (default "" (AddSmscRequest.address_range req))
       (default 0x34%N (AddSmscRequest.interface_version req))).

(** The connection is started; the manager is not told. *)
Definition add_live_smsc_connection (req : AddSmscRequest.t) (a : app) : response :=
  ((CREATED, success_json (JObject (jextend
      [("address", JString (AddSmscRequest.address req));
       ("system_id", JString (AddSmscRequest.system_id req)); ("status", JString "connecting")] []))),
   mkApp (smpp_connections_store a) (id_counter a) (manager a) (pool a) (running a ++ [live_params req])).

End handlers.
End SmscClient.
