(* ===== verification/SmscClientProps.v ===== *)
(** * The client as a whole: properties

    Load balancing, which connection a REST request is written by and with which number, and
    the store of connections as a finite map under any id generator. *)
From S2P Require Export SmscClient ClientProps.

(** ** Load balancing *)

Section balance.
Import SmscConnectionManager.

(** The connection each of [k] requests in a row tries first. *)
Fixpoint first_choices (k : nat) (m : t) : list handle :=
  match k with
  | O => []
  | S k' =>
      let '(r, m') := get_connections m in
      match r with Ok (h :: _) => h :: first_choices k' m' | _ => first_choices k' m' end
  end.

Lemma rotation_head {A} start (l : list A) x :
  l !! start = Some x → ∃ rest, rotation start l = x :: rest.
Proof.
  intros Hx. pose proof (lookup_lt_Some _ _ _ Hx) as Hlt. rewrite rotation_spec by done.
  rewrite (drop_S l x start Hx). by eexists.
Qed.

Lemma mod_index_lt (n : N) {A} (l : list A) :
  l ≠ [] → N.to_nat (n mod N.of_nat (length l)) < length l.
Proof.
  intros Hl. destruct l as [|x l]; [done|].
  pose proof (N.mod_lt n (N.of_nat (length (x :: l))) ltac:(done)) as Hlt. revert Hlt.
  generalize (n mod N.of_nat (length (x :: l)))%N. intros k Hk. lia.
Qed.

Lemma round_robin_get (m : t) :
  algorithm m = LoadBalancingAlgorithm.RoundRobin → connections m ≠ [] →
  get_connections m
  = (Ok (rotation (N.to_nat (index m mod N.of_nat (length (connections m)))) (connections m)),
     mk (connections m) (algorithm m) (cast_u32 (index m + 1))).
Proof.
  intros Ha Hne. unfold get_connections. rewrite Ha. rewrite (proj2 (N.eqb_neq _ _)); [done|].
  destruct (connections m); [done|]. simpl. lia.
Qed.

Lemma first_choices_round_robin k (m : t) :
  algorithm m = LoadBalancingAlgorithm.RoundRobin → connections m ≠ [] →
  (index m + N.of_nat k ≤ 2 ^ 32)%N →
  first_choices k m
  = omap (λ i, connections m !! ((N.to_nat (index m mod N.of_nat (length (connections m))) + i)
                                   mod length (connections m))) (seq 0 k).
Proof.
  intros Ha Hne. revert m Ha Hne. induction k as [|k IH]; intros m Ha Hne Hk; [done|].
  set (l := connections m) in *. set (n := N.of_nat (length l)).
  assert (Hn : (n ≠ 0)%N) by (subst n; destruct l; simpl; [done|lia]).
  cbn [first_choices seq]. rewrite round_robin_get by done. fold l n.
  pose proof (mod_index_lt (index m) l Hne) as Hlt. fold n in Hlt.
  set (start := N.to_nat (index m mod n)) in *.
  destruct (lookup_lt_is_Some_2 l start Hlt) as [x Hx].
  destruct (rotation_head start l x Hx) as [rest ->].
  cbn [omap list_omap]. rewrite Nat.add_0_r, Nat.mod_small, Hx by done. f_equal.
  destruct (decide (k = 0)) as [->|Hk0]; [done|].
  rewrite (IH (mk l (algorithm m) (cast_u32 (index m + 1))) Ha Hne).
  2: { cbn [index]. unfold cast_u32. rewrite (N.mod_small (index m + 1)) by lia. lia. }
  cbn [connections index]. fold n. unfold cast_u32. rewrite (N.mod_small (index m + 1)) by lia.
  apply list_omap_ext, Forall2_same_length_lookup. split; [by rewrite !length_seq|].
  intros i y z [-> _]%lookup_seq [-> _]%lookup_seq.
  f_equal.
  assert (He : N.to_nat ((index m + 1) mod n) = (start + 1) mod length l).
  { subst start n. rewrite <-N.Div0.add_mod_idemp_l. set (a := (index m mod _)%N).
    rewrite N2Nat.inj_mod, N2Nat.inj_add, Nat2N.id. done. }
  rewrite He, Nat.Div0.add_mod_idemp_l. f_equal. lia.
Qed.

(** C23: round robin is fair: with the round-robin algorithm, as many requests in a row as there
    are connections start with each connection exactly once, in the configured order from the
    one whose turn it is on, around the end of the list, until the 32-bit index wraps. (With
    fail over every request starts with the first connection.) *)
Theorem round_robin_fair (m : t) :
  algorithm m = LoadBalancingAlgorithm.RoundRobin → connections m ≠ [] →
  (index m + N.of_nat (length (connections m)) ≤ 2 ^ 32)%N →
  let k := N.to_nat (index m mod N.of_nat (length (connections m))) in
  k < length (connections m) ∧
  first_choices (length (connections m)) m = drop k (connections m) ++ take k (connections m).
Proof.
  intros Ha Hne Hk k. assert (Hlt : k < length (connections m)) by (by apply mod_index_lt).
  split; [done|]. rewrite first_choices_round_robin by done. by apply (rotation_spec k).
Qed.

Lemma get_connections_cases (m : t) :
  match (get_connections m).1 with
  | Ok order => order ≡ₚ connections m
  | Err _ => False
  | Panic => algorithm m = LoadBalancingAlgorithm.RoundRobin ∧ connections m = []
  end.
Proof.
  unfold get_connections. destruct (algorithm m).
  - destruct (connections m) as [|h hs] eqn:E; [done|]. rewrite (proj2 (N.eqb_neq _ _)) by done.
    cbn [fst]. apply rotation_perm. by apply mod_index_lt.
  - cbn [fst]. destruct (connections m) as [|h hs]; [done|]. apply rotation_perm. simpl. lia.
Qed.

(** ** Sending *)

(** Computations that do not panic. *)
Definition async_total {T A} (m : AsyncM T A) : Prop := ∀ s r s', m s = Some (r, s') → r ≠ Panic.

Lemma async_total_bind {T A B} (m : AsyncM T A) (f : A → AsyncM T B) :
  async_total m → (∀ a, async_total (f a)) → async_total (m ≫= f).
Proof.
  intros Hm Hf s r s'. unfold mbind, AsyncM_bind.
  destruct (m s) as [[[a|e|] s1]|] eqn:E; [apply Hf|by intros [= <- <-]| |discriminate].
  by destruct (Hm _ _ _ E).
Qed.

Lemma send_message_no_panic env msg : async_total (SmscConnection.send_message env msg).
Proof.
  unfold SmscConnection.send_message. apply async_total_bind.
  { by destruct (SmscConnection.expects_response msg); intros s r s' [= <- <-]. }
  intros _. apply async_total_bind.
  { intros s r s'. unfold SmscConnection.lock_writer. by destruct (SmscConnection.holder s); intros [= <- <-]. }
  intros _. apply async_total_bind.
  { intros s r s'. unfold SmscConnection.write_all. by destruct (SmscConnection.socket s) as [[]|]; intros [= <- <-]. }
  intros _. destruct (SmscConnection.expects_response msg); [|by intros s r s' [= <- <-] ].
  apply async_total_bind; [|by intros a s r s' [= <- <-] ].
  intros s r s' [= <- <-]. by destruct (SmscConnection.await_channel _ _) as [[]|].
Qed.

(** One attempt on a connection. *)
Abbreviation attempt env msg h :=
  (on_connection (number h) (SmscConnection.send_message (env (number h)) msg)).

Lemma on_connection_other {A} i (m : AsyncM SmscConnection.state A) st r st' j :
  on_connection i m st = Some (r, st') → j ≠ i → states st' j = states st j.
Proof.
  unfold on_connection. destruct (m (view i st)) as [[r0 s']|]; [|discriminate]. intros [= <- <-] Hj.
  cbn. by rewrite decide_False.
Qed.

Lemma try_connections_spec env msg hs (st st' : pool) r :
  try_connections env msg hs st = Some (r, st') →
  match r with
  | Ok v => ∃ pre h suf st1, hs = pre ++ h :: suf ∧ attempt env msg h st1 = Some (Ok (Some v), st') ∧
      (∀ j, j ∉ number <$> (pre ++ [h]) → states st' j = states st j)
  | Err _ => Forall (λ h, ∃ st1 st2 r1, attempt env msg h st1 = Some (r1, st2) ∧ ∀ v, r1 ≠ Ok (Some v)) hs
  | Panic => False
  end.
Proof.
  revert st. induction hs as [|h hs IH]; intros st; cbn [try_connections]; [intros [= <- <-]; constructor|].
  destruct (attempt env msg h st) as [[[[v|]|e|] st1]|] eqn:Ea; try discriminate.
  - intros [= <- <-]. exists [], h, hs, st. split_and!; [done|done|]. intros j Hj.
    apply (on_connection_other _ _ _ _ _ j Ea). intros ->. apply Hj. by apply list_elem_of_singleton.
  - intros Hr. specialize (IH st1 Hr). destruct r as [v|e|]; [| |done].
    + destruct IH as (pre & h' & suf & st2 & -> & Ha & Ho). exists (h :: pre), h', suf, st2.
      split_and!; [done|done|]. intros j Hj. cbn in Hj. apply not_elem_of_cons in Hj as [Hne Hj].
      rewrite Ho by done. by apply (on_connection_other _ _ _ _ _ j Ea).
    + constructor; [|done]. exists st, st1, (Ok None). by split.
  - intros Hr. specialize (IH st1 Hr). destruct r as [v|e'|]; [| |done].
    + destruct IH as (pre & h' & suf & st2 & -> & Ha & Ho). exists (h :: pre), h', suf, st2.
      split_and!; [done|done|]. intros j Hj. cbn in Hj. apply not_elem_of_cons in Hj as [Hne Hj].
      rewrite Ho by done. by apply (on_connection_other _ _ _ _ _ j Ea).
    + constructor; [|done]. exists st, st1, (Err e). by split.
  - exfalso. unfold on_connection in Ea.
    destruct (SmscConnection.send_message _ msg _) as [[r0 s0]|] eqn:Es; [|discriminate].
    injection Ea as -> _. by apply send_message_no_panic in Es.
Qed.

(** A request goes to the connections one after the other, in an order that has each of
    them once; its result is the first response, and no connection after the one that gave
    it is used; it fails only when every connection failed. With round robin and no
    connection at all it panics. *)
Theorem manager_send_spec env msg (m m' : t) (st st' : pool) r :
  send_message env msg (m, st) = Some (r, (m', st')) →
  match r with
  | Ok v => ∃ pre h suf st1, pre ++ h :: suf ≡ₚ connections m ∧
      attempt env msg h st1 = Some (Ok (Some v), st') ∧
      (∀ j, j ∉ number <$> (pre ++ [h]) → states st' j = states st j)
  | Err _ => ∀ h, h ∈ connections m → ∃ st1 st2 r1,
      attempt env msg h st1 = Some (r1, st2) ∧ ∀ v, r1 ≠ Ok (Some v)
  | Panic => algorithm m = LoadBalancingAlgorithm.RoundRobin ∧ connections m = []
  end.
Proof.
  unfold send_message. pose proof (get_connections_cases m) as Hc.
  destruct (get_connections m) as [[order|e|] m1]; cbn [fst] in Hc; [|done|by intros [= <- <- <-] ].
  destruct order as [|h order].
  - intros [= <- <- <-]. intros h Hh. rewrite <-Hc in Hh. by apply elem_of_nil in Hh.
  - set (hs := h :: order) in *. clearbody hs.
    destruct (try_connections env msg hs st) as [[r0 st1]|] eqn:Et; [|discriminate].
    cbn [mbind option_bind]. intros [= <- <- <-]. apply try_connections_spec in Et.
    destruct r0 as [v|e|]; [| |done].
    + destruct Et as (pre & h' & suf & st2 & -> & Ha & Ho). by exists pre, h', suf, st2.
    + intros h' Hh. rewrite <-Hc in Hh. by rewrite Forall_forall in Et; apply Et.
Qed.

End balance.
(** ** Requests of the REST interface *)

Section requests.
Context `{B64 : Base64, Tlv : TlvOrder, Gen : MessageIdGenerator}.
Import SmscClient.

(** What a connection writes for a message when nothing is in the way. *)
Lemma send_message_writes env msg s :
  SmscConnection.socket s = Some true → SmscConnection.holder s = None → ∃ r s',
    SmscConnection.send_message env msg s = Some (r, s') ∧ r ≠ Panic ∧
    SmscConnection.sent s' = SmscConnection.sent s ++ [SMPPMessage.to_vec msg] ∧
    SmscConnection.next_sequence s' = SmscConnection.next_sequence s.
Proof.
  intros Hs Hh. unfold SmscConnection.send_message. cbv zeta. unfold mbind, AsyncM_bind.
  assert (Hw : ∀ s0 : SmscConnection.state, SmscConnection.socket s0 = Some true →
    SmscConnection.write_all (SMPPMessage.to_vec msg) s0
    = Some (Ok tt, SmscConnection.push_sent (SMPPMessage.to_vec msg) s0)).
  { intros s0 Hs0. unfold SmscConnection.write_all. by rewrite Hs0. }
  destruct (SmscConnection.expects_response msg);
    unfold SmscConnection.register_callback, async_modify, SmscConnection.lock_writer, mret, AsyncM_ret;
    cbn [SmscConnection.holder SmscConnection.set_callbacks]; rewrite Hh, Hw by done;
    [unfold async_lift; destruct (SmscConnection.await_channel _ _) as [[]|]|]; cbn; eexists _, _; by split_and!.
Qed.

(** The connections of a client whose sockets are open and whose writers are free. *)
Definition all_open (hs : list SmscConnectionManager.handle) (p : SmscConnectionManager.pool) : Prop :=
  Forall (λ h, SmscConnection.socket (SmscConnectionManager.states p (SmscConnectionManager.number h)) = Some true ∧
    SmscConnection.holder (SmscConnectionManager.states p (SmscConnectionManager.number h)) = None) hs.

(** The bytes that the connection [i] has written. *)
Abbreviation wrote p i := (SmscConnection.sent (SmscConnectionManager.states p i)).

Lemma try_connections_writes env msg hs p :
  NoDup (SmscConnectionManager.number <$> hs) → all_open hs p → ∃ r p',
    SmscConnectionManager.try_connections env msg hs p = Some (r, p') ∧ r ≠ Panic ∧
    SmscConnectionManager.seq_allocator p' = SmscConnectionManager.seq_allocator p ∧
    (∀ i, wrote p' i = wrote p i ∨
       i ∈ SmscConnectionManager.number <$> hs ∧ wrote p' i = wrote p i ++ [SMPPMessage.to_vec msg]) ∧
    match hs with
    | h :: _ => wrote p' (SmscConnectionManager.number h)
                = wrote p (SmscConnectionManager.number h) ++ [SMPPMessage.to_vec msg]
    | [] => True
    end.
Proof.
  revert p. induction hs as [|h hs IH]; intros p Hnd Hopen.
  { eexists _, p. split; [done|]. split_and!; [done..| |done]. by left. }
  rewrite fmap_cons in Hnd. apply NoDup_cons in Hnd as [Hh Hnd].
  apply Forall_cons in Hopen as [[Hs Hf] Hopen].
  set (i := SmscConnectionManager.number h) in *.
  destruct (send_message_writes (env i) msg (SmscConnectionManager.view i p) Hs Hf) as (r & s' & E & Hp & Hsent & Hseq).
  set (p1 := SmscConnectionManager.mkPool (SmscConnection.next_sequence s') (SmscConnection.receipts s')
               (λ j, if decide (j = i) then s' else SmscConnectionManager.states p j)).
  assert (Ha : SmscConnectionManager.on_connection i (SmscConnection.send_message (env i) msg) p = Some (r, p1))
    by (unfold SmscConnectionManager.on_connection; by rewrite E).
  assert (H1 : wrote p1 i = wrote p i ++ [SMPPMessage.to_vec msg]) by (cbn; by rewrite decide_True).
  assert (Ho : ∀ j, j ≠ i → SmscConnectionManager.states p1 j = SmscConnectionManager.states p j)
    by (intros j Hj; cbn; by rewrite decide_False).
  assert (Hopen1 : all_open hs p1).
  { unfold all_open in *. rewrite Forall_forall in Hopen |- *. intros h' Hin. rewrite Ho; [by apply Hopen|].
    intros Heq. apply Hh. rewrite <-Heq. by apply list_elem_of_fmap_2. }
  assert (Hstop : ∀ r1 : ioresult Value, r1 ≠ Panic →
    SmscConnectionManager.try_connections env msg (h :: hs) p = Some (r1, p1) → ∃ r p',
    SmscConnectionManager.try_connections env msg (h :: hs) p = Some (r, p') ∧ r ≠ Panic ∧
    SmscConnectionManager.seq_allocator p' = SmscConnectionManager.seq_allocator p ∧
    (∀ j, wrote p' j = wrote p j ∨ j ∈ SmscConnectionManager.number <$> h :: hs ∧
       wrote p' j = wrote p j ++ [SMPPMessage.to_vec msg]) ∧
    wrote p' i = wrote p i ++ [SMPPMessage.to_vec msg]).
  { intros r1 Hr1 Er. exists r1, p1. split_and!; [done|done|exact Hseq| |exact H1]. intros j.
    destruct (decide (j = i)) as [->|Hj]; [right; split; [by left|exact H1]|left; by rewrite Ho]. }
  assert (Hgo : SmscConnectionManager.try_connections env msg (h :: hs) p
                = SmscConnectionManager.try_connections env msg hs p1 → ∃ r p',
    SmscConnectionManager.try_connections env msg (h :: hs) p = Some (r, p') ∧ r ≠ Panic ∧
    SmscConnectionManager.seq_allocator p' = SmscConnectionManager.seq_allocator p ∧
    (∀ j, wrote p' j = wrote p j ∨ j ∈ SmscConnectionManager.number <$> h :: hs ∧
       wrote p' j = wrote p j ++ [SMPPMessage.to_vec msg]) ∧
    wrote p' i = wrote p i ++ [SMPPMessage.to_vec msg]).
  { intros ->. destruct (IH p1 Hnd Hopen1) as (r2 & p2 & -> & Hr2 & Hseq2 & Hall & _).
    assert (Hi : wrote p2 i = wrote p1 i) by (by destruct (Hall i) as [?|[? _]]).
    exists r2, p2. split_and!; [done|done|by rewrite Hseq2| |by rewrite Hi]. intros j.
    destruct (decide (j = i)) as [->|Hj]; [right; split; [by left|by rewrite Hi]|].
    rewrite <-(Ho j Hj). destruct (Hall j) as [?|[? ?]]; [by left|right; split; [by right|done]]. }
  destruct r as [[v|]|e|]; [apply (Hstop (Ok v)); [done|]|apply Hgo|apply Hgo|done];
    cbn [SmscConnectionManager.try_connections]; fold i; by rewrite Ha.
Qed.

(** The connection a request is tried on first. *)
Definition first_choice (m : SmscConnectionManager.t) : option SmscConnectionManager.handle :=
  let n := N.of_nat (length (SmscConnectionManager.connections m)) in
  SmscConnectionManager.connections m !!
    match SmscConnectionManager.algorithm m with
    | LoadBalancingAlgorithm.RoundRobin => N.to_nat (SmscConnectionManager.index m mod n)
    | LoadBalancingAlgorithm.FailOver => 0
    end.

Lemma first_choice_get m h :
  first_choice m = Some h → ∃ rest m1,
    SmscConnectionManager.get_connections m = (Ok (h :: rest), m1) ∧
    h :: rest ≡ₚ SmscConnectionManager.connections m.
Proof.
  unfold first_choice. pose proof (get_connections_cases m) as Hc.
  unfold SmscConnectionManager.get_connections in *. intros Hh.
  assert (Hne : SmscConnectionManager.connections m ≠ []) by (intros He; by rewrite He in Hh).
  destruct (SmscConnectionManager.algorithm m).
  - rewrite (proj2 (N.eqb_neq _ _)) in * by (destruct (SmscConnectionManager.connections m); [done|cbn; lia]).
    destruct (rotation_head _ _ _ Hh) as [rest Hr]. cbn [fst] in Hc. rewrite Hr in Hc |- *. by eexists _, _.
  - destruct (rotation_head _ _ _ Hh) as [rest Hr]. cbn [fst] in Hc. rewrite Hr in Hc |- *. by eexists _, _.
Qed.

(** C24: what is posted to the REST interface is what the SMSC gets. Let the message be in the
    domain of the codecs and its command a client request, and let the connections of the client
    have open sockets and free writers: then the connection whose turn it is writes one PDU, and
    decoding it gives the normal form of the posted message under the next number of the
    allocator that the REST interface shares with the connections; every other connection writes
    the same PDU or nothing. *)
Theorem rest_request_arrives env payload w c h a :
  normalize_message payload = Some w → extract_command_id payload = Some c →
  CommandId.is_client_request c = true → (seq_allocator a < 2 ^ 32)%N →
  first_choice (manager a) = Some h →
  NoDup (SmscConnectionManager.number <$> SmscConnectionManager.connections (manager a)) →
  all_open (SmscConnectionManager.connections (manager a)) (pool a) →
  ∃ r a' b, smpp_api_handler env payload a = Some (r, a') ∧ r ≠ Panic ∧
    wrote (pool a') (SmscConnectionManager.number h) = wrote (pool a) (SmscConnectionManager.number h) ++ [b] ∧
    (∀ i, wrote (pool a') i = wrote (pool a) i ∨ wrote (pool a') i = wrote (pool a) i ++ [b]) ∧
    to_json (SMPPMessage.mk b) = Ok (insert_in_object w "sequence_number" (jnum (seq_allocator a))) ∧
    seq_allocator a' = cast_u32 (seq_allocator a + 1).
Proof.
  intros Hw Hc Hreq Hseq Hfirst Hnd Hopen. unfold smpp_api_handler.
  destruct (from_json_normalizes payload w Hw) as (m & Hm & _).
  destruct (resequenced payload w m (seq_allocator a) Hw Hm Hseq)
    as (m' & cmd & Hu & Hc' & Hi & _ & _ & Hj).
  assert (cmd = c) as -> by congruence. rewrite Hm, Hi. change (default 0%N (Some ?x)) with x.
  assert (Hfrom : CommandId.from_u32 (CommandId.as_u32 c) = Some c) by (by destruct c).
  rewrite Hfrom, Hreq. cbn [SequenceNumberAllocator.next]. rewrite Hu.
  destruct (first_choice_get _ _ Hfirst) as (rest & m1 & Hget & Hperm).
  unfold SmscConnectionManager.send_message. cbn [set_allocator manager]. rewrite Hget.
  destruct (try_connections_writes env m' (h :: rest) (pool (set_allocator (cast_u32 (seq_allocator a + 1)) a)))
    as (r & p' & -> & Hr & Hp & Hall & Hh).
  { by rewrite Hperm. }
  { unfold all_open in *. by rewrite Hperm. }
  destruct m' as [b]. cbn [mbind option_bind]. eexists _, _, b. split; [reflexivity|].
  split_and!; [by destruct r|exact Hh| |exact Hj|exact Hp].
  intros i. destruct (Hall i) as [?|[_ ?]]; [by left|by right].
Qed.

(** A client that is configured without connections is brought down by its first
    request: round robin, the default, takes a remainder by the number of connections. *)
Theorem no_connection_panics env payload w c config now :
  ClientConfig.connections config = [] → ClientConfig.load_balancing_algorithm config = None →
  normalize_message payload = Some w → extract_command_id payload = Some c →
  CommandId.is_client_request c = true →
  fst <$> smpp_api_handler env payload (start config now) = Some Panic.
Proof.
  intros Hconn Halg Hw Hc Hreq. unfold smpp_api_handler.
  destruct (from_json_normalizes payload w Hw) as (m & Hm & _).
  unfold start. rewrite Hconn. cbn [foldl]. unfold new. rewrite Halg.
  destruct (resequenced payload w m 0 Hw Hm ltac:(done)) as (m' & cmd & Hu & Hc' & Hi & _).
  assert (cmd = c) as -> by congruence. rewrite Hm, Hi. change (default 0%N (Some ?x)) with x.
  assert (Hfrom : CommandId.from_u32 (CommandId.as_u32 c) = Some c) by (by destruct c).
  rewrite Hfrom, Hreq. cbn [SequenceNumberAllocator.next]. unfold seq_allocator at 1. cbn. rewrite Hu. reflexivity.
Qed.

(** A connection added at run time is started and never used: the list of live
    connections does not have it and requests go where they went before. *)
Theorem live_connection_unused env payload req a :
  let a' := (add_live_smsc_connection req a).2 in
  running a' = running a ++ [live_params req] ∧
  list_live_smsc_connections a' = list_live_smsc_connections a ∧
  fst <$> smpp_api_handler env payload a' = fst <$> smpp_api_handler env payload a.
Proof.
  cbv zeta. split; [done|]. split; [done|]. unfold smpp_api_handler, add_live_smsc_connection.
  unfold seq_allocator. cbn [snd manager pool running smpp_connections_store id_counter set_allocator].
  destruct (from_json payload) as [m|e|]; [|done..].
  destruct (CommandId.from_u32 _) as [c|]; [|done].
  destruct (CommandId.is_client_request c); [|done].
  cbn [SequenceNumberAllocator.next manager pool].
  destruct (SMPPMessage.update_sequence_number m _) as [m'|e|]; [|done..].
  by destruct (SmscConnectionManager.send_message env m' _) as [[r [m1 st1]]|].
Qed.

End requests.

(** ** The store of connections *)

Section store.
Context `{Gen : MessageIdGenerator}.
Import SmscClient.

(** The requests about the store: to list it (alone or in the status of the gateway) and to
    change it. *)
Inductive store_request : Type :=
| List
| Status (uptime : N)
| Create (req : CreateSmppConnectionRequest.t)
| Update (connection_id : string) (req : UpdateSmppConnectionRequest.t)
| Delete (connection_id : string)
| Rebind (connection_id : string).

Definition store_step (r : store_request) (a : app) : (N * Value) * app :=
  match r with
  | List => ((OK, list_smpp_connections a), a)
  | Status uptime => ((OK, get_gateway_status uptime a), a)
  | Create req => create_smpp_connection req a
  | Update id req => update_smpp_connection id req a
  | Delete id => delete_smpp_connection id a
  | Rebind id => rebind_smpp_connection id a
  end.

Fixpoint store_run (rs : list store_request) (a : app) : list (N * Value) * app :=
  match rs with
  | [] => ([], a)
  | r :: rs' =>
      let '(x, a1) := store_step r a in
      let '(xs, a2) := store_run rs' a1 in (x :: xs, a2)
  end.

(** *** The specification: a finite map from ids to connections that remembers the order they
    were created in, and the state of the generator of ids *)

Record spec_state : Type := mkSpec {
  infos : gmap string SmppConnectionInfo.t;
  order : list string;
  counter : N;
}.

Definition listing (s : spec_state) : Value :=
  JArray (SmppConnectionInfo.to_value <$> omap (λ id, infos s !! id) (order s)).

Definition new_info (id : string) (req : CreateSmppConnectionRequest.t) : SmppConnectionInfo.t :=
  SmppConnectionInfo.mk id (CreateSmppConnectionRequest.name req)
    (CreateSmppConnectionRequest.host req) (CreateSmppConnectionRequest.port req)
    (CreateSmppConnectionRequest.system_id req)
    (default "transceiver" (CreateSmppConnectionRequest.bind_type req)) "disconnected"
    (default true (CreateSmppConnectionRequest.reconnect_enabled req))
    (default 30%N (CreateSmppConnectionRequest.heartbeat_interval req)).

(** A change of one connection: its new state is the answer. *)
Definition spec_change (f : SmppConnectionInfo.t → SmppConnectionInfo.t)
    (answer : SmppConnectionInfo.t → Value) (id : string) (s : spec_state) : (N * Value) * spec_state :=
  match infos s !! id with
  | Some c => ((OK, success_json (answer (f c))), mkSpec (<[id := f c]> (infos s)) (order s) (counter s))
  | None => (not_found, s)
  end.

Definition spec_step (r : store_request) (s : spec_state) : (N * Value) * spec_state :=
  match r with
  | List => ((OK, success_json (listing s)), s)
  | Status uptime =>
      ((OK, success_json (JObject (jextend
         [("gateway", JObject (jextend [("version", JString "1.0.0"); ("uptime_seconds", jnum uptime);
                                        ("status", JString "healthy")] []));
          ("smpp_connections", listing s)] []))), s)
  | Create req =>
      let '(id, next) := generate (counter s) "smpp_conn-" in
      let c := new_info id req in
      ((CREATED, success_json (SmppConnectionInfo.to_value c)),
       mkSpec (<[id := c]> (infos s)) (order s ++ [id]) next)
  | Update id req => spec_change (update_info req) SmppConnectionInfo.to_value id s
  | Delete id =>
      match infos s !! id with
      | Some _ => ((OK, success_json (JObject [("deleted", JBool true)])),
                   mkSpec (delete id (infos s)) (filter (λ x, x ≠ id) (order s)) (counter s))
      | None => (not_found, s)
      end
  | Rebind id =>
      spec_change (SmppConnectionInfo.set_status "reconnecting")
        (λ _, JObject (jextend [("connection_id", JString id); ("status", JString "reconnecting")] []))
        id s
  end.

Fixpoint spec_run (rs : list store_request) (s : spec_state) : list (N * Value) * spec_state :=
  match rs with
  | [] => ([], s)
  | r :: rs' =>
      let '(x, s1) := spec_step r s in
      let '(xs, s2) := spec_run rs' s1 in (x :: xs, s2)
  end.

(** *** The simulation *)

Definition ids (l : list SmppConnectionInfo.t) : list string := SmppConnectionInfo.connection_id <$> l.

Definition store_map (l : list SmppConnectionInfo.t) : gmap string SmppConnectionInfo.t :=
  list_to_map ((λ c, (SmppConnectionInfo.connection_id c, c)) <$> l).

Definition abs (a : app) : spec_state :=
  mkSpec (store_map (smpp_connections_store a)) (ids (smpp_connections_store a)) (id_counter a).

(** The next [k] ids of the generator. *)
Fixpoint given (k : nat) (c : N) : list string :=
  match k with
  | O => []
  | S k' => let '(id, c') := generate c "smpp_conn-" in id :: given k' c'
  end.

Fixpoint creations (rs : list store_request) : nat :=
  match rs with
  | [] => 0
  | Create _ :: rs' => S (creations rs')
  | _ :: rs' => creations rs'
  end.

(** The ids in use and the next [k] of the generator are all different. *)
Definition store_ok (k : nat) (a : app) : Prop :=
  NoDup (ids (smpp_connections_store a) ++ given k (id_counter a)).

Lemma fst_pairs (l : list SmppConnectionInfo.t) :
  ((λ c, (SmppConnectionInfo.connection_id c, c)) <$> l).*1 = ids l.
Proof. unfold ids. by rewrite <-list_fmap_compose. Qed.

Lemma store_map_lookup l id c :
  NoDup (ids l) → store_map l !! id = Some c ↔ c ∈ l ∧ SmppConnectionInfo.connection_id c = id.
Proof.
  intros Hnd. unfold store_map. rewrite <-elem_of_list_to_map by (by rewrite fst_pairs).
  rewrite list_elem_of_fmap. split.
  - intros (d & [= -> ->] & Hd). done.
  - intros [Hc <-]. by exists c.
Qed.

Lemma store_map_lookup_None l id : store_map l !! id = None ↔ id ∉ ids l.
Proof. unfold store_map. by rewrite <-not_elem_of_list_to_map, fst_pairs. Qed.

Lemma update_first_spec f id l :
  (∀ c, SmppConnectionInfo.connection_id (f c) = SmppConnectionInfo.connection_id c) → NoDup (ids l) →
  match update_first f id l with
  | Some (c, l') => ∃ c0, store_map l !! id = Some c0 ∧ c = f c0 ∧ ids l' = ids l ∧
      store_map l' = <[id := f c0]> (store_map l)
  | None => store_map l !! id = None
  end.
Proof.
  intros Hf. induction l as [|c l IH]; intros Hnd; [done|]. unfold ids in Hnd.
  rewrite fmap_cons in Hnd. apply NoDup_cons in Hnd as [Hc Hnd]. cbn [update_first].
  assert (Hcons : ∀ d l, store_map (d :: l) = <[SmppConnectionInfo.connection_id d := d]> (store_map l)) by done.
  case_decide as Hid.
  - exists c. rewrite !Hcons, Hf, Hid, lookup_insert_eq, insert_insert_eq. split_and!; [done..| |done].
    unfold ids. by rewrite !fmap_cons, Hf.
  - specialize (IH Hnd). destruct (update_first f id l) as [[c' l'']|]; cbn [mbind option_bind].
    + destruct IH as (c0 & H1 & H2 & H3 & H4). exists c0. rewrite !Hcons, lookup_insert_ne by done.
      split_and!; [done..| |].
      * unfold ids in *. by rewrite !fmap_cons, H3.
      * rewrite H4. by apply insert_insert_ne.
    + by rewrite Hcons, lookup_insert_ne.
Qed.

Lemma update_first_ids f id l c l' :
  (∀ c, SmppConnectionInfo.connection_id (f c) = SmppConnectionInfo.connection_id c) →
  NoDup (ids l) → update_first f id l = Some (c, l') → ids l' = ids l.
Proof.
  intros Hf Hnd Hu. pose proof (update_first_spec f id l Hf Hnd) as Hs. rewrite Hu in Hs.
  by destruct Hs as (? & _ & _ & ? & _).
Qed.

Lemma delete_spec id l :
  NoDup (ids l) →
  let left := filter (λ c, SmppConnectionInfo.connection_id c ≠ id) l in
  NoDup (ids left) ∧ (∀ x, x ∈ ids left → x ∈ ids l) ∧ store_map left = delete id (store_map l) ∧
  (Nat.ltb (length left) (length l) = true ↔ is_Some (store_map l !! id)).
Proof.
  intros Hnd. cbv zeta. set (left := filter _ l).
  assert (Hsub : left `sublist_of` l) by apply sublist_filter.
  assert (Hnd' : NoDup (ids left)) by (by apply (sublist_NoDup _ (ids l)); [|apply fmap_sublist]).
  split_and!; [done| | |].
  - intros x. apply sublist_subseteq. by apply fmap_sublist.
  - apply map_eq. intros k. apply option_eq. intros c.
    rewrite lookup_delete_Some, !store_map_lookup by done. unfold left. rewrite list_elem_of_filter.
    split; [intros [[??] ?]; by split_and!; [congruence|..]|by intros [? [? ?] ]; split_and!; [congruence|..]].
  - rewrite Nat.ltb_lt. split.
    + intros Hlt. destruct (store_map l !! id) as [c|] eqn:E; [done|]. exfalso.
      apply store_map_lookup_None in E. assert (left = l) as Heq; [|rewrite Heq in Hlt; lia].
      unfold left. clear -E. induction l as [|c l IH]; [done|].
      unfold ids in E. rewrite fmap_cons in E. apply not_elem_of_cons in E as [Hne E].
      rewrite filter_cons_True by congruence. f_equal. by apply IH.
    + intros [c [Hc Hid]%store_map_lookup]; [|done]. apply (length_filter_lt _ l c); [done|].
      intros Hn. by apply Hn.
Qed.

Lemma listing_abs a : listing (abs a) = JArray (SmppConnectionInfo.to_value <$> smpp_connections_store a) ∨
  ¬ NoDup (ids (smpp_connections_store a)).
Proof.
  destruct (decide (NoDup (ids (smpp_connections_store a)))) as [Hnd|]; [left|by right].
  unfold listing, abs. cbn. do 2 f_equal. set (l := smpp_connections_store a) in *. clearbody l.
  assert (H : ∀ l1, (∀ c, c ∈ l1 → c ∈ l) → omap (λ id, store_map l !! id) (ids l1) = l1).
  { induction l1 as [|c l1 IH]; intros Hin; [done|]. unfold ids. cbn.
    rewrite (proj2 (store_map_lookup l (SmppConnectionInfo.connection_id c) c Hnd)) by (split; [apply Hin; by left|done]).
    f_equal. apply IH. intros d Hd. apply Hin. by right. }
  by apply H.
Qed.

Lemma ids_filter id l :
  ids (filter (λ c, SmppConnectionInfo.connection_id c ≠ id) l) = filter (λ x, x ≠ id) (ids l).
Proof.
  induction l as [|c l IH]; [done|].
  change (ids (c :: l)) with (SmppConnectionInfo.connection_id c :: ids l). rewrite !filter_cons, <-IH.
  by destruct (decide (SmppConnectionInfo.connection_id c ≠ id)).
Qed.

(** One request, in the list and in the map. *)
Lemma store_step_refines r rs a :
  store_ok (creations (r :: rs)) a →
  let '(x, a') := store_step r a in
  store_ok (creations rs) a' ∧ (x, abs a') = spec_step r (abs a).
Proof.
  intros Hok. assert (Hnd : NoDup (ids (smpp_connections_store a))) by (by apply NoDup_app in Hok as [? _]).
  assert (Hlist : listing (abs a) = JArray (SmppConnectionInfo.to_value <$> smpp_connections_store a))
    by (by destruct (listing_abs a)).
  assert (Hchange : ∀ f answer id, store_ok (creations rs) a →
    (∀ c, SmppConnectionInfo.connection_id (f c) = SmppConnectionInfo.connection_id c) →
    let '(x, a') := match update_first f id (smpp_connections_store a) with
      | Some (c, l) => ((OK, success_json (answer c)), set_store l a) | None => (not_found, a) end in
    store_ok (creations rs) a' ∧ (x, abs a') = spec_change f answer id (abs a)).
  { intros f answer id Hok' Hf. pose proof (update_first_spec f id (smpp_connections_store a) Hf Hnd) as Hu.
    destruct (update_first f id _) as [[c l]|]; unfold spec_change, abs; cbn [infos].
    - destruct Hu as (c0 & -> & -> & Hids & Hmap). unfold store_ok in *.
      cbn [smpp_connections_store set_store id_counter order counter]. by rewrite Hids, Hmap.
    - by rewrite Hu. }
  destruct r as [|uptime|req|id req|id|id]; cbn [store_step spec_step creations] in *.
  - split; [done|]. by rewrite Hlist.
  - split; [done|]. by rewrite Hlist.
  - unfold create_smpp_connection, store_ok in *. cbn [abs counter given] in *.
    destruct (generate (id_counter a) "smpp_conn-") as [id c'] eqn:Eg. fold (new_info id req).
    assert (Hids : ids (smpp_connections_store a ++ [new_info id req]) = ids (smpp_connections_store a) ++ [id])
      by (unfold ids; by rewrite fmap_app).
    unfold abs. cbn [smpp_connections_store id_counter infos order counter]. rewrite Hids. split.
    + by rewrite <-app_assoc.
    + do 2 f_equal. unfold store_map. rewrite fmap_app, fmap_cons, fmap_nil, list_to_map_snoc; [done|].
      rewrite fst_pairs. apply NoDup_app in Hok as (_ & Hno & _). intros Hin. apply (Hno id Hin). by left.
  - by apply (Hchange (update_info req) SmppConnectionInfo.to_value id).
  - unfold delete_smpp_connection. destruct (delete_spec id _ Hnd) as (H1 & H2 & H3 & H4).
    cbn [abs infos order counter]. set (left := filter _ _) in *. split.
    + unfold store_ok in *. cbn. apply NoDup_app in Hok as (_ & Hno & Hg). apply NoDup_app.
      split_and!; [done| |done]. intros x Hx. by apply Hno, H2.
    + unfold abs. cbn [smpp_connections_store id_counter set_store]. rewrite H3. unfold left. rewrite ids_filter. fold left.
      destruct (store_map (smpp_connections_store a) !! id) as [c|] eqn:E.
      * by rewrite (proj2 H4) by done.
      * destruct (Nat.ltb _ _); [by destruct (proj1 H4 eq_refl)|]. rewrite delete_id by done.
        do 2 f_equal. apply store_map_lookup_None in E. rewrite <-ids_filter. fold left. f_equal.
        unfold left. clear -E. induction (smpp_connections_store a) as [|c l IH]; [done|].
        change (ids (c :: l)) with (SmppConnectionInfo.connection_id c :: ids l) in E.
        apply not_elem_of_cons in E as [Hne E]. rewrite filter_cons_True by congruence. f_equal. by apply IH.
  - by apply (Hchange (SmppConnectionInfo.set_status "reconnecting")
      (λ _, JObject (jextend [("connection_id", JString id); ("status", JString "reconnecting")] [])) id).
Qed.

(** C11: the store of connections refines a finite map from ids to connections: over any
    sequence of requests that list it (alone or in the status of the gateway), create, update,
    delete or rebind connections, with any generator of ids that gives no id twice nor one that
    is in use, the REST handlers give the same statuses and bodies as the operations of a map
    that remembers the order of creation, and the list they leave represents the map the
    operations leave. *)
Theorem store_refines_map rs a :
  store_ok (creations rs) a →
  let '(xs, a') := store_run rs a in
  store_ok 0 a' ∧ (xs, abs a') = spec_run rs (abs a).
Proof.
  revert a. induction rs as [|r rs IH]; intros a Hok; [done|]. cbn [store_run spec_run].
  pose proof (store_step_refines r rs a Hok) as Hs.
  destruct (store_step r a) as [x a1]. destruct Hs as (Hok1 & Hs). rewrite <-Hs.
  specialize (IH a1 Hok1). destruct (store_run rs a1) as [xs a2].
  destruct IH as (Hok2 & Hr). rewrite <-Hr. done.
Qed.

End store.

(** The local generator gives fresh ids until its 64-bit counter wraps. *)
Lemma atomic_ids_fresh k (a : SmscClient.app) :
  NoDup (ids (SmscClient.smpp_connections_store a)) →
  (∀ id, id ∈ ids (SmscClient.smpp_connections_store a) → ∃ n,
     (n < SmscClient.id_counter a)%N ∧ id = "smpp_conn-" +:+ format_hex false 12 n) →
  (SmscClient.id_counter a + N.of_nat k ≤ 2 ^ 64)%N →
  store_ok (Gen := λ c prefix, AtomicIdGenerator.generate prefix c) k a.
Proof.
  intros Hnd Hold Hk. unfold store_ok.
  assert (Hg : ∀ j c, given (Gen := λ c prefix, AtomicIdGenerator.generate prefix c) j c
                      = AtomicIdGenerator.take_generate j "smpp_conn-" c).
  { induction j as [|j IH]; intros c; [done|]. cbn. f_equal. apply IH. }
  rewrite Hg. apply NoDup_app. split_and!; [done| |by apply atomic_ids_distinct].
  intros id Hid Hin. destruct (Hold id Hid) as (n & Hn & ->). rewrite take_generate_ids in Hin by done.
  apply list_elem_of_fmap in Hin as (i & Heq%string_app_inj%format_hex_inj & _). lia.
Qed.
