(* ===== verification/Handshake.v ===== *)
(** * The bind handshake, both sides together

    The client of src/smsc_client/smsc_connection.rs binds to the server of
    src/smsc_server/smsc_server.rs: the PDU the client builds by hand is decoded and handled by
    the server, whose response is cut out of the stream, decoded and judged by the bind
    loop of the client. Then what the bind loop does when no response comes. *)
From S2P Require Export Framing ServerProps ClientProps.
Import SmscConnection.

Section handshake.
Context {S : Type} `{St : MessageStorage S, B64 : Base64, Tlv : TlvOrder, Chr : Chrono, Reg : Regex,
  Gen : MessageIdGenerator, Ord : ClientOrder}.

Definition bind_response_fields (env : Server.Env) (system_id : string) : list (string * Value) :=
  [("system_id", JString system_id);
   ("sc_interface_version", jnum (ServerConfig.interface_version (Server.config env)))].

Lemma bind_resp_tables c :
  c ∈ [CommandId.BindTransmitter; CommandId.BindReceiver; CommandId.BindTransceiver] → ∃ cmd,
    CommandId.from_u32 (N.lor 0x80000000 (CommandId.as_u32 c)) = Some cmd ∧
    MESSAGE_COMMAND_FIELDS !! CommandId.as_u32 cmd = Some [("system_id", None)] ∧
    cmd ∈ [CommandId.BindTransmitterResp; CommandId.BindReceiverResp; CommandId.BindTransceiverResp].
Proof.
  rewrite !elem_of_cons, elem_of_nil.
  intros [->|[->|[->|[]]]]; eexists; (split; [vm_compute; reflexivity|]);
    (split; [vm_compute; reflexivity|]); apply (bool_decide_unpack _); vm_compute; exact I.
Qed.

Lemma version_tlv : ∃ t, ("sc_interface_version", t) ∈ map_to_list NAMED_TLV_FIELDS ∧
  TLVFieldCodec.value_codec t = U8FieldCodec.
Proof.
  assert (Hb : match NAMED_TLV_FIELDS !! "sc_interface_version" with
    | Some t => match TLVFieldCodec.value_codec t with U8FieldCodec => true | _ => false end
    | None => false end = true) by (vm_compute; reflexivity).
  destruct (NAMED_TLV_FIELDS !! "sc_interface_version") as [t|] eqn:E; [|discriminate].
  exists t. rewrite elem_of_map_to_list. split; [exact E|].
  by destruct (TLVFieldCodec.value_codec t).
Qed.

Lemma bind_fields_not_header k : k ∈ header_keys → k ∉ ["system_id"; "sc_interface_version"].
Proof.
  intros Hk Hin. rewrite !elem_of_cons, elem_of_nil in Hin.
  destruct Hin as [->|[->|[]]]; revert Hk; apply (bool_decide_unpack _); vm_compute; exact I.
Qed.

(** The response of the server to a bind, on the wire. *)
Lemma bind_response_bytes env c seq status system_id :
  c ∈ [CommandId.BindTransmitter; CommandId.BindReceiver; CommandId.BindTransceiver] →
  (seq < 2 ^ 32)%N → (status < 2 ^ 32)%N → cstr_ok system_id = true → str_len system_id ≤ 16 →
  ∃ reply j cmd,
    encode_or_empty (bind_response env (CommandId.as_u32 c) seq status system_id) = Ok reply ∧
    to_json (SMPPMessage.mk reply) = Ok j ∧ extract_command_id j = Some cmd ∧
    cmd ∈ [CommandId.BindTransmitterResp; CommandId.BindReceiverResp; CommandId.BindTransceiverResp] ∧
    get_u64 j "command_status" = Some status ∧
    ((N.of_nat (length reply) < 2 ^ 32)%N → SmppMessageBuffer.framed reply).
Proof.
  intros Hc Hseq Hst Hok Hlen. destruct (bind_resp_tables c Hc) as (cmd & Hcmd & Hf & Hin).
  set (id := CommandId.as_u32 c) in *. pose proof (CommandId.as_u32_bound c) as Hid. fold id in Hid.
  set (v := bind_response env id seq status system_id).
  set (n := ServerConfig.interface_version (Server.config env)).
  assert (Hv : v = create_json_response id seq status (bind_response_fields env system_id)) by done.
  assert (Hkeys : ∀ k, k ∈ header_keys → k ∉ (bind_response_fields env system_id).*1).
  { intros k Hk. by apply bind_fields_not_header. }
  assert (Hsys : get v "system_id" = Some (JString system_id)).
  { rewrite Hv. unfold create_json_response, bind_response_fields. cbn [get].
    rewrite 2!jextend_cons. change (jextend [] ?m) with m.
    rewrite jget_insert_ne by done. apply jget_insert_eq. }
  assert (Hver : get v "sc_interface_version" = Some (jnum n)).
  { rewrite Hv. unfold create_json_response, bind_response_fields. cbn [get].
    rewrite 2!jextend_cons. change (jextend [] ?m) with m. apply jget_insert_eq. }
  destruct version_tlv as (t & Ht & Htc).
  destruct (from_json_normalizes v (JObject (jextend ([("system_id", JString system_id)]
              ++ [("sc_interface_version", jnum (n mod 2 ^ 8))])
              (header_map (N.lor 0x80000000 id) status seq)))) as (m & Hm & Hj & Hframed).
  { rewrite Hv in *. apply (response_normal id seq status _ cmd Hid Hst Hseq Hkeys Hcmd _ _ _ Hf).
    - cbn [mapM]. unfold normalize_field. cbn [fst snd].
      assert (Hcodec : FIELD_CODECS !! "system_id" = Some (COctetStrFieldCodec 16)) by (vm_compute; reflexivity).
      rewrite Hcodec. cbn [mbind option_bind]. rewrite Hsys. cbn [mbind option_bind normalize as_str].
      unfold COctetStrFieldCodec.truncate. rewrite (proj2 (Nat.ltb_ge _ _)) by done. by rewrite Hok.
    - apply (normalize_tlvs_one _ _ _ t (jnum n)); [apply NoDup_fst_map_to_list|exact Ht|exact Hver| |].
      + unfold normalize_tlv. rewrite Htc. reflexivity.
      + intros k Hk Hne. apply response_get_other; [by apply map_to_list_tlv_name|].
        cbn. rewrite !elem_of_cons, elem_of_nil. intros [->|[->|[]]]; [|done].
        apply list_elem_of_fmap in Hk as ([k' t'] & Hk' & Hk). cbn in Hk'. subst k'.
        rewrite elem_of_map_to_list in Hk. revert Hk. apply eq_None_ne_Some. vm_compute. reflexivity. }
  destruct (response_pdu_header id seq status _ cmd Hid Hst Hseq Hkeys Hcmd m ltac:(rewrite <-Hv; exact Hm))
    as (G1 & G2 & _).
  destruct (to_json_header_get m _ Hj) as (id' & st' & seq' & F1 & F2 & _ & F4 & F5 & _).
  eexists (SMPPMessage.to_vec m), _, cmd. unfold encode_or_empty. rewrite Hm.
  split; [done|]. split; [destruct m; exact Hj|].
  split; [rewrite F4, <-Hcmd; congruence|]. split; [done|]. split; [congruence|exact Hframed].
Qed.

(** The reply of the server to a bind, and who it has become a client of. *)
Lemma server_bind_reply env c seq j (st : Server.world S) :
  c ∈ [CommandId.BindTransmitter; CommandId.BindReceiver; CommandId.BindTransceiver] →
  (seq < 2 ^ 32)%N → extract_command_id j = Some c → get_u64 j "sequence_number" = Some seq →
  cstr_ok (str_field j "system_id") = true → str_len (str_field j "system_id") ≤ 16 →
  Server.write_ok env (Server.writer env) = true →
  let accepted := Server.authenticate env (str_field j "system_id") (str_field j "password") in
  ∃ reply jr cmd st',
    Server.handle_message env j st = (Ok tt, st') ∧
    Server.sent st' = Server.sent st ++ [(Server.writer env, reply)] ∧
    Server.clients st' = Server.ClientManager.add_client (Server.peer_address env)
      (str_field j "address_range") (Server.writer env) (Server.clients st) ∧
    to_json (SMPPMessage.mk reply) = Ok jr ∧ extract_command_id jr = Some cmd ∧
    cmd ∈ [CommandId.BindTransmitterResp; CommandId.BindReceiverResp; CommandId.BindTransceiverResp] ∧
    get_u64 jr "command_status" = Some (CommandStatus.as_u32
      (if accepted then CommandStatus.EsmeRok else CommandStatus.EsmeRBindFail)) ∧
    ((N.of_nat (length reply) < 2 ^ 32)%N → SmppMessageBuffer.framed reply).
Proof.
  intros Hc Hseq Hj Hjs Hok Hlen Hw accepted.
  set (status := CommandStatus.as_u32
      (if accepted then CommandStatus.EsmeRok else CommandStatus.EsmeRBindFail)).
  assert (Hst : (status < 2 ^ 32)%N) by (unfold status; by destruct accepted).
  destruct (bind_response_bytes env c seq status _ Hc Hseq Hst Hok Hlen)
    as (reply & jr & cmd & Hr & Hjr & Hcmd & Hin & Hs & Hf).
  assert (Hbind : ∃ st', Server.handle_bind env (CommandId.as_u32 c) seq j st = (Ok tt, st') ∧
      Server.sent st' = Server.sent st ++ [(Server.writer env, reply)] ∧
      Server.clients st' = Server.clients st).
  { unfold Server.handle_bind. cbv zeta. fold accepted. fold status.
    unfold mbind, Server.StateM_bind, Server.lift at 1. rewrite Hr.
    unfold Server.relabel, Server.send, Server.write_to.
    destruct accepted; cbn; rewrite Hw; eexists; by split_and!. }
  destruct Hbind as (st1 & E & Hs1 & Hc1).
  exists reply, jr, cmd. unfold Server.handle_message, Server.handle_other_command. rewrite Hj.
  assert (Hs' : cast_u32 (u64_field j "sequence_number") = seq).
  { unfold u64_field. rewrite Hjs. change (default 0%N (Some seq)) with seq. by apply N.mod_small. }
  rewrite Hs'. cbv zeta.
  assert (Hdo : ∀ st2,
    (r ← Server.attempt (Server.handle_bind env (CommandId.as_u32 c) seq j);
     match r with
     | Ok _ => Server.modify (λ st, Server.set_clients (Server.ClientManager.add_client
         (Server.peer_address env) (str_field j "address_range") (Server.writer env)
         (Server.clients st)) st)
     | _ => mret tt
     end) st = (Ok tt, st2) ↔
    st2 = Server.set_clients (Server.ClientManager.add_client (Server.peer_address env)
            (str_field j "address_range") (Server.writer env) (Server.clients st1)) st1).
  { intros st2. unfold mbind, Server.StateM_bind, Server.attempt. rewrite E. cbn. split; [by intros [= <-]|by intros ->]. }
  eexists. split; [|split; [|split; [|exact (conj Hjr (conj Hcmd (conj Hin (conj Hs Hf))))]]].
  - rewrite !elem_of_cons, elem_of_nil in Hc.
    destruct Hc as [->|[->|[->|[]]]]; by apply Hdo.
  - exact Hs1.
  - cbn. by rewrite Hc1.
Qed.

(** *** The bind loop *)

(** A PDU that comes in pieces, each in time, is judged when it is complete. *)
Lemma bind_loop_pieces timer reads p b :
  SmppMessageBuffer.framed p → SmppMessageBuffer.incomplete b → b ++ concat reads.*2 = p →
  Forall (λ r, r.1 < timer * 1000)%N reads →
  bind_loop timer (prod_map id ReadBytes <$> reads) (SmppMessageBuffer.mk b)
  = Some (match to_json (SMPPMessage.mk p) with
          | Ok response => if is_bind_ok response then Ok tt else io_err Other "Bind failed"
          | Err _ => io_err Other "Failed to decode bind response"
          | Panic => Panic
          end, SmppMessageBuffer.new).
Proof.
  intros Hp. revert b. induction reads as [|[idle c] reads IH]; intros b Hb Heq Ht.
  - cbn in Heq. rewrite app_nil_r in Heq. subst p. unfold SmppMessageBuffer.incomplete in Hb.
    pose proof (framed_extract b [] Hp) as He. rewrite app_nil_r in He. by rewrite He in Hb.
  - apply Forall_cons in Ht as [Ht Hts]. cbn [fst] in Ht.
    rewrite fmap_cons. cbn [prod_map fst snd id bind_loop].
    rewrite (proj2 (N.leb_gt _ _)) by done. cbn [bind_turn]. unfold SmppMessageBuffer.write at 1. cbn [SmppMessageBuffer.buffer].
    rewrite fmap_cons in Heq. cbn [snd concat] in Heq. rewrite app_assoc in Heq.
    destruct (SmppMessageBuffer.extract_message (SmppMessageBuffer.mk (b ++ c))) as [[m|] r] eqn:E.
    + pose proof (framed_extract p [] Hp) as He. rewrite app_nil_r in He.
      apply extract_message_Some in E as (H1 & H2 & -> & ->).
      apply extract_message_Some in He as (H3 & H4 & [= Hm] & [= Hr]).
      rewrite <-Heq in Hm, Hr, H4. rewrite (take_app_le (b ++ c) _ 4) in Hm, Hr, H4 by lia.
      set (n := N.to_nat _) in *. rewrite (take_app_le (b ++ c)) in Hm by lia.
      assert (n = length (b ++ c) ∧ concat reads.*2 = []) as [Hn Hnil].
      { apply (f_equal length) in Hm. rewrite length_app, length_take in Hm.
        split; [lia|apply nil_length_inv; lia]. }
      rewrite Hnil, app_nil_r in Heq. rewrite take_ge, drop_ge by lia. by rewrite Heq.
    + apply extract_message_None in E as [Hi ->]. by apply IH.
Qed.

(** A read that brings nothing: the socket was not ready after all, the read failed, or the
    connection is closed. *)
Definition quiet (r : read_result) : Prop :=
  match r with WouldBlock | ReadFailed _ => True | ReadBytes b => b = [] end.

Lemma bind_turn_quiet r b :
  quiet r → SmppMessageBuffer.incomplete b →
  bind_turn r (SmppMessageBuffer.mk b) = (None, SmppMessageBuffer.mk b).
Proof.
  intros Hq Hb. destruct r as [|e|c]; [done..|]. cbn in Hq. subst c. cbn [bind_turn].
  unfold SmppMessageBuffer.write. cbn [SmppMessageBuffer.buffer]. rewrite app_nil_r.
  by rewrite (proj2 (extract_message_None (SmppMessageBuffer.mk b) _) (conj Hb eq_refl)).
Qed.

(** The session timer does not bound the handshake. While reads bring nothing, the bind
    loop gives up exactly when a single turn of it has waited for [session_init_timer]
    seconds: the time spent in the turns before does not count, and on a connection the SMSC
    has closed, where every read returns at once, the loop turns for ever. *)
Theorem bind_timeout_per_turn timer reads b :
  SmppMessageBuffer.incomplete b → Forall (λ r, quiet r.2) reads →
  bind_loop timer reads (SmppMessageBuffer.mk b)
  = if existsb (λ r, timer * 1000 <=? r.1)%N reads
    then Some (io_err TimedOut "Timeout waiting for bind response", SmppMessageBuffer.mk b)
    else None.
Proof.
  intros Hb Hq. induction Hq as [|[idle r] reads Hr _ IH]; [done|].
  cbn [bind_loop existsb fst]. destruct (timer * 1000 <=? idle)%N; [done|].
  cbn [orb]. by rewrite bind_turn_quiet.
Qed.

(** *** Both sides *)

Lemma bind_json_get c seq :
  str_field (bind_json c seq) "system_id" = SmscConnectionConfig.system_id (config c) ∧
  str_field (bind_json c seq) "password" = SmscConnectionConfig.password (config c) ∧
  str_field (bind_json c seq) "address_range" = SmscConnectionConfig.address_range (config c).
Proof.
  unfold str_field, get_str, bind_json, bind_fields. cbn [get]. rewrite !jextend_cons.
  change (jextend [] ?m) with m.
  split_and!; repeat first [rewrite jget_insert_eq|rewrite jget_insert_ne by done]; reflexivity.
Qed.

Lemma bind_command_in bt :
  bind_command_id bt ∈ [CommandId.BindTransmitter; CommandId.BindReceiver; CommandId.BindTransceiver].
Proof. unfold bind_command_id. repeat case_decide; apply (bool_decide_unpack _); vm_compute; exact I. Qed.

(** A PDU that arrives alone is handled, and the buffer is empty again. *)
Lemma drain_one env m j (st : Server.world S) r st' :
  SmppMessageBuffer.framed (SMPPMessage.to_vec m) → to_json m = Ok j →
  Server.handle_message env j st = (Ok r, st') →
  Server.drain env 2 (SmppMessageBuffer.mk (SMPPMessage.to_vec m)) st
  = Some (Ok SmppMessageBuffer.new, st').
Proof.
  intros Hf Hj Hh. pose proof (framed_extract _ [] Hf) as He. rewrite app_nil_r in He.
  cbn [Server.drain]. rewrite He. destruct m as [m]. cbn [SMPPMessage.to_vec SMPPMessage.message] in *.
  by rewrite Hj, Hh.
Qed.

(** The handshake. The bind a client builds from its configuration, framed on the wire,
    is read by the server as the configured system id and password; the server's verdict
    comes back as one PDU, and in whatever pieces TCP brings it, the bind loop ends with
    success exactly when the server authenticated the pair, and with the error
    "Bind failed" otherwise. *)
Lemma bind_exchange env c (s : state) (st : Server.world S) :
  config_ok (config c) → (next_sequence s < 2 ^ 32)%N →
  str_len (SmscConnectionConfig.system_id (config c)) ≤ 16 →
  Server.write_ok env (Server.writer env) = true →
  let accepted := Server.authenticate env (SmscConnectionConfig.system_id (config c))
                    (SmscConnectionConfig.password (config c)) in
  ∃ m s' reply st',
    create_bind_message c s = Some (Ok m, s') ∧
    Server.sent st' = Server.sent st ++ [(Server.writer env, reply)] ∧
    Server.clients st' = Server.ClientManager.add_client (Server.peer_address env)
      (SmscConnectionConfig.address_range (config c)) (Server.writer env) (Server.clients st) ∧
    ((N.of_nat (SMPPMessage.len m) < 2 ^ 32)%N →
     Server.drain env 2 (SmppMessageBuffer.mk (SMPPMessage.to_vec m)) st
     = Some (Ok SmppMessageBuffer.new, st')) ∧
    ((N.of_nat (length reply) < 2 ^ 32)%N →
     ∀ timer reads, concat reads.*2 = reply → Forall (λ r, r.1 < timer * 1000)%N reads →
     bind_loop timer (prod_map id ReadBytes <$> reads) SmppMessageBuffer.new
     = Some (if accepted then Ok tt else io_err Other "Bind failed", SmppMessageBuffer.new)).
Proof.
  intros Hok Hseq Hlen Hw accepted.
  destruct (create_bind_message_spec c s Hok Hseq) as (m & s' & E & _ & _ & _ & Hj & Hid & Hsq & Hf).
  destruct (to_json_header_get m _ Hj) as (id' & st0 & seq' & F1 & _ & F3 & F4 & _ & F6).
  destruct (bind_json_get c (next_sequence s)) as (Gs & Gp & Gr).
  assert (Hcmd : extract_command_id (bind_json c (next_sequence s)) = Some (bind_command_id (bind_type c))).
  { rewrite F4. rewrite Hid in F1. injection F1 as <-.
    pose proof (bind_command_in (bind_type c)) as Hb. rewrite !elem_of_cons, elem_of_nil in Hb.
    by destruct Hb as [->|[->|[->|[]]]]. }
  destruct (server_bind_reply env _ (next_sequence s) _ st (bind_command_in (bind_type c)) Hseq Hcmd)
    as (reply & jr & cmd & st' & Hh & Hsent & Hcl & Hjr & Hcr & Hin & Hst & Hfr);
    [congruence|rewrite Gs; by destruct Hok as [[? _]%Forall_cons _]|by rewrite Gs|done|].
  rewrite Gs, Gp in Hst. fold accepted in Hst. rewrite Gr in Hcl.
  exists m, s', reply, st'. split; [exact E|]. split; [exact Hsent|]. split; [exact Hcl|]. split.
  - intros Hl. exact (drain_one env m _ st tt st' (Hf Hl) Hj Hh).
  - intros Hl timer reads Hr Ht. unfold SmppMessageBuffer.new at 1.
    rewrite (bind_loop_pieces timer reads reply []); [|by apply Hfr|by apply incomplete_spec; left; cbn; lia|done..].
    rewrite Hjr. unfold is_bind_ok. rewrite Hcr, Hst.
    change (default ?d (Some ?x)) with x.
    rewrite !elem_of_cons, elem_of_nil in Hin.
    destruct Hin as [->|[->|[->|[]]]]; by destruct accepted.
Qed.

End handshake.
