(* ===== verification/Witnesses.v ===== *)
(** * Witnesses

    Concrete parameters (a calendar, patterns without operators, the in-memory storage, a
    configuration and an environment), and for each property with hypotheses an input that
    meets them, evaluated. *)
From S2P Require Export Instances MessageProps TimeFormat MemoryStorageProps Handlers ServerSteps.

(** ** Parameters *)

(** A calendar with months of thirty days. *)
#[export] Instance chrono_simple : Chrono := {
  naive_parse s := (λ n, (Z.of_N n * 1000)%Z) <$> parse_u32 (as_bytes s);
  from_local_datetime t := Some t;
  add_days t n := Some (t + Z.of_N n * 86400000)%Z;
  add_months t n := Some (t + Z.of_N n * 2592000000)%Z;
}.

(** A pattern stands for itself; [^p.*] stands for the texts that start with [p]. *)
#[export] Instance regex_simple : Regex := {
  re_valid _ := true;
  re_match r a :=
    let r := as_bytes r in
    if starts_with (as_bytes "^") r && ends_with (as_bytes ".*") r
    then starts_with (take (length r - 3) (drop 1 r)) (as_bytes a)
    else bool_decide (r = as_bytes a);
}.

#[export] Instance atomic_generator : MessageIdGenerator := λ c prefix, AtomicIdGenerator.generate prefix c.

#[export] Instance client_order_std : ClientOrder := {
  client_iter := map_to_list;
  client_iter_perm := λ c, Permutation_refl _;
}.

Definition mem_keys (s : InMemoryMessageStorage.t) : list string :=
  (map_to_list (InMemoryMessageStorage.messages s)).*1.

Lemma mem_keys_iterates s : iterates (mem_keys s) s.
Proof.
  split; [apply NoDup_fst_map_to_list|]. intros id [l Hl]. apply list_elem_of_fmap.
  exists (id, l). by rewrite elem_of_map_to_list.
Qed.

(** The in-memory storage behind the interface the server uses. *)
#[export] Instance memory_storage : MessageStorage InMemoryMessageStorage.t := {
  st_save now id m s := match InMemoryMessageStorage.save now id m s with
                        | Ok s' => (Ok tt, s') | Err e => (Err e, s) | Panic => (Panic, s) end;
  st_cancel c s := let '(b, s') := InMemoryMessageStorage.cancel_message (mem_keys s) c s in (Ok b, s');
  st_replace now c s := match InMemoryMessageStorage.replace_message now c s with
                        | Ok (b, s') => (Ok b, s') | Err e => (Err e, s) | Panic => (Panic, s) end;
}.

Definition server_config : ServerConfig.t :=
  ServerConfig.mk ["0.0.0.0:2775"] 0x34 [] None IpWhitelistConfig.default UserAuthConfig.default
    None None None None None None None None None (Some ["hello"]) None.

(** One client, its password, every socket open, every answer positive. *)
Definition test_env : Env :=
  mkEnv server_config "10.0.0.1:4000" 7 1000000
    (λ id pw, bool_decide (id = "esme" ∧ pw = "secret")) (λ _, false)
    (λ _, io_err Other "no handler") (λ _, true) (λ _, None) (DistrubutionList.new ∅).

Definition empty_world : world InMemoryMessageStorage.t :=
  mkWorld ClientManager.new 1 0 (InMemoryMessageStorage.new 3600) [] [] [] [].

(** ** Messages *)

Definition submit_json : Value :=
  JObject (jextend
    [("command_name", JString "submit_sm"); ("sequence_number", jnum 9);
     ("source_addr", JString "100"); ("destination_addr", JString "12345");
     ("short_message", JString "aGVsbG8="); ("user_message_reference", jnum 5)] []).

Lemma codec_roundtrip_witness : ∃ bs, ∀ buf rest,
  codec_encode (OctetFieldCodec true 1) (JString "aGk=") buf = (Ok tt, buf ++ bs) ∧
  codec_decode (OctetFieldCodec true 1) (bs ++ rest) = (Ok (JString "aGk="), rest).
Proof. apply codec_roundtrip; vm_compute; reflexivity. Defined.

Definition submit_normal : Value := Eval vm_compute in default JNull (normalize_message submit_json).

Lemma from_json_to_json_witness :
  normalize_message submit_json = Some submit_normal ∧
  ∃ m, from_json submit_json = Ok m ∧ to_json m = Ok submit_normal ∧
    ((N.of_nat (SMPPMessage.len m) < 2 ^ 32)%N → SmppMessageBuffer.framed (SMPPMessage.to_vec m)).
Proof.
  assert (E : normalize_message submit_json = Some submit_normal) by (vm_compute; reflexivity).
  split; [exact E|]. exact (from_json_to_json submit_json submit_normal E).
Defined.

(** A decoded submit_sm and the PDU it came in. *)
Definition submit_pdu : SMPPMessage.t :=
  Eval vm_compute in match from_json submit_json with Ok m => m | _ => SMPPMessage.mk [] end.

Lemma to_json_header_witness : ∃ id status seq,
  SMPPMessage.get_command_id submit_pdu = Some id ∧
  SMPPMessage.get_command_status submit_pdu = Some status ∧
  SMPPMessage.get_sequence_number submit_pdu = Some seq ∧
  extract_command_id submit_normal = CommandId.from_u32 id ∧
  get_u64 submit_normal "command_status" = Some status ∧
  get_u64 submit_normal "sequence_number" = Some seq.
Proof. apply to_json_header. vm_compute. reflexivity. Defined.

Lemma from_json_header_witness :
  SMPPMessage.get_command_id submit_pdu = Some 4%N ∧
  SMPPMessage.get_command_status submit_pdu = Some 0%N ∧
  SMPPMessage.get_sequence_number submit_pdu = Some 9%N ∧
  ((N.of_nat (SMPPMessage.len submit_pdu) < 2 ^ 32)%N →
   SmppMessageBuffer.framed (SMPPMessage.to_vec submit_pdu)).
Proof.
  apply (from_json_header submit_json submit_pdu CommandId.SubmitSm 0 9); vm_compute; reflexivity.
Defined.

(** A user_message_reference and a truncated parameter after it. *)
Definition tlv_bytes : bytes := [x02; x04; x00; x02; x00; x05; x02; x04; x00].

Lemma decode_tlvs_ends_witness :
  decode_tlvs 50 [] tlv_bytes = decode_tlvs (length tlv_bytes) [] tlv_bytes ∧
  (∀ m', (decode_tlvs 50 [] tlv_bytes).1 = Ok m' → length (decode_tlvs 50 [] tlv_bytes).2 < 2).
Proof. apply decode_tlvs_ends. simpl. lia. Defined.

(** Two days, three hours, four minutes and five seconds from now. *)
Lemma parse_relative_time_witness :
  parse_absolute_relative_time 1000
    (of_bytes [x30; x30; x30; x30; x30; x32; x30; x33; x30; x34; x30; x35; x30; x30; x30; x52])
  = (d ← unwrap (add_days 1000 (digits2 x30 x32 + digits2 x30 x30 * 365)%N);
     m ← unwrap (add_months d (digits2 x30 x30));
     Ok (m + Z.of_N (digits2 x30 x33) * 3600000 + Z.of_N (digits2 x30 x34) * 60000
         + Z.of_N (digits2 x30 x35) * 1000)%Z).
Proof. apply parse_relative_time. repeat (apply Forall_cons; split; [reflexivity|]). constructor. Defined.

(** ** The in-memory storage *)

Section memory.
Import InMemoryMessageStorage.

Definition text_to (addr : string) : Value :=
  JObject (jextend [("destination_addr", JString addr); ("source_addr", JString "100")] []).

(** One expired message, one due, and one scheduled for later. *)
Definition sample : t :=
  mk (<["a" := [mkEntry "1" (text_to "1") None (Some 10%Z); mkEntry "2" (text_to "2") None (Some 900%Z)]]>
      (<["b" := [mkEntry "3" (text_to "3") (Some 800%Z) None]]> ∅)) ∅ 3600.

Lemma sample_wf : wf sample.
Proof.
  intros id l. unfold sample. simpl. rewrite !lookup_insert_Some, lookup_empty.
  intros [[_ <-]|[_ [[_ <-]|[_ ?]]]]; done.
Qed.

Lemma clean_expired_exact_witness :
  messages (clean_expired_messages 100 (mem_keys sample) sample) !! "a"
  = messages sample !! "a" ≫= keep (λ e, negb (expired 100 e)).
Proof. apply clean_expired_exact, mem_keys_iterates. Defined.

Definition delivery : list (string * nat * Value) * t :=
  get_delivery_messages 100 (mem_keys sample) sample.

Lemma get_delivery_messages_spec_witness :
  NoDup ((λ x, x.1.1) <$> delivery.1) ∧
  (∀ id i m, (id, i, m) ∈ delivery.1 → ∃ l l0 e, messages delivery.2 !! id = Some l ∧ l !! i = Some e ∧
     message e = m ∧ due 100 e = true ∧ messages sample !! id = Some l0 ∧ e ∈ l0) ∧
  (∀ id l e, messages sample !! id = Some l → e ∈ l → due 100 e = true → ∃ i m, (id, i, m) ∈ delivery.1) ∧
  (∀ id l e, messages sample !! id = Some l → e ∈ l → expired 100 e = false →
     ∃ l', messages delivery.2 !! id = Some l' ∧ e ∈ l').
Proof.
  apply (get_delivery_messages_spec 100 (mem_keys sample)); [apply mem_keys_iterates|].
  apply surjective_pairing.
Defined.

Definition ticked : list Value * ioresult t := tick_deliver 100 (mem_keys sample) (λ _, true) sample.

Lemma delivered_messages_stay_witness : ticked.1 = [text_to "2"] ∧ ∃ s',
  ticked.2 = Ok s' ∧ ∀ m, m ∈ ticked.1 → ∃ id l e,
    messages s' !! id = Some l ∧ e ∈ l ∧ message e = m ∧ due 100 e = true.
Proof.
  split; [vm_compute; reflexivity|].
  apply (delivered_messages_stay 100 (mem_keys sample) sample); [apply mem_keys_iterates|].
  apply surjective_pairing.
Defined.

Lemma tick_deliver_no_panic_witness :
  ∃ vs s', tick_deliver 100 (mem_keys sample) (λ _, false) sample = (vs, Ok s').
Proof. apply tick_deliver_no_panic, mem_keys_iterates. Defined.

Definition cancelled : bool * t :=
  cancel_message (mem_keys sample) (JObject [("destination_addr", JString "2")]) sample.

Lemma cancel_message_exact_witness :
  (∀ id, messages cancelled.2 !! id
    = if cancel_id_ok (JObject [("destination_addr", JString "2")]) id
      then messages sample !! id ≫= keep (cancel_keep (JObject [("destination_addr", JString "2")]))
      else messages sample !! id)
  ∧ (cancelled.1 = true ↔ ∃ id, cancels (JObject [("destination_addr", JString "2")]) sample id).
Proof.
  apply (cancel_message_exact (mem_keys sample)); [apply mem_keys_iterates|]. apply surjective_pairing.
Defined.

(** No validity_period field: the default applies. *)
Lemma save_spec_witness : ∃ s', save 100 "c" (text_to "9") sample = Ok s' ∧ ∃ sd v,
  ok_option (F := io_error) (get_schedule_delivery_time 100 (text_to "9")) = Ok sd ∧
  ok_option (F := io_error) (get_validity_period 100 (text_to "9") 3600) = Ok v ∧
  let e := mkEntry "9" (text_to "9") sd v in
  user_address e ≠ "" ∧ (is_Some sd ∨ is_Some v) ∧ expired 100 e = false ∧
  (∀ a b, sd = Some a → v = Some b → (a ≤ b)%Z) ∧
  messages s' = <["c" := default [] (messages sample !! "c") ++ [e]]> (messages sample).
Proof.
  destruct (save 100 "c" (text_to "9") sample) as [s'| |] eqn:E.
  - exists s'. split; [reflexivity|]. exact (save_spec 100 "c" (text_to "9") sample s' E).
  - exfalso. discriminate E.
  - exfalso. discriminate E.
Defined.

Definition default_times : Value :=
  JObject (jextend [("destination_addr", JString "9"); ("schedule_delivery_time", JString "");
                    ("validity_period", JString "")] []).

Lemma save_refuses_default_times_witness :
  save 100 "c" default_times sample
  = io_err InvalidInput "Message has neither schedule_delivery_time nor validity_period".
Proof. apply save_refuses_default_times; [discriminate|reflexivity|reflexivity]. Defined.

Definition replace_json : Value :=
  JObject (jextend [("message_id", JString "b"); ("source_addr", JString "200");
                    ("short_message", JString "new")] []).

Lemma replace_message_true_unmatched_witness : ∃ b s',
  replace_message 100 replace_json sample = Ok (b, s') ∧ b = true ∧ messages s' = messages sample.
Proof.
  destruct (replace_message 100 replace_json sample) as [[b s']| |] eqn:E.
  - exists b, s'. split; [reflexivity|].
    apply (replace_message_true_unmatched 100 replace_json sample
             [mkEntry "3" (text_to "3") (Some 800%Z) None] b s'); [reflexivity| |exact E].
    intros e He. apply list_elem_of_singleton in He as ->. reflexivity.
  - exfalso. discriminate E.
  - exfalso. discriminate E.
Defined.

Lemma wf_preserved_witness :
  (∀ s', save 100 "c" (text_to "9") sample = Ok s' → wf s') ∧
  wf (tick_clean 100 (mem_keys sample) sample) ∧
  (∀ vs s', tick_deliver 100 (mem_keys sample) (λ _, false) sample = (vs, Ok s') → wf s') ∧
  (∀ b s', cancel_message (mem_keys sample) replace_json sample = (b, s') → wf s') ∧
  (∀ b s', replace_message 100 replace_json sample = Ok (b, s') → wf s').
Proof. apply wf_preserved; [apply mem_keys_iterates|apply sample_wf]. Defined.
End memory.

(** ** Services *)

Definition two_urls : HttpMessageHandler.t :=
  HttpMessageHandler.mk [] [] ["u1"; "u2"] 1 LoadBalancingAlgorithm.RoundRobin.

(** Only the first url answers. *)
Definition post_u1 (url : string) (v : Value) : http_result :=
  if bool_decide (url = "u1") then HttpResponse true (Some (JBool true)) else HttpFailed.

Lemma http_handler_spec_witness :
  (HttpMessageHandler.handle_message post_u1 JNull two_urls).2
  = HttpMessageHandler.mk [] [] ["u1"; "u2"] 2 LoadBalancingAlgorithm.RoundRobin ∧
  ∃ pre url suf, ["u2"; "u1"] = pre ++ url :: suf ∧
    post_u1 url JNull = HttpResponse true (Some (JBool true)) ∧
    Forall (λ u, ∀ b, post_u1 u JNull ≠ HttpResponse true (Some b)) pre.
Proof.
  apply (http_handler_spec post_u1 JNull two_urls (Ok (JBool true))
    (HttpMessageHandler.handle_message post_u1 JNull two_urls).2);
    [discriminate|reflexivity].
Defined.

Lemma atomic_ids_distinct_witness : NoDup (AtomicIdGenerator.take_generate 3 "msg-" 41).
Proof. apply atomic_ids_distinct. vm_compute. discriminate. Defined.

(** The counter wraps in the middle. *)
Lemma sequence_numbers_distinct_witness :
  NoDup (SequenceNumberAllocator.take_next 4 4294967294).
Proof. apply sequence_numbers_distinct; vm_compute; [reflexivity|discriminate]. Defined.

(** ** The server *)

Lemma submit_has_command_id : has_command_id submit_normal.
Proof. eexists. split; [reflexivity|]. eexists. reflexivity. Qed.

(** A bind_transceiver for the numbers that start with 12, with the wrong password. *)
Definition bind_json : Value :=
  JObject (jextend
    [("command_id", jnum 9); ("sequence_number", jnum 1); ("system_id", JString "esme");
     ("password", JString "wrong"); ("address_range", JString "^12")] []).

Lemma failed_bind_registers_witness : ∃ b,
  handle_message test_env bind_json empty_world
  = (Ok tt, set_clients (<["10.0.0.1:4000" := ("^12.*", 7)]> ∅) (push_sent 7 b empty_world)).
Proof.
  eexists.
  apply (failed_bind_registers test_env bind_json CommandId.BindTransceiver "^12" _ empty_world).
  - vm_compute. reflexivity.
  - apply (bool_decide_unpack _). vm_compute. exact I.
  - vm_compute. reflexivity.
  - vm_compute. reflexivity.
  - discriminate.
  - reflexivity.
  - reflexivity.
  - reflexivity.
  - vm_compute. reflexivity.
Defined.

(** The bind and then a submit_sm, cut in the middle of the second PDU. *)
Definition bind_bytes : bytes :=
  Eval vm_compute in match from_json (JObject (jextend
    [("command_id", jnum 9); ("sequence_number", jnum 1); ("system_id", JString "esme");
     ("password", JString "secret"); ("system_type", JString ""); ("interface_version", jnum 52);
     ("addr_ton", jnum 0); ("addr_npi", jnum 0); ("address_range", JString "^12")] [])) with
  | Ok m => SMPPMessage.to_vec m | _ => [] end.

Definition reads : list (Env * bytes) :=
  [(test_env, bind_bytes ++ take 20 (SMPPMessage.to_vec submit_pdu));
   (test_env, drop 20 (SMPPMessage.to_vec submit_pdu))].

Definition ran := run reads test_env SmppMessageBuffer.new empty_world.

Lemma run_clients_witness : ∃ st', ran = Some (Ok tt, st') ∧
  clients st' = delete "10.0.0.1:4000" ∅.
Proof.
  destruct ran as [[[[]| |] st']|] eqn:E.
  - exists st'. split; [reflexivity|].
    apply (run_clients "10.0.0.1:4000" reads test_env SmppMessageBuffer.new empty_world st');
      [|reflexivity|exact E].
    repeat (apply Forall_cons; split; [reflexivity|]). apply Forall_nil. exact I.
  - exfalso. assert (Hr : match ran with Some (r, _) => is_ok r | None => false end = true)
      by (vm_compute; reflexivity). rewrite E in Hr. discriminate Hr.
  - exfalso. assert (Hr : match ran with Some (r, _) => is_ok r | None => false end = true)
      by (vm_compute; reflexivity). rewrite E in Hr. discriminate Hr.
  - exfalso. assert (Hr : match ran with Some (r, _) => is_ok r | None => false end = true)
      by (vm_compute; reflexivity). rewrite E in Hr. discriminate Hr.
Defined.

(** A data_sm as a peer sends it. *)
Definition data_pdu : SMPPMessage.t :=
  Eval vm_compute in match from_json (JObject (jextend
    [("command_name", JString "data_sm"); ("sequence_number", jnum 3);
     ("destination_addr", JString "12345")] [])) with
  | Ok m => m | _ => SMPPMessage.mk [] end.

Definition data_json : Value :=
  Eval vm_compute in match to_json data_pdu with Ok j => j | _ => JNull end.

Lemma data_sm_delivery_panics_witness :
  to_json data_pdu = Ok data_json ∧
  (handle_schedule_delivery_message test_env data_json empty_world).1 = Panic.
Proof.
  assert (E : to_json data_pdu = Ok data_json) by (vm_compute; reflexivity).
  split; [exact E|]. apply (data_sm_delivery_panics test_env data_pdu data_json empty_world E).
  - vm_compute. reflexivity.
  - vm_compute. eexists. reflexivity.
Defined.

Definition enquire_json : Value :=
  JObject (jextend [("command_id", jnum 21); ("sequence_number", jnum 5)] []).

Lemma status_answers_witness :
  handle_message test_env enquire_json empty_world
  = (Ok tt, push_sent 7 (be_bytes 4 16 ++ be_bytes 4 0x80000015 ++ be_bytes 4 0 ++ be_bytes 4 5)
              empty_world).
Proof.
  apply (status_answers test_env enquire_json CommandId.EnquireLink empty_world).
  - vm_compute. reflexivity.
  - reflexivity.
  - apply (bool_decide_unpack _). vm_compute. exact I.
Defined.

(** Scheduled for a day from now: accepted, and stored. *)
Definition scheduled_json : Value :=
  JObject (jextend [("destination_addr", JString "9"); ("schedule_delivery_time", JString "000001000000000R")] []).

Definition stored :=
  store_and_forward_message test_env 4 9 "msg-1" scheduled_json empty_world.

Lemma store_and_forward_spec_witness : ∃ response,
  stored.1 = Ok (inl response) ∧
  in_order 1000000 (Some 87400000%Z) (Some 91000000%Z) ∧
  st_save 1000000 "msg-1" scheduled_json (storage empty_world) = (Ok tt, storage stored.2) ∧
  response = message_id_response 4 9 CommandStatus.EsmeRok "msg-1".
Proof.
  pose proof (store_and_forward_spec test_env 4 9 "msg-1" scheduled_json empty_world
    (Some 87400000%Z) (Some 91000000%Z)) as Hs. fold stored in Hs.
  assert (E : ∃ r st', stored = (Ok (inl r), st')) by (eexists _, _; vm_compute; reflexivity).
  destruct E as (r & st' & E). rewrite E in Hs. exists r. rewrite E.
  split; [reflexivity|]. apply Hs; vm_compute; reflexivity.
Defined.
