(* ===== verification/ClientWitnesses.v ===== *)
(** * Witnesses for the client

    A connection with an open socket, a message handler that accepts everything and the PDUs
    of a small session; for each property of the client with hypotheses an input that meets
    them, evaluated. *)
From S2P Require Export Witnesses Handshake ClientLoopProps SmscClientProps.

Lemma parse_host_port_roundtrip_witness :
  parse_host_port ("::1" +:+ ":" +:+ format_dec 2775) = ("::1", 2775%N).
Proof. apply parse_host_port_roundtrip. reflexivity. Defined.

(** ** One connection *)

Section connection.
Import SmscConnection ConnectionLoop.

Definition client_env : SmscConnection.Env :=
  mkEnv 0 (λ _, Ok (JObject [])) (λ _, None).

Definition open_conn : SmscConnection.state :=
  set_socket (Some true) (SmscConnection.new 1 (DeliveryReceiptManager.new 0)).

(** An enquire_link of the SMSC, its sequence number 7. *)
Definition enquire_pdu : SMPPMessage.t := SMPPMessage.mk Framing.enquire_link_pdu.

Definition enquire_decoded : Value :=
  Eval vm_compute in match to_json enquire_pdu with Ok j => j | _ => JNull end.

Lemma enquire_decodes : to_json enquire_pdu = Ok enquire_decoded.
Proof. vm_compute. reflexivity. Qed.

Lemma inbound_answered_once_witness : ∃ s',
  process_in_message client_env enquire_pdu open_conn = Some (Ok tt, s') ∧
  receipt_posts s' = receipt_posts open_conn ∧
  ∃ b status, SmscConnection.sent s' = SmscConnection.sent open_conn ++ [b] ∧
    answers 21 7 status b ∧ status = 0%N.
Proof.
  destruct (inbound_answered_once client_env enquire_pdu enquire_decoded CommandId.EnquireLink open_conn)
    as (s' & E & H).
  - exact enquire_decodes.
  - vm_compute. reflexivity.
  - apply (bool_decide_unpack _). vm_compute. exact I.
  - reflexivity.
  - reflexivity.
  - discriminate.
  - exists s'. exact (conj E H).
Defined.

(** A submit_sm_resp that refuses, header only: status 8, sequence number 9. *)
Definition refused_pdu : SMPPMessage.t := SMPPMessage.mk
  [x00;x00;x00;x10; x80;x00;x00;x04; x00;x00;x00;x08; x00;x00;x00;x09].

Lemma response_without_body_lost_witness :
  process_in_message client_env refused_pdu open_conn
  = Some (io_err InvalidData "Failed to decode message from SMSC", open_conn).
Proof.
  apply (response_without_body_lost client_env refused_pdu CommandId.SubmitSmResp open_conn).
  - apply (bool_decide_unpack _). vm_compute. exact I.
  - vm_compute. reflexivity.
  - reflexivity.
Defined.

(** ** The loop *)

(** A submit_sm holds the writer when an enquire_link comes in. *)
Definition session : list event :=
  [Request submit_pdu; Acquire 0; Read (ReadBytes Framing.enquire_link_pdu)].

Definition busy : sys :=
  default (start open_conn SmppMessageBuffer.new)
    (run client_env (start open_conn SmppMessageBuffer.new) session).

Lemma busy_callbacks : callbacks (conn busy) = Channels.insert 9 Channels.new.
Proof. vm_compute. reflexivity. Qed.

Lemma busy_inbox : inbox busy = [enquire_pdu].
Proof. vm_compute. reflexivity. Qed.

Lemma busy_blocked : blocked client_env 0 9 busy.
Proof.
  split.
  - rewrite busy_callbacks. apply wf_insert, wf_start.
  - vm_compute. reflexivity.
  - rewrite busy_callbacks. vm_compute. reflexivity.
  - left. exists enquire_pdu, []. split; [exact busy_inbox|]. split; [|vm_compute; reflexivity].
    exists enquire_decoded, CommandId.EnquireLink.
    split; [exact enquire_decodes|].
    split; [vm_compute; reflexivity|]. by left.
Qed.

(** The second request of the client, while the first one waits. *)
Definition second_pdu : SMPPMessage.t :=
  Eval vm_compute in match SMPPMessage.update_sequence_number submit_pdu 10 with
  | Ok m => m | _ => SMPPMessage.mk [] end.

Lemma request_waits_behind_answer_witness : ∃ s',
  run client_env busy [Request second_pdu] = Some s' ∧
  SmscConnection.sent (conn s') = SmscConnection.sent (conn busy) ∧ inbox s' = [enquire_pdu] ∧
  done s' !! 0 = None ∧
  ∃ s'', step client_env s' (Timeout 0) = Some s'' ∧
    done s'' !! 0 = Some (io_err TimedOut "Timeout waiting for response").
Proof.
  exists (request second_pdu busy).
  assert (E : run client_env busy [Request second_pdu] = Some (request second_pdu busy))
    by (cbn [run]; unfold step; destruct (expects_response second_pdu) eqn:Ex; [reflexivity|discriminate Ex]).
  split; [exact E|].
  destruct (request_waits_behind_answer client_env 0 9 busy [Request second_pdu] (request second_pdu busy))
    as (H1 & H2 & H3 & H4).
  - exact busy_blocked.
  - apply Forall_singleton. vm_compute. discriminate.
  - exact E.
  - rewrite H2, busy_inbox. rewrite H3. exact (conj H1 (conj eq_refl (conj eq_refl H4))).
Defined.

(** The response to the submit_sm, after one to another request. *)
Definition submit_resp (seq : N) : SMPPMessage.t :=
  match from_json (create_json_response 4 seq 0 [("message_id", JString "m-1")]) with
  | Ok m => m | _ => SMPPMessage.mk [] end.

Definition replied : sys :=
  default (start open_conn SmppMessageBuffer.new)
    (run client_env (start open_conn SmppMessageBuffer.new)
       [Request submit_pdu; Acquire 0;
        Read (ReadBytes (SMPPMessage.to_vec (submit_resp 3) ++ SMPPMessage.to_vec (submit_resp 9)))]).

Lemma replied_callbacks : callbacks (conn replied) = Channels.insert 9 Channels.new.
Proof. vm_compute. reflexivity. Qed.

Definition resp_decoded : Value :=
  Eval vm_compute in match to_json (submit_resp 9) with Ok j => j | _ => JNull end.

Lemma request_gets_response_witness : ∃ s',
  run client_env replied [Process; Process; Finish 0] = Some s' ∧
  done s' !! 0 = Some (Ok resp_decoded) ∧ SmscConnection.holder (conn s') = None ∧ inbox s' = [].
Proof.
  apply (request_gets_response client_env 0 9 CommandId.SubmitSmResp (submit_resp 9) resp_decoded
    [submit_resp 3] [] replied).
  - vm_compute. reflexivity.
  - vm_compute. reflexivity.
  - rewrite replied_callbacks. apply wf_insert, wf_start.
  - vm_compute. reflexivity.
  - vm_compute. reflexivity.
  - vm_compute. reflexivity.
  - apply Forall_singleton. split; [|vm_compute; discriminate].
    assert (Hid : SMPPMessage.get_command_id (submit_resp 3) = Some 0x80000004%N) by (vm_compute; reflexivity).
    intros c. rewrite Hid. intros [= Hc] Hin. rewrite !elem_of_cons, elem_of_nil in Hin.
    destruct Hin as [->|[->|[->|[]]]]; discriminate Hc.
  - vm_compute. reflexivity.
  - vm_compute. reflexivity.
  - vm_compute. reflexivity.
  - vm_compute. reflexivity.
Defined.

Definition finished : sys :=
  default replied (run client_env (start open_conn SmppMessageBuffer.new)
    [Request submit_pdu; Acquire 0;
     Read (ReadBytes (SMPPMessage.to_vec (submit_resp 9))); Process; Finish 0]).

Lemma finished_run : run client_env (start open_conn SmppMessageBuffer.new)
    [Request submit_pdu; Acquire 0;
     Read (ReadBytes (SMPPMessage.to_vec (submit_resp 9))); Process; Finish 0] = Some finished.
Proof.
  unfold finished. destruct (run _ _ _) as [s|] eqn:E; [reflexivity|].
  exfalso. revert E. apply (bool_decide_unpack (_ ≠ None)). vm_compute. exact I.
Qed.

Lemma requests_sound_witness : ∃ msg m,
  requests finished !! 0 = Some msg ∧ m ∈ processed finished ∧ seq_of m = seq_of msg ∧
  to_json m = Ok resp_decoded.
Proof.
  eapply (requests_sound client_env open_conn SmppMessageBuffer.new _ finished 0 resp_decoded).
  - reflexivity.
  - exact finished_run.
  - vm_compute. reflexivity.
Defined.

Lemma gauge_of_connection_witness : active_connections (conn finished) = 1%Z.
Proof.
  exact (gauge_of_connection client_env open_conn SmppMessageBuffer.new _ finished finished_run).
Defined.

(** ** Binding *)

Definition client_params : params :=
  mkParams "transceiver" 10 30 300 30
    (SmscConnectionConfig.mk "10.0.0.1:2775" "esme" "secret" "" 0 0 "^12" 0x34).

Lemma bind_timeout_per_turn_witness :
  bind_loop 10 [(9000%N, ReadBytes []); (9000%N, WouldBlock); (10000%N, ReadBytes [])] SmppMessageBuffer.new
  = Some (io_err TimedOut "Timeout waiting for bind response", SmppMessageBuffer.new).
Proof.
  apply (bind_timeout_per_turn 10
    [(9000%N, ReadBytes []); (9000%N, WouldBlock); (10000%N, ReadBytes [])] []).
  - reflexivity.
  - repeat (apply Forall_cons; split; [reflexivity|]). constructor.
Defined.

Lemma client_params_ok : config_ok (config client_params).
Proof.
  split; repeat (apply Forall_cons; split; [vm_compute; reflexivity|]); constructor.
Qed.

End connection.

(** ** The client *)

Section client.
Import SmscConnectionManager.

Definition two_connections : SmscConnectionManager.t :=
  SmscConnectionManager.mk [mkHandle 0 client_params; mkHandle 1 client_params]
    LoadBalancingAlgorithm.RoundRobin 1.

Lemma round_robin_fair_witness :
  1 < 2 ∧ first_choices 2 two_connections = [mkHandle 1 client_params; mkHandle 0 client_params].
Proof. apply (round_robin_fair two_connections); [reflexivity|discriminate|vm_compute; discriminate]. Defined.

(** The first connection, which comes second, has no socket; the channel of the other one
    gives an answer. *)
Definition client_envs (i : nat) : SmscConnection.Env :=
  SmscConnection.mkEnv 0 (λ _, Ok (JObject [])) (λ _, Some (Some resp_decoded)).

Definition client_states (i : nat) : SmscConnection.state :=
  if decide (i = 1) then open_conn else SmscConnection.new 1 (DeliveryReceiptManager.new 0).

Definition client_pool : pool := mkPool 5 (DeliveryReceiptManager.new 0) client_states.

Definition sent_by_manager :=
  SmscConnectionManager.send_message client_envs submit_pdu (two_connections, client_pool).

Lemma manager_send_spec_witness : ∃ m' st',
  sent_by_manager = Some (Ok resp_decoded, (m', st')) ∧
  ∃ pre h suf st1, pre ++ h :: suf ≡ₚ connections two_connections ∧
    on_connection (number h) (SmscConnection.send_message (client_envs (number h)) submit_pdu) st1 = Some (Ok (Some resp_decoded), st') ∧
    (∀ j, j ∉ number <$> (pre ++ [h]) → states st' j = client_states j).
Proof.
  assert (E : ∃ m' st', sent_by_manager = Some (Ok resp_decoded, (m', st'))).
  { eexists _, _. vm_compute. reflexivity. }
  destruct E as (m' & st' & E). exists m', st'. split; [exact E|].
  exact (manager_send_spec client_envs submit_pdu two_connections m' client_pool st' (Ok resp_decoded) E).
Defined.

(** Both connections are open, and it is the turn of the second. *)
Definition one_app : SmscClient.app :=
  SmscClient.mkApp [] 0 two_connections (mkPool 5 (DeliveryReceiptManager.new 0) (λ _, open_conn)) [].

Lemma rest_request_arrives_witness : ∃ r a' b,
  SmscClient.smpp_api_handler client_envs submit_json one_app = Some (r, a') ∧ r ≠ Panic ∧
  SmscConnection.sent (SmscClient.states a' 1) = SmscConnection.sent open_conn ++ [b] ∧
  (∀ i, SmscConnection.sent (SmscClient.states a' i) = SmscConnection.sent open_conn ∨
        SmscConnection.sent (SmscClient.states a' i) = SmscConnection.sent open_conn ++ [b]) ∧
  to_json (SMPPMessage.mk b) = Ok (insert_in_object submit_normal "sequence_number" (jnum 5)) ∧
  SmscClient.seq_allocator a' = 6%N.
Proof.
  apply (rest_request_arrives client_envs submit_json submit_normal CommandId.SubmitSm
    (mkHandle 1 client_params) one_app).
  - vm_compute. reflexivity.
  - vm_compute. reflexivity.
  - reflexivity.
  - reflexivity.
  - vm_compute. reflexivity.
  - apply (bool_decide_unpack _). vm_compute. exact I.
  - apply Forall_cons. split; [split; reflexivity|]. apply Forall_cons. split; [split; reflexivity|].
    apply Forall_nil. exact I.
Defined.

Definition no_connections : ClientConfig.t :=
  ClientConfig.mk "transceiver" [] [] None None None None 30 30 300 30.

Lemma no_connection_panics_witness :
  fst <$> SmscClient.smpp_api_handler client_envs submit_json (SmscClient.start no_connections 0)
  = Some Panic.
Proof.
  apply (no_connection_panics client_envs submit_json submit_normal CommandId.SubmitSm no_connections 0).
  - reflexivity.
  - reflexivity.
  - vm_compute. reflexivity.
  - vm_compute. reflexivity.
  - reflexivity.
Defined.

Definition store_requests : list store_request :=
  [Create (CreateSmppConnectionRequest.mk "main" "10.0.0.1" 2775 "esme" "secret"
     None None None None None None None);
   Rebind "smpp_conn-000000000000"; List; Delete "no-such-id"; Status 60].

Lemma store_refines_map_witness :
  let '(xs, a') := store_run store_requests one_app in
  store_ok 0 a' ∧ (xs, abs a') = spec_run store_requests (abs one_app).
Proof.
  apply (store_refines_map store_requests one_app).
  apply (bool_decide_unpack _). vm_compute. exact I.
Defined.
End client.
