(* ===== verification/Texts.v ===== *)
(** * Texts of values and of times

    The storages outside the process keep a message as JSON text and an instant as
    RFC 3339 text. serde_json and chrono write and read these texts; they are parameters
    here, with what the storages rely on as laws: a value that serde_json accepts reads
    back from its text, and texts of instants compare as the instants do. *)
From S2P Require Export Json.

(** ** JSON text *)

Fixpoint sorted_keys (m : jmap) : bool :=
  match m with
  | (k, _) :: ((k', _) :: _) as m' => String.ltb k k' && sorted_keys m'
  | _ => true
  end.

Definition plain_number (n : Number) : bool :=
  match n with
  | PosInt n => (n <? 2 ^ 64)%N
  | NegInt z => (- 2 ^ 63 <=? z)%Z && (z <? 0)%Z
  | Float _ => false
  end.

(** The values whose text reads back exactly: no floats, integers of 64 bits, objects as
    the sorted maps they are, and nested less deep than [d]. *)
Fixpoint plain (d : nat) (v : Value) : bool :=
  match d with
  | O => false
  | S d' =>
      match v with
      | JNull | JBool _ => true
      | JNumber n => plain_number n
      | JString s => str_valid s
      | JArray l => forallb (plain d') l
      | JObject m => sorted_keys m && forallb (λ '(k, v), str_valid k && plain d' v) m
      end
  end.

(** The nesting [serde_json::from_str] accepts. *)
Definition json_depth : nat := 127.

Class JsonText := {
  (** [serde_json::to_string]: a [Value] always has a text. *)
  json_to_string : Value → string;
  (** [serde_json::from_str::<Value>]: the value, or the text of the error. *)
  json_from_str : string → string + Value;
  json_from_to_string : ∀ v, plain json_depth v = true → json_from_str (json_to_string v) = inr v;
}.

(** ** RFC 3339 text *)

Class Rfc3339 := {
  (** [DateTime<Local>::to_rfc3339] *)
  to_rfc3339 : Z → string;
  (** [DateTime::parse_from_rfc3339] *)
  parse_from_rfc3339 : string → option Z;
  (** The instants whose local time has a four-digit year and one offset from UTC. *)
  in_calendar : Z → Prop;
  rfc3339_roundtrip : ∀ t, in_calendar t → parse_from_rfc3339 (to_rfc3339 t) = Some t;
  rfc3339_order : ∀ t u, in_calendar t → in_calendar u →
    String.ltb (to_rfc3339 t) (to_rfc3339 u) = (t <? u)%Z;
  rfc3339_nonempty : ∀ t, to_rfc3339 t ≠ "";
  rfc3339_valid : ∀ t, str_valid (to_rfc3339 t) = true;
}.

(** ** Inserting keeps a value plain *)

Lemma sorted_keys_tail k v m : sorted_keys ((k, v) :: m) = true → sorted_keys m = true.
Proof. destruct m as [|[k' v'] m]; [done|]. simpl. intros [_ H]%andb_prop. exact H. Qed.

Lemma sorted_keys_cons k v a x m :
  sorted_keys ((k, v) :: (a, x) :: m) = String.ltb k a && sorted_keys ((a, x) :: m).
Proof. done. Qed.

Lemma sorted_keys_insert k v m : sorted_keys m = true → sorted_keys (jinsert k v m) = true.
Proof.
  induction m as [|[a x] m IH]; [done|]. intros Hs. cbn [jinsert].
  destruct (decide (k = a)) as [->|Hne]; [by destruct m as [|[b y] m]|].
  destruct (String.ltb k a) eqn:Hlt; [by rewrite sorted_keys_cons, Hlt, Hs|].
  apply str_ltb_total in Hlt; [|done]. pose proof (IH (sorted_keys_tail _ _ _ Hs)) as IHs.
  destruct m as [|[b y] m]; cbn [jinsert] in *; [by rewrite sorted_keys_cons, Hlt|].
  rewrite sorted_keys_cons in Hs. apply andb_prop in Hs as [Hab Hs].
  destruct (decide (k = b)) as [->|Hkb]; [by rewrite sorted_keys_cons, Hlt, IHs|].
  destruct (String.ltb k b) eqn:Ekb; [by rewrite sorted_keys_cons, Hlt, IHs|].
  by rewrite sorted_keys_cons, Hab, IHs.
Qed.

Lemma forallb_insert (f : string * Value → bool) k v m :
  f (k, v) = true → forallb f m = true → forallb f (jinsert k v m) = true.
Proof.
  intros Hf. induction m as [|[a x] m IH]; [cbn; by rewrite Hf|].
  cbn [forallb jinsert]. intros [Ha Hm]%andb_prop.
  destruct (decide (k = a)) as [->|]; [cbn [forallb]; by rewrite Hf|].
  destruct (String.ltb k a); cbn [forallb]; [by rewrite Hf, Ha, Hm|by rewrite Ha, IH].
Qed.

Lemma plain_insert d k v m :
  str_valid k = true → plain d v = true → plain (S d) (JObject m) = true →
  plain (S d) (JObject (jinsert k v m)) = true.
Proof.
  intros Hk Hv. cbn [plain]. intros [Hs Hm]%andb_prop.
  rewrite sorted_keys_insert by done. apply forallb_insert; [|done]. by rewrite Hk.
Qed.
