(* ===== verification/ConfigFiles.v ===== *)
(** * Reading the configuration (src/config.rs, src/main.rs)

    What the attributes of serde on the configuration types say: which key a field is read
    from, what is put in when the key is missing, how the variant of an enum is chosen. A
    decoder takes the [Value] of a JSON text; [None] is the error of serde. Unknown keys are
    ignored, as no type denies them. A struct is read from an object: that serde also reads it
    from the array of its fields, and refuses a repeated key, is left out. YAML files go
    through serde_yaml, a parameter of [load_config]. *)
From S2P Require Export Texts Config.

Abbreviation decoder A := (Value → option A).

(** ** Scalars, lists and options *)

Definition de_string : decoder string := as_str.
Definition de_bool : decoder bool := as_bool.

(** An unsigned integer of [w] bits; a larger number is an error. *)
Definition de_uint (w : N) : decoder N := λ v,
  n ← as_u64 v; if (n <? 2 ^ w)%N then Some n else None.

Definition de_list {A} (d : decoder A) : decoder (list A) := λ v, l ← as_array v; mapM d l.

Definition de_option {A} (d : decoder A) : decoder (option A) := λ v,
  match v with JNull => Some None | _ => Some <$> d v end.

(** ** Fields *)

Definition field {A} (key : string) (d : decoder A) : decoder A := λ v, get v key ≫= d.

(** [#[serde(default)]] and [#[serde(default = "..")]] *)
Definition field_or {A} (key : string) (dflt : A) (d : decoder A) : decoder A := λ v,
  match get v key with Some x => d x | None => Some dflt end.

(** A field of type [Option]: a missing key is [None]. *)
Definition field_opt {A} (key : string) (d : decoder A) : decoder (option A) :=
  field_or key None (de_option d).

(** [#[serde(tag = "type", rename_all = "lowercase")]] *)
Definition tagged_as {A} (variants : list (string * decoder A)) : decoder A := λ v,
  tag ← field "type" de_string v; d ← str_match variants tag; d v.

(** The default of serde: the name alone, or an object with the name as its only key. *)
Definition named_as {A} (units : list (string * A)) (variants : list (string * decoder A)) :
    decoder A := λ v,
  match v with
  | JString name => str_match units name
  | JObject [(name, x)] => d ← str_match variants name; d x
  | _ => None
  end.

(** ** The types *)

Definition de_address : decoder Address := λ v,
  t ← field "ton" (de_uint 8) v; n ← field "npi" (de_uint 8) v;
  a ← field "address" de_string v; Some (mkAddress t n a).

Definition de_distribution_list : decoder DistributionListConfig := λ v,
  name ← field "name" de_string v; l ← field "addresses" (de_list de_address) v;
  Some (mkDistributionListConfig name l).

Definition de_rest_address : decoder RestAddressConfig.t := λ v,
  a ← field "address" de_string v;
  k ← field_opt "key-file" de_string v;
  c ← field_opt "cert-file" de_string v;
  ca ← field_opt "ca-cert-file" de_string v;
  Some (RestAddressConfig.mk a k c ca).

Definition de_request_handler : decoder RequestHandlerConfig := λ v,
  a ← field_opt "dest_addresses" (de_list de_string) v;
  p ← field_opt "dest_address_patterns" (de_list de_string) v;
  u ← field "urls" (de_list de_string) v;
  alg ← field_opt "algorithm" de_string v;
  Some (mkRequestHandlerConfig a p u alg).

Definition de_connection : decoder SmscConnectionConfig.t := λ v,
  a ← field "address" de_string v; id ← field "system_id" de_string v;
  pw ← field "password" de_string v; ty ← field "system_type" de_string v;
  ton ← field "addr_ton" (de_uint 8) v; npi ← field "addr_npi" (de_uint 8) v;
  range ← field "address_range" de_string v; version ← field "interface_version" (de_uint 8) v;
  Some (SmscConnectionConfig.mk a id pw ty ton npi range version).

Definition de_user : decoder UserCredential := λ v,
  id ← field "system_id" de_string v; pw ← field "password" de_string v; Some (mkUserCredential id pw).

Definition de_users : decoder UsersConfig := λ v,
  l ← field "users" (de_list de_user) v; Some (mkUsersConfig l).

Definition de_user_auth : decoder UserAuthConfig.t := λ v,
  _ ← as_object v;
  f ← field_opt "users_file" de_string v; u ← field_opt "auth_url" de_string v;
  Some (UserAuthConfig.mk f u).

Definition de_ip_whitelist : decoder IpWhitelistConfig.t := tagged_as
  [("none", λ _, Some IpWhitelistConfig.NoWhitelist);
   ("memory", λ v, f ← field_opt "file" de_string v; l ← field_or "ips" [] (de_list de_string) v;
                   Some (IpWhitelistConfig.Memory f l));
   ("database", λ v, IpWhitelistConfig.Database <$> field "url" de_string v);
   ("http", λ v, IpWhitelistConfig.Http <$> field "url" de_string v)].

Definition de_id_generator : decoder IdGeneratorConfig.t := tagged_as
  [("atomic", λ _, Some IdGeneratorConfig.Atomic); ("uuid", λ _, Some IdGeneratorConfig.Uuid);
   ("redis", λ v, u ← field "url" de_string v; k ← field_opt "key" de_string v;
                  Some (IdGeneratorConfig.Redis u k))].

Definition de_alarm : decoder AlarmConfig.t := tagged_as
  [("http", λ v, u ← field "notify_url" de_string v; i ← field_or "alarm_id" default_alarm_id de_string v;
                 Some (AlarmConfig.Http u i));
   ("database", λ v, u ← field "url" de_string v; i ← field_or "alarm_id" default_alarm_id de_string v;
                     Some (AlarmConfig.Database u i))].

Definition de_message_storage : decoder MessageStorageConfig.t := named_as
  [("InMemory", MessageStorageConfig.InMemory)]
  [("InMemory", λ v, match v with JNull => Some MessageStorageConfig.InMemory | _ => None end);
   ("Sqlite", λ v, MessageStorageConfig.Sqlite <$> field "db_path" de_string v);
   ("Postgres", λ v, MessageStorageConfig.Postgres <$> field "url" de_string v);
   ("Redis", λ v, u ← field "url" de_string v; k ← field_opt "key_prefix" de_string v;
                  Some (MessageStorageConfig.Redis u k));
   ("RabbitMQ", λ v, u ← field "url" de_string v; q ← field "queue_name" de_string v;
                     Some (MessageStorageConfig.RabbitMQ u q));
   ("MySQL", λ v, MessageStorageConfig.MySQL <$> field "url" de_string v)].

Definition de_client : decoder ClientConfig.t := λ v,
  bind ← field_or "bind_type" get_default_bind_type de_string v;
  rest ← field_or "rest_addresses" [] (de_list de_rest_address) v;
  conns ← field "connections" (de_list de_connection) v;
  lb ← field_opt "load_balancing_algorithm" de_string v;
  handlers ← field_opt "request_handlers" (de_list de_request_handler) v;
  alarm ← field_opt "alarm_config" de_alarm v;
  gen ← field_opt "id_generator" de_id_generator v;
  t1 ← field_or "session_init_timer" get_default_session_init_timer (de_uint 32) v;
  t2 ← field_or "enquire_link_timer" get_default_enquire_link_timer (de_uint 32) v;
  t3 ← field_or "inactive_timer" get_default_inactive_timer (de_uint 32) v;
  t4 ← field_or "response_timer" get_default_response_timer (de_uint 32) v;
  Some (ClientConfig.mk bind rest conns lb handlers alarm gen t1 t2 t3 t4).

Definition de_server : decoder ServerConfig.t := λ v,
  listen ← field_or "listen_addresses" [] (de_list de_string) v;
  version ← field "interface_version" (de_uint 8) v;
  rest ← field "rest_addresses" (de_list de_rest_address) v;
  handlers ← field_opt "request_handlers" (de_list de_request_handler) v;
  wl ← field_or "ip_whitelist" IpWhitelistConfig.default de_ip_whitelist v;
  auth ← field_or "user_auth" UserAuthConfig.default de_user_auth v;
  t1 ← field_opt "session_init_timer" (de_uint 32) v;
  t2 ← field_opt "enquire_link_timer" (de_uint 32) v;
  t3 ← field_opt "inactive_timer" (de_uint 32) v;
  t4 ← field_opt "response_timer" (de_uint 32) v;
  gen ← field_opt "id_generator" de_id_generator v;
  dl ← field_opt "distribution_list" (de_list de_distribution_list) v;
  store ← field_opt "message_store" de_message_storage v;
  validity ← field_opt "default_validity_period" (de_uint 32) v;
  mode ← field_opt "default_mc_mode" de_string v;
  predefined ← field_opt "predefined_messages" (de_list de_string) v;
  service ← field_opt "default_service_type" de_string v;
  Some (ServerConfig.mk listen version rest handlers wl auth t1 t2 t3 t4 gen dl store validity mode
          predefined service).

(** ** Files *)

(** [Deserialize], as JSON uses it. *)
Class FromJson (A : Type) := from_json_value : decoder A.

#[export] Instance client_from_json : FromJson ClientConfig.t := de_client.
#[export] Instance server_from_json : FromJson ServerConfig.t := de_server.
#[export] Instance users_from_json : FromJson UsersConfig := de_users.
#[export] Instance strings_from_json : FromJson (list string) := de_list de_string.

(** [serde_yaml::from_str]: the value, or the text of the error. *)
Class FromYaml (A : Type) := from_yaml_str : string → string + A.

(** [serde_json::from_str]; the errors of decoding a value have no text here. *)
Definition from_json_str `{JsonText} {A} `{FromJson A} (data : string) : string + A :=
  match json_from_str data with
  | inl e => inl e
  | inr v => match from_json_value v with Some a => inr a | None => inl "" end
  end.

(** The format is chosen by the name of the file: the YAML extensions of [str::ends_with]. *)
Definition is_yaml (path : string) : bool :=
  ends_with (as_bytes ".yaml") (as_bytes path) || ends_with (as_bytes ".yml") (as_bytes path).

Definition is_json (path : string) : bool := ends_with (as_bytes ".json") (as_bytes path).

Section load.
Context `{JsonText}.
Variable read_to_string : string → ioresult string.

(** The common body of the three loaders; [None] is the boxed error. *)
Definition load_config {A} `{FromJson A, FromYaml A} (path : string) : option A :=
  match read_to_string path with
  | Ok config_data =>
      match if is_yaml path then from_yaml_str config_data else from_json_str config_data with
      | inr config => Some config
      | inl _ => None
      end
  | _ => None
  end.

Definition load_server_config `{FromYaml ServerConfig.t} : string → option ServerConfig.t := load_config.
Definition load_client_config `{FromYaml ClientConfig.t} : string → option ClientConfig.t := load_config.
Definition load_users_config `{FromYaml UsersConfig} : string → option UsersConfig := load_config.

(** [is_empty_file]: [metadata] is the length of a file that exists. *)
Definition is_empty_file (metadata : string → option N) (filename : string) : bool :=
  match metadata filename with
  | Some len => (len =? 0)%N
  | None => true
  end.
End load.

(** ** Decoded configurations are well typed *)

(** A number of [w] bits. *)
Definition uint (w n : N) : Prop := (n < 2 ^ w)%N.
Definition optional {A} (P : A → Prop) (o : option A) : Prop := ∀ a, o = Some a → P a.

Definition address_typed (a : Address) : Prop := uint 8 (ton a) ∧ uint 8 (npi a).

Definition connection_typed (c : SmscConnectionConfig.t) : Prop :=
  uint 8 (SmscConnectionConfig.addr_ton c) ∧ uint 8 (SmscConnectionConfig.addr_npi c) ∧
  uint 8 (SmscConnectionConfig.interface_version c).

Definition client_typed (c : ClientConfig.t) : Prop :=
  Forall connection_typed (ClientConfig.connections c) ∧
  Forall (uint 32) [ClientConfig.session_init_timer c; ClientConfig.enquire_link_timer c;
                    ClientConfig.inactive_timer c; ClientConfig.response_timer c].

Definition server_typed (c : ServerConfig.t) : Prop :=
  uint 8 (ServerConfig.interface_version c) ∧
  Forall (optional (uint 32))
    [ServerConfig.session_init_timer c; ServerConfig.enquire_link_timer c;
     ServerConfig.inactive_timer c; ServerConfig.response_timer c;
     ServerConfig.default_validity_period c] ∧
  optional (Forall (λ l, Forall address_typed (dl_config_addresses l))) (ServerConfig.distribution_list c).

(** A decoder whose values satisfy [P]. *)
Definition decodes {A} (d : decoder A) (P : A → Prop) : Prop := ∀ v a, d v = Some a → P a.

Lemma decodes_uint w : decodes (de_uint w) (uint w).
Proof.
  intros v n. unfold de_uint. destruct (as_u64 v) as [m|]; [|done]. cbn.
  destruct (N.ltb_spec m (2 ^ w)); [|done]. by intros [= <-].
Qed.

Lemma decodes_list {A} (d : decoder A) P : decodes d P → decodes (de_list d) (Forall P).
Proof.
  intros Hd v l. unfold de_list. intros (x & _ & Hx)%bind_Some. apply mapM_Some in Hx.
  induction Hx; constructor; [by eapply Hd|done].
Qed.

Lemma decodes_field {A} key (d : decoder A) P : decodes d P → decodes (field key d) P.
Proof. intros Hd v a (x & _ & Hx)%bind_Some. by eapply Hd. Qed.

Lemma decodes_field_or {A} key dflt (d : decoder A) (P : A → Prop) :
  P dflt → decodes d P → decodes (field_or key dflt d) P.
Proof.
  intros Hp Hd v a. unfold field_or. destruct (get v key); [apply Hd|]. by intros [= <-].
Qed.

Lemma decodes_field_opt {A} key (d : decoder A) P : decodes d P → decodes (field_opt key d) (optional P).
Proof.
  intros Hd v o. unfold field_opt, field_or, de_option.
  destruct (get v key) as [[]|]; try (by intros [= <-]);
    (intros (a & Ha & ->)%fmap_Some; intros ? [= <-]; by eapply Hd).
Qed.

(** Takes a decoder apart into its fields. *)
Ltac fields H := repeat (let E := fresh "E" in apply bind_Some in H as (? & E & H)); injection H as <-.

Lemma decodes_address : decodes de_address address_typed.
Proof. intros v a H. fields H. split; eapply (decodes_field _ _ _ (decodes_uint 8)); done. Qed.

Lemma decodes_connection : decodes de_connection connection_typed.
Proof. intros v a H. fields H. split_and!; eapply (decodes_field _ _ _ (decodes_uint 8)); done. Qed.

Lemma decodes_distribution_list :
  decodes de_distribution_list (λ l, Forall address_typed (dl_config_addresses l)).
Proof.
  intros v a H. fields H. cbn. eapply (decodes_field _ _ _ (decodes_list _ _ decodes_address)). done.
Qed.

Lemma decodes_client : decodes de_client client_typed.
Proof.
  intros v a H. fields H. split.
  - cbn. eapply (decodes_field _ _ _ (decodes_list _ _ decodes_connection)). done.
  - cbn. repeat constructor; (eapply (decodes_field_or _ _ _ (uint 32)); [|apply decodes_uint|done]);
      by vm_compute.
Qed.

Lemma decodes_server : decodes de_server server_typed.
Proof.
  intros v a H. fields H. split_and!; cbn.
  - eapply (decodes_field _ _ _ (decodes_uint 8)). done.
  - repeat constructor; eapply (decodes_field_opt _ _ _ (decodes_uint 32)); done.
  - eapply (decodes_field_opt _ _ _ (decodes_list _ _ decodes_distribution_list)). done.
Qed.

(** Numbers in a JSON configuration are of the width the source declares: a file that is
    loaded has interface versions, types of number and numbering plans of 8 bits and timers
    and validity periods of 32, and a number that does not fit fails the loading instead of
    being cut. *)
Theorem loaded_configs_typed `{JsonText, FromYaml ServerConfig.t, FromYaml ClientConfig.t}
    read_to_string path :
  is_yaml path = false →
  (∀ c, load_server_config read_to_string path = Some c → server_typed c) ∧
  (∀ c, load_client_config read_to_string path = Some c → client_typed c).
Proof.
  intros Hy. unfold load_server_config, load_client_config, load_config. rewrite Hy. unfold from_json_str.
  destruct (read_to_string path) as [data| |]; [|done..].
  destruct (json_from_str data) as [e|v]; [done|]. split; intros c.
  - destruct (from_json_value v) as [c'|] eqn:E; [|done]. intros [= <-]. by eapply decodes_server.
  - destruct (from_json_value v) as [c'|] eqn:E; [|done]. intros [= <-]. by eapply decodes_client.
Qed.

(** *** Documented forms that are read differently *)

(** The keys of the documentation with underscores are unknown and ignored: the address is
    served without TLS. *)
Lemma underscored_keys_ignored address key cert :
  de_rest_address (JObject (jextend
    [("address", JString address); ("key_file", JString key); ("cert_file", JString cert)] []))
  = Some (RestAddressConfig.mk address None None None).
Proof. reflexivity. Qed.

(** The form of the samples, with the variant as a key, is refused. *)
Lemma keyed_alarm_refused url : de_alarm (JObject [("http", JObject [("notify_url", JString url)])]) = None.
Proof. reflexivity. Qed.
