(* ===== verification/QueueSpec.v ===== *)
(** * Messages waiting for delivery

    What every storage outside the process stands for: messages with an id and the two
    times as instants, and when one of them is due or expired. *)
From S2P Require Export Texts.

Record entry : Type := mkEntry {
  message_id : string;
  message : Value;
  schedule : option Z;
  validity : option Z;
}.

Definition due (now : Z) (e : entry) : bool :=
  match schedule e with Some t => (t <=? now)%Z | None => true end.
Definition expired (now : Z) (e : entry) : bool :=
  match validity e with Some t => (t <? now)%Z | None => false end.

Section good.
Context `{Rfc3339}.

(** A message that can be written and read back, with times that can be compared. *)
Record good (e : entry) : Prop := {
  good_plain : plain json_depth (message e) = true;
  good_object : ∃ m, message e = JObject m;
  good_schedule : ∀ t, schedule e = Some t → in_calendar t;
  good_validity : ∀ t, validity e = Some t → in_calendar t;
}.

End good.

(** ** What is asked of a storage

    The operations of the interface and the two ticks of the background task. *)

Inductive op : Type :=
| Save (now : Z) (id : string) (m : Value)
| CancelSm (c : Value)
| ReplaceSm (now : Z) (c : Value)
| CleanTick (now : Z)
| DeliverTick (now : Z).

Inductive result : Type :=
| Done (r : ioresult unit)
| Answer (r : ioresult bool)
| Handed (r : ioresult (list Value)).

(** Messages are handed over in the order the storage finds them. *)
Definition same_result (r r' : result) : Prop :=
  match r, r' with Handed (Ok l), Handed (Ok l') => l ≡ₚ l' | _, _ => r = r' end.

Lemma filter_values (Q : entry → bool) (b : bool) (zq : list (Z * entry)) :
  (filter (λ p, Q p.2 = b) zq).*2 = filter (λ e, Q e = b) zq.*2.
Proof.
  induction zq as [|p zq IH]; [done|]. rewrite fmap_cons, !filter_cons.
  case_decide; [by rewrite fmap_cons, IH|done].
Qed.
