(* ===== verification/Database.v ===== *)
(** * The database behind sqlx

    The SQL storage speaks to its database in text: a statement with numbered parameters
    and the values bound to them. The engine is outside the sources; [SqlDatabase] is what
    the storage relies on. Its laws say what the engine does for the statements of the
    shapes the storage uses, given as syntax ([statement], [query]) with the text of each
    and its meaning on the rows of [message_queue]. A table has no order: rows are known
    up to permutation. *)
From S2P Require Export Texts.

Inductive column : Type :=
| Id | ServiceType | SourceAddrTon | SourceAddrNpi | SourceAddr | DestAddrTon | DestAddrNpi
| DestinationAddr | MessageId | Message | ScheduleDeliveryTime | ValidityPeriod.

#[export] Instance column_eq_dec : EqDecision column.
Proof. solve_decision. Defined.

Definition column_name (c : column) : string :=
  match c with
  | Id => "id"
  | ServiceType => "service_type"
  | SourceAddrTon => "source_addr_ton"
  | SourceAddrNpi => "source_addr_npi"
  | SourceAddr => "source_addr"
  | DestAddrTon => "dest_addr_ton"
  | DestAddrNpi => "dest_addr_npi"
  | DestinationAddr => "destination_addr"
  | MessageId => "message_id"
  | Message => "message"
  | ScheduleDeliveryTime => "schedule_delivery_time"
  | ValidityPeriod => "validity_period"
  end.

Lemma column_name_inj c c' : column_name c = column_name c' → c = c'.
Proof. by destruct c, c'. Qed.

(** A stored or bound value. *)
Inductive sql_value : Type :=
| SNull
| SInt (z : Z)
| SText (s : string).

#[export] Instance sql_value_eq_dec : EqDecision sql_value.
Proof. solve_decision. Defined.

Definition row : Type := column → sql_value.

Definition set_column (c : column) (v : sql_value) (r : row) : row :=
  λ c', if decide (c' = c) then v else r c'.

(** ** Statements *)

Inductive comparison : Type := Equal | Less | LessEqual.

Inductive condition : Type :=
| IsNull (c : column)
| IsNotNull (c : column)
| Compare (op : comparison) (c : column) (parameter : nat).

Inductive where_clause : Type :=
| AllOf (l : list condition)
| AnyOf (l : list condition).

Inductive statement : Type :=
| InsertRow (columns : list column)
| UpdateRows (sets : list (column * nat)) (w : where_clause)
| DeleteRows (w : where_clause).

(** [SELECT id, message]; sorted by a column, or in any order. *)
Record query : Type := Select { selected : where_clause; sorted_by : option column }.

(** *** Their text *)

(** [Vec<String>::join] *)
Fixpoint join (sep : string) (l : list string) : string :=
  match l with
  | [] => ""
  | [s] => s
  | s :: l' => s +:+ sep +:+ join sep l'
  end.

Definition parameter_text (k : nat) : string := "$" +:+ format_dec (N.of_nat k).

Definition comparison_text (op : comparison) : string :=
  match op with Equal => "=" | Less => "<" | LessEqual => "<=" end.

Definition condition_text (c : condition) : string :=
  match c with
  | IsNull c => column_name c +:+ " IS NULL"
  | IsNotNull c => column_name c +:+ " IS NOT NULL"
  | Compare op c k => column_name c +:+ " " +:+ comparison_text op +:+ " " +:+ parameter_text k
  end.

Definition where_text (w : where_clause) : string :=
  match w with
  | AllOf l => join " AND " (condition_text <$> l)
  | AnyOf l => join " OR " (condition_text <$> l)
  end.

Definition set_text (s : column * nat) : string :=
  column_name s.1 +:+ " = " +:+ parameter_text s.2.

Definition statement_text (st : statement) : string :=
  match st with
  | InsertRow columns =>
      "INSERT INTO message_queue (" +:+ join ", " (column_name <$> columns) +:+ ") VALUES ("
        +:+ join ", " (parameter_text <$> seq 1 (length columns)) +:+ ")"
  | UpdateRows sets w =>
      "UPDATE message_queue SET " +:+ join ", " (set_text <$> sets) +:+ " WHERE " +:+ where_text w
  | DeleteRows w => "DELETE FROM message_queue WHERE " +:+ where_text w
  end.

Definition query_text (q : query) : string :=
  "SELECT id, message FROM message_queue WHERE " +:+ where_text (selected q)
    +:+ match sorted_by q with
        | Some c => " ORDER BY " +:+ column_name c +:+ " ASC"
        | None => ""
        end.

(** *** Their meaning *)

Section meaning.
Variable binds : list sql_value.

(** Parameters are numbered from one. *)
Definition parameter (k : nat) : sql_value := default SNull (nth_error binds (pred k)).

(** A comparison with NULL does not hold; texts compare byte by byte. *)
Definition compare_values (op : comparison) (a b : sql_value) : bool :=
  match op, a, b with
  | Equal, SInt x, SInt y => (x =? y)%Z
  | Equal, SText s, SText t => bool_decide (s = t)
  | Less, SInt x, SInt y => (x <? y)%Z
  | Less, SText s, SText t => String.ltb s t
  | LessEqual, SInt x, SInt y => (x <=? y)%Z
  | LessEqual, SText s, SText t => negb (String.ltb t s)
  | _, _, _ => false
  end.

Definition holds (r : row) (c : condition) : bool :=
  match c with
  | IsNull c => bool_decide (r c = SNull)
  | IsNotNull c => bool_decide (r c ≠ SNull)
  | Compare op c k => compare_values op (r c) (parameter k)
  end.

Definition matches (w : where_clause) (r : row) : bool :=
  match w with
  | AllOf l => forallb (holds r) l
  | AnyOf l => existsb (holds r) l
  end.

Definition inserted (id : Z) (columns : list column) : row :=
  foldr (λ '(c, v) r, set_column c v r) (set_column Id (SInt id) (λ _, SNull)) (zip columns binds).

Definition updated (sets : list (column * nat)) (r : row) : row :=
  foldr (λ '(c, k) r, set_column c (parameter k) r) r sets.

(** *** What the engine accepts

    Every parameter is bound, to a value of the type of its column; a new row has the
    columns that are not null. *)
Definition fits (c : column) (v : sql_value) : bool :=
  match c, v with
  | (Id | SourceAddrTon | SourceAddrNpi | DestAddrTon | DestAddrNpi), SInt _ => true
  | (ServiceType | SourceAddr | DestinationAddr | MessageId | Message | ScheduleDeliveryTime
    | ValidityPeriod), SText _ => true
  | (Id | DestinationAddr | MessageId | Message), SNull => false
  | _, SNull => true
  | _, _ => false
  end.

Definition bound (c : column) (k : nat) : Prop :=
  ∃ v, nth_error binds (pred k) = Some v ∧ 0 < k ∧ fits c v = true.

Definition condition_bound (c : condition) : Prop :=
  match c with Compare _ c k => bound c k | _ => True end.

Definition where_bound (w : where_clause) : Prop :=
  match w with AllOf l | AnyOf l => Forall condition_bound l end.

Definition accepted (st : statement) : Prop :=
  match st with
  | InsertRow columns =>
      NoDup columns ∧ (Id ∉ columns) ∧ Forall2 (λ c v, fits c v = true) columns binds ∧
      Forall (.∈ columns) [DestinationAddr; MessageId; Message]
  | UpdateRows sets w =>
      NoDup sets.*1 ∧ (Id ∉ sets.*1) ∧ Forall (λ s, bound s.1 s.2) sets ∧ where_bound w
  | DeleteRows w => where_bound w
  end.

(** The rows affected and the rows afterwards; a new row gets an id of its own. *)
Definition executed (st : statement) (l : list row) (n : N) (l' : list row) : Prop :=
  match st with
  | InsertRow columns => ∃ id, (SInt id ∉ (λ r, r Id) <$> l) ∧ n = 1%N ∧ l' ≡ₚ l ++ [inserted id columns]
  | UpdateRows sets w =>
      n = N.of_nat (length (filter (λ r, matches w r = true) l)) ∧
      l' ≡ₚ (λ r, if matches w r then updated sets r else r) <$> l
  | DeleteRows w =>
      n = N.of_nat (length (filter (λ r, matches w r = true) l)) ∧
      l' ≡ₚ filter (λ r, matches w r = false) l
  end.

(** Every matching row once, as its id and its message. *)
Definition fetched (q : query) (l : list row) (out : list (Z * string)) : Prop :=
  (λ p, (SInt p.1, SText p.2)) <$> out
  ≡ₚ (λ r, (r Id, r Message)) <$> filter (λ r, matches (selected q) r = true) l.
End meaning.

(** ** The statements of the storage

    Requests are conjunctions of equalities, one for each field, numbered in order. *)
Fixpoint equals_from (k : nat) (columns : list column) : list condition :=
  match columns with
  | [] => []
  | c :: columns' => Compare Equal c k :: equals_from (S k) columns'
  end.

Fixpoint sets_from (k : nat) (columns : list column) : list (column * nat) :=
  match columns with
  | [] => []
  | c :: columns' => (c, k) :: sets_from (S k) columns'
  end.

Fixpoint sublists {A} (l : list A) : list (list A) :=
  match l with
  | [] => [[]]
  | x :: l' => (cons x <$> sublists l') ++ sublists l'
  end.

Definition all_equal (columns : list column) : where_clause := AllOf (equals_from 1 columns).
Definition has_id : where_clause := all_equal [Id].
Definition expired_clause : where_clause := AllOf [IsNotNull ValidityPeriod; Compare Less ValidityPeriod 1].
Definition due_clause : where_clause :=
  AnyOf [IsNull ScheduleDeliveryTime; Compare LessEqual ScheduleDeliveryTime 1].

Definition inserted_columns : list column :=
  [ServiceType; MessageId; SourceAddrTon; SourceAddrNpi; SourceAddr; DestAddrTon; DestAddrNpi;
   DestinationAddr; ScheduleDeliveryTime; ValidityPeriod; Message].
Definition cancelled_columns : list column :=
  [ServiceType; MessageId; SourceAddrTon; SourceAddrNpi; SourceAddr; DestAddrTon; DestAddrNpi;
   DestinationAddr].
Definition replaced_columns : list column := [SourceAddrTon; SourceAddrNpi; SourceAddr].
Definition address_columns : list column :=
  [ServiceType; SourceAddrTon; SourceAddrNpi; SourceAddr; DestAddrTon; DestAddrNpi; DestinationAddr].

Definition statements : list statement :=
  [InsertRow inserted_columns; DeleteRows expired_clause; DeleteRows has_id]
  ++ ((λ columns, UpdateRows (sets_from 2 (Message :: columns)) has_id)
        <$> sublists [ScheduleDeliveryTime; ValidityPeriod])
  ++ ((λ columns, DeleteRows (all_equal columns)) <$> sublists cancelled_columns).

Definition queries : list query :=
  [Select due_clause (Some ScheduleDeliveryTime); Select (all_equal address_columns) None]
  ++ ((λ columns, Select (all_equal (MessageId :: columns)) None) <$> sublists replaced_columns).

(** ** The interface *)

Class SqlDatabase (D : Type) := {
  (** [sqlx::query(text).bind(..).execute(pool)]: the rows affected, or the error's text. *)
  execute : string → list sql_value → D → outcome string N * D;
  (** [.fetch_all(pool)], as the columns [id] and [message] of each row. *)
  fetch_all : string → list sql_value → D → outcome string (list (Z * string)) * D;
  rows : D → list row;
  (** The pool has its connections and the table exists. *)
  connected : D → Prop;
  (** [id] is a primary key, and values have the types of their columns. *)
  rows_keyed : ∀ d, connected d → NoDup ((λ r, r Id) <$> rows d);
  rows_typed : ∀ d r c, connected d → r ∈ rows d → fits c (r c) = true;
  execute_law : ∀ st binds d, st ∈ statements → connected d → accepted binds st → ∃ n d',
    execute (statement_text st) binds d = (Ok n, d') ∧ connected d' ∧
    executed binds st (rows d) n (rows d');
  fetch_law : ∀ q binds d, q ∈ queries → connected d → where_bound binds (selected q) → ∃ out d',
    fetch_all (query_text q) binds d = (Ok out, d') ∧ connected d' ∧ rows d' ≡ₚ rows d ∧
    fetched binds q (rows d) out;
}.
