(* ===== verification/SqlStorage.v ===== *)
(** * SQL message storage (src/message_storage.rs, [SqlMessageStorage])

    Messages waiting for delivery in the table [message_queue], over the interface of
    Database.v. The statements are the texts of the source, put together the way the source
    does; times are stored as RFC 3339 text and compared as text. *)
From S2P Require Export Database MemoryStorage Server.

(** [v as i16] and [v as i32] of a [u64]. *)
Definition wrap_signed (w : N) (n : N) : Z :=
  let m := (n mod 2 ^ w)%N in
  if (m <? 2 ^ (w - 1))%N then Z.of_N m else (Z.of_N m - 2 ^ Z.of_N w)%Z.
Definition cast_i16 (n : N) : Z := wrap_signed 16 n.
Definition cast_i32 (n : N) : Z := wrap_signed 32 n.

(** [create_table_ddl] *)
Definition create_table_ddl (database_url : string) : string :=
  let table id int message_id message :=
    "CREATE TABLE IF NOT EXISTS message_queue (
            id " +:+ id +:+ ",
            service_type TEXT,
            source_addr_ton " +:+ int +:+ ",
            source_addr_npi " +:+ int +:+ ",
            source_addr TEXT,
            dest_addr_ton " +:+ int +:+ ",
            dest_addr_npi " +:+ int +:+ ",
            destination_addr TEXT NOT NULL,
            message_id " +:+ message_id +:+ " NOT NULL,
            message " +:+ message +:+ " NOT NULL,
            schedule_delivery_time TEXT,
            validity_period TEXT
        )" in
  let url := as_bytes database_url in
  if starts_with (as_bytes "postgres") url then table "BIGSERIAL PRIMARY KEY" "INTEGER" "TEXT" "TEXT"
  else if starts_with (as_bytes "mysql") url
  then table "BIGINT PRIMARY KEY AUTO_INCREMENT" "INT" "VARCHAR(255)" "LONGTEXT"
  else table "INTEGER PRIMARY KEY AUTOINCREMENT" "INTEGER" "TEXT" "TEXT".

Module SqlMessageStorage.

(** [delivery_time_messages] is never touched and left out. *)
Record t (D : Type) : Type := mk {
  pool : D;
  default_validity_period : N;
}.
Arguments mk {D}. Arguments pool {D}. Arguments default_validity_period {D}.

Section storage.
Context {D : Type} `{Db : SqlDatabase D, Txt : JsonText, Rfc : Rfc3339, Chr : Chrono}.

(** The pool of an in-memory SQLite database has one connection. *)
Definition max_connections (database_url : string) : option N :=
  if contains (as_bytes ":memory:") (as_bytes database_url) then Some 1%N else None.

(** [connect] opens the pool; the table is created when it is not there. *)
Definition new (connect : string → option N → outcome string D) (database_url : string)
    (default_validity_period : N) : ioresult (t D) :=
  pool ← map_err (IoError Other) (connect database_url (max_connections database_url));
  let '(r, pool) := execute (create_table_ddl database_url) [] pool in
  map_err (IoError Other) r ≫= λ _, Ok (mk pool default_validity_period).

Abbreviation M := (StateM (t D)).

(** *** Statements *)

(** Every error of sqlx becomes an [Other]. *)
Definition on_pool {A} (f : D → outcome string A * D) : M A := λ s,
  let '(r, d) := f (pool s) in
  (map_err (IoError Other) r, mk d (default_validity_period s)).

Definition run_execute (sql : string) (binds : list sql_value) : M N := on_pool (execute sql binds).
Definition run_fetch (sql : string) (binds : list sql_value) : M (list (Z * string)) :=
  on_pool (fetch_all sql binds).

(** [fields.iter().position(|f| f == field).unwrap()] *)
Definition position (field : string) (fields : list string) : nat :=
  default 0 (fst <$> list_find (λ f, f = field) fields).

(** The clauses of the statements that depend on the request: ["{} = ${}"] for each field. *)
Definition numbered (first : nat) (fields : list string) : list string :=
  (λ field, field +:+ " = $" +:+ format_dec (N.of_nat (position field fields + first))) <$> fields.

(** [if cond { query_fields.push(name); ... sql_query.bind(value) }] *)
Definition field_when (cond : bool) (name : string) (value : sql_value) : list (string * sql_value) :=
  if cond then [(name, value)] else [].
Definition text_field (name text : string) : list (string * sql_value) :=
  field_when (negb (is_empty_str text)) name (SText text).
Definition int_field (name : string) (z : Z) : list (string * sql_value) :=
  field_when (negb (z =? 0)%Z) name (SInt z).

Definition bind_text (text : string) : list sql_value :=
  if negb (is_empty_str text) then [SText text] else [].

Definition delete_message_by_id (id : Z) : M bool :=
  r ← attempt (run_execute "DELETE FROM message_queue WHERE id = $1" [SInt id]);
  mret (is_ok r).

(** *** Delivery *)

(** The rows whose text is not a message are deleted. *)
Fixpoint parse_rows (l : list (Z * string)) : M (list (Z * Value)) :=
  match l with
  | [] => mret []
  | (id, message_json) :: rest =>
      match json_from_str message_json with
      | inr message => messages ← parse_rows rest; mret ((id, message) :: messages)
      | inl _ => delete_message_by_id id ≫= λ _, parse_rows rest
      end
  end.

Definition get_delivery_messages (now : Z) : M (list (Z * Value)) :=
  rows ← run_fetch
    "SELECT id, message FROM message_queue WHERE schedule_delivery_time IS NULL OR schedule_delivery_time <= $1 ORDER BY schedule_delivery_time ASC"
    [SText (to_rfc3339 now)];
  parse_rows rows.

Definition clean_expired_messages (now : Z) : M unit :=
  run_execute
    "DELETE FROM message_queue WHERE validity_period IS NOT NULL AND validity_period < $1"
    [SText (to_rfc3339 now)] ≫= λ _, mret tt.

(** [for (id, message) in values]: a message is deleted when the handler accepted it. The
    messages handed over are the result. *)
Fixpoint deliver_loop (handler : Value → bool) (values : list (Z * Value)) : M (list Value) :=
  match values with
  | [] => mret []
  | (id, message) :: rest =>
      (if handler message then delete_message_by_id id ≫= λ _, mret tt else mret tt) ≫= λ _,
      handed ← deliver_loop handler rest; mret (message :: handed)
  end.

(** The two branches of the [select!]. *)
Definition tick_clean (now : Z) : M unit :=
  attempt (clean_expired_messages now) ≫= λ _, mret tt.

Definition tick_deliver (now : Z) (handler : Value → bool) : M (list Value) :=
  values ← attempt (get_delivery_messages now);
  match values with
  | Ok values => deliver_loop handler values
  | _ => mret []
  end.

(** *** Saving *)

Definition delete_by_ids (ids : list Z) : M unit :=
  foldr (λ id k, run_execute "DELETE FROM message_queue WHERE id = $1" [SInt id] ≫= λ _, k) (mret tt) ids.

Definition delete_messages_for_replace_if_present_flag (message : Value) : M bool :=
  rows ← run_fetch
    "SELECT id, message FROM message_queue WHERE service_type = $1 AND source_addr_ton = $2 AND source_addr_npi = $3 AND source_addr = $4 AND dest_addr_ton = $5 AND dest_addr_npi = $6 AND destination_addr = $7"
    [SText (str_field message "service_type");
     SInt (cast_i32 (u64_field message "source_addr_ton"));
     SInt (cast_i32 (u64_field message "source_addr_npi"));
     SText (str_field message "source_addr");
     SInt (cast_i32 (u64_field message "dest_addr_ton"));
     SInt (cast_i32 (u64_field message "dest_addr_npi"));
     SText (str_field message "destination_addr")];
  delete_by_ids rows.*1 ≫= λ _, mret true.

Definition time_value (time : option Z) : sql_value :=
  match time with Some time => SText (to_rfc3339 time) | None => SNull end.

Definition insert_message (message_id : string) (message : Value) (schedule validity : option Z) :
    M unit :=
  run_execute
    "INSERT INTO message_queue (service_type, message_id, source_addr_ton, source_addr_npi, source_addr, dest_addr_ton, dest_addr_npi, destination_addr, schedule_delivery_time, validity_period, message) VALUES ($1, $2, $3, $4, $5, $6, $7, $8, $9, $10, $11)"
    [SText (str_field message "service_type"); SText message_id;
     SInt (cast_i16 (u64_field message "source_addr_ton"));
     SInt (cast_i16 (u64_field message "source_addr_npi"));
     SText (str_field message "source_addr");
     SInt (cast_i16 (u64_field message "dest_addr_ton"));
     SInt (cast_i16 (u64_field message "dest_addr_npi"));
     SText (str_field message "destination_addr");
     time_value schedule; time_value validity; SText (json_to_string message)]
  ≫= λ _, mret tt.

(** The clock plus the default validity period. *)
Definition default_validity (now : Z) (s : t D) : Z :=
  (now + Z.of_N (default_validity_period s) * 1000)%Z.

Definition save (now : Z) (message_id : string) (message : Value) : M unit := λ s,
  ((if (cast_u8 (u64_field message "replace_if_present_flag") =? 1)%N
    then delete_messages_for_replace_if_present_flag message ≫= λ _, mret tt else mret tt) ≫= λ _,
   if is_empty_str (str_field message "destination_addr")
   then fails (IoError InvalidInput "Missing destination_addr in the message")
   else
     schedule_delivery_time ← lift (ok_option (get_schedule_delivery_time now message));
     if match schedule_delivery_time with Some time => (time <? now)%Z | None => false end
     then fails (IoError InvalidInput "schedule_delivery_time is in the past")
     else
       validity_period ← lift (ok_option (get_validity_period now message (default_validity_period s)));
       insert_message message_id message schedule_delivery_time
         (match schedule_delivery_time, validity_period with
          | None, None => Some (default_validity now s)
          | _, _ => validity_period
          end)) s.

(** *** Cancelling and replacing *)

Definition cancel_fields (cancel_sm : Value) : list (string * sql_value) :=
  text_field "service_type" (str_field cancel_sm "service_type")
  ++ text_field "message_id" (str_field cancel_sm "message_id")
  ++ int_field "source_addr_ton" (cast_i32 (u64_field cancel_sm "source_addr_ton"))
  ++ int_field "source_addr_npi" (cast_i32 (u64_field cancel_sm "source_addr_npi"))
  ++ text_field "source_addr" (str_field cancel_sm "source_addr")
  ++ int_field "dest_addr_ton" (cast_i32 (u64_field cancel_sm "dest_addr_ton"))
  ++ int_field "dest_addr_npi" (cast_i32 (u64_field cancel_sm "dest_addr_npi"))
  ++ text_field "destination_addr" (str_field cancel_sm "destination_addr").

Definition cancel_message (cancel_sm : Value) : M bool :=
  let query_fields := cancel_fields cancel_sm in
  match query_fields with
  | [] => fails (IoError InvalidInput "At least one query field must be provided")
  | _ =>
      n ← run_execute
        ("DELETE FROM message_queue WHERE " +:+ Database.join " AND " (numbered 1 query_fields.*1))
        query_fields.*2;
      mret (0 <? n)%N
  end.

Definition replace_fields (message : Value) : list (string * sql_value) :=
  [("message_id", SText (str_field message "message_id"))]
  ++ int_field "source_addr_ton" (cast_i32 (u64_field message "source_addr_ton"))
  ++ int_field "source_addr_npi" (cast_i32 (u64_field message "source_addr_npi"))
  ++ text_field "source_addr" (str_field message "source_addr").

(** [if !text.is_empty() { Some(parse(text)?) } else { None }] *)
Definition parse_time (now : Z) (text : string) : ioresult (option Z) :=
  if is_empty_str text then Ok None
  else Some <$> map_err (IoError InvalidInput) (parse_absolute_relative_time now text).

(** [if cond { v[key] = value }] *)
Definition set_when (cond : bool) (key : string) (value v : Value) : ioresult Value :=
  if cond then index_set v key value else Ok v.

(** The new JSON of a stored message. *)
Definition updated_message (replace_sm message : Value) : ioresult Value :=
  let schedule_delivery_time := str_field replace_sm "schedule_delivery_time" in
  let validity_period := str_field replace_sm "validity_period" in
  let sm_default_msg_id := cast_u8 (u64_field replace_sm "sm_default_msg_id") in
  let short_message := str_field replace_sm "short_message" in
  let message_payload := str_field replace_sm "message_payload" in
  m ← set_when (negb (is_empty_str schedule_delivery_time)) "schedule_delivery_time"
        (JString schedule_delivery_time) message;
  m ← set_when (negb (is_empty_str validity_period)) "validity_period" (JString validity_period) m;
  m ← set_when (negb (sm_default_msg_id =? 0)%N) "sm_default_msg_id" (jnum sm_default_msg_id) m;
  m ← (if Nat.ltb 0 (str_len short_message) then index_set m "short_message" (JString short_message)
       else set_when (Nat.ltb 0 (str_len message_payload)) "short_message" (JString message_payload) m);
  index_set m "registered_delivery" (jnum (cast_u8 (u64_field replace_sm "registered_delivery"))).

Definition rfc3339_text (time : option Z) : string :=
  match time with Some time => to_rfc3339 time | None => "" end.

(** One row of the loop. The fields follow the texts of the request, the values the
    parsed times. *)
Definition update_row (replace_sm : Value) (schedule validity : option Z) (row : Z * string) : M unit :=
  match json_from_str row.2 with
  | inl e => fails (IoError InvalidData ("Invalid JSON: " +:+ e))
  | inr message =>
      updated ← lift (updated_message replace_sm message);
      let update_fields :=
        ["message"]
        ++ (if negb (is_empty_str (str_field replace_sm "schedule_delivery_time"))
            then ["schedule_delivery_time"] else [])
        ++ (if negb (is_empty_str (str_field replace_sm "validity_period"))
            then ["validity_period"] else []) in
      run_execute
        ("UPDATE message_queue SET " +:+ Database.join ", " (numbered 2 update_fields) +:+ " WHERE id = $1")
        ([SInt row.1; SText (json_to_string updated)]
         ++ bind_text (rfc3339_text schedule) ++ bind_text (rfc3339_text validity))
      ≫= λ _, mret tt
  end.

Fixpoint update_rows (replace_sm : Value) (schedule validity : option Z) (l : list (Z * string)) :
    M unit :=
  match l with
  | [] => mret tt
  | row :: rest =>
      update_row replace_sm schedule validity row ≫= λ _, update_rows replace_sm schedule validity rest
  end.

Definition replace_message (now : Z) (replace_sm : Value) : M bool :=
  let sm_default_msg_id := cast_u8 (u64_field replace_sm "sm_default_msg_id") in
  if is_empty_str (str_field replace_sm "message_id")
  then fails (IoError InvalidInput "Missing message_id in the replace_sm command")
  else if (sm_default_msg_id =? 0)%N && is_empty_str (str_field replace_sm "short_message")
          && is_empty_str (str_field replace_sm "message_payload")
  then fails (IoError InvalidInput "Missing short_message or message_payload in the replace_sm command")
  else
    schedule ← lift (parse_time now (str_field replace_sm "schedule_delivery_time"));
    validity ← lift (parse_time now (str_field replace_sm "validity_period"));
    let query_fields := replace_fields replace_sm in
    rows ← run_fetch
      ("SELECT id, message FROM message_queue WHERE " +:+ Database.join " AND " (numbered 1 query_fields.*1))
      query_fields.*2;
    update_rows replace_sm schedule validity rows ≫= λ _, mret (Nat.ltb 0 (length rows)).

End storage.

(** The storage as the server uses it. *)
#[export] Instance storage {D} `{SqlDatabase D, JsonText, Rfc3339, Chrono} : MessageStorage (t D) := {
  st_save := save;
  st_cancel := cancel_message;
  st_replace := replace_message;
}.

End SqlMessageStorage.
