(* ===== verification/SqlStorageProps.v ===== *)
(** * The SQL storage refines a queue of messages

    What the table stands for: a list of entries, each with its message as a value and its
    times as instants. The theorems relate every operation of the storage, statement texts,
    parameters and stored texts included, to the operation it means on the list. *)
From S2P Require Export QueueSpec SqlStorage.
Import SqlMessageStorage.

(** ** Statement texts *)

Lemma position_middle pre c suf :
  c ∉ pre → position (column_name c) (column_name <$> (pre ++ c :: suf)) = length pre.
Proof.
  intros Hc. unfold position.
  assert (Hf : list_find (λ f, f = column_name c) (column_name <$> (pre ++ c :: suf))
               = Some (length pre, column_name c)).
  { apply list_find_Some. split; [|split; [done|]].
    - rewrite fmap_app, fmap_cons. rewrite lookup_app_r by (by rewrite length_fmap).
      by rewrite length_fmap, Nat.sub_diag.
    - intros j y Hy Hj ->. apply list_lookup_fmap_Some in Hy as (c' & Hc' & Hy).
      apply column_name_inj in Hc' as ->. rewrite lookup_app_l in Hy by done.
      apply Hc. by eapply list_elem_of_lookup_2. }
  by rewrite Hf.
Qed.

Lemma numbered_from first pre cols :
  NoDup (pre ++ cols) →
  (λ field, field +:+ " = $" +:+ format_dec (N.of_nat (position field (column_name <$> (pre ++ cols)) + first)))
    <$> (column_name <$> cols)
  = set_text <$> sets_from (length pre + first) cols.
Proof.
  revert pre. induction cols as [|c cols IH]; intros pre Hnd; [done|].
  rewrite !fmap_cons. cbn [sets_from]. rewrite fmap_cons. f_equal.
  - rewrite position_middle; [done|]. apply NoDup_app in Hnd as (_ & Hd & _).
    intros Hin. apply (Hd c Hin). by apply elem_of_cons; left.
  - specialize (IH (pre ++ [c])). rewrite <-app_assoc in IH. cbn [app] in IH.
    rewrite IH by done. by rewrite length_app, Nat.add_1_r.
Qed.

Lemma numbered_sets first cols :
  NoDup cols → numbered first (column_name <$> cols) = set_text <$> sets_from first cols.
Proof. intros Hnd. unfold numbered. by apply (numbered_from first []). Qed.

Lemma equals_sets k cols : condition_text <$> equals_from k cols = set_text <$> sets_from k cols.
Proof.
  revert k. induction cols as [|c cols IH]; intros k; [done|].
  cbn [equals_from fmap list_fmap sets_from]. f_equal. apply IH.
Qed.

(** The where clause of a request. *)
Lemma numbered_where cols :
  NoDup cols → Database.join " AND " (numbered 1 (column_name <$> cols)) = where_text (all_equal cols).
Proof. intros Hnd. cbn [where_text all_equal]. by rewrite numbered_sets, equals_sets. Qed.

(** ** Bound parameters *)

Lemma equals_from_bound pre fields :
  Forall (λ p, fits p.1 p.2 = true) fields →
  Forall (condition_bound (pre ++ fields.*2)) (equals_from (S (length pre)) fields.*1).
Proof.
  revert pre. induction fields as [|[c v] fields IH]; intros pre Hf; [constructor|].
  apply Forall_cons in Hf as [Hc Hf]. rewrite fmap_cons. cbn [equals_from fst]. apply Forall_cons. split.
  - exists v. cbn [pred fmap list_fmap snd]. split; [|split; [lia|done] ].
    rewrite nth_error_app2, Nat.sub_diag by lia. done.
  - specialize (IH (pre ++ [v]) Hf). rewrite length_app, Nat.add_1_r, <-app_assoc in IH. exact IH.
Qed.

Lemma equals_from_holds pre fields r :
  forallb (holds (pre ++ fields.*2) r) (equals_from (S (length pre)) fields.*1)
  = forallb (λ p, compare_values Equal (r p.1) p.2) fields.
Proof.
  revert pre. induction fields as [|[c v] fields IH]; intros pre; [done|].
  rewrite !fmap_cons. cbn [equals_from forallb holds fmap list_fmap snd fst]. f_equal.
  - unfold parameter. cbn [pred]. rewrite nth_error_app2, Nat.sub_diag by lia. done.
  - specialize (IH (pre ++ [v])). rewrite length_app, Nat.add_1_r, <-app_assoc in IH. exact IH.
Qed.

Lemma where_equals_bound fields :
  Forall (λ p, fits p.1 p.2 = true) fields → where_bound fields.*2 (all_equal fields.*1).
Proof. apply (equals_from_bound []). Qed.

Lemma where_equals_matches fields r :
  matches fields.*2 (all_equal fields.*1) r
  = forallb (λ p, compare_values Equal (r p.1) p.2) fields.
Proof. apply (equals_from_holds []). Qed.

(** A part of the columns is one of the [sublists]. *)
Lemma elem_of_sublists {A} (l k : list A) : l `sublist_of` k → l ∈ sublists k.
Proof.
  induction 1 as [|x l k _ IH|x l k _ IH]; cbn [sublists].
  - by apply list_elem_of_singleton.
  - apply elem_of_app. left. by apply list_elem_of_fmap_2.
  - apply elem_of_app. by right.
Qed.

(** ** What the table stands for *)

Section table.
Context {D : Type} `{Db : SqlDatabase D, Txt : JsonText, Rfc : Rfc3339, Chr : Chrono}.

Definition entry_column (e : entry) (c : column) : sql_value :=
  match c with
  | Id => SNull
  | ServiceType => SText (str_field (message e) "service_type")
  | SourceAddrTon => SInt (cast_i16 (u64_field (message e) "source_addr_ton"))
  | SourceAddrNpi => SInt (cast_i16 (u64_field (message e) "source_addr_npi"))
  | SourceAddr => SText (str_field (message e) "source_addr")
  | DestAddrTon => SInt (cast_i16 (u64_field (message e) "dest_addr_ton"))
  | DestAddrNpi => SInt (cast_i16 (u64_field (message e) "dest_addr_npi"))
  | DestinationAddr => SText (str_field (message e) "destination_addr")
  | MessageId => SText (message_id e)
  | Message => SText (json_to_string (message e))
  | ScheduleDeliveryTime => time_value (schedule e)
  | ValidityPeriod => time_value (validity e)
  end.

(** The row of an entry, which has the id [p.1]. *)
Record row_of (r : row) (p : Z * entry) : Prop := {
  row_id : r Id = SInt p.1;
  row_column : ∀ c, c ≠ Id → r c = entry_column p.2 c;
  row_good : good p.2;
}.

(** The rows of a storage, in some order, are those of the entries [zq]. *)
Record tagged (s : t D) (zq : list (Z * entry)) : Prop := {
  tg_connected : connected (pool s);
  tg_rows : ∃ l, rows (pool s) ≡ₚ l ∧ Forall2 row_of l zq;
}.

Lemma tagged_ids s zq : tagged s zq → NoDup zq.*1.
Proof.
  intros [Hc (l & Hl & Hr)]. pose proof (rows_keyed _ Hc) as Hk. rewrite Hl in Hk.
  apply (NoDup_fmap_1 SInt). replace (SInt <$> zq.*1) with ((λ r, r Id) <$> l); [done|].
  clear Hl Hk. induction Hr as [|r p l zq [Hi _ _] _ IH]; [done|]. rewrite !fmap_cons. by rewrite Hi, IH.
Qed.

Lemma row_of_filter (P : row → bool) (Q : Z * entry → bool) (b : bool) l zq :
  (∀ r p, row_of r p → P r = Q p) → Forall2 row_of l zq →
  Forall2 row_of (filter (λ r, P r = b) l) (filter (λ p, Q p = b) zq).
Proof.
  intros HPQ Hr. induction Hr as [|r p l zq Hp Hr IH]; [constructor|].
  rewrite !filter_cons. rewrite (HPQ r p Hp). case_decide; [by constructor|done].
Qed.

(** *** The four kinds of statement *)

Lemma tagged_fetch s zq w o binds (Q : Z * entry → bool) :
  Select w o ∈ queries → tagged s zq → where_bound binds w →
  (∀ r p, row_of r p → matches binds w r = Q p) → ∃ out s',
    run_fetch (query_text (Select w o)) binds s = (Ok out, s') ∧ tagged s' zq ∧
    default_validity_period s' = default_validity_period s ∧
    out ≡ₚ (λ p, (p.1, json_to_string (message p.2))) <$> filter (λ p, Q p = true) zq.
Proof.
  intros Hin [Hc (l & Hl & Hr)] Hb HQ. unfold run_fetch, on_pool.
  destruct (fetch_law (Select w o) binds (pool s) Hin Hc Hb) as (out & d' & -> & Hc' & Hd & Hf).
  eexists out, _. split; [done|]. split; [split; [done|exists l; by rewrite Hd]|]. split; [done|].
  unfold fetched in Hf. cbn [selected] in Hf. rewrite Hl in Hf.
  pose proof (row_of_filter _ _ true l zq HQ Hr) as Hr'. clear - Hf Hr'.
  assert (Heq : (λ r, (r Id, r Message)) <$> filter (λ r, matches binds w r = true) l
    = (λ p, (SInt p.1, SText p.2)) <$> ((λ p, (p.1, json_to_string (message p.2)))
        <$> filter (λ p, Q p = true) zq)).
  { revert Hr'. clear. generalize (filter (λ r, matches binds w r = true) l) (filter (λ p, Q p = true) zq).
    intros l' zq' Hr. induction Hr as [|r p l' zq' [Hi Hm _] _ IH]; [done|].
    rewrite !fmap_cons, <-IH, Hi. by rewrite (Hm Message) by done. }
  rewrite Heq in Hf. apply Permutation_map_inv in Hf as (l3 & Hl3 & Hp).
  assert (Hinj : Inj (=) (=) (λ p : Z * string, (SInt p.1, SText p.2))).
  { intros [x t] [y u]. cbn. congruence. }
  apply (inj (fmap _)) in Hl3 as ->. by symmetry.
Qed.

Lemma tagged_delete s zq w binds (Q : Z * entry → bool) :
  DeleteRows w ∈ statements → tagged s zq → where_bound binds w →
  (∀ r p, row_of r p → matches binds w r = Q p) → ∃ s',
    run_execute (statement_text (DeleteRows w)) binds s
      = (Ok (N.of_nat (length (filter (λ p, Q p = true) zq))), s') ∧
    tagged s' (filter (λ p, Q p = false) zq) ∧
    default_validity_period s' = default_validity_period s.
Proof.
  intros Hin [Hc (l & Hl & Hr)] Hb HQ. unfold run_execute, on_pool.
  destruct (execute_law (DeleteRows w) binds (pool s) Hin Hc Hb) as (n & d' & -> & Hc' & Hn & Hd).
  assert (Hlen : n = N.of_nat (length (filter (λ p, Q p = true) zq))).
  { rewrite Hn, Hl. f_equal. eapply Forall2_length. by apply row_of_filter. }
  rewrite Hlen. eexists. split; [done|]. split; [split; [done|]|done].
  exists (filter (λ r, matches binds w r = false) l). cbn [pool]. rewrite Hd, Hl.
  split; [done|]. by apply row_of_filter.
Qed.

Lemma tagged_update s zq w sets binds (Q : Z * entry → bool) (g : entry → entry) :
  UpdateRows sets w ∈ statements → tagged s zq → accepted binds (UpdateRows sets w) →
  (∀ r p, row_of r p → matches binds w r = Q p) →
  (∀ r p, p ∈ zq → row_of r p → Q p = true → row_of (updated binds sets r) (p.1, g p.2)) → ∃ n s',
    run_execute (statement_text (UpdateRows sets w)) binds s = (Ok n, s') ∧
    tagged s' ((λ p, if Q p then (p.1, g p.2) else p) <$> zq) ∧
    default_validity_period s' = default_validity_period s.
Proof.
  intros Hin [Hc (l & Hl & Hr)] Ha HQ Hg. unfold run_execute, on_pool.
  destruct (execute_law (UpdateRows sets w) binds (pool s) Hin Hc Ha) as (n & d' & -> & Hc' & _ & Hd).
  eexists n, _. split; [done|]. split; [split; [done|]|done].
  exists ((λ r, if matches binds w r then updated binds sets r else r) <$> l). cbn [pool].
  split; [by rewrite Hd, Hl|]. clear - Hr HQ Hg.
  induction Hr as [|r p l zq Hp Hr IH]; [constructor|]. rewrite !fmap_cons. constructor.
  - rewrite (HQ r p Hp). destruct (Q p) eqn:E; [|done]. apply Hg; [by apply elem_of_cons; left|done..].
  - apply IH. intros r' p' Hp'. apply Hg. by apply elem_of_cons; right.
Qed.

Lemma tagged_insert s zq columns binds e :
  InsertRow columns ∈ statements → tagged s zq → accepted binds (InsertRow columns) →
  (∀ id, row_of (inserted binds id columns) (id, e)) → ∃ n s' id,
    run_execute (statement_text (InsertRow columns)) binds s = (Ok n, s') ∧
    tagged s' (zq ++ [(id, e)]) ∧ default_validity_period s' = default_validity_period s.
Proof.
  intros Hin [Hc (l & Hl & Hr)] Ha He. unfold run_execute, on_pool.
  destruct (execute_law (InsertRow columns) binds (pool s) Hin Hc Ha) as (n & d' & -> & Hc' & id & _ & _ & Hd).
  exists n. eexists. exists id. split; [done|]. split; [split; [done|]|done].
  exists (l ++ [inserted binds id columns]). cbn [pool]. split; [by rewrite Hd, Hl|].
  apply Forall2_app; [done|]. constructor; [apply He|constructor].
Qed.

End table.
