(* ===== verification/SqlRefinement.v ===== *)
(** * The operations on the queue

    The abstract storage: a list of entries, and what each operation of the interface means
    on it. [sql_refines_queue]: the SQL storage gives the same results and leaves a table
    that stands for the same list, over any sequence of operations. *)
From S2P Require Export SqlStorageProps.
Import SqlMessageStorage.

(** ** The specification *)

Definition asks_number (want have : N) : bool :=
  (cast_i32 want =? 0)%Z || (cast_i32 want =? cast_i16 have)%Z.

Definition same_number (want have : N) : bool := (cast_i32 want =? cast_i16 have)%Z.

(** What a cancel_sm asks of a message: empty and zero mean any. *)
Definition cancels (c : Value) (e : entry) : bool :=
  let m := message e in
  matches_str (str_field c "service_type") (str_field m "service_type")
  && matches_str (str_field c "message_id") (message_id e)
  && asks_number (u64_field c "source_addr_ton") (u64_field m "source_addr_ton")
  && asks_number (u64_field c "source_addr_npi") (u64_field m "source_addr_npi")
  && matches_str (str_field c "source_addr") (str_field m "source_addr")
  && asks_number (u64_field c "dest_addr_ton") (u64_field m "dest_addr_ton")
  && asks_number (u64_field c "dest_addr_npi") (u64_field m "dest_addr_npi")
  && matches_str (str_field c "destination_addr") (str_field m "destination_addr").

Definition asks_nothing (c : Value) : bool :=
  forallb (λ k, is_empty_str (str_field c k))
    ["service_type"; "message_id"; "source_addr"; "destination_addr"]
  && forallb (λ k, (cast_i32 (u64_field c k) =? 0)%Z)
       ["source_addr_ton"; "source_addr_npi"; "dest_addr_ton"; "dest_addr_npi"].

Definition replaces (c : Value) (e : entry) : bool :=
  let m := message e in
  bool_decide (str_field c "message_id" = message_id e)
  && asks_number (u64_field c "source_addr_ton") (u64_field m "source_addr_ton")
  && asks_number (u64_field c "source_addr_npi") (u64_field m "source_addr_npi")
  && matches_str (str_field c "source_addr") (str_field m "source_addr").

(** The messages that [replace_if_present_flag] replaces. *)
Definition same_addresses (m : Value) (e : entry) : bool :=
  let m' := message e in
  bool_decide (str_field m' "service_type" = str_field m "service_type")
  && same_number (u64_field m "source_addr_ton") (u64_field m' "source_addr_ton")
  && same_number (u64_field m "source_addr_npi") (u64_field m' "source_addr_npi")
  && bool_decide (str_field m' "source_addr" = str_field m "source_addr")
  && same_number (u64_field m "dest_addr_ton") (u64_field m' "dest_addr_ton")
  && same_number (u64_field m "dest_addr_npi") (u64_field m' "dest_addr_npi")
  && bool_decide (str_field m' "destination_addr" = str_field m "destination_addr").

(** The new times are those of the request, where it has any. *)
Definition replaced (c : Value) (sched valid : option Z) (e : entry) : entry :=
  mkEntry (message_id e)
    (match updated_message c (message e) with Ok m => m | _ => message e end)
    (match sched with Some t => Some t | None => schedule e end)
    (match valid with Some t => Some t | None => validity e end).

Section spec.
Context `{Chrono}.
Variable default_validity : N.
Variable handler : Value → bool.

Definition spec_save (now : Z) (id : string) (m : Value) (q : list entry) : ioresult unit * list entry :=
  let q := if (cast_u8 (u64_field m "replace_if_present_flag") =? 1)%N
           then filter (λ e, same_addresses m e = false) q else q in
  if is_empty_str (str_field m "destination_addr")
  then (io_err InvalidInput "Missing destination_addr in the message", q)
  else
    let r :=
      sched ← ok_option (get_schedule_delivery_time now m);
      if match sched with Some t => (t <? now)%Z | None => false end
      then io_err InvalidInput "schedule_delivery_time is in the past"
      else
        valid ← ok_option (get_validity_period now m default_validity);
        Ok (mkEntry id m sched
              (match sched, valid with
               | None, None => Some (now + Z.of_N default_validity * 1000)%Z | _, _ => valid end)) in
    match r with
    | Ok e => (Ok tt, q ++ [e])
    | Err e => (Err e, q)
    | Panic => (Panic, q)
    end.

Definition spec_cancel (c : Value) (q : list entry) : ioresult bool * list entry :=
  if asks_nothing c then (io_err InvalidInput "At least one query field must be provided", q)
  else (Ok (existsb (cancels c) q), filter (λ e, cancels c e = false) q).

Definition spec_replace (now : Z) (c : Value) (q : list entry) : ioresult bool * list entry :=
  let r :=
    if is_empty_str (str_field c "message_id")
    then io_err InvalidInput "Missing message_id in the replace_sm command"
    else if (cast_u8 (u64_field c "sm_default_msg_id") =? 0)%N
            && is_empty_str (str_field c "short_message") && is_empty_str (str_field c "message_payload")
    then io_err InvalidInput "Missing short_message or message_payload in the replace_sm command"
    else
      sched ← parse_time now (str_field c "schedule_delivery_time");
      valid ← parse_time now (str_field c "validity_period");
      Ok (sched, valid) in
  match r with
  | Ok (sched, valid) =>
      (Ok (existsb (replaces c) q), (λ e, if replaces c e then replaced c sched valid e else e) <$> q)
  | Err e => (Err e, q)
  | Panic => (Panic, q)
  end.

Definition spec_op (o : op) (q : list entry) : result * list entry :=
  match o with
  | Save now id m => let '(r, q) := spec_save now id m q in (Done r, q)
  | CancelSm c => let '(r, q) := spec_cancel c q in (Answer r, q)
  | ReplaceSm now c => let '(r, q) := spec_replace now c q in (Answer r, q)
  | CleanTick now => (Done (Ok tt), filter (λ e, expired now e = false) q)
  | DeliverTick now =>
      (Handed (Ok (message <$> filter (λ e, due now e = true) q)),
       filter (λ e, due now e && handler (message e) = false) q)
  end.

Fixpoint spec_run (ops : list op) (q : list entry) : list result * list entry :=
  match ops with
  | [] => ([], q)
  | o :: ops' =>
      let '(r, q) := spec_op o q in let '(rs, q) := spec_run ops' q in (r :: rs, q)
  end.
End spec.

(** ** Requests as fields *)

Section refinement.
Context {D : Type} `{Db : SqlDatabase D, Txt : JsonText, Rfc : Rfc3339, Chr : Chrono}.

Definition named (p : column * sql_value) : string * sql_value := (column_name p.1, p.2).

Definition text_column (c : column) (text : string) : list (column * sql_value) :=
  if negb (is_empty_str text) then [(c, SText text)] else [].
Definition int_column (c : column) (z : Z) : list (column * sql_value) :=
  if negb (z =? 0)%Z then [(c, SInt z)] else [].

Lemma text_field_named c text : text_field (column_name c) text = named <$> text_column c text.
Proof. unfold text_field, field_when, text_column. by destruct (is_empty_str text). Qed.

Lemma int_field_named c z : int_field (column_name c) z = named <$> int_column c z.
Proof. unfold int_field, field_when, int_column. by destruct (z =? 0)%Z. Qed.

Lemma named_names fields : (named <$> fields).*1 = column_name <$> fields.*1.
Proof. by rewrite <-!list_fmap_compose. Qed.
Lemma named_values fields : (named <$> fields).*2 = fields.*2.
Proof. by rewrite <-!list_fmap_compose. Qed.

Lemma text_column_sub c text : (text_column c text).*1 `sublist_of` [c].
Proof. unfold text_column. destruct (is_empty_str text); [apply sublist_nil_l|done]. Qed.
Lemma int_column_sub c z : (int_column c z).*1 `sublist_of` [c].
Proof. unfold int_column. destruct (z =? 0)%Z; [apply sublist_nil_l|done]. Qed.

Lemma text_column_fits c text : fits c (SText "") = true → Forall (λ p, fits p.1 p.2 = true) (text_column c text).
Proof. unfold text_column. destruct (is_empty_str text); repeat constructor. by destruct c. Qed.
Lemma int_column_fits c z : fits c (SInt 0) = true → Forall (λ p, fits p.1 p.2 = true) (int_column c z).
Proof. unfold int_column. destruct (z =? 0)%Z; repeat constructor. by destruct c. Qed.

Definition cancel_columns (c : Value) : list (column * sql_value) :=
  text_column ServiceType (str_field c "service_type")
  ++ text_column MessageId (str_field c "message_id")
  ++ int_column SourceAddrTon (cast_i32 (u64_field c "source_addr_ton"))
  ++ int_column SourceAddrNpi (cast_i32 (u64_field c "source_addr_npi"))
  ++ text_column SourceAddr (str_field c "source_addr")
  ++ int_column DestAddrTon (cast_i32 (u64_field c "dest_addr_ton"))
  ++ int_column DestAddrNpi (cast_i32 (u64_field c "dest_addr_npi"))
  ++ text_column DestinationAddr (str_field c "destination_addr").

Definition replace_columns (c : Value) : list (column * sql_value) :=
  [(MessageId, SText (str_field c "message_id"))]
  ++ int_column SourceAddrTon (cast_i32 (u64_field c "source_addr_ton"))
  ++ int_column SourceAddrNpi (cast_i32 (u64_field c "source_addr_npi"))
  ++ text_column SourceAddr (str_field c "source_addr").

Lemma cancel_fields_named c : cancel_fields c = named <$> cancel_columns c.
Proof.
  unfold cancel_columns. rewrite !fmap_app, <-!text_field_named, <-!int_field_named. reflexivity.
Qed.

Lemma replace_fields_named c : replace_fields c = named <$> replace_columns c.
Proof.
  unfold replace_columns. rewrite !fmap_app, <-!text_field_named, <-!int_field_named. reflexivity.
Qed.

Lemma cancel_columns_sub c : (cancel_columns c).*1 `sublist_of` cancelled_columns.
Proof.
  unfold cancel_columns. rewrite !fmap_app.
  repeat (apply (sublist_app _ [_]); [first [apply text_column_sub|apply int_column_sub]|]).
  apply text_column_sub.
Qed.

Lemma replace_columns_sub c : ∃ cols,
  (replace_columns c).*1 = MessageId :: cols ∧ cols `sublist_of` replaced_columns.
Proof.
  eexists. split; [unfold replace_columns; rewrite fmap_app; reflexivity|]. rewrite !fmap_app.
  repeat (apply (sublist_app _ [_]); [first [apply text_column_sub|apply int_column_sub]|]).
  apply text_column_sub.
Qed.

Lemma cancel_columns_nodup c : NoDup (cancel_columns c).*1.
Proof.
  eapply sublist_NoDup; [|apply cancel_columns_sub]. apply (bool_decide_unpack _). vm_compute. exact I.
Qed.

Lemma replace_columns_nodup c : NoDup (replace_columns c).*1.
Proof.
  destruct (replace_columns_sub c) as (cols & -> & Hs).
  apply sublist_NoDup with (MessageId :: replaced_columns); [|by apply sublist_skip].
  apply (bool_decide_unpack _). vm_compute. exact I.
Qed.

(** *** They are among the statements of the interface *)

Lemma cancel_statement c : DeleteRows (all_equal (cancel_columns c).*1) ∈ statements.
Proof.
  apply elem_of_app; right. apply elem_of_app; right.
  apply (list_elem_of_fmap_2 (λ columns, DeleteRows (all_equal columns))).
  apply elem_of_sublists, cancel_columns_sub.
Qed.

Lemma fixed_statements st :
  st ∈ [InsertRow inserted_columns; DeleteRows expired_clause; DeleteRows has_id] → st ∈ statements.
Proof. intros H. apply elem_of_app. by left. Qed.

Lemma fixed_queries q :
  q ∈ [Select due_clause (Some ScheduleDeliveryTime); Select (all_equal address_columns) None] →
  q ∈ queries.
Proof. intros H. apply elem_of_app. by left. Qed.

Lemma replace_query c : Select (all_equal (replace_columns c).*1) None ∈ queries.
Proof.
  destruct (replace_columns_sub c) as (cols & -> & Hs). apply elem_of_app; right.
  apply (list_elem_of_fmap_2 (λ columns, Select (all_equal (MessageId :: columns)) None)).
  by apply elem_of_sublists.
Qed.

Lemma cancel_columns_fit c : Forall (λ p, fits p.1 p.2 = true) (cancel_columns c).
Proof. repeat apply Forall_app_2; first [by apply text_column_fits|by apply int_column_fits]. Qed.

Lemma replace_columns_fit c : Forall (λ p, fits p.1 p.2 = true) (replace_columns c).
Proof.
  repeat apply Forall_app_2; first [by apply text_column_fits|by apply int_column_fits|by repeat constructor].
Qed.

Lemma cancel_columns_nil c : cancel_columns c = [] ↔ asks_nothing c = true.
Proof.
  assert (Ht : ∀ col text, text_column col text = [] ↔ is_empty_str text = true).
  { intros col text. unfold text_column. by destruct (is_empty_str text). }
  assert (Hi : ∀ col z, int_column col z = [] ↔ (z =? 0)%Z = true).
  { intros col z. unfold int_column. by destruct (z =? 0)%Z. }
  unfold cancel_columns, asks_nothing. cbn [forallb].
  rewrite !app_nil, !Ht, !Hi, !andb_true_iff. tauto.
Qed.

(** *** What their conditions mean for an entry *)

Abbreviation values_match r := (forallb (λ x, compare_values Equal (r x.1) x.2)).

Lemma text_column_match r p c want have :
  row_of r p → c ≠ Id → entry_column p.2 c = SText have →
  values_match r (text_column c want) = matches_str want have.
Proof.
  intros [_ Hr _] Hc He. unfold text_column, matches_str.
  destruct (is_empty_str want); [done|]. cbn [negb forallb fst snd orb].
  rewrite Hr, He by done. cbn [compare_values]. rewrite andb_true_r.
  apply bool_decide_ext. naive_solver.
Qed.

Lemma int_column_match r p c want have :
  row_of r p → c ≠ Id → entry_column p.2 c = SInt (cast_i16 have) →
  values_match r (int_column c (cast_i32 want)) = asks_number want have.
Proof.
  intros [_ Hr _] Hc He. unfold int_column, asks_number.
  destruct (cast_i32 want =? 0)%Z; [done|]. cbn [negb forallb fst snd orb].
  rewrite Hr, He by done. cbn [compare_values]. rewrite andb_true_r. apply Z.eqb_sym.
Qed.

Lemma cancel_columns_match r p c :
  row_of r p → values_match r (cancel_columns c) = cancels c p.2.
Proof.
  intros Hr. unfold cancel_columns, cancels. rewrite !forallb_app, <-!andb_assoc.
  by repeat (erewrite text_column_match || erewrite int_column_match); try done.
Qed.

Lemma replace_columns_match r p c :
  row_of r p → values_match r (replace_columns c) = replaces c p.2.
Proof.
  intros Hr. unfold replace_columns, replaces. rewrite !forallb_app, <-!andb_assoc. f_equal.
  - cbn [forallb fst snd]. rewrite (row_column _ _ Hr) by done. cbn [entry_column compare_values].
    rewrite andb_true_r. apply bool_decide_ext. naive_solver.
  - by repeat (erewrite text_column_match || erewrite int_column_match); try done.
Qed.

(** ** Lists of tagged entries *)

Lemma filter_ext_in {A} (f g : A → bool) (b : bool) (l : list A) :
  (∀ x, x ∈ l → f x = g x) → filter (λ x, f x = b) l = filter (λ x, g x = b) l.
Proof.
  induction l as [|x l IH]; intros Hfg; [done|]. rewrite !filter_cons.
  rewrite Hfg by (by apply elem_of_cons; left).
  rewrite IH by (intros; apply Hfg; by apply elem_of_cons; right). done.
Qed.

Lemma same_id {A} (zq : list (Z * A)) p p' :
  NoDup zq.*1 → p ∈ zq → p' ∈ zq → p.1 = p'.1 → p = p'.
Proof.
  intros Hnd Hp Hp' Heq. induction zq as [|x zq IH]; [by apply elem_of_nil in Hp|].
  rewrite fmap_cons in Hnd. apply NoDup_cons in Hnd as [Hx Hnd].
  apply elem_of_cons in Hp as [->|Hp], Hp' as [->|Hp'].
  - done.
  - exfalso. apply Hx. rewrite Heq. by apply list_elem_of_fmap_2.
  - exfalso. apply Hx. rewrite <-Heq. by apply list_elem_of_fmap_2.
  - by apply IH.
Qed.

Lemma filter_ids_nodup (Q : Z * entry → bool) zq :
  NoDup zq.*1 → NoDup (filter (λ p, Q p = true) zq).*1.
Proof.
  induction zq as [|p zq IH]; [done|]. rewrite fmap_cons, filter_cons. intros [Hp Hnd]%NoDup_cons.
  case_decide; [|by apply IH]. rewrite fmap_cons. apply NoDup_cons. split; [|by apply IH].
  intros Hin. apply Hp. apply list_elem_of_fmap in Hin as (x & Heq & [_ Hx]%list_elem_of_filter).
  rewrite Heq. by apply list_elem_of_fmap_2.
Qed.

(** Selecting by the ids of the matching entries is selecting the matching entries. *)
Lemma selected_ids (Q : Z * entry → bool) zs zq p :
  NoDup zq.*1 → zs ≡ₚ filter (λ p, Q p = true) zq → p ∈ zq → bool_decide (p.1 ∈ zs.*1) = Q p.
Proof.
  intros Hnd Hzs Hp. destruct (Q p) eqn:EQ.
  - apply bool_decide_eq_true. apply (list_elem_of_fmap_2 fst). rewrite Hzs.
    by apply list_elem_of_filter.
  - apply bool_decide_eq_false. intros Hin. rewrite Hzs in Hin.
    apply list_elem_of_fmap in Hin as (p' & Heq & Hp'). apply list_elem_of_filter in Hp' as [HQ Hp'].
    by rewrite (same_id zq p p' Hnd Hp Hp' Heq), HQ in EQ.
Qed.

Lemma fetched_entries (Q : Z * entry → bool) zq out :
  out ≡ₚ (λ p, (p.1, json_to_string (message p.2))) <$> filter (λ p, Q p = true) zq →
  ∃ zs, out = (λ p, (p.1, json_to_string (message p.2))) <$> zs ∧ zs ≡ₚ filter (λ p, Q p = true) zq.
Proof. intros H. apply Permutation_map_inv in H as (zs & -> & Hz). by exists zs. Qed.

Lemma filter_no_ids (zq : list (Z * entry)) :
  filter (λ p, bool_decide (p.1 ∈ @nil Z) = false) zq = zq.
Proof.
  induction zq as [|p zq IH]; [done|]. rewrite filter_cons, IH, decide_True; [done|].
  apply bool_decide_eq_false. by apply not_elem_of_nil.
Qed.

(** ** Steps *)

Lemma bind_ok {T A B} (m : StateM T A) (f : A → StateM T B) s a s' :
  m s = (Ok a, s') → (m ≫= f) s = f a s'.
Proof. intros H. unfold mbind, StateM_bind. by rewrite H. Qed.

Lemma attempt_ok {T A} (m : StateM T A) s a s' : m s = (Ok a, s') → attempt m s = (Ok (Ok a), s').
Proof. intros H. unfold attempt. by rewrite H. Qed.

(** The storage [s] stands for [zq] and keeps its default validity. *)
Definition standing (dflt : N) (s : t D) (zq : list (Z * entry)) : Prop :=
  tagged s zq ∧ default_validity_period s = dflt.

Lemma standing_good dflt s zq : standing dflt s zq → Forall (λ p, good p.2) zq.
Proof.
  intros [[_ (l & _ & Hr)] _]. induction Hr as [|r p l zq [_ _ Hg] _ IH]; by constructor.
Qed.

Lemma filter_good (Q : Z * entry → bool) zq :
  Forall (λ p, good p.2) zq → Forall (λ p, good p.2) (filter (λ p, Q p = true) zq).
Proof. rewrite !Forall_forall. intros Hg p [_ Hp]%list_elem_of_filter. by apply Hg. Qed.

Lemma delete_id_step dflt s zq id :
  standing dflt s zq → ∃ n s',
    run_execute "DELETE FROM message_queue WHERE id = $1" [SInt id] s = (Ok n, s') ∧
    standing dflt s' (filter (λ p, (p.1 =? id)%Z = false) zq).
Proof.
  intros [Ht Hd].
  destruct (tagged_delete s zq has_id [SInt id] (λ p, (p.1 =? id)%Z))
    as (s' & E & Ht' & Hd').
  - apply fixed_statements. by apply (list_elem_of_lookup_2 _ 2).
  - done.
  - apply (where_equals_bound [(Id, SInt id)]). by repeat constructor.
  - intros r p [Hi _ _]. cbn. by rewrite Hi, andb_true_r.
  - eexists _, s'. split; [exact E|]. split; [done|congruence].
Qed.

Lemma delete_ids_step dflt s zq ids :
  standing dflt s zq → ∃ s',
    delete_by_ids ids s = (Ok tt, s') ∧
    standing dflt s' (filter (λ p, bool_decide (p.1 ∈ ids) = false) zq).
Proof.
  revert s zq. induction ids as [|id ids IH]; intros s zq Hs; cbn [delete_by_ids foldr].
  - exists s. by rewrite filter_no_ids.
  - destruct (delete_id_step dflt s zq id Hs) as (n & s1 & E & Hs1).
    destruct (IH s1 _ Hs1) as (s2 & E2 & Hs2). exists s2.
    split; [by rewrite (bind_ok _ _ _ _ _ E)|].
    rewrite list_filter_filter in Hs2. erewrite list_filter_iff; [exact Hs2|].
    intros p. rewrite !bool_decide_eq_false, not_elem_of_cons, Z.eqb_neq. tauto.
Qed.

(** A message of the table reads back. *)
Lemma parse_rows_step (zs : list (Z * entry)) (s : t D) :
  Forall (λ p, good p.2) zs →
  parse_rows ((λ p, (p.1, json_to_string (message p.2))) <$> zs) s
  = (Ok ((λ p, (p.1, message p.2)) <$> zs), s).
Proof.
  intros Hg. induction Hg as [|p zs Hp _ IH]; [done|]. rewrite !fmap_cons. cbn [parse_rows].
  rewrite json_from_to_string by apply Hp. by rewrite (bind_ok _ _ _ _ _ IH).
Qed.

Lemma deliver_step dflt handler (zs : list (Z * entry)) s zq :
  standing dflt s zq → ∃ s',
    deliver_loop handler ((λ p, (p.1, message p.2)) <$> zs) s = (Ok (message <$> zs.*2), s') ∧
    standing dflt s'
      (filter (λ p, bool_decide (p.1 ∈ (filter (λ p, handler (message p.2) = true) zs).*1) = false) zq).
Proof.
  revert s zq. induction zs as [|p zs IH]; intros s zq Hs.
  - exists s. split; [done|]. cbn [fmap list_fmap filter list_filter]. by rewrite filter_no_ids.
  - rewrite !fmap_cons, filter_cons. cbn [deliver_loop].
    destruct (handler (message p.2)) eqn:Eh.
    + rewrite decide_True by done.
      destruct (delete_id_step dflt s zq p.1 Hs) as (n & s1 & E & Hs1).
      destruct (IH s1 _ Hs1) as (s2 & E2 & Hs2). exists s2. split.
      * erewrite bind_ok; [by rewrite (bind_ok _ _ _ _ _ E2)|].
        unfold delete_message_by_id. erewrite bind_ok; [done|].
        erewrite bind_ok; [done|by apply attempt_ok].
      * rewrite list_filter_filter in Hs2. erewrite list_filter_iff; [exact Hs2|].
        intros x. rewrite fmap_cons, !bool_decide_eq_false, not_elem_of_cons, Z.eqb_neq. tauto.
    + rewrite decide_False by done. destruct (IH s zq Hs) as (s2 & E2 & Hs2).
      exists s2. split; [|exact Hs2]. erewrite bind_ok; [by rewrite (bind_ok _ _ _ _ _ E2)|done].
Qed.

(** ** The two ticks *)

Lemma now_bound c now :
  fits c (SText "") = true → bound [SText (to_rfc3339 now)] c 1.
Proof. intros Hc. eexists. split; [done|]. split; [lia|]. by destruct c. Qed.

Lemma expired_match r p now :
  in_calendar now → row_of r p →
  matches [SText (to_rfc3339 now)] expired_clause r = expired now p.2.
Proof.
  intros Hn [_ Hr Hg]. unfold expired. cbn [matches expired_clause forallb holds].
  rewrite Hr by done. cbn [entry_column]. destruct (validity p.2) as [t|] eqn:E; [|done].
  unfold time_value. cbn. rewrite rfc3339_order; [by rewrite andb_true_r|by apply (good_validity _ Hg)|done].
Qed.

Lemma due_match r p now :
  in_calendar now → row_of r p →
  matches [SText (to_rfc3339 now)] due_clause r = due now p.2.
Proof.
  intros Hn [_ Hr Hg]. unfold due. cbn [matches due_clause existsb holds].
  rewrite Hr by done. cbn [entry_column]. destruct (schedule p.2) as [t|] eqn:E; [|done].
  unfold time_value. cbn. rewrite rfc3339_order; [|done|by apply (good_schedule _ Hg)].
  rewrite orb_false_r. destruct (Z.ltb_spec now t), (Z.leb_spec t now); done || lia.
Qed.

Lemma clean_step dflt s zq now :
  in_calendar now → standing dflt s zq → ∃ s',
    tick_clean now s = (Ok tt, s') ∧ standing dflt s' (filter (λ p, expired now p.2 = false) zq).
Proof.
  intros Hn [Ht Hd].
  destruct (tagged_delete s zq expired_clause [SText (to_rfc3339 now)] (λ p, expired now p.2))
    as (s' & E & Ht' & Hd').
  - apply fixed_statements. by apply (list_elem_of_lookup_2 _ 1).
  - done.
  - repeat constructor. by apply now_bound.
  - intros r p. by apply expired_match.
  - exists s'. split; [|split; [done|congruence] ].
    unfold tick_clean, clean_expired_messages.
    erewrite bind_ok; [done|]. apply attempt_ok. erewrite bind_ok; [done|exact E].
Qed.

Lemma fetch_step dflt s zq now :
  in_calendar now → standing dflt s zq → ∃ zs s',
    get_delivery_messages now s = (Ok ((λ p, (p.1, message p.2)) <$> zs), s') ∧
    zs ≡ₚ filter (λ p, due now p.2 = true) zq ∧ standing dflt s' zq.
Proof.
  intros Hn Hs. pose proof Hs as [Ht Hd].
  destruct (tagged_fetch s zq due_clause (Some ScheduleDeliveryTime) [SText (to_rfc3339 now)]
    (λ p, due now p.2)) as (out & s1 & E & Ht1 & Hd1 & Hout).
  - apply fixed_queries. by apply (list_elem_of_lookup_2 _ 0).
  - done.
  - repeat constructor. by apply now_bound.
  - intros r p. by apply due_match.
  - apply fetched_entries in Hout as (zs & -> & Hzs).
    exists zs, s1. split; [|split; [done|split; [done|congruence] ] ].
    unfold get_delivery_messages. erewrite bind_ok; [|exact E]. apply parse_rows_step.
    rewrite Hzs. by apply filter_good, (standing_good dflt s).
Qed.

(** What is left once the accepted ones among the due messages are gone. *)
Lemma delivered_filter (handler : Value → bool) zs (zq : list (Z * entry)) now :
  NoDup zq.*1 → zs ≡ₚ filter (λ p, due now p.2 = true) zq →
  filter (λ p, bool_decide (p.1 ∈ (filter (λ p, handler (message p.2) = true) zs).*1) = false) zq
  = filter (λ p, due now p.2 && handler (message p.2) = false) zq.
Proof.
  intros Hnd Hzs. apply filter_ext_in. intros p Hp.
  apply (selected_ids (λ p, due now p.2 && handler (message p.2)) _ zq); [done|rewrite Hzs|done].
  rewrite list_filter_filter. erewrite list_filter_iff; [done|].
  intros x. cbn. rewrite andb_true_iff. tauto.
Qed.

Lemma tick_step dflt handler s zq now :
  in_calendar now → standing dflt s zq → ∃ l s',
    tick_deliver now handler s = (Ok l, s') ∧
    l ≡ₚ message <$> filter (λ e, due now e = true) zq.*2 ∧
    standing dflt s' (filter (λ p, due now p.2 && handler (message p.2) = false) zq).
Proof.
  intros Hn Hs. destruct (fetch_step dflt s zq now Hn Hs) as (zs & s1 & E & Hzs & Hs1).
  destruct (deliver_step dflt handler zs s1 zq Hs1) as (s2 & E2 & Hs2).
  exists (message <$> zs.*2), s2. split; [|split].
  - unfold tick_deliver. rewrite (bind_ok _ _ s _ s1 (attempt_ok _ _ _ _ E)). exact E2.
  - by rewrite <-filter_values, <-Hzs.
  - rewrite (delivered_filter handler zs zq now) in Hs2; [done| |done]. eapply tagged_ids, Hs1.
Qed.

(** ** Cancelling *)

Lemma cancel_step dflt s zq c :
  standing dflt s zq → ∃ s',
    cancel_message c s = ((spec_cancel c zq.*2).1, s') ∧
    ∃ zq', standing dflt s' zq' ∧ zq'.*2 = (spec_cancel c zq.*2).2.
Proof.
  intros Hs. unfold cancel_message, spec_cancel. rewrite cancel_fields_named.
  destruct (asks_nothing c) eqn:En.
  { apply cancel_columns_nil in En as ->. exists s. split; [done|]. by exists zq. }
  destruct (named <$> cancel_columns c) as [|f fs] eqn:Ec.
  { by apply fmap_nil_inv, cancel_columns_nil in Ec; rewrite Ec in En. }
  destruct Hs as [Ht Hd].
  destruct (tagged_delete s zq (all_equal (cancel_columns c).*1) (cancel_columns c).*2
    (λ p, cancels c p.2)) as (s' & E & Ht' & Hd').
  - apply cancel_statement.
  - done.
  - apply where_equals_bound, cancel_columns_fit.
  - intros r p Hr. rewrite where_equals_matches. by apply cancel_columns_match.
  - exists s'. split.
    + rewrite <-Ec, named_names, named_values, numbered_where by apply cancel_columns_nodup.
      erewrite bind_ok; [|exact E]. cbn [mret StateM_ret fst]. do 2 f_equal.
      clear. induction zq as [|p zq IH]; [done|]. rewrite fmap_cons, filter_cons. cbn [existsb].
      destruct (cancels c p.2); [by rewrite decide_True by done|].
      by rewrite decide_False by done.
    + exists (filter (λ p, cancels c p.2 = false) zq). split; [split; [done|congruence]|].
      apply filter_values.
Qed.

(** ** Replacing *)

Lemma jget_in k m v : jget k m = Some v → (k, v) ∈ m.
Proof.
  induction m as [|[k' v'] m IH]; [done|]. cbn [jget]. rewrite elem_of_cons.
  case_decide as Hk; [intros [= ->]; left; by rewrite Hk|intros H; right; by apply IH].
Qed.

Lemma plain_str_field d v k : plain d v = true → str_valid (str_field v k) = true.
Proof.
  unfold str_field, get_str. destruct d as [|d]; [done|]. destruct v as [| | | | |m]; try done.
  cbn [plain get]. intros [_ Hm]%andb_prop. destruct (jget k m) as [x|] eqn:E; [|done].
  apply jget_in in E. rewrite forallb_forall in Hm. apply list_elem_of_In, Hm in E.
  apply andb_prop in E as [_ Hx]. destruct x; try done. by destruct d.
Qed.

Definition replaced_keys : list string :=
  ["schedule_delivery_time"; "validity_period"; "sm_default_msg_id"; "short_message"; "registered_delivery"].

(** [m'] is [m] with only the keys of a replacement changed. *)
Definition changes (m m' : jmap) : Prop :=
  plain json_depth (JObject m') = true ∧ ∀ k, k ∉ replaced_keys → jget k m' = jget k m.

Lemma set_when_changes cond k v m0 m :
  changes m0 m → k ∈ replaced_keys → str_valid k = true → plain (pred json_depth) v = true → ∃ m',
    set_when cond k v (JObject m) = Ok (JObject m') ∧ changes m0 m'.
Proof.
  intros [Hp Hm] Hk Hv Hx. destruct cond; [|by exists m]. exists (jinsert k v m).
  split; [done|]. split; [by apply plain_insert|].
  intros k' Hk'. rewrite jget_insert_ne; [by apply Hm|]. intros ->. done.
Qed.

(** Runs the next assignment to a field. *)
Ltac set_step :=
  match goal with
  | H : changes ?m0 ?m1 |- context [set_when ?b ?k ?v (JObject ?m1)] =>
      let Hin := fresh in
      assert (Hin : k ∈ replaced_keys) by (apply (bool_decide_unpack _); vm_compute; exact I);
      destruct (set_when_changes b k v m0 m1 H Hin) as (? & -> & ?); [by auto..|];
      cbn [mbind outcome_bind]
  end.

Lemma updated_message_spec c m :
  plain json_depth c = true → plain json_depth (JObject m) = true → ∃ m',
    updated_message c (JObject m) = Ok (JObject m') ∧ changes m m'.
Proof.
  intros Hc Hm. unfold updated_message.
  assert (Hkey : ∀ k, k ∈ replaced_keys → str_valid k = true).
  { apply Forall_forall. repeat (apply Forall_cons; split; [vm_compute; reflexivity|]). constructor. }
  assert (Hs : ∀ k, plain (pred json_depth) (JString (str_field c k)) = true).
  { intros k. exact (plain_str_field _ _ k Hc). }
  assert (Hn : ∀ n, plain (pred json_depth) (jnum (cast_u8 n)) = true).
  { intros n. apply N.ltb_lt. unfold cast_u8. pose proof (N.mod_lt n (2 ^ 8)). lia. }
  assert (H0 : changes m m) by (by split).
  do 3 set_step.
  destruct (Nat.ltb 0 (str_len (str_field c "short_message"))).
  - change (index_set ?v "short_message" ?x) with (set_when true "short_message" x v) at 1.
    set_step. change (index_set ?v ?k ?x) with (set_when true k x v). set_step. by eauto.
  - set_step. change (index_set ?v ?k ?x) with (set_when true k x v). set_step. by eauto.
Qed.

Lemma changes_str m m' k : changes m m' → k ∉ replaced_keys → str_field (JObject m') k = str_field (JObject m) k.
Proof. intros [_ H] Hk. unfold str_field, get_str. cbn [get]. by rewrite H. Qed.
Lemma changes_u64 m m' k : changes m m' → k ∉ replaced_keys → u64_field (JObject m') k = u64_field (JObject m) k.
Proof. intros [_ H] Hk. unfold u64_field, get_u64. cbn [get]. by rewrite H. Qed.

(** A time of the request is there exactly when its text is not empty. *)
Lemma parse_time_some now text time :
  parse_time now text = Ok time → is_empty_str text = bool_decide (time = None).
Proof.
  unfold parse_time. destruct (is_empty_str text); [by intros [= <-]|].
  by destruct (parse_absolute_relative_time now text); intros [= <-].
Qed.

Lemma rfc3339_text_empty time : is_empty_str (rfc3339_text time) = bool_decide (time = None).
Proof.
  destruct time as [t|]; [|done]. apply bool_decide_ext. pose proof (rfc3339_nonempty t). naive_solver.
Qed.

(** The columns that an update sets. *)
Definition update_columns (sched valid : option Z) : list column :=
  [Message] ++ (if bool_decide (sched = None) then [] else [ScheduleDeliveryTime])
  ++ (if bool_decide (valid = None) then [] else [ValidityPeriod]).

Lemma update_statement sched valid :
  UpdateRows (sets_from 2 (update_columns sched valid)) has_id ∈ statements.
Proof.
  apply elem_of_app; right. apply elem_of_app; left.
  destruct sched, valid; [apply (list_elem_of_lookup_2 _ 0)|apply (list_elem_of_lookup_2 _ 1)
    |apply (list_elem_of_lookup_2 _ 2)|apply (list_elem_of_lookup_2 _ 3)]; reflexivity.
Qed.

Definition update_binds (id : Z) (updated : Value) (sched valid : option Z) : list sql_value :=
  [SInt id; SText (json_to_string updated)]
  ++ bind_text (rfc3339_text sched) ++ bind_text (rfc3339_text valid).

Lemma update_accepted id v sched valid :
  accepted (update_binds id v sched valid)
    (UpdateRows (sets_from 2 (update_columns sched valid)) has_id).
Proof.
  unfold update_binds, bind_text. rewrite !rfc3339_text_empty.
  assert (Hw : ∀ rest, where_bound (SInt id :: rest) has_id).
  { intros rest. repeat constructor. exists (SInt id). split; [done|split; [lia|done] ]. }
  destruct sched as [s|], valid as [t|]; cbn;
    (split; [apply (bool_decide_unpack _); vm_compute; exact I|]);
    (split; [apply (bool_decide_unpack _); vm_compute; exact I|]);
    (split; [|apply Hw]);
    repeat (apply Forall_cons; split; [eexists; split; [reflexivity|split; [cbn; lia|done] ]|]); constructor.
Qed.

(** The row that an update leaves, for the message it was computed from. *)
Lemma update_row_of c r p m m' sched valid :
  row_of r p → message p.2 = JObject m → updated_message c (JObject m) = Ok (JObject m') → changes m m' →
  (∀ t, sched = Some t → in_calendar t) → (∀ t, valid = Some t → in_calendar t) →
  row_of (updated (update_binds p.1 (JObject m') sched valid) (sets_from 2 (update_columns sched valid)) r)
    (p.1, replaced c sched valid p.2).
Proof.
  intros [Hi Hr Hg] Hm Hu Hc Hs Hv.
  assert (He : message (replaced c sched valid p.2) = JObject m').
  { cbn [replaced message]. by rewrite Hm, Hu. }
  assert (Hset : ∀ col, updated (update_binds p.1 (JObject m') sched valid)
      (sets_from 2 (update_columns sched valid)) r col
    = match col with
      | Message => SText (json_to_string (JObject m'))
      | ScheduleDeliveryTime => match sched with Some t => SText (to_rfc3339 t) | None => r col end
      | ValidityPeriod => match valid with Some t => SText (to_rfc3339 t) | None => r col end
      | _ => r col
      end).
  { intros col. unfold update_binds, bind_text. rewrite !rfc3339_text_empty.
    destruct sched, valid, col; reflexivity. }
  split.
  - by rewrite Hset.
  - intros col Hcol. rewrite Hset.
    destruct col; cbn [entry_column fst snd]; rewrite ?He; try done;
      rewrite ?(Hr _ Hcol); cbn [entry_column]; rewrite ?Hm;
      try (by rewrite (changes_str m m') by (done || (apply (bool_decide_unpack _); vm_compute; exact I)));
      try (by rewrite (changes_u64 m m') by (done || (apply (bool_decide_unpack _); vm_compute; exact I))).
    + done.
    + by destruct sched.
    + by destruct valid.
  - change (good (replaced c sched valid p.2)). split.
    + rewrite He. apply Hc.
    + by exists m'.
    + intros t. cbn [replaced schedule]. destruct sched as [t'|]; [apply Hs|apply (good_schedule _ Hg)].
    + intros t. cbn [replaced validity]. destruct valid as [t'|]; [apply Hv|apply (good_validity _ Hg)].
Qed.

Lemma update_row_text c sched valid now :
  parse_time now (str_field c "schedule_delivery_time") = Ok sched →
  parse_time now (str_field c "validity_period") = Ok valid →
  ["message"]
  ++ (if negb (is_empty_str (str_field c "schedule_delivery_time")) then ["schedule_delivery_time"] else [])
  ++ (if negb (is_empty_str (str_field c "validity_period")) then ["validity_period"] else [])
  = column_name <$> update_columns sched valid.
Proof.
  intros Hs%parse_time_some Hv%parse_time_some. rewrite Hs, Hv. unfold update_columns.
  by destruct sched, valid.
Qed.

Lemma update_columns_nodup sched valid : NoDup (update_columns sched valid).
Proof. destruct sched, valid; apply (bool_decide_unpack _); vm_compute; exact I. Qed.

Section replace.
Variables (dflt : N) (now : Z) (c : Value) (sched valid : option Z).
Hypothesis Hc : plain json_depth c = true.
Hypothesis Hsched : parse_time now (str_field c "schedule_delivery_time") = Ok sched.
Hypothesis Hvalid : parse_time now (str_field c "validity_period") = Ok valid.
Hypothesis Hs : ∀ t, sched = Some t → in_calendar t.
Hypothesis Hv : ∀ t, valid = Some t → in_calendar t.

Lemma update_row_step s zq p :
  standing dflt s zq → p ∈ zq → ∃ s',
    update_row c sched valid (p.1, json_to_string (message p.2)) s = (Ok tt, s') ∧
    standing dflt s' ((λ x, if (x.1 =? p.1)%Z then (x.1, replaced c sched valid x.2) else x) <$> zq).
Proof.
  intros Hst Hp. pose proof (standing_good _ _ _ Hst) as Hg. rewrite Forall_forall in Hg.
  destruct (good_object _ (Hg p Hp)) as (m & Hm).
  pose proof (good_plain _ (Hg p Hp)) as Hpl. rewrite Hm in Hpl.
  destruct (updated_message_spec c m Hc Hpl) as (m' & Hu & Hch). destruct Hst as [Ht Hd].
  destruct (tagged_update s zq has_id
    (sets_from 2 (update_columns sched valid)) (update_binds p.1 (JObject m') sched valid)
    (λ x, (x.1 =? p.1)%Z) (replaced c sched valid)) as (n & s' & E & Ht' & Hd').
  - apply update_statement.
  - done.
  - apply update_accepted.
  - intros r x [Hi _ _]. cbn. rewrite Hi. cbn. by rewrite andb_true_r.
  - intros r x Hx Hr Heq%Z.eqb_eq.
    assert (x = p) as -> by (by eapply same_id; [eapply tagged_ids|..]).
    by eapply update_row_of.
  - exists s'. split; [|split; [done|congruence] ].
    unfold update_row. cbn [fst snd]. rewrite json_from_to_string by (by rewrite Hm).
    rewrite Hm, Hu. rewrite (bind_ok _ _ s (JObject m') s) by done.
    rewrite (update_row_text _ _ _ _ Hsched Hvalid), numbered_sets by apply update_columns_nodup.
    erewrite bind_ok; [done|exact E].
Qed.

Lemma update_rows_step zs s zq :
  standing dflt s zq → NoDup zs.*1 → (∀ p, p ∈ zs → p ∈ zq) → ∃ s',
    update_rows c sched valid ((λ p, (p.1, json_to_string (message p.2))) <$> zs) s = (Ok tt, s') ∧
    standing dflt s'
      ((λ x, if bool_decide (x.1 ∈ zs.*1) then (x.1, replaced c sched valid x.2) else x) <$> zq).
Proof.
  revert s zq. induction zs as [|p zs IH]; intros s zq Hst Hnd Hzs.
  - exists s. split; [done|]. replace (_ <$> zq) with zq; [done|].
    rewrite <-(list_fmap_id zq) at 1. apply list_fmap_ext. intros i x _. 
    rewrite bool_decide_false; [done|]. by apply not_elem_of_nil.
  - rewrite fmap_cons in Hnd. apply NoDup_cons in Hnd as [Hp Hnd].
    destruct (update_row_step s zq p Hst) as (s1 & E1 & Hst1); [apply Hzs; by apply elem_of_cons; left|].
    destruct (IH s1 _ Hst1 Hnd) as (s2 & E2 & Hst2).
    { intros x Hx. apply list_elem_of_fmap. exists x. split.
      - rewrite (proj2 (Z.eqb_neq _ _)); [done|]. intros Heq. apply Hp. rewrite <-Heq.
        by apply list_elem_of_fmap_2.
      - apply Hzs. by apply elem_of_cons; right. }
    exists s2. rewrite fmap_cons. cbn [update_rows]. split; [by rewrite (bind_ok _ _ _ _ _ E1)|].
    rewrite <-list_fmap_compose in Hst2. erewrite list_fmap_ext; [exact Hst2|].
    intros i x _. unfold compose. rewrite fmap_cons. destruct (Z.eqb_spec x.1 p.1) as [Heq|Hne]; cbn [fst].
    + rewrite (bool_decide_true (x.1 ∈ p.1 :: zs.*1)) by (rewrite Heq; by apply elem_of_cons; left).
      by rewrite bool_decide_false by (by rewrite Heq).
    + destruct (decide (x.1 ∈ zs.*1)) as [Hin|Hin].
      * rewrite !bool_decide_true; [done..|]. by apply elem_of_cons; right.
      * rewrite !bool_decide_false; [done..|]. by rewrite elem_of_cons; intros [?|?].
Qed.
End replace.

(** The result of an operation and what the table stands for afterwards. *)
Definition refines {A} (dflt : N) (r : ioresult A * t D) (spec : ioresult A * list entry) : Prop :=
  r.1 = spec.1 ∧ ∃ zq, standing dflt r.2 zq ∧ zq.*2 = spec.2.

Lemma refines_same {A} dflt (r : ioresult A) s zq : standing dflt s zq → refines dflt (r, s) (r, zq.*2).
Proof. intros Hs. split; [done|]. by exists zq. Qed.

Lemma parse_time_calendar now text time :
  (∀ t, parse_absolute_relative_time now text = Ok t → in_calendar t) →
  parse_time now text = Ok time → ∀ t, time = Some t → in_calendar t.
Proof.
  intros Hc. unfold parse_time. destruct (is_empty_str text); [by intros [= <-]|].
  destruct (parse_absolute_relative_time now text) as [t| |]; intros [= <-] ? [= <-]. by apply Hc.
Qed.

Lemma replace_step dflt s zq now c :
  plain json_depth c = true →
  (∀ k t, parse_absolute_relative_time now (str_field c k) = Ok t → in_calendar t) →
  standing dflt s zq → refines dflt (replace_message now c s) (spec_replace now c zq.*2).
Proof.
  intros Hc Hcal Hst. unfold replace_message, spec_replace. cbv zeta.
  destruct (is_empty_str (str_field c "message_id")); [by apply refines_same|].
  destruct (_ && _ && _); [by apply refines_same|].
  destruct (parse_time now (str_field c "schedule_delivery_time")) as [sched|e|] eqn:Es;
    [|by apply refines_same..].
  rewrite (bind_ok _ _ s sched s) by done.
  destruct (parse_time now (str_field c "validity_period")) as [valid|e|] eqn:Ev;
    [|by apply refines_same..].
  rewrite (bind_ok _ _ s valid s) by done.
  rewrite replace_fields_named, named_names, named_values, numbered_where by apply replace_columns_nodup.
  pose proof Hst as [Ht Hd].
  destruct (tagged_fetch s zq (all_equal (replace_columns c).*1) None (replace_columns c).*2
    (λ p, replaces c p.2)) as (out & s1 & E & Ht1 & Hd1 & Hout).
  - apply replace_query.
  - done.
  - apply where_equals_bound, replace_columns_fit.
  - intros r p Hr. rewrite where_equals_matches. by apply replace_columns_match.
  - apply fetched_entries in Hout as (zs & -> & Hzs).
    assert (Hst1 : standing dflt s1 zq) by (split; [done|congruence]).
    assert (Hnd : NoDup zq.*1) by (by eapply tagged_ids).
    assert (Hsub : ∀ p, p ∈ zs → p ∈ zq) by (intros p; rewrite Hzs; by intros [_ ?]%list_elem_of_filter).
    assert (Hnds : NoDup zs.*1).
    { rewrite Hzs. by apply filter_ids_nodup. }
    destruct (update_rows_step dflt now c sched valid Hc Es Ev (parse_time_calendar _ _ _ (Hcal _) Es)
      (parse_time_calendar _ _ _ (Hcal _) Ev) zs s1 zq Hst1 Hnds Hsub) as (s2 & E2 & Hst2).
    change (query_text (Select ?w None)) with ("SELECT id, message FROM message_queue WHERE " +:+ where_text w +:+ "") in E.
    assert (Happ : ∀ t : string, t +:+ "" = t).
    { intros t. induction t as [|a t IH]; [done|]. change (String a (t +:+ "") = String a t). by rewrite IH. }
    rewrite Happ in E. rewrite (bind_ok _ _ _ _ _ E), (bind_ok _ _ _ _ _ E2).
    split.
    + cbn [mbind outcome_bind fst mret StateM_ret]. f_equal. rewrite length_fmap, Hzs. clear.
      induction zq as [|p zq IH]; [done|]. rewrite fmap_cons, filter_cons. cbn [existsb].
      destruct (replaces c p.2); [by rewrite decide_True by done|].
      by rewrite decide_False by done.
    + eexists. split; [exact Hst2|]. cbn [mbind outcome_bind snd]. rewrite <-!list_fmap_compose.
      apply list_fmap_ext. intros i p Hp%list_elem_of_lookup_2. unfold compose.
      rewrite (selected_ids (λ p, replaces c p.2) zs zq p Hnd Hzs Hp). by destruct (replaces c p.2).
Qed.

(** ** Saving *)

Definition address_fields (m : Value) : list (column * sql_value) :=
  [(ServiceType, SText (str_field m "service_type"));
   (SourceAddrTon, SInt (cast_i32 (u64_field m "source_addr_ton")));
   (SourceAddrNpi, SInt (cast_i32 (u64_field m "source_addr_npi")));
   (SourceAddr, SText (str_field m "source_addr"));
   (DestAddrTon, SInt (cast_i32 (u64_field m "dest_addr_ton")));
   (DestAddrNpi, SInt (cast_i32 (u64_field m "dest_addr_npi")));
   (DestinationAddr, SText (str_field m "destination_addr"))].

Lemma address_fields_match r p m :
  row_of r p → values_match r (address_fields m) = same_addresses m p.2.
Proof.
  intros [_ Hr _]. unfold address_fields, same_addresses, same_number.
  cbn [forallb fst snd]. rewrite !Hr by done. cbn [entry_column compare_values].
  rewrite andb_true_r, <-!andb_assoc, !(Z.eqb_sym (cast_i16 _)). reflexivity.
Qed.

Lemma replace_flag_step dflt s zq m :
  standing dflt s zq → ∃ s',
    delete_messages_for_replace_if_present_flag m s = (Ok true, s') ∧
    standing dflt s' (filter (λ p, same_addresses m p.2 = false) zq).
Proof.
  intros [Ht Hd].
  destruct (tagged_fetch s zq (all_equal (address_fields m).*1) None (address_fields m).*2
    (λ p, same_addresses m p.2)) as (out & s1 & E & Ht1 & Hd1 & Hout).
  - apply fixed_queries. by apply (list_elem_of_lookup_2 _ 1).
  - done.
  - apply where_equals_bound. by repeat constructor.
  - intros r p Hr. rewrite where_equals_matches. by apply address_fields_match.
  - apply fetched_entries in Hout as (zs & -> & Hzs).
    destruct (delete_ids_step dflt s1 zq zs.*1) as (s2 & E2 & Hst2); [split; [done|congruence]|].
    exists s2. split.
    + unfold delete_messages_for_replace_if_present_flag.
      rewrite (bind_ok _ _ s ((λ p, (p.1, json_to_string (message p.2))) <$> zs) s1) by exact E.
      rewrite <-list_fmap_compose. erewrite bind_ok; [done|exact E2].
    + erewrite <-filter_ext_in; [exact Hst2|]. intros p Hp.
      apply (selected_ids (λ p, same_addresses m p.2) _ zq); [by eapply tagged_ids|done..].
Qed.

Lemma insert_step dflt s zq id m sched valid :
  good (mkEntry id m sched valid) → standing dflt s zq → ∃ s' n,
    insert_message id m sched valid s = (Ok tt, s') ∧
    standing dflt s' (zq ++ [(n, mkEntry id m sched valid)]).
Proof.
  intros Hg [Ht Hd].
  destruct (tagged_insert s zq
    inserted_columns
    [SText (str_field m "service_type"); SText id;
     SInt (cast_i16 (u64_field m "source_addr_ton")); SInt (cast_i16 (u64_field m "source_addr_npi"));
     SText (str_field m "source_addr");
     SInt (cast_i16 (u64_field m "dest_addr_ton")); SInt (cast_i16 (u64_field m "dest_addr_npi"));
     SText (str_field m "destination_addr");
     time_value sched; time_value valid; SText (json_to_string m)] (mkEntry id m sched valid))
    as (n & s' & z & E & Ht' & Hd').
  - apply fixed_statements. by apply (list_elem_of_lookup_2 _ 0).
  - done.
  - split; [apply (bool_decide_unpack _); vm_compute; exact I|].
    split; [apply (bool_decide_unpack _); vm_compute; exact I|].
    split; [by destruct sched, valid; repeat constructor|].
    repeat (apply Forall_cons; split; [apply (bool_decide_unpack _); vm_compute; exact I|]). constructor.
  - intros z. split; [done| |done]. intros col Hcol. by destruct col.
  - exists s', z. split; [|split; [done|congruence] ].
    unfold insert_message. erewrite bind_ok; [done|exact E].
Qed.

(** The message can be stored, with times that can be compared. *)
Record savable (dflt : N) (now : Z) (m : Value) : Prop := {
  sv_plain : plain json_depth m = true;
  sv_schedule : ∀ t, get_schedule_delivery_time now m = Ok t → in_calendar t;
  sv_validity : ∀ t, get_validity_period now m dflt = Ok t → in_calendar t;
  sv_default : in_calendar (now + Z.of_N dflt * 1000);
}.

Lemma save_step dflt s zq now id m :
  savable dflt now m → standing dflt s zq →
  refines dflt (save now id m s) (spec_save dflt now id m zq.*2).
Proof.
  intros [Hp Hsc Hva Hde] Hst. unfold save, spec_save. cbv zeta.
  assert (Hflag : ∃ s1 zq1,
    (if (cast_u8 (u64_field m "replace_if_present_flag") =? 1)%N
     then delete_messages_for_replace_if_present_flag m ≫= λ _, mret tt else mret tt) s = (Ok tt, s1) ∧
    standing dflt s1 zq1 ∧
    zq1.*2 = if (cast_u8 (u64_field m "replace_if_present_flag") =? 1)%N
             then filter (λ e, same_addresses m e = false) zq.*2 else zq.*2).
  { destruct (_ =? 1)%N; [|by exists s, zq].
    destruct (replace_flag_step dflt s zq m Hst) as (s1 & E & Hs1).
    eexists s1, _. split; [by rewrite (bind_ok _ _ _ _ _ E)|]. split; [exact Hs1|]. apply filter_values. }
  destruct Hflag as (s1 & zq1 & E1 & Hst1 & <-). rewrite (bind_ok _ _ _ _ _ E1). clear E1.
  destruct (is_empty_str (str_field m "destination_addr")) eqn:Edst; [by apply refines_same|].
  destruct Hst as [_ Hd]. rewrite Hd.
  destruct (ok_option (F := io_error) (get_schedule_delivery_time now m)) as [sched|e|] eqn:Es;
    cbn [mbind outcome_bind]; [|by apply refines_same..].
  rewrite (bind_ok _ _ s1 sched s1) by done.
  destruct (match sched with Some t => (t <? now)%Z | None => false end); [by apply refines_same|].
  destruct (ok_option (F := io_error) (get_validity_period now m dflt)) as [valid|e|] eqn:Ev;
    cbn [mbind outcome_bind]; [|by apply refines_same..].
  rewrite (bind_ok _ _ s1 valid s1) by done. unfold default_validity. rewrite Hd.
  set (valid' := match sched, valid with None, None => _ | _, _ => valid end).
  destruct (insert_step dflt s1 zq1 id m sched valid') as (s2 & n & E2 & Hst2); [|done|].
  - split; cbn [message schedule validity].
    + done.
    + destruct m as [| | | | |m]; try done. by exists m.
    + intros t ->. apply Hsc. by eapply ok_option_some.
    + intros t Ht. destruct sched, valid; try (apply Hva; subst valid'; injection Ht as <-; by eapply ok_option_some); [done|].
      by injection Ht as <-.
  - rewrite E2. split; [done|]. eexists. split; [exact Hst2|]. by rewrite fmap_app.
Qed.

(** ** The refinement *)

Definition run_op (handler : Value → bool) (o : op) (s : t D) : result * t D :=
  match o with
  | Save now id m => let '(r, s) := save now id m s in (Done r, s)
  | CancelSm c => let '(r, s) := cancel_message c s in (Answer r, s)
  | ReplaceSm now c => let '(r, s) := replace_message now c s in (Answer r, s)
  | CleanTick now => let '(r, s) := tick_clean now s in (Done r, s)
  | DeliverTick now => let '(r, s) := tick_deliver now handler s in (Handed r, s)
  end.

Fixpoint run_ops (handler : Value → bool) (ops : list op) (s : t D) : list result * t D :=
  match ops with
  | [] => ([], s)
  | o :: ops' =>
      let '(r, s) := run_op handler o s in let '(rs, s) := run_ops handler ops' s in (r :: rs, s)
  end.

(** The values have a text, and the times can be compared as texts. *)
Definition op_ok (dflt : N) (o : op) : Prop :=
  match o with
  | Save now _ m => savable dflt now m
  | CancelSm _ => True
  | ReplaceSm now c => plain json_depth c = true ∧
      ∀ k t, parse_absolute_relative_time now (str_field c k) = Ok t → in_calendar t
  | CleanTick now | DeliverTick now => in_calendar now
  end.

(** The table stands for the queue [q]. *)
Definition represents (dflt : N) (s : t D) (q : list entry) : Prop :=
  ∃ zq, standing dflt s zq ∧ zq.*2 = q.

Lemma op_step dflt handler o s q :
  represents dflt s q → op_ok dflt o →
  same_result (run_op handler o s).1 (spec_op dflt handler o q).1 ∧
  represents dflt (run_op handler o s).2 (spec_op dflt handler o q).2.
Proof.
  intros (zq & Hs & <-) Ho. destruct o as [now id m|c|now c|now|now]; cbn [run_op spec_op op_ok] in *.
  - destruct (save_step dflt s zq now id m Ho Hs) as [Hr Hz].
    destruct (save now id m s), (spec_save dflt now id m zq.*2). cbn [fst snd] in *. by rewrite Hr.
  - destruct (cancel_step dflt s zq c Hs) as (s' & E & Hz). rewrite E.
    destruct (spec_cancel c zq.*2). done.
  - destruct Ho as [Hc Hcal]. destruct (replace_step dflt s zq now c Hc Hcal Hs) as [Hr Hz].
    destruct (replace_message now c s), (spec_replace now c zq.*2). cbn [fst snd] in *. by rewrite Hr.
  - destruct (clean_step dflt s zq now Ho Hs) as (s' & -> & Hz).
    split; [done|]. eexists. split; [exact Hz|]. apply filter_values.
  - destruct (tick_step dflt handler s zq now Ho Hs) as (l & s' & -> & Hl & Hz).
    split; [exact Hl|]. eexists. split; [exact Hz|].
    apply (filter_values (λ e, due now e && handler (message e))).
Qed.

Lemma run_represents dflt handler ops s q :
  represents dflt s q → Forall (op_ok dflt) ops →
  Forall2 same_result (run_ops handler ops s).1 (spec_run dflt handler ops q).1 ∧
  represents dflt (run_ops handler ops s).2 (spec_run dflt handler ops q).2.
Proof.
  intros Hs Ho. revert s q Hs. induction Ho as [|o ops Ho _ IH]; intros s q Hs; [by split|].
  cbn [run_ops spec_run]. destruct (op_step dflt handler o s q Hs Ho) as [Hr Hs'].
  destruct (run_op handler o s) as [r s1], (spec_op dflt handler o q) as [r' q1]. cbn [fst snd] in *.
  destruct (IH s1 q1 Hs') as [Hrs Hs2].
  destruct (run_ops handler ops s1), (spec_run dflt handler ops q1). cbn [fst snd] in *. by split; [constructor|].
Qed.

(** C5: the SQL storage is a queue. Over any sequence of saves, cancellations,
    replacements, expiries and deliveries, on any engine that gives the statements of the
    storage their meaning, the results are those of the operations on a list of messages with
    their times as instants, and the table stands for the list they leave: the statement
    texts, their parameters and the stored texts say what was meant. *)
Theorem sql_refines_queue dflt handler ops s q :
  represents dflt s q → Forall (op_ok dflt) ops →
  Forall2 same_result (run_ops handler ops s).1 (spec_run dflt handler ops q).1 ∧
  represents dflt (run_ops handler ops s).2 (spec_run dflt handler ops q).2.
Proof. apply run_represents. Qed.

End refinement.
