(* ===== verification/SqlInstance.v ===== *)
(** * A database, texts of values and texts of times

    Concrete instances of the interfaces of Texts.v and Database.v, with their laws: the
    witnesses of the theorems on the SQL storage run on them. Values are written as the bits
    of their code in the trees of stdpp, instants as nineteen digits, and the table is a list of
    rows whose engine knows the statements of the storage by their text. *)
From S2P Require Export SqlRefinement.

(** ** Values as texts *)

Abbreviation leaf := (bool + (N + (Z + (N + string))))%type.

Fixpoint value_tree (v : Value) : gen_tree leaf :=
  match v with
  | JNull => GenNode 0 []
  | JBool b => GenLeaf (inl b)
  | JNumber (PosInt n) => GenLeaf (inr (inl n))
  | JNumber (NegInt z) => GenLeaf (inr (inr (inl z)))
  | JNumber (Float n) => GenLeaf (inr (inr (inr (inl n))))
  | JString s => GenLeaf (inr (inr (inr (inr s))))
  | JArray l => GenNode 1 (value_tree <$> l)
  | JObject m => GenNode 2 ((λ p, GenNode 3 [GenLeaf (inr (inr (inr (inr p.1)))); value_tree p.2]) <$> m)
  end.

Fixpoint tree_value (t : gen_tree leaf) : Value :=
  match t with
  | GenLeaf (inl b) => JBool b
  | GenLeaf (inr (inl n)) => JNumber (PosInt n)
  | GenLeaf (inr (inr (inl z))) => JNumber (NegInt z)
  | GenLeaf (inr (inr (inr (inl n)))) => JNumber (Float n)
  | GenLeaf (inr (inr (inr (inr s)))) => JString s
  | GenNode 1 l => JArray (tree_value <$> l)
  | GenNode 2 l =>
      JObject ((λ t, match t with
                     | GenNode _ [GenLeaf (inr (inr (inr (inr k)))); t'] => (k, tree_value t')
                     | _ => ("", JNull)
                     end) <$> l)
  | GenNode _ _ => JNull
  end.

Lemma tree_value_tree v : tree_value (value_tree v) = v.
Proof.
  revert v. fix go 1. intros [|b|[n|z|n]|s|l|m]; try reflexivity.
  - cbn. f_equal. induction l as [|v l IH]; [done|]. cbn. by rewrite go, IH.
  - cbn. f_equal. induction m as [|[k v] m IH]; [done|]. cbn. by rewrite go, IH.
Qed.

Fixpoint bits_text (p : positive) : string :=
  match p with
  | xH => ""
  | xO p => String (Ascii.ascii_of_byte x30) (bits_text p)
  | xI p => String (Ascii.ascii_of_byte x31) (bits_text p)
  end.

Fixpoint text_bits (s : string) : positive :=
  match s with
  | "" => xH
  | String c s => if bool_decide (c = Ascii.ascii_of_byte x31) then xI (text_bits s) else xO (text_bits s)
  end.

Lemma text_bits_text p : text_bits (bits_text p) = p.
Proof. induction p as [p IH|p IH|]; cbn; by rewrite ?IH. Qed.

#[export, refine] Instance json_bits : JsonText := {
  json_to_string v := bits_text (encode (value_tree v));
  json_from_str s := match decode (text_bits s) with
                     | Some t => inr (tree_value t) | None => inl "not a value" end;
}.
Proof. intros v _. by rewrite text_bits_text, decode_encode, tree_value_tree. Defined.

(** ** Instants as texts *)

Lemma string_compare_cons a b (l k : bytes) :
  String.compare (of_bytes (a :: l)) (of_bytes (b :: k))
  = match N.compare (Byte.to_N a) (Byte.to_N b) with
    | Eq => String.compare (of_bytes l) (of_bytes k) | c => c end.
Proof.
  change (of_bytes (a :: l)) with (String (Ascii.ascii_of_byte a) (of_bytes l)).
  change (of_bytes (b :: k)) with (String (Ascii.ascii_of_byte b) (of_bytes k)).
  cbn [String.compare]. unfold Ascii.compare.
  assert (Hb : ∀ x, Ascii.N_of_ascii (Ascii.ascii_of_byte x) = Byte.to_N x) by (by intros []).
  by rewrite !Hb.
Qed.

(** The last [n] decimal digits, the most significant first. *)
Fixpoint digits (n : nat) (z : N) : bytes :=
  match n with
  | O => []
  | S n' => byte_of_N (48 + z / 10 ^ N.of_nat n') :: digits n' (z mod 10 ^ N.of_nat n')
  end.

Definition digits_value (l : bytes) : N :=
  fold_left (λ z b, z * 10 + (Byte.to_N b - 48))%N l 0%N.

Definition instant_text (t : Z) : string := of_bytes (digits 19 (Z.to_N t mod 10 ^ 19)).

Lemma pow10_pos n : (0 < 10 ^ n)%N.
Proof. apply N.neq_0_lt_0, N.pow_nonzero. done. Qed.

Lemma first_digit n z : (z < 10 ^ N.of_nat (S n))%N → (z / 10 ^ N.of_nat n < 10)%N.
Proof.
  intros Hz. apply N.Div0.div_lt_upper_bound. rewrite Nat2N.inj_succ, N.pow_succ_r' in Hz. lia.
Qed.

Lemma digit_to_N n z :
  (z < 10 ^ N.of_nat (S n))%N → Byte.to_N (byte_of_N (48 + z / 10 ^ N.of_nat n)) = (48 + z / 10 ^ N.of_nat n)%N.
Proof. intros Hz. apply first_digit in Hz. rewrite to_N_byte_of_N, N.mod_small; lia. Qed.

Lemma digits_fold n z a :
  (z < 10 ^ N.of_nat n)%N →
  fold_left (λ z b, z * 10 + (Byte.to_N b - 48))%N (digits n z) a = (a * 10 ^ N.of_nat n + z)%N.
Proof.
  revert z a. induction n as [|n IH]; intros z a Hz; [cbn in *; lia|].
  cbn [digits fold_left]. rewrite digit_to_N by done.
  rewrite IH by (apply N.mod_lt; pose proof (pow10_pos (N.of_nat n)); lia).
  pose proof (N.div_mod z (10 ^ N.of_nat n)) as Hd.
  pose proof (pow10_pos (N.of_nat n)) as Hp. rewrite Nat2N.inj_succ, N.pow_succ_r'.
  specialize (Hd ltac:(lia)). set (p := (10 ^ N.of_nat n)%N) in *.
  set (q := (z / p)%N) in *. set (r := (z mod p)%N) in *. clearbody p q r.
  replace (48 + q - 48)%N with q by lia. rewrite Hd. ring.
Qed.

Lemma digits_compare n z w :
  (z < 10 ^ N.of_nat n)%N → (w < 10 ^ N.of_nat n)%N →
  String.compare (of_bytes (digits n z)) (of_bytes (digits n w)) = N.compare z w.
Proof.
  revert z w. induction n as [|n IH]; intros z w Hz Hw.
  { cbn in *. assert (z = w) as -> by lia. by rewrite N.compare_refl. }
  cbn [digits]. rewrite string_compare_cons, !digit_to_N by done.
  pose proof (pow10_pos (N.of_nat n)) as Hp.
  rewrite IH by (apply N.mod_lt; lia).
  pose proof (N.div_mod z (10 ^ N.of_nat n) ltac:(lia)) as Hdz.
  pose proof (N.div_mod w (10 ^ N.of_nat n) ltac:(lia)) as Hdw.
  pose proof (N.mod_lt z (10 ^ N.of_nat n) ltac:(lia)) as Hmz.
  pose proof (N.mod_lt w (10 ^ N.of_nat n) ltac:(lia)) as Hmw.
  set (p := (10 ^ N.of_nat n)%N) in *. clear Hz Hw.
  set (q := (z / p)%N) in *. set (r := (z mod p)%N) in *.
  set (q' := (w / p)%N) in *. set (r' := (w mod p)%N) in *. clearbody p q r q' r'. subst z w. symmetry.
  destruct (N.compare_spec (48 + q) (48 + q')) as [He|Hlt|Hlt].
  - assert (q = q') as -> by lia. destruct (N.compare_spec r r') as [->|?|?];
      [apply N.compare_eq_iff|apply N.compare_lt_iff|apply N.compare_gt_iff]; lia.
  - apply N.compare_lt_iff. assert (p * (q + 1) <= p * q')%N by (apply N.mul_le_mono_l; lia). lia.
  - apply N.compare_gt_iff. assert (p * (q' + 1) <= p * q)%N by (apply N.mul_le_mono_l; lia). lia.
Qed.

Lemma digits_valid n z : (z < 10 ^ N.of_nat n)%N → str_valid (of_bytes (digits n z)) = true.
Proof.
  intros Hz. unfold str_valid. rewrite as_of_bytes. apply utf8_valid_chars.
  revert z Hz. induction n as [|n IH]; intros z Hz; [by exists []|].
  destruct (IH (z mod 10 ^ N.of_nat n)%N) as (cs & Hcs & E).
  { apply N.mod_lt. pose proof (pow10_pos (N.of_nat n)). lia. }
  exists ([byte_of_N (48 + z / 10 ^ N.of_nat n)] :: cs). split; [|by cbn; rewrite <-E].
  constructor; [|done]. constructor. apply in_range_spec. rewrite digit_to_N by done.
  apply first_digit in Hz. revert Hz. generalize (z / 10 ^ N.of_nat n)%N. lia.
Qed.

(** Up to the year 36,000,000. *)
Definition in_days (t : Z) : Prop := (0 ≤ t < 2 ^ 60)%Z.

Lemma in_days_small t : in_days t → (Z.to_N t mod 10 ^ 19)%N = Z.to_N t ∧ (Z.to_N t < 10 ^ 19)%N.
Proof.
  intros [H0 H1]. assert (t < 1152921504606846976)%Z by exact H1.
  assert (Z.to_N t < 10000000000000000000)%N by lia. change (10 ^ 19)%N with 10000000000000000000%N.
  by rewrite N.mod_small.
Qed.

Lemma mod_small_19 n : (n mod 10 ^ 19 < 10 ^ N.of_nat 19)%N.
Proof. apply N.mod_lt. done. Qed.

#[export, refine] Instance rfc3339_digits : Rfc3339 := {
  to_rfc3339 := instant_text;
  parse_from_rfc3339 s := Some (Z.of_N (digits_value (as_bytes s)));
  in_calendar := in_days;
}.
Proof.
  - intros t Ht. unfold instant_text, digits_value. rewrite as_of_bytes.
    rewrite digits_fold by apply mod_small_19. destruct (in_days_small t Ht) as [-> _].
    f_equal. destruct Ht. lia.
  - intros t u Ht Hu. unfold String.ltb, instant_text.
    rewrite digits_compare by apply mod_small_19.
    destruct (in_days_small t Ht) as [-> _], (in_days_small u Hu) as [-> _].
    destruct Ht, Hu. destruct (Z.ltb_spec t u), (N.compare_spec (Z.to_N t) (Z.to_N u)); done || lia.
  - intros t Ht. apply (f_equal (λ s, length (as_bytes s))) in Ht. unfold instant_text in Ht.
    by rewrite as_of_bytes in Ht.
  - intros t. apply digits_valid, mod_small_19.
Defined.

(** ** The table *)

Record memory_db : Type := mkDb { db_rows : list row; db_next : Z }.

Definition known_statement (text : string) : option statement :=
  snd <$> list_find (λ st, statement_text st = text) statements.
Definition known_query (text : string) : option query :=
  snd <$> list_find (λ q, query_text q = text) queries.

Definition db_execute (text : string) (binds : list sql_value) (d : memory_db) :
    outcome string N * memory_db :=
  match known_statement text with
  | Some (InsertRow columns) =>
      (Ok 1%N, mkDb (db_rows d ++ [inserted binds (db_next d) columns]) (db_next d + 1))
  | Some (UpdateRows sets w) =>
      (Ok (N.of_nat (length (filter (λ r, matches binds w r = true) (db_rows d)))),
       mkDb ((λ r, if matches binds w r then updated binds sets r else r) <$> db_rows d) (db_next d))
  | Some (DeleteRows w) =>
      (Ok (N.of_nat (length (filter (λ r, matches binds w r = true) (db_rows d)))),
       mkDb (filter (λ r, matches binds w r = false) (db_rows d)) (db_next d))
  | None => (Err "syntax error", d)
  end.

Definition row_text (r : row) : Z * string :=
  (match r Id with SInt z => z | _ => 0%Z end, match r Message with SText s => s | _ => "" end).

Definition db_fetch (text : string) (binds : list sql_value) (d : memory_db) :
    outcome string (list (Z * string)) * memory_db :=
  match known_query text with
  | Some q => (Ok (row_text <$> filter (λ r, matches binds (selected q) r = true) (db_rows d)), d)
  | None => (Err "syntax error", d)
  end.

(** Rows of the right types, with the ids given out so far. *)
Record db_connected (d : memory_db) : Prop := {
  dc_keyed : NoDup ((λ r, r Id) <$> db_rows d);
  dc_typed : ∀ r c, r ∈ db_rows d → fits c (r c) = true;
  dc_next : ∀ r z, r ∈ db_rows d → r Id = SInt z → (z < db_next d)%Z;
}.

(** *** The engine knows each statement by its text *)

Lemma find_by_text {A} (text : A → string) (l : list A) x :
  NoDup (text <$> l) → x ∈ l → snd <$> list_find (λ y, text y = text x) l = Some x.
Proof.
  intros Hnd Hx. destruct (list_find _ l) as [[i y]|] eqn:E.
  - apply list_find_Some in E as (Hi & Hy & _). cbn. f_equal.
    apply list_elem_of_lookup in Hx as [j Hj].
    assert (i = j) as ->; [|congruence].
    apply (NoDup_lookup (text <$> l) i j (text x)); [done|..]; rewrite list_lookup_fmap.
    + by rewrite Hi; cbn; rewrite Hy.
    + by rewrite Hj.
  - apply list_find_None in E. rewrite Forall_forall in E. by destruct (E x Hx).
Qed.

Lemma known_statement_text st : st ∈ statements → known_statement (statement_text st) = Some st.
Proof. apply find_by_text. apply (bool_decide_unpack _). vm_compute. exact I. Qed.

Lemma known_query_text q : q ∈ queries → known_query (query_text q) = Some q.
Proof. apply find_by_text. apply (bool_decide_unpack _). vm_compute. exact I. Qed.

(** *** Every statement keeps the table connected *)

Lemma inserted_typed binds id columns c :
  accepted binds (InsertRow columns) → fits c (inserted binds id columns c) = true.
Proof.
  intros (_ & Hid & Hf & Hall). unfold inserted.
  destruct (decide (c ∈ columns)) as [Hin|Hin].
  - clear Hall. induction Hf as [|c' v columns binds' Hv _ IH]; [by apply elem_of_nil in Hin|].
    cbn [zip zip_with foldr]. unfold set_column at 1. case_decide as Hc; [by subst|].
    apply elem_of_cons in Hin as [?|Hin]; [done|]. apply IH; [|done].
    intros Hi. apply Hid. by apply elem_of_cons; right.
  - assert (Hbase : fits c (set_column Id (SInt id) (λ _, SNull) c) = true).
    { unfold set_column. case_decide as Hc; [by subst|]. rewrite Forall_forall in Hall.
      destruct c; try done; exfalso; apply Hin, Hall; apply (bool_decide_unpack _); vm_compute; exact I. }
    clear Hall Hid. induction Hf as [|c' v columns binds' Hv _ IH]; [done|].
    cbn [zip zip_with foldr]. unfold set_column at 1. apply not_elem_of_cons in Hin as [Hc Hin].
    rewrite decide_False by done. by apply IH.
Qed.

Lemma inserted_id binds id columns : Id ∉ columns → inserted binds id columns Id = SInt id.
Proof.
  unfold inserted. revert binds. induction columns as [|c columns IH]; intros [|v binds] Hid; try done.
  apply not_elem_of_cons in Hid as [Hc Hid]. cbn [zip zip_with foldr]. unfold set_column at 1.
  rewrite decide_False by done. by apply IH.
Qed.

Lemma updated_typed binds sets r c :
  Forall (λ s, bound binds s.1 s.2) sets → fits c (r c) = true → fits c (updated binds sets r c) = true.
Proof.
  intros Hs Hr. induction Hs as [|[c' k] sets (v & Hv & Hk & Hf) _ IH]; [done|].
  cbn [updated foldr]. unfold set_column at 1. case_decide as Hc; [|done]. cbn [fst snd] in *. subst.
  unfold parameter. by rewrite Hv.
Qed.

Lemma updated_id binds sets r : Id ∉ sets.*1 → updated binds sets r Id = r Id.
Proof.
  induction sets as [|[c k] sets IH]; intros Hid; [done|]. rewrite fmap_cons in Hid.
  apply not_elem_of_cons in Hid as [Hc Hid]. cbn [updated foldr]. unfold set_column at 1.
  rewrite decide_False by done. by apply IH.
Qed.

Lemma filter_ids_sub (P : row → bool) b (l : list row) :
  NoDup ((λ r, r Id) <$> l) → NoDup ((λ r, r Id) <$> filter (λ r, P r = b) l).
Proof.
  induction l as [|r l IH]; [done|]. rewrite fmap_cons, filter_cons. intros [Hr Hnd]%NoDup_cons.
  case_decide; [|by apply IH]. rewrite fmap_cons. apply NoDup_cons. split; [|by apply IH].
  intros Hin. apply Hr. apply list_elem_of_fmap in Hin as (x & Heq & [_ Hx]%list_elem_of_filter).
  rewrite Heq. by apply (list_elem_of_fmap_2 (λ r, r Id)).
Qed.

Lemma new_id_fresh d : db_connected d → SInt (db_next d) ∉ ((λ r, r Id) <$> db_rows d).
Proof.
  intros [_ _ Hn] Hin. apply list_elem_of_fmap in Hin as (r & Heq & Hr).
  pose proof (Hn r (db_next d) Hr (eq_sym Heq)). lia.
Qed.

Lemma db_execute_law st binds d :
  st ∈ statements → db_connected d → accepted binds st → ∃ n d',
    db_execute (statement_text st) binds d = (Ok n, d') ∧ db_connected d' ∧
    executed binds st (db_rows d) n (db_rows d').
Proof.
  intros Hst Hd Ha. pose proof (new_id_fresh d Hd) as Hfresh. destruct Hd as [Hk Ht Hn].
  unfold db_execute. rewrite known_statement_text by done.
  destruct st as [columns|sets w|w]; (eexists _, _; split; [reflexivity|]); cbn [db_rows executed].
  - split; [|by exists (db_next d)]. pose proof Ha as (_ & Hid & _ & _). split; cbn [db_rows db_next].
    + rewrite fmap_app. apply NoDup_app. split; [done|]. split; [|by apply NoDup_singleton].
      intros x Hx Hx'. apply list_elem_of_singleton in Hx'. by rewrite Hx', inserted_id in Hx.
    + intros r c [Hr| ->%list_elem_of_singleton]%elem_of_app; [by apply Ht|by apply inserted_typed].
    + intros r z [Hr| ->%list_elem_of_singleton]%elem_of_app Hz.
      * pose proof (Hn r z Hr Hz). lia.
      * rewrite inserted_id in Hz by done. injection Hz as <-. lia.
  - split; [|done]. destruct Ha as (_ & Hid & Hs & _).
    assert (Hf : ∀ r, (if matches binds w r then updated binds sets r else r) Id = r Id).
    { intros r. destruct (matches binds w r); [by apply updated_id|done]. }
    split; cbn [db_rows db_next].
    + rewrite <-list_fmap_compose. erewrite list_fmap_ext; [exact Hk|]. intros i r _. apply Hf.
    + intros r c (r0 & -> & Hr)%list_elem_of_fmap.
      destruct (matches binds w r0); [apply updated_typed; [done|]|]; by apply Ht.
    + intros r z (r0 & -> & Hr)%list_elem_of_fmap Hz. rewrite Hf in Hz. by apply (Hn r0).
  - split; [|done]. split; cbn [db_rows db_next].
    + by apply filter_ids_sub.
    + intros r c [_ Hr]%list_elem_of_filter. by apply Ht.
    + intros r z [_ Hr]%list_elem_of_filter. by apply Hn.
Qed.

Lemma db_fetch_law q binds d :
  q ∈ queries → db_connected d → where_bound binds (selected q) → ∃ out d',
    db_fetch (query_text q) binds d = (Ok out, d') ∧ db_connected d' ∧ db_rows d' ≡ₚ db_rows d ∧
    fetched binds q (db_rows d) out.
Proof.
  intros Hq Hd _. unfold db_fetch. rewrite known_query_text by done.
  eexists _, d. split; [reflexivity|]. split; [done|]. split; [done|].
  unfold fetched. rewrite <-list_fmap_compose. erewrite list_fmap_ext; [done|].
  intros i r Hr%list_elem_of_lookup_2. apply list_elem_of_filter in Hr as [_ Hr].
  pose proof (dc_typed _ Hd r Id Hr) as Hi. pose proof (dc_typed _ Hd r Message Hr) as Hm.
  unfold compose, row_text. cbn [fst snd]. by destruct (r Id), (r Message).
Qed.

#[export] Instance memory_database : SqlDatabase memory_db := {
  execute := db_execute;
  fetch_all := db_fetch;
  rows := db_rows;
  connected := db_connected;
  rows_keyed := dc_keyed;
  rows_typed d r c Hd := dc_typed d Hd r c;
  execute_law := db_execute_law;
  fetch_law := db_fetch_law;
}.
