(* ===== verification/SqlBehaviour.v ===== *)
(** * What the SQL storage does with messages

    Consequences of the refinement of SqlRefinement.v: what a refused message has already
    deleted, how often a message is handed to the handler, and that cancel_sm means the same
    to this storage as to the one in memory. *)
From S2P Require Export MemoryStorageProps SqlRefinement.

(** ** The storage in memory as a queue *)

Abbreviation memory := InMemoryMessageStorage.t.

Definition memory_entry (id : string) (e : InMemoryMessageStorage.entry) : entry :=
  mkEntry id (InMemoryMessageStorage.message e) (InMemoryMessageStorage.schedule_delivery_time e)
    (InMemoryMessageStorage.validity_period e).

Definition memory_queue (order : list string) (s : memory) : list entry :=
  order ≫= λ id, memory_entry id <$> default [] (InMemoryMessageStorage.messages s !! id).

(** Types of number and numbering plans that fit the octet they have in a PDU. *)
Definition octets (m : Value) : Prop :=
  ∀ k, k ∈ ["source_addr_ton"; "source_addr_npi"; "dest_addr_ton"; "dest_addr_npi"] →
  (u64_field m k < 256)%N.

Lemma wrap_signed_small w n : (n < 2 ^ (w - 1))%N → (0 < w)%N → wrap_signed w n = Z.of_N n.
Proof.
  intros Hn Hw. unfold wrap_signed.
  assert (2 ^ (w - 1) < 2 ^ w)%N by (apply N.pow_lt_mono_r; lia).
  rewrite N.mod_small by lia. destruct (N.ltb_spec n (2 ^ (w - 1))); [done|lia].
Qed.

Lemma asks_number_octets want have :
  (want < 256)%N → (have < 256)%N →
  asks_number want have = matches_u8 (cast_u8 want) (cast_u8 have).
Proof.
  intros Hw Hh. unfold asks_number, matches_u8, cast_i32, cast_i16, cast_u8.
  assert (256 < 2 ^ (16 - 1))%N by reflexivity. assert (256 < 2 ^ (32 - 1))%N by reflexivity.
  rewrite !wrap_signed_small, !N.mod_small by lia.
  destruct (N.eqb_spec want 0), (N.eqb_spec want have), (Z.eqb_spec (Z.of_N want) 0),
    (Z.eqb_spec (Z.of_N want) (Z.of_N have)); done || lia.
Qed.

Lemma cancels_memory c id e :
  octets c → octets (InMemoryMessageStorage.message e) →
  cancels c (memory_entry id e) = cancel_id_ok c id && InMemoryMessageStorage.cancel_matches c (InMemoryMessageStorage.message e).
Proof.
  intros Hc He.
  unfold cancels, cancel_id_ok, InMemoryMessageStorage.cancel_matches, u8_field.
  unfold memory_entry. cbn [message message_id].
  rewrite !asks_number_octets; try (apply Hc || apply He; apply (bool_decide_unpack _); vm_compute; exact I).
  destruct (matches_str (str_field c "service_type") _), (matches_str (str_field c "message_id") _),
    (matches_str (str_field c "source_addr") _), (matches_str (str_field c "destination_addr") _),
    (matches_u8 (cast_u8 (u64_field c "source_addr_ton")) _),
    (matches_u8 (cast_u8 (u64_field c "source_addr_npi")) _),
    (matches_u8 (cast_u8 (u64_field c "dest_addr_ton")) _);
    by rewrite ?andb_true_r, ?andb_false_r.
Qed.

Lemma default_keep {A} (P : A → bool) (o : option (list A)) :
  default [] (o ≫= keep P) = filter (λ e, P e = true) (default [] o).
Proof. destruct o as [l|]; [|done]. cbn [mbind option_bind default]. unfold keep. by case_decide. Qed.

Lemma filter_bind {A B} (P : B → bool) (f : A → list B) (l : list A) :
  filter (λ y, P y = false) (l ≫= f) = l ≫= λ x, filter (λ y, P y = false) (f x).
Proof. induction l as [|x l IH]; [done|]. rewrite !bind_cons, filter_app. by rewrite IH. Qed.

Lemma bind_ext_in {A B} (f g : A → list B) (l : list A) :
  (∀ x, x ∈ l → f x = g x) → l ≫= f = l ≫= g.
Proof.
  induction l as [|x l IH]; intros Hfg; [done|]. rewrite !bind_cons.
  rewrite Hfg by (by apply elem_of_cons; left). f_equal. apply IH. intros y Hy. apply Hfg. by apply elem_of_cons; right.
Qed.

(** All stored numbers fit their octets. *)
Definition octet_store (s : memory) : Prop :=
  ∀ id l e, InMemoryMessageStorage.messages s !! id = Some l → e ∈ l → octets (InMemoryMessageStorage.message e).

Lemma cancels_list c id (l : list InMemoryMessageStorage.entry) :
  octets c → (∀ e, e ∈ l → octets (InMemoryMessageStorage.message e)) →
  filter (λ e, cancels c e = false) (memory_entry id <$> l)
  = memory_entry id <$> (if cancel_id_ok c id then filter (λ e, cancel_keep c e = true) l else l).
Proof.
  intros Hc Hl. induction l as [|e l IH]; [by destruct (cancel_id_ok c id)|].
  rewrite fmap_cons, filter_cons. rewrite cancels_memory by (done || (apply Hl; by apply elem_of_cons; left)).
  rewrite IH by (intros; apply Hl; by apply elem_of_cons; right). unfold cancel_keep.
  destruct (cancel_id_ok c id); [|by rewrite decide_True by done]. rewrite filter_cons.
  destruct (InMemoryMessageStorage.cancel_matches c _); cbn [andb negb].
  - by rewrite !decide_False by done.
  - by rewrite !decide_True by done.
Qed.

Lemma memory_cancel order c s b s' :
  iterates order s → octets c → octet_store s →
  InMemoryMessageStorage.cancel_message order c s = (b, s') →
  b = existsb (cancels c) (memory_queue order s) ∧
  memory_queue order s' = filter (λ e, cancels c e = false) (memory_queue order s).
Proof.
  intros Hit Hc Hs E. destruct (cancel_message_effect order c s b s' Hit E) as [Hm Hb]. split.
  - apply eq_true_iff_eq. rewrite Hb, existsb_exists. unfold memory_queue. split.
    + intros (id & Hok & l & e & Hl & He & Hmat). exists (memory_entry id e). split.
      * apply list_elem_of_In, list_elem_of_bind. exists id. split.
        -- rewrite Hl. by apply list_elem_of_fmap_2.
        -- apply Hit. by exists l.
      * rewrite cancels_memory by (done || by eapply Hs). by rewrite Hok, Hmat.
    + intros (x & Hx & Hcan). apply list_elem_of_In, list_elem_of_bind in Hx as (id & Hx & Hid).
      apply list_elem_of_fmap in Hx as (e & -> & He).
      destruct (InMemoryMessageStorage.messages s !! id) as [l|] eqn:El; [|by apply elem_of_nil in He].
      rewrite cancels_memory in Hcan by (done || by eapply Hs). apply andb_prop in Hcan as [Hok Hmat].
      exists id. split; [done|]. by exists l, e.
  - unfold memory_queue. rewrite filter_bind. apply bind_ext_in. intros id _. rewrite Hm.
    rewrite cancels_list; [|done|].
    + destruct (cancel_id_ok c id); [by rewrite default_keep|done].
    + intros e. destruct (InMemoryMessageStorage.messages s !! id) as [l|] eqn:El; [by apply (Hs id)|].
      intros He. by apply elem_of_nil in He.
Qed.

Section behaviour.
Context {D : Type} `{Db : SqlDatabase D, Txt : JsonText, Rfc : Rfc3339, Chr : Chrono}.

(** C29: the SQL storage and the one in memory, holding the same messages, cancel alike:
    a cancel_sm that asks for something removes the same messages from both, and both give
    the same answer. *)
Theorem storages_cancel_alike dflt order c (s : memory) (d : SqlMessageStorage.t D) b s' :
  iterates order s → octets c → octet_store s → asks_nothing c = false →
  represents dflt d (memory_queue order s) →
  InMemoryMessageStorage.cancel_message order c s = (b, s') → ∃ d',
    SqlMessageStorage.cancel_message c d = (Ok b, d') ∧ represents dflt d' (memory_queue order s').
Proof.
  intros Hit Hc Hs Hn (zq & Hz & Hq) E.
  destruct (memory_cancel order c s b s' Hit Hc Hs E) as [-> ->]. rewrite <-Hq.
  destruct (cancel_step dflt d zq c Hz) as (d' & E' & zq' & Hz' & Hq').
  unfold spec_cancel in *. rewrite Hn in *. exists d'. split; [exact E'|]. by exists zq'.
Qed.

(** A submit_sm that replaces and is refused because it is scheduled in the past has
    already deleted the messages it would have replaced. *)
Theorem failed_save_deletes dflt (d : SqlMessageStorage.t D) q now id m t :
  represents dflt d q → savable dflt now m →
  cast_u8 (u64_field m "replace_if_present_flag") = 1%N →
  str_field m "destination_addr" ≠ "" →
  get_schedule_delivery_time now m = Ok t → (t < now)%Z → ∃ d',
    SqlMessageStorage.save now id m d
      = (io_err InvalidInput "schedule_delivery_time is in the past", d') ∧
    represents dflt d' (filter (λ e, same_addresses m e = false) q).
Proof.
  intros (zq & Hz & <-) Hm Hf Hdst Ht Hlt.
  destruct (save_step dflt d zq now id m Hm Hz) as [Hr (zq' & Hz' & Hq')]. revert Hr Hq'.
  unfold spec_save. rewrite Hf, Ht. cbn [N.eqb Pos.eqb ok_option mbind outcome_bind].
  destruct (is_empty_str (str_field m "destination_addr")) eqn:Ed.
  { exfalso. apply Hdst. by apply bool_decide_eq_true in Ed. }
  destruct (Z.ltb_spec t now); [|lia]. cbn [fst snd].
  destruct (SqlMessageStorage.save now id m d) as [r d']. cbn [fst snd] in *.
  intros -> Hq'. exists d'. split; [done|]. by exists zq'.
Qed.

(** A message is handed to the handler when it is due, again at every later tick for
    as long as the handler refuses it, and never after the handler accepted it. *)
Theorem sql_delivers_once dflt handler (d : SqlMessageStorage.t D) q now now' :
  represents dflt d q → in_calendar now → in_calendar now' → ∃ l1 d1 l2 d2,
    SqlMessageStorage.tick_deliver now handler d = (Ok l1, d1) ∧
    l1 ≡ₚ message <$> filter (λ e, due now e = true) q ∧
    SqlMessageStorage.tick_deliver now' handler d1 = (Ok l2, d2) ∧
    l2 ≡ₚ message <$> filter (λ e, due now' e && negb (due now e && handler (message e)) = true) q.
Proof.
  intros (zq & Hz & <-) Hn Hn'.
  destruct (tick_step dflt handler d zq now Hn Hz) as (l1 & d1 & E1 & Hl1 & Hz1).
  destruct (tick_step dflt handler d1 _ now' Hn' Hz1) as (l2 & d2 & E2 & Hl2 & _).
  exists l1, d1, l2, d2. split; [done|]. split; [exact Hl1|]. split; [done|].
  rewrite Hl2. rewrite (filter_values (λ e, due now e && handler (message e)) false zq).
  apply Permutation_map. rewrite list_filter_filter.
  erewrite list_filter_iff; [done|]. intros e. cbn.
  rewrite andb_true_iff, negb_true_iff. tauto.
Qed.

(** A message that has expired is delivered all the same, until the next cleaning. *)
Lemma sql_delivers_expired dflt handler (d : SqlMessageStorage.t D) q now e :
  represents dflt d q → in_calendar now → e ∈ q → due now e = true → expired now e = true → ∃ l d',
    SqlMessageStorage.tick_deliver now handler d = (Ok l, d') ∧ message e ∈ l.
Proof.
  intros (zq & Hz & <-) Hn He Hdue _.
  destruct (tick_step dflt handler d zq now Hn Hz) as (l & d' & E & Hl & _).
  exists l, d'. split; [done|]. rewrite Hl. apply list_elem_of_fmap_2. by apply list_elem_of_filter.
Qed.

End behaviour.
