(* ===== verification/SqlWitnesses.v ===== *)
(** * Concrete runs of the SQL storage

    The theorems on the SQL storage at a small database, with texts of values and of times
    that are concrete (SqlInstance.v). *)
From S2P Require Import Witnesses SqlInstance SqlBehaviour.

Definition sql_empty : SqlMessageStorage.t memory_db := SqlMessageStorage.mk (mkDb [] 1) 3600.

(** A message for [addr], scheduled for [sched]. *)
Definition sql_sms (flag : N) (addr sched text : string) : Value :=
  JObject [("destination_addr", JString addr); ("replace_if_present_flag", jnum flag);
           ("schedule_delivery_time", JString sched); ("short_message", JString text)].

Definition sql_cancel : Value := JObject [("message_id", JString "m2")].
Definition sql_replace : Value :=
  JObject [("message_id", JString "m1"); ("short_message", JString "hi")].

(** "m2" is scheduled five minutes ahead. *)
Definition sql_ops : list op :=
  [Save 1000 "m1" (sql_sms 0 "49" "" "hello"); Save 1000 "m2" (sql_sms 0 "49" "000000000500000R" "later");
   Save 1000 "m3" (sql_sms 0 "50" "000000000500000R" "later"); Save 1000 "m4" (sql_sms 0 "" "" "lost");
   CancelSm sql_cancel; ReplaceSm 2000 sql_replace; DeliverTick 3000; DeliverTick 301000; CleanTick 10000000].

Definition sql_replaced : Value :=
  JObject [("destination_addr", JString "49"); ("registered_delivery", jnum 0);
           ("replace_if_present_flag", jnum 0);
           ("schedule_delivery_time", JString ""); ("short_message", JString "hi")].

Definition sql_results : list result :=
  [Done (Ok tt); Done (Ok tt); Done (Ok tt);
   Done (io_err InvalidInput "Missing destination_addr in the message");
   Answer (Ok true); Answer (Ok true); Handed (Ok [sql_replaced]);
   Handed (Ok [sql_sms 0 "50" "000000000500000R" "later"]); Done (Ok tt)].

Lemma sql_empty_represents : represents 3600 sql_empty [].
Proof.
  exists []. split; [|done]. split; [|done]. split.
  - split; [constructor|..]; intros r ? Hr; by apply elem_of_nil in Hr.
  - exists []. by split.
Qed.

Lemma sql_savable now m :
  plain json_depth m = true → (0 ≤ now < 2 ^ 59)%Z →
  match get_schedule_delivery_time now m with Ok t => in_days t | _ => True end →
  match get_validity_period now m 3600 with Ok t => in_days t | _ => True end → savable 3600 now m.
Proof.
  intros Hp Hn Hs Hv. split; [done|..].
  - intros t Ht. by rewrite Ht in Hs.
  - intros t Ht. by rewrite Ht in Hv.
  - unfold in_calendar, rfc3339_digits, in_days. lia.
Qed.

Lemma sql_replace_times k t :
  parse_absolute_relative_time 2000 (str_field sql_replace k) = Ok t → in_calendar t.
Proof.
  assert (Hk : str_field sql_replace k ∈ [""; "m1"; "hi"]).
  { unfold str_field, get_str, sql_replace. cbn [get jget mbind option_bind].
    repeat case_decide; apply (bool_decide_unpack _); vm_compute; exact I. }
  revert Hk. generalize (str_field sql_replace k). intros s Hs.
  repeat (apply elem_of_cons in Hs as [->|Hs]; [discriminate|]). by apply elem_of_nil in Hs.
Qed.

Lemma sql_ops_ok : Forall (op_ok 3600) sql_ops.
Proof.
  assert (Hday : ∀ t : Z, (0 <=? t)%Z && (t <? 2 ^ 60)%Z = true → in_days t).
  { intros t [H1%Z.leb_le H2%Z.ltb_lt]%andb_prop. by split. }
  unfold sql_ops. repeat (apply Forall_cons; split); try apply Forall_nil_2; cbn [op_ok]; try exact I;
    try (apply Hday; reflexivity);
    try (apply sql_savable; [vm_compute; reflexivity|lia|vm_compute; first [exact I|done]|vm_compute; first [exact I|done]]).
  split; [vm_compute; reflexivity|]. apply sql_replace_times.
Qed.

Lemma sql_refines_queue_witness :
  Forall2 same_result (run_ops (λ _, true) sql_ops sql_empty).1 sql_results ∧
  represents 3600 (run_ops (λ _, true) sql_ops sql_empty).2 [].
Proof.
  assert (E : spec_run 3600 (λ _, true) sql_ops [] = (sql_results, [])) by (vm_compute; reflexivity).
  pose proof (sql_refines_queue 3600 (λ _, true) sql_ops sql_empty []
    sql_empty_represents sql_ops_ok) as H. rewrite E in H. exact H.
Defined.

(** ** One storage beside the other *)

Definition sql_two : SqlMessageStorage.t memory_db := (run_ops (λ _, true) (take 2 sql_ops) sql_empty).2.

Definition memory_two : InMemoryMessageStorage.t :=
  let entry m sched valid := InMemoryMessageStorage.mkEntry "49" m sched (Some valid) in
  InMemoryMessageStorage.mk
    {["m1" := [entry (sql_sms 0 "49" "" "hello") None 3601000%Z];
      "m2" := [entry (sql_sms 0 "49" "000000000500000R" "later") (Some 301000%Z) 3901000%Z]]}
    {["49" := ["m1"; "m2"]]} 3600.

Lemma sql_two_represents : represents 3600 sql_two (memory_queue ["m1"; "m2"] memory_two).
Proof.
  assert (E : spec_run 3600 (λ _, true) (take 2 sql_ops) []
    = ([Done (Ok tt); Done (Ok tt)], memory_queue ["m1"; "m2"] memory_two)) by (vm_compute; reflexivity).
  assert (Hok : Forall (op_ok 3600) (take 2 sql_ops)) by apply Forall_take, sql_ops_ok.
  pose proof (run_represents 3600 (λ _, true) _ sql_empty [] sql_empty_represents Hok) as [_ H].
  rewrite E in H. exact H.
Qed.

Lemma memory_two_lookup id l :
  InMemoryMessageStorage.messages memory_two !! id = Some l → id ∈ ["m1"; "m2"] ∧ Forall (λ e, 
    InMemoryMessageStorage.message e ∈ [sql_sms 0 "49" "" "hello"; sql_sms 0 "49" "000000000500000R" "later"]) l.
Proof.
  cbn [InMemoryMessageStorage.messages memory_two]. intros H.
  apply lookup_insert_Some in H as [[<- <-]|[_ H]]; [|apply lookup_singleton_Some in H as [<- <-] ].
  all: split; [apply (bool_decide_unpack _); vm_compute; exact I|].
  all: apply Forall_cons; split; [|constructor]; cbn [InMemoryMessageStorage.message].
  - by apply elem_of_cons; left.
  - by apply elem_of_cons; right; apply elem_of_cons; left.
Qed.

Lemma storages_cancel_alike_witness : ∃ s' d',
  InMemoryMessageStorage.cancel_message ["m1"; "m2"] sql_cancel memory_two = (true, s') ∧
  SqlMessageStorage.cancel_message sql_cancel sql_two = (Ok true, d') ∧
  represents 3600 d' (memory_queue ["m1"; "m2"] s') ∧ length (memory_queue ["m1"; "m2"] s') = 1.
Proof.
  assert (Ho : ∀ m, forallb (λ k, (u64_field m k <? 256)%N)
    ["source_addr_ton"; "source_addr_npi"; "dest_addr_ton"; "dest_addr_npi"] = true → octets m).
  { intros m Hm k Hk. rewrite forallb_forall in Hm. by apply N.ltb_lt, Hm, list_elem_of_In. }
  destruct (InMemoryMessageStorage.cancel_message ["m1"; "m2"] sql_cancel memory_two) as [b s'] eqn:E.
  assert (Hb : b = true ∧ length (memory_queue ["m1"; "m2"] s') = 1).
  { split; [replace b with (b, s').1 by done; by rewrite <-E
           |replace s' with (b, s').2 by done; by rewrite <-E]. }
  destruct Hb as [-> Hlen].
  destruct (storages_cancel_alike 3600 ["m1"; "m2"] sql_cancel memory_two sql_two true s') as (d' & E' & H).
  - split; [apply (bool_decide_unpack _); vm_compute; exact I|].
    intros id [l Hl]. by apply memory_two_lookup in Hl as [Hl _].
  - by apply Ho.
  - intros id l e Hl He. apply memory_two_lookup in Hl as [_ Hl]. rewrite Forall_forall in Hl.
    pose proof (Hl e He) as Hm. apply elem_of_cons in Hm as [->|Hm]; [by apply Ho|].
    apply elem_of_cons in Hm as [->|Hm]; [by apply Ho|by apply elem_of_nil in Hm].
  - reflexivity.
  - apply sql_two_represents.
  - exact E.
  - exists s', d'. by split_and!.
Defined.

(** A replacement for "m1" and "m2" whose delivery time is past: nothing is left. *)
Definition sql_past : Value := sql_sms 1 "49" "000000000001000+" "late".

Lemma failed_save_deletes_witness : ∃ d',
  SqlMessageStorage.save 2000 "m3" sql_past sql_two
    = (io_err InvalidInput "schedule_delivery_time is in the past", d') ∧ represents 3600 d' [].
Proof.
  destruct (failed_save_deletes 3600 sql_two _ 2000 "m3" sql_past 1000 sql_two_represents) as (d' & E & H).
  - apply sql_savable; [vm_compute; reflexivity|lia|vm_compute; done|vm_compute; done].
  - reflexivity.
  - discriminate.
  - vm_compute. reflexivity.
  - lia.
  - exists d'. split; [exact E|].
    replace [] with (filter (λ e, same_addresses sql_past e = false) (memory_queue ["m1"; "m2"] memory_two));
      [exact H|]. vm_compute. reflexivity.
Defined.

(** "m1" is due at once, "m2" later; the handler refuses "hello". *)
Lemma sql_delivers_once_witness : ∃ l1 d1 l2 d2,
  SqlMessageStorage.tick_deliver 3000 (λ m, negb (bool_decide (str_field m "short_message" = "hello"))) sql_two
    = (Ok l1, d1) ∧ l1 ≡ₚ [sql_sms 0 "49" "" "hello"] ∧
  SqlMessageStorage.tick_deliver 301000 (λ m, negb (bool_decide (str_field m "short_message" = "hello"))) d1
    = (Ok l2, d2) ∧ l2 ≡ₚ [sql_sms 0 "49" "" "hello"; sql_sms 0 "49" "000000000500000R" "later"].
Proof.
  destruct (sql_delivers_once 3600 (λ m, negb (bool_decide (str_field m "short_message" = "hello")))
    sql_two _ 3000 301000 sql_two_represents) as (l1 & d1 & l2 & d2 & E1 & H1 & E2 & H2).
  - split; lia.
  - split; lia.
  - exists l1, d1, l2, d2. split; [exact E1|]. split; [exact H1|]. split; [exact E2|].
    exact H2.
Defined.
