(* ===== verification/RabbitStorage.v ===== *)
(** * RabbitMQ message storage (src/message_storage.rs, [RabbitMqMessageStorage])

    Messages waiting for delivery in a queue of a broker, each in an envelope of JSON text.
    The broker and its client library are outside the sources: [AmqpBroker] is what the
    storage relies on. A delivery is held by the consumer until it is acknowledged, which
    drops it, or rejected with requeue, which puts it back. *)
From S2P Require Export QueueSpec MemoryStorage Server.

Class AmqpBroker (B : Type) := {
  (** [channel.basic_publish("", queue, .., payload, ..).await], and its confirmation. *)
  basic_publish : string → B → outcome string unit * B;
  confirm : B → outcome string unit * B;
  (** [consumer.next().await]: the tag and the data of a delivery. *)
  next : B → option (outcome string (N * string)) * B;
  basic_ack : N → B → outcome string unit * B;
  (** [basic_nack] with [requeue: true] *)
  basic_nack : N → B → outcome string unit * B;
  (** What is in the queue, and what the consumer holds. *)
  waiting : B → list string;
  held : B → gmap N string;
  open : B → Prop;
  publish_law : ∀ data b, open b → ∃ b' b'',
    basic_publish data b = (Ok tt, b') ∧ confirm b' = (Ok tt, b'') ∧ open b'' ∧
    waiting b'' ≡ₚ data :: waiting b ∧ held b'' = held b;
  next_law : ∀ b, open b → waiting b ≠ [] → ∃ tag data b',
    next b = (Some (Ok (tag, data)), b') ∧ open b' ∧ held b !! tag = None ∧
    waiting b ≡ₚ data :: waiting b' ∧ held b' = <[tag := data]> (held b);
  ack_law : ∀ tag data b, open b → held b !! tag = Some data → ∃ b',
    basic_ack tag b = (Ok tt, b') ∧ open b' ∧ waiting b' ≡ₚ waiting b ∧ held b' = delete tag (held b);
  nack_law : ∀ tag data b, open b → held b !! tag = Some data → ∃ b',
    basic_nack tag b = (Ok tt, b') ∧ open b' ∧ waiting b' ≡ₚ data :: waiting b ∧
    held b' = delete tag (held b);
}.

Module RabbitMqMessageStorage.

(** The two indexes are local; [queue_name] is part of the channel here. *)
Record t (B : Type) : Type := mk {
  channel : B;
  message_index : gmap string (list (string * N));
  user_index : gmap string (list string);
  default_validity_period : N;
}.
Arguments mk {B}. Arguments channel {B}. Arguments message_index {B}. Arguments user_index {B}.
Arguments default_validity_period {B}.

Section storage.
Context {B : Type} `{Br : AmqpBroker B, Txt : JsonText, Rfc : Rfc3339, Chr : Chrono}.

Abbreviation M := (StateM (t B)).

(** Connecting, creating the channel and declaring the durable queue is [connect]. *)
Definition new (connect : string → string → outcome string B) (url queue_name : string)
    (default_validity_period : N) : ioresult (t B) :=
  channel ← map_err (IoError Other) (connect url queue_name);
  Ok (mk channel ∅ ∅ default_validity_period).

Definition set_channel (b : B) (s : t B) : t B :=
  mk b (message_index s) (user_index s) (default_validity_period s).
Definition set_message_index (m : gmap string (list (string * N))) (s : t B) : t B :=
  mk (channel s) m (user_index s) (default_validity_period s).
Definition set_user_index (u : gmap string (list string)) (s : t B) : t B :=
  mk (channel s) (message_index s) u (default_validity_period s).

Definition on_channel (f : B → outcome string unit * B) : M unit := λ s,
  let '(r, b) := f (channel s) in (map_err (IoError Other) r, set_channel b s).

(** [let _ = channel.basic_..(..).await] *)
Definition settle (f : B → outcome string unit * B) : M unit :=
  attempt (on_channel f) ≫= λ _, mret tt.

(** [if let Some(ids) = uidx.get_mut(dest) { ids.retain(..); if ids.is_empty() { .. } }] *)
Definition forget_user (dest_address message_id : string) (s : t B) : t B :=
  match user_index s !! dest_address with
  | Some ids =>
      let ids := filter (λ id, id ≠ message_id) ids in
      set_user_index (if decide (ids = []) then delete dest_address (user_index s)
                      else <[dest_address := ids]> (user_index s)) s
  | None => s
  end.

(** *** Saving *)

Definition json_time (time : option Z) : Value :=
  match time with Some time => JString (to_rfc3339 time) | None => JNull end.

Definition make_envelope (message_id dest_address : string) (schedule validity : option Z)
    (message : Value) : Value :=
  JObject (jextend [("message_id", JString message_id); ("dest_address", JString dest_address);
                    ("schedule_delivery_time", json_time schedule);
                    ("validity_period", json_time validity); ("payload", message)] []).

(** [delivery_tag] is zero in the index. *)
Definition index_message (message_id dest_address : string) (s : t B) : t B :=
  set_user_index
    (<[dest_address := default [] (user_index s !! dest_address) ++ [message_id]]> (user_index s))
    (set_message_index
       (<[message_id := default [] (message_index s !! message_id) ++ [(dest_address, 0%N)]]>
          (message_index s)) s).

Definition save (now : Z) (message_id : string) (message : Value) : M unit := λ s,
  (let dest_address := str_field message "destination_addr" in
   if is_empty_str dest_address
   then fails (IoError InvalidInput "Missing destination_addr in the message")
   else
     schedule_delivery_time ← lift (ok_option (get_schedule_delivery_time now message));
     if match schedule_delivery_time with Some time => (time <? now)%Z | None => false end
     then fails (IoError InvalidInput "schedule_delivery_time is in the past")
     else
       validity_period ← lift (ok_option (get_validity_period now message (default_validity_period s)));
       match schedule_delivery_time, validity_period with
       | None, None =>
           fails (IoError InvalidInput "Message has neither schedule_delivery_time nor validity_period")
       | _, _ =>
           let envelope :=
             make_envelope message_id dest_address schedule_delivery_time validity_period message in
           on_channel (basic_publish (json_to_string envelope)) ≫= λ _,
           on_channel confirm ≫= λ _,
           modify (index_message message_id dest_address)
       end) s.

(** *** Delivery *)

(** [envelope.get(key).and_then(|v| v.as_str())], parsed. *)
Definition envelope_time (envelope : Value) (key : string) : option Z :=
  get_str envelope key ≫= parse_from_rfc3339.

(** "Clean up indexes" *)
Definition forget (envelope : Value) (s : t B) : t B :=
  match get_str envelope "message_id" with
  | Some msg_id =>
      let s := set_message_index (delete msg_id (message_index s)) s in
      match get_str envelope "dest_address" with
      | Some dest => forget_user dest msg_id s
      | None => s
      end
  | None => s
  end.

(** One delivery; the message handed to the handler, if any. *)
Definition on_delivery (now : Z) (handler : Value → bool) (delivery_tag : N) (data : string) :
    M (option Value) :=
  match json_from_str data with
  | inl _ => settle (basic_ack delivery_tag) ≫= λ _, mret None
  | inr envelope =>
      if match envelope_time envelope "schedule_delivery_time" with
         | Some sdt => (now <? sdt)%Z | None => false end
      then settle (basic_nack delivery_tag) ≫= λ _, mret None
      else if match envelope_time envelope "validity_period" with
              | Some vp => (vp <? now)%Z | None => false end
      then settle (basic_ack delivery_tag) ≫= λ _, modify (forget envelope) ≫= λ _, mret None
      else
        match get envelope "payload" with
        | None => settle (basic_ack delivery_tag) ≫= λ _, mret None
        | Some payload =>
            (if handler payload
             then settle (basic_ack delivery_tag) ≫= λ _, modify (forget envelope)
             else settle (basic_nack delivery_tag)) ≫= λ _, mret (Some payload)
        end
  end.

(** One turn of [while let Some(delivery_result) = consumer.next().await]; [None] is its end. *)
Definition consume (now : Z) (handler : Value → bool) : M (option (option Value)) := λ s,
  let '(r, b) := next (channel s) in
  let s := set_channel b s in
  match r with
  | None => (Ok None, s)
  | Some (Ok (delivery_tag, data)) => (Some <$> on_delivery now handler delivery_tag data) s
  | Some _ => (Ok (Some None), s)
  end.

(** *** Cancelling and replacing *)

Definition cancel_message (cancel_sm : Value) : M bool := λ s,
  let message_id := str_field cancel_sm "message_id" in
  if is_empty_str message_id
  then (io_err InvalidInput "Missing message_id in the cancel_sm command", s)
  else
    match message_index s !! message_id with
    | Some entries =>
        (Ok true,
         foldl (λ s '(dest_address, _), forget_user dest_address message_id s)
           (set_message_index (delete message_id (message_index s)) s) entries)
    | None => (Ok false, s)
    end.

(** The source only logs. *)
Definition replace_message (replace_sm_command : Value) : M bool := λ s,
  let message_id := str_field replace_sm_command "message_id" in
  if is_empty_str message_id
  then (io_err InvalidInput "Missing message_id in the replace_sm command", s)
  else (Ok (bool_decide (is_Some (message_index s !! message_id))), s).

End storage.

#[export] Instance storage {B} `{AmqpBroker B, JsonText, Rfc3339, Chrono} : MessageStorage (t B) := {
  st_save := save;
  st_cancel := cancel_message;
  st_replace _ := replace_message;
}.

End RabbitMqMessageStorage.
