(* ===== verification/RabbitProps.v ===== *)
(** * RabbitMQ message storage: properties

    The queue of the broker as a list of messages. A turn of the consumer takes one of them
    and drops it exactly when it has expired or the handler accepted it; cancelling and
    replacing do not touch the queue. *)
From S2P Require Export RabbitStorage.
Import RabbitMqMessageStorage.

Section props.
Context {B : Type} `{Br : AmqpBroker B, Txt : JsonText, Rfc : Rfc3339, Chr : Chrono}.

(** ** Envelopes *)

Definition envelope (e : entry) : Value :=
  make_envelope (message_id e) (str_field (message e) "destination_addr") (schedule e) (validity e)
    (message e).

(** The envelope can be written and read back. *)
Record enveloped (e : entry) : Prop := {
  env_plain : plain (pred json_depth) (message e) = true;
  env_id : str_valid (message_id e) = true;
  env_dest : str_valid (str_field (message e) "destination_addr") = true;
  env_schedule : ∀ t, schedule e = Some t → in_calendar t;
  env_validity : ∀ t, validity e = Some t → in_calendar t;
}.

Lemma json_time_plain d time : plain (S d) (json_time time) = true.
Proof. destruct time as [t|]; [apply rfc3339_valid|done]. Qed.

Lemma plain_object_nil d : plain (S d) (JObject []) = true.
Proof. done. Qed.

Lemma envelope_plain e : enveloped e → plain json_depth (envelope e) = true.
Proof.
  intros [Hm Hi Hd _ _]. unfold envelope, make_envelope. rewrite !jextend_cons. cbn [jextend fold_left].
  change json_depth with (S (S (pred (pred json_depth)))) in *. cbn [pred] in Hm.
  repeat (apply plain_insert; [reflexivity| |]); first [exact Hm|apply json_time_plain|apply plain_object_nil|idtac].
  - exact Hd.
  - exact Hi.
Qed.

Lemma envelope_reads e : enveloped e → json_from_str (json_to_string (envelope e)) = inr (envelope e).
Proof. intros He. by apply json_from_to_string, envelope_plain. Qed.

Lemma json_time_reads time :
  (∀ t, time = Some t → in_calendar t) → as_str (json_time time) ≫= parse_from_rfc3339 = time.
Proof. destruct time as [t|]; intros Ht; [|done]. cbn. by apply rfc3339_roundtrip, Ht. Qed.

Lemma envelope_schedule e : enveloped e → envelope_time (envelope e) "schedule_delivery_time" = schedule e.
Proof. intros [_ _ _ Hs _]. apply (json_time_reads (schedule e) Hs). Qed.

Lemma envelope_validity e : enveloped e → envelope_time (envelope e) "validity_period" = validity e.
Proof. intros [_ _ _ _ Hv]. apply (json_time_reads (validity e) Hv). Qed.

Lemma envelope_payload e : get (envelope e) "payload" = Some (message e).
Proof. reflexivity. Qed.

(** ** The queue *)

Definition stored (e : entry) : string := json_to_string (envelope e).

(** The queue of the broker holds [q], and the consumer nothing. *)
Record represents (s : t B) (q : list entry) : Prop := {
  rep_open : open (channel s);
  rep_held : held (channel s) = ∅;
  rep_waiting : waiting (channel s) ≡ₚ stored <$> q;
  rep_good : Forall enveloped q;
}.

Lemma represents_channel s s' q : channel s' = channel s → represents s q → represents s' q.
Proof. intros Hc [Ho Hh Hw Hg]. by split; rewrite ?Hc. Qed.

Lemma represents_perm s q q' : q ≡ₚ q' → represents s q → represents s q'.
Proof. intros Hq [Ho Hh Hw Hg]. split; [done..|by rewrite <-Hq|by rewrite <-Hq]. Qed.

Lemma channel_forget_user dest id (s : t B) : channel (forget_user dest id s) = channel s.
Proof. unfold forget_user. by destruct (user_index s !! dest). Qed.

Lemma channel_forget v (s : t B) : channel (forget v s) = channel s.
Proof.
  unfold forget. destruct (get_str v "message_id"); [|done].
  destruct (get_str v "dest_address"); [by rewrite channel_forget_user|done].
Qed.

Lemma channel_forget_users id (entries : list (string * N)) (s : t B) :
  channel (foldl (λ (s : t B) '(dest, _), forget_user dest id s) s entries) = channel s.
Proof.
  revert s. induction entries as [|[dest n] entries IH]; intros s; [done|]. cbn [foldl].
  by rewrite IH, channel_forget_user.
Qed.

(** *** The consumer holds one delivery *)

(** The consumer holds the delivery of [e], and [q] waits. *)
Record holds (s : t B) (tag : N) (e : entry) (q : list entry) : Prop := {
  hold_open : open (channel s);
  hold_held : held (channel s) = {[tag := stored e]};
  hold_waiting : waiting (channel s) ≡ₚ stored <$> q;
  hold_good : Forall enveloped (e :: q);
}.

Lemma settle_ack s tag e q :
  holds s tag e q → ∃ s', settle (basic_ack tag) s = (Ok tt, s') ∧ represents s' q.
Proof.
  intros [Ho Hh Hw Hg]. apply Forall_cons in Hg as [_ Hg].
  destruct (ack_law tag (stored e) (channel s) Ho) as (b & E & Ho' & Hw' & Hh').
  { by rewrite Hh, lookup_singleton_eq. }
  exists (set_channel b s). split; [unfold settle, attempt, on_channel, mbind, StateM_bind; by rewrite E|].
  split; cbn [channel set_channel]; [done|by rewrite Hh', Hh, delete_singleton_eq|by rewrite Hw'|done].
Qed.

Lemma settle_nack s tag e q :
  holds s tag e q → ∃ s', settle (basic_nack tag) s = (Ok tt, s') ∧ represents s' (e :: q).
Proof.
  intros [Ho Hh Hw Hg].
  destruct (nack_law tag (stored e) (channel s) Ho) as (b & E & Ho' & Hw' & Hh').
  { by rewrite Hh, lookup_singleton_eq. }
  exists (set_channel b s). split; [unfold settle, attempt, on_channel, mbind, StateM_bind; by rewrite E|].
  split; cbn [channel set_channel]; [done|by rewrite Hh', Hh, delete_singleton_eq| |done].
  rewrite Hw', Hw. by rewrite fmap_cons.
Qed.

Lemma next_holds s q :
  represents s q → q ≠ [] → ∃ tag e q' b,
    next (channel s) = (Some (Ok (tag, stored e)), b) ∧ q ≡ₚ e :: q' ∧ holds (set_channel b s) tag e q'.
Proof.
  intros [Ho Hh Hw Hg] Hq.
  destruct (next_law (channel s) Ho) as (tag & data & b & E & Ho' & Ht & Hw' & Hh').
  { intros Hnil. rewrite Hnil in Hw. apply Permutation_nil_l, (f_equal length) in Hw.
    rewrite length_fmap in Hw. by destruct q. }
  assert (Hin : data ∈ stored <$> q) by (rewrite <-Hw, Hw'; by apply elem_of_cons; left).
  apply list_elem_of_fmap in Hin as (e & -> & He).
  apply elem_of_Permutation in He as [q' Hq'].
  exists tag, e, q', b. split; [exact E|]. split; [done|]. split; cbn [channel set_channel].
  - done.
  - by rewrite Hh', Hh, insert_empty.
  - rewrite Hw', Hq', fmap_cons in Hw. by apply Permutation_cons_inv in Hw.
  - by rewrite <-Hq'.
Qed.

(** *** A turn *)

(** The message handed over for [e], and whether the queue still has [e] afterwards. *)
Definition handed (now : Z) (e : entry) : option Value :=
  if due now e && negb (expired now e) then Some (message e) else None.
Definition kept (now : Z) (handler : Value → bool) (e : entry) : bool :=
  negb (due now e) || (negb (expired now e) && negb (handler (message e))).

Lemma not_due now e :
  (match schedule e with Some sdt => (now <? sdt)%Z | None => false end) = negb (due now e).
Proof. unfold due. destruct (schedule e) as [t|]; [|done]. by rewrite Z.ltb_antisym. Qed.

Lemma on_delivery_spec now handler s tag e q :
  holds s tag e q → ∃ s',
    on_delivery now handler tag (stored e) s = (Ok (handed now e), s') ∧
    represents s' (if kept now handler e then e :: q else q).
Proof.
  intros Hh. pose proof (hold_good _ _ _ _ Hh) as [He _]%Forall_cons.
  destruct (settle_ack _ _ _ _ Hh) as (sa & Ea & Ha).
  destruct (settle_nack _ _ _ _ Hh) as (sn & En & Hn).
  unfold on_delivery, stored. rewrite envelope_reads, envelope_schedule, not_due by done.
  rewrite envelope_validity, envelope_payload by done. fold (expired now e). unfold handed, kept.
  unfold mbind, StateM_bind, mret, StateM_ret, modify.
  destruct (due now e); cbn [negb andb orb].
  2: { rewrite En. by exists sn. }
  destruct (expired now e); cbn [negb andb orb].
  { rewrite Ea. eexists. split; [done|]. by eapply represents_channel; [apply channel_forget|]. }
  destruct (handler (message e)); cbn [negb].
  - rewrite Ea. eexists. split; [done|]. by eapply represents_channel; [apply channel_forget|].
  - rewrite En. by exists sn.
Qed.

(** C15: the consumer loses no message. A turn takes some message of the queue; it is handed to
    the handler when it is due and has not expired, and it leaves the queue exactly when it
    has expired or the handler accepted it: a message that is not due yet, or was refused,
    is in the queue again. *)
Theorem rabbit_turn now handler s q :
  represents s q → q ≠ [] → ∃ e q' s',
    q ≡ₚ e :: q' ∧ consume now handler s = (Ok (Some (handed now e)), s') ∧
    represents s' (if kept now handler e then e :: q' else q').
Proof.
  intros Hs Hq. destruct (next_holds s q Hs Hq) as (tag & e & q' & b & E & Hperm & Hh).
  destruct (on_delivery_spec now handler _ tag e q' Hh) as (s' & E' & Hs').
  exists e, q', s'. split; [done|]. split; [|done].
  unfold consume. rewrite E. unfold fmap, StateM_fmap, mbind, StateM_bind. by rewrite E'.
Qed.

(** ** Saving, cancelling, replacing *)

(** What can be saved: its text can be written, its times compared. *)
Record savable (dflt : N) (now : Z) (id : string) (m : Value) : Prop := {
  sv_id : str_valid id = true;
  sv_plain : plain (pred json_depth) m = true;
  sv_dest : str_valid (str_field m "destination_addr") = true;
  sv_schedule : ∀ t, get_schedule_delivery_time now m = Ok t → in_calendar t;
  sv_validity : ∀ t, get_validity_period now m dflt = Ok t → in_calendar t;
}.

Lemma publish_spec s q e :
  represents s q → enveloped e → ∃ s' s'',
    on_channel (basic_publish (stored e)) s = (Ok tt, s') ∧ on_channel confirm s' = (Ok tt, s'') ∧
    represents s'' (q ++ [e]).
Proof.
  intros [Ho Hh Hw Hg] He.
  destruct (publish_law (stored e) (channel s) Ho) as (b & b' & E & E' & Ho' & Hw' & Hh').
  exists (set_channel b s), (set_channel b' (set_channel b s)). split_and!.
  - unfold on_channel. by rewrite E.
  - unfold on_channel. cbn [channel set_channel]. by rewrite E'.
  - split; cbn [channel set_channel]; [done|by rewrite Hh'| |].
    + rewrite Hw', Hw, fmap_app. cbn [fmap list_fmap]. apply Permutation_cons_append.
    + apply Forall_app. split; [done|]. by constructor.
Qed.

(** A message is appended to the queue or refused, and then nothing has changed. *)
Lemma rabbit_save_spec now id m s q :
  represents s q → savable (default_validity_period s) now id m →
  (∃ s' sched valid, save now id m s = (Ok tt, s') ∧
     ok_option (F := io_error) (get_schedule_delivery_time now m) = Ok sched ∧
     ok_option (F := io_error) (get_validity_period now m (default_validity_period s)) = Ok valid ∧
     represents s' (q ++ [mkEntry id m sched valid])) ∨
  (∃ r, save now id m s = (r, s) ∧ r ≠ Ok tt).
Proof.
  intros Hs [Hi Hp Hd Hsc Hva]. unfold save. cbv zeta.
  destruct (is_empty_str _); [right; by eexists|].
  destruct (ok_option (get_schedule_delivery_time now m)) as [sched|e|] eqn:Es; [|right; by eexists..].
  unfold mbind, StateM_bind. cbn [lift].
  destruct (match sched with Some time => (time <? now)%Z | None => false end); [right; by eexists|].
  destruct (ok_option (get_validity_period now m _)) as [valid|e|] eqn:Ev; [|right; by eexists..].
  assert (He : enveloped (mkEntry id m sched valid)).
  { split; [done..| |]; cbn [schedule validity]; intros t ->;
      [apply Hsc|apply Hva]; by eapply ok_option_some. }
  destruct (publish_spec s q _ Hs He) as (s1 & s2 & E1 & E2 & Hs2).
  unfold stored, envelope in E1. cbn [message_id message schedule validity] in E1.
  destruct sched, valid; [left..|right; by eexists];
    rewrite E1, E2; eexists _, _, _; (split; [reflexivity|]);
    (split; [first [exact Es|reflexivity]|]); (split; [first [exact Ev|reflexivity]|]);
    by eapply represents_channel; [|exact Hs2].
Qed.

Lemma cancel_channel c (s : t B) : channel (cancel_message c s).2 = channel s.
Proof.
  unfold cancel_message. destruct (is_empty_str _); [done|].
  destruct (message_index s !! _); [|done]. cbn [snd]. by rewrite channel_forget_users.
Qed.

(** Cancelling and replacing have no effect on what is delivered. For a message this
    process has saved, cancel_sm and replace_sm answer that they succeeded, and the queue of
    the broker still holds every message as it was. *)
Theorem rabbit_cancel_ignored c s q :
  represents s q → is_Some (message_index s !! str_field c "message_id") →
  str_field c "message_id" ≠ "" →
  (cancel_message c s).1 = Ok true ∧ represents (cancel_message c s).2 q ∧
  replace_message c s = (Ok true, s).
Proof.
  intros Hs [l Hl] Hne. split; [|split].
  - unfold cancel_message. unfold is_empty_str. rewrite bool_decide_false by done. by rewrite Hl.
  - eapply represents_channel; [apply cancel_channel|done].
  - unfold replace_message, is_empty_str. rewrite bool_decide_false by done. by rewrite Hl.
Qed.

End props.
