(* ===== verification/RabbitWitnesses.v ===== *)
(** * A broker, and runs of the RabbitMQ storage on it

    A queue in memory that meets the laws of [AmqpBroker], and the theorems of RabbitProps.v
    at concrete messages. *)
From S2P Require Import Witnesses SqlInstance RabbitProps.
Import RabbitMqMessageStorage.

(** The oldest message is delivered first; tags count up. *)
Record memory_broker : Type := mkBroker {
  br_queue : list string;
  br_held : gmap N string;
  br_tag : N;
}.

Definition br_publish (data : string) (b : memory_broker) : outcome string unit * memory_broker :=
  (Ok tt, mkBroker (br_queue b ++ [data]) (br_held b) (br_tag b)).

Definition br_next (b : memory_broker) : option (outcome string (N * string)) * memory_broker :=
  match br_queue b with
  | [] => (None, b)
  | data :: queue =>
      (Some (Ok (br_tag b, data)), mkBroker queue (<[br_tag b := data]> (br_held b)) (br_tag b + 1))
  end.

Definition br_settle (requeue : bool) (tag : N) (b : memory_broker) : outcome string unit * memory_broker :=
  match br_held b !! tag with
  | Some data =>
      (Ok tt, mkBroker (if requeue then br_queue b ++ [data] else br_queue b) (delete tag (br_held b)) (br_tag b))
  | None => (Err "unknown delivery tag", b)
  end.

Definition br_open (b : memory_broker) : Prop := ∀ tag, is_Some (br_held b !! tag) → (tag < br_tag b)%N.

#[export, refine] Instance memory_amqp : AmqpBroker memory_broker := {
  basic_publish := br_publish;
  confirm b := (Ok tt, b);
  next := br_next;
  basic_ack := br_settle false;
  basic_nack := br_settle true;
  waiting := br_queue;
  held := br_held;
  open := br_open;
}.
Proof.
  - intros data b Ho. eexists _, _. split; [reflexivity|]. split; [reflexivity|]. split; [exact Ho|].
    split; [|done]. symmetry. apply Permutation_cons_append.
  - intros b Ho Hb. unfold br_next. destruct (br_queue b) as [|data queue] eqn:E; [done|].
    eexists _, _, _. split; [reflexivity|]. cbn [br_queue br_held]. split; [|split; [|done] ].
    + intros tag. cbn [br_held br_tag]. destruct (decide (tag = br_tag b)) as [->|Hne]; [lia|].
      rewrite lookup_insert_ne by done. intros Ht. apply Ho in Ht. lia.
    + apply eq_None_not_Some. intros Ht. apply Ho in Ht. lia.
  - intros tag data b Ho Ht. unfold br_settle. rewrite Ht. eexists. split; [reflexivity|].
    split; [|done]. intros tag' [x Hx]. cbn [br_held br_tag] in *. apply lookup_delete_Some in Hx as [_ Hx]. apply Ho. by exists x.
  - intros tag data b Ho Ht. unfold br_settle. rewrite Ht. eexists. split; [reflexivity|].
    split; [|split; [|done] ].
    + intros tag' [x Hx]. cbn [br_held br_tag] in *. apply lookup_delete_Some in Hx as [_ Hx]. apply Ho. by exists x.
    + symmetry. apply Permutation_cons_append.
Defined.

Definition rabbit_empty : t memory_broker := mk (mkBroker [] ∅ 0) ∅ ∅ 3600.

Definition rabbit_sms (sched text : string) : Value :=
  JObject [("destination_addr", JString "49"); ("schedule_delivery_time", JString sched);
           ("short_message", JString text)].

(** "m1" for now, "m2" for five minutes later. *)
Definition rabbit_two : t memory_broker :=
  (save 1000 "m2" (rabbit_sms "000000000500000R" "later")
     (save 1000 "m1" (rabbit_sms "" "hello") rabbit_empty).2).2.

Definition rabbit_queue : list entry :=
  [mkEntry "m1" (rabbit_sms "" "hello") None (Some 3601000%Z);
   mkEntry "m2" (rabbit_sms "000000000500000R" "later") (Some 301000%Z) (Some 3901000%Z)].

Lemma rabbit_two_represents : represents rabbit_two rabbit_queue.
Proof.
  split.
  - intros tag. vm_compute. by intros [? ?].
  - vm_compute. reflexivity.
  - replace (waiting (channel rabbit_two)) with (stored <$> rabbit_queue); [done|]. vm_compute. reflexivity.
  - repeat (apply Forall_cons; split); try apply Forall_nil_2.
    all: split; [vm_compute; reflexivity..| |]; intros t [= <-]; split; lia.
Qed.

Lemma rabbit_turn_witness : ∃ e q' s',
  rabbit_queue ≡ₚ e :: q' ∧ consume 3000 (λ _, true) rabbit_two = (Ok (Some (handed 3000 e)), s') ∧
  represents s' (if kept 3000 (λ _, true) e then e :: q' else q').
Proof. apply (rabbit_turn 3000 (λ _, true) rabbit_two rabbit_queue rabbit_two_represents). discriminate. Defined.

Definition rabbit_cancel : Value := JObject [("message_id", JString "m1")].

Lemma rabbit_cancel_ignored_witness :
  (cancel_message rabbit_cancel rabbit_two).1 = Ok true ∧
  represents (cancel_message rabbit_cancel rabbit_two).2 rabbit_queue ∧
  replace_message rabbit_cancel rabbit_two = (Ok true, rabbit_two).
Proof.
  apply (rabbit_cancel_ignored rabbit_cancel rabbit_two rabbit_queue rabbit_two_represents).
  - vm_compute. by eexists.
  - discriminate.
Defined.
