(* ===== verification/Redis.v ===== *)
(** * The Redis server behind the redis crate

    The Redis storage keeps hashes, sets and sorted sets under keys. The server and its
    client library are outside the sources: [RedisServer] is what the storage relies on.
    [keyspace] is the documented state of a server, and the laws say what each command the
    storage uses answers and changes while the connection lasts. Scores are milliseconds,
    which a double holds exactly. *)
From S2P Require Export QueueSpec.

Inductive redis_value : Type :=
| RInt (n : Z)
| RHash (h : gmap string string)
| RSet (s : gset string)
| RZset (z : gmap string Z).

Abbreviation keyspace := (gmap string redis_value).

(** *** The value of a key, of one type; a missing key is an empty value *)

Definition int_at (ks : keyspace) (key : string) : option Z :=
  match ks !! key with None => Some 0%Z | Some (RInt n) => Some n | _ => None end.
Definition hash_at (ks : keyspace) (key : string) : option (gmap string string) :=
  match ks !! key with None => Some ∅ | Some (RHash h) => Some h | _ => None end.
Definition set_at (ks : keyspace) (key : string) : option (gset string) :=
  match ks !! key with None => Some ∅ | Some (RSet s) => Some s | _ => None end.
Definition zset_at (ks : keyspace) (key : string) : option (gmap string Z) :=
  match ks !! key with None => Some ∅ | Some (RZset z) => Some z | _ => None end.

(** Empty values are not stored. *)
Definition put_set (key : string) (s : gset string) (ks : keyspace) : keyspace :=
  if decide (s = ∅) then delete key ks else <[key := RSet s]> ks.
Definition put_zset (key : string) (z : gmap string Z) (ks : keyspace) : keyspace :=
  if decide (z = ∅) then delete key ks else <[key := RZset z]> ks.

(** *** Updates, as they go into a pipeline *)

Inductive update : Type :=
| Del (key : string)
| SAdd (key member : string)
| SRem (key member : string)
| ZAdd (key member : string) (score : Z)
| ZRem (key member : string).

(** [None] is the error of a key that holds another type. *)
Definition apply_update (u : update) (ks : keyspace) : option keyspace :=
  match u with
  | Del key => Some (delete key ks)
  | SAdd key member => s ← set_at ks key; Some (put_set key ({[member]} ∪ s) ks)
  | SRem key member => s ← set_at ks key; Some (put_set key (s ∖ {[member]}) ks)
  | ZAdd key member score => z ← zset_at ks key; Some (put_zset key (<[member := score]> z) ks)
  | ZRem key member => z ← zset_at ks key; Some (put_zset key (delete member z) ks)
  end.

Fixpoint apply_updates (us : list update) (ks : keyspace) : option keyspace :=
  match us with
  | [] => Some ks
  | u :: us' => apply_update u ks ≫= apply_updates us'
  end.

(** The members with a score up to [max], by score. *)
Definition up_to (max : Z) (z : gmap string Z) (members : list string) : Prop :=
  members ≡ₚ (map_to_list (filter (λ p, (p.2 ≤ max)%Z) z)).*1.

Class RedisServer (K : Type) := {
  keys : K → keyspace;
  reachable : K → Prop;
  (** [client.get_multiplexed_async_connection()] *)
  get_connection : K → outcome string unit * K;
  (** [redis::cmd("PING")] *)
  ping : K → outcome string unit * K;
  (** [HMGET key fields..], into a tuple or a [Vec] of strings: nil is not a string. *)
  hmget : string → list string → K → outcome string (list string) * K;
  (** [HSET key field value ..] *)
  hset : string → list (string * string) → K → outcome string unit * K;
  incr : string → K → outcome string Z * K;
  smembers : string → K → outcome string (list string) * K;
  scard : string → K → outcome string Z * K;
  (** [ZRANGEBYSCORE key -inf max] *)
  zrangebyscore : string → Z → K → outcome string (list string) * K;
  (** A pipeline, or a single update. *)
  pipe : list update → K → outcome string unit * K;
  get_connection_law : ∀ k, reachable k → ∃ k',
    get_connection k = (Ok tt, k') ∧ reachable k' ∧ keys k' = keys k;
  hmget_law : ∀ key fields k h, reachable k → hash_at (keys k) key = Some h → ∃ r k',
    hmget key fields k = (r, k') ∧ reachable k' ∧ keys k' = keys k ∧
    match mapM (h !!.) fields with Some values => r = Ok values | None => ∃ e, r = Err e end;
  hset_law : ∀ key values k h, reachable k → hash_at (keys k) key = Some h → values ≠ [] → ∃ k',
    hset key values k = (Ok tt, k') ∧ reachable k' ∧
    keys k' = <[key := RHash (foldl (λ h p, <[p.1 := p.2]> h) h values)]> (keys k);
  incr_law : ∀ key k n, reachable k → int_at (keys k) key = Some n → (n + 1 < 2 ^ 63)%Z → ∃ k',
    incr key k = (Ok (n + 1)%Z, k') ∧ reachable k' ∧ keys k' = <[key := RInt (n + 1)]> (keys k);
  smembers_law : ∀ key k s, reachable k → set_at (keys k) key = Some s → ∃ members k',
    smembers key k = (Ok members, k') ∧ reachable k' ∧ keys k' = keys k ∧ members ≡ₚ elements s;
  scard_law : ∀ key k s, reachable k → set_at (keys k) key = Some s → ∃ k',
    scard key k = (Ok (Z.of_nat (size s)), k') ∧ reachable k' ∧ keys k' = keys k;
  zrangebyscore_law : ∀ key max k z, reachable k → zset_at (keys k) key = Some z → ∃ members k',
    zrangebyscore key max k = (Ok members, k') ∧ reachable k' ∧ keys k' = keys k ∧ up_to max z members;
  pipe_law : ∀ us k ks, reachable k → apply_updates us (keys k) = Some ks → ∃ k',
    pipe us k = (Ok tt, k') ∧ reachable k' ∧ keys k' = ks;
}.
