(* ===== verification/RedisStorage.v ===== *)
(** * Redis message storage (src/message_storage.rs, [RedisMessageStorage])

    Messages waiting for delivery as hashes, with the ids of the entries of a message in a
    set and two sorted sets for the times. *)
From S2P Require Export Redis MemoryStorage Server.

(** [i64::to_string] *)
Definition format_i64 (z : Z) : string :=
  if (z <? 0)%Z then "-" +:+ format_dec (Z.to_N (- z)) else format_dec (Z.to_N z).

Module RedisMessageStorage.

Record t (K : Type) : Type := mk {
  client : K;
  prefix : string;
  default_validity_period : N;
}.
Arguments mk {K}. Arguments client {K}. Arguments prefix {K}. Arguments default_validity_period {K}.

Section storage.
Context {K : Type} `{Red : RedisServer K, Txt : JsonText, Rfc : Rfc3339, Chr : Chrono}.

Abbreviation M := (StateM (t K)).

(** [redis::Client::open] is [open_client]. *)
Definition new (open_client : string → outcome string K) (url : string) (key_prefix : option string)
    (default_validity_period : N) : ioresult (t K) :=
  client ← map_err (IoError Other) (open_client url);
  let '(r, client) := get_connection client in
  map_err (IoError Other) r ≫= λ _,
  let '(r, client) := ping client in
  map_err (IoError Other) r ≫= λ _,
  Ok (mk client (default "mq" key_prefix) default_validity_period).

Definition entry_key (s : t K) (entry_id : string) : string := prefix s +:+ ":entry:" +:+ entry_id.
Definition msgid_key (s : t K) (message_id : string) : string := prefix s +:+ ":msgid:" +:+ message_id.
Definition user_key (s : t K) (dest_address : string) : string := prefix s +:+ ":user:" +:+ dest_address.
Definition counter_key (s : t K) : string := prefix s +:+ ":counter".
Definition schedule_key (s : t K) : string := prefix s +:+ ":schedule".
Definition expiry_key (s : t K) : string := prefix s +:+ ":expiry".

(** A command on the connection; its key depends on the prefix. *)
Definition on_client {A} (f : t K → K → outcome string A * K) : M A := λ s,
  let '(r, k) := f s (client s) in
  (map_err (IoError Other) r, mk k (prefix s) (default_validity_period s)).

Definition get_conn : M unit := on_client (λ _, get_connection).

(** [let _: RedisResult<()> = ..]: a failed update is ignored. *)
Definition run_pipe (us : t K → list update) : M unit :=
  attempt (on_client (λ s, pipe (us s))) ≫= λ _, mret tt.

(** "Check if this message_id has no more entries; if so, remove from user set" *)
Definition forget_message_id (dest_address message_id : string) : M unit :=
  remaining ← attempt (on_client (λ s, scard (msgid_key s message_id)));
  if (match remaining with Ok n => n | _ => 0%Z end =? 0)%Z
  then run_pipe (λ s, [Del (msgid_key s message_id); SRem (user_key s dest_address) message_id])
  else mret tt.

Definition delete_entry (entry_id : string) : M bool :=
  c ← attempt get_conn;
  if negb (is_ok c) then mret false
  else
    result ← attempt (on_client (λ s, hmget (entry_key s entry_id)
      ["dest_address"; "message_id"; "schedule_delivery_time"; "validity_period"]));
    match result with
    | Ok [dest_address; message_id; _; _] =>
        run_pipe (λ s, [Del (entry_key s entry_id); SRem (msgid_key s message_id) entry_id;
                        ZRem (schedule_key s) entry_id; ZRem (expiry_key s) entry_id]) ≫= λ _,
        forget_message_id dest_address message_id ≫= λ _,
        mret true
    | _ => mret false
    end.

(** *** Delivery *)

(** A message that has expired or cannot be read is deleted and left out. *)
Definition read_entry (now : Z) (entry_id : string) : M (option (string * Value)) :=
  result ← attempt (on_client (λ s, hmget (entry_key s entry_id) ["message"; "validity_period"]));
  match result with
  | Ok [message_json; validity_period_str] =>
      if negb (is_empty_str validity_period_str)
         && match parse_from_rfc3339 validity_period_str with
            | Some vp => (vp <? now)%Z | None => false end
      then delete_entry entry_id ≫= λ _, mret None
      else
        match json_from_str message_json with
        | inr msg => mret (Some (entry_id, msg))
        | inl _ => delete_entry entry_id ≫= λ _, mret None
        end
  | _ => mret None
  end.

Fixpoint read_entries (now : Z) (entry_ids : list string) : M (list (string * Value)) :=
  match entry_ids with
  | [] => mret []
  | entry_id :: rest =>
      r ← read_entry now entry_id;
      messages ← read_entries now rest;
      mret (match r with Some p => p :: messages | None => messages end)
  end.

Definition get_delivery_messages (now : Z) : M (list (string * Value)) :=
  get_conn ≫= λ _,
  entry_ids ← on_client (λ s, zrangebyscore (schedule_key s) now);
  read_entries now entry_ids.

Definition delete_entries (entry_ids : list string) : M unit :=
  foldr (λ entry_id k, delete_entry entry_id ≫= λ _, k) (mret tt) entry_ids.

Definition clean_expired_messages (now : Z) : M unit :=
  get_conn ≫= λ _,
  expired_ids ← on_client (λ s, zrangebyscore (expiry_key s) now);
  delete_entries expired_ids.

(** An entry is deleted when the handler accepted its message. The messages handed over are
    the result. *)
Fixpoint deliver_loop (handler : Value → bool) (values : list (string * Value)) : M (list Value) :=
  match values with
  | [] => mret []
  | (entry_id, message) :: rest =>
      (if handler message then delete_entry entry_id ≫= λ _, mret tt else mret tt) ≫= λ _,
      handed ← deliver_loop handler rest; mret (message :: handed)
  end.

(** The two branches of the [select!]. *)
Definition tick_clean (now : Z) : M unit :=
  attempt (clean_expired_messages now) ≫= λ _, mret tt.

Definition tick_deliver (now : Z) (handler : Value → bool) : M (list Value) :=
  values ← attempt (get_delivery_messages now);
  match values with
  | Ok values => deliver_loop handler values
  | _ => mret []
  end.

(** *** Saving *)

Definition time_text (time : option Z) : string :=
  match time with Some time => to_rfc3339 time | None => "" end.

(** Milliseconds, or zero when there is no delivery time. *)
Definition schedule_score (schedule : option Z) : Z := default 0%Z schedule.

Definition store_entry (dest_address message_id : string) (message : Value) (schedule validity : option Z) :
    M unit :=
  get_conn ≫= λ _,
  entry_id ← on_client (λ s, incr (counter_key s));
  let entry_id_str := format_i64 entry_id in
  on_client (λ s, hset (entry_key s entry_id_str)
    [("dest_address", dest_address); ("message_id", message_id); ("message", json_to_string message);
     ("schedule_delivery_time", time_text schedule); ("validity_period", time_text validity)]) ≫= λ _,
  run_pipe (λ s, [SAdd (msgid_key s message_id) entry_id_str; SAdd (user_key s dest_address) message_id]) ≫= λ _,
  run_pipe (λ s, [ZAdd (schedule_key s) entry_id_str (schedule_score schedule)]) ≫= λ _,
  match validity with
  | Some vp => run_pipe (λ s, [ZAdd (expiry_key s) entry_id_str vp])
  | None => mret tt
  end.

Definition save (now : Z) (message_id : string) (message : Value) : M unit := λ s,
  (let dest_address := str_field message "destination_addr" in
   if is_empty_str dest_address
   then fails (IoError InvalidInput "Missing destination_addr in the message")
   else
     schedule_delivery_time ← lift (ok_option (get_schedule_delivery_time now message));
     if match schedule_delivery_time with Some time => (time <? now)%Z | None => false end
     then fails (IoError InvalidInput "schedule_delivery_time is in the past")
     else
       validity_period ← lift (ok_option (get_validity_period now message (default_validity_period s)));
       match schedule_delivery_time, validity_period with
       | None, None =>
           fails (IoError InvalidInput "Message has neither schedule_delivery_time nor validity_period")
       | _, _ => store_entry dest_address message_id message schedule_delivery_time validity_period
       end) s.

(** *** Cancelling and replacing *)

Fixpoint cancel_entries (entry_ids : list string) : M bool :=
  match entry_ids with
  | [] => mret false
  | entry_id :: rest =>
      deleted ← delete_entry entry_id; deleted_any ← cancel_entries rest; mret (deleted || deleted_any)
  end.

Definition cancel_message (cancel_sm : Value) : M bool :=
  let message_id := str_field cancel_sm "message_id" in
  if is_empty_str message_id
  then fails (IoError InvalidInput "Missing message_id in the cancel_sm command")
  else
    get_conn ≫= λ _,
    entry_ids ← on_client (λ s, smembers (msgid_key s message_id));
    cancel_entries entry_ids.

(** [if let Some(v) = command.get(key) { existing_message[target] = v.clone() }] *)
Definition copy_field (command : Value) (key : string) (message : Value) : ioresult Value :=
  match get command key with
  | Some v => index_set message key v
  | None => Ok message
  end.

(** The new message of an entry; the source computes it and drops it. *)
Definition replaced_message (command existing_message : Value) : ioresult Value :=
  m ← (match get command "short_message" with
       | Some short_message => index_set existing_message "short_message" short_message
       | None =>
           match get command "message_payload" with
           | Some message_payload => index_set existing_message "short_message" message_payload
           | None => Ok existing_message
           end
       end);
  m ← copy_field command "schedule_delivery_time" m;
  m ← copy_field command "validity_period" m;
  copy_field command "registered_delivery" m.

Fixpoint replace_entries (command : Value) (entry_ids : list string) : M unit :=
  match entry_ids with
  | [] => mret tt
  | entry_id :: rest =>
      result ← attempt (on_client (λ s, hmget (entry_key s entry_id) ["message"]));
      (match result with
       | Ok [message_json] =>
           match json_from_str message_json with
           | inr existing_message => lift (replaced_message command existing_message) ≫= λ _, mret tt
           | inl _ => mret tt
           end
       | _ => mret tt
       end) ≫= λ _, replace_entries command rest
  end.

(** [replaced_any] is never set. *)
Definition replace_message (replace_sm_command : Value) : M bool :=
  let message_id := str_field replace_sm_command "message_id" in
  if is_empty_str message_id
  then fails (IoError InvalidInput "Missing message_id in the replace_sm command")
  else
    get_conn ≫= λ _,
    entry_ids ← on_client (λ s, smembers (msgid_key s message_id));
    replace_entries replace_sm_command entry_ids ≫= λ _, mret false.

End storage.

#[export] Instance storage {K} `{RedisServer K, JsonText, Rfc3339, Chrono} : MessageStorage (t K) := {
  st_save := save;
  st_cancel := cancel_message;
  st_replace _ := replace_message;
}.

End RedisMessageStorage.
