(* ===== verification/RedisProps.v ===== *)
(** * The Redis storage as a queue of messages

    The keys of the storage against a map from entry ids to messages, and each operation of
    the storage against the operation it means on the map. *)
From S2P Require Export RedisStorage.
Import RedisMessageStorage.

(** ** Numbers as texts *)

Lemma format_dec_inj n m : format_dec n = format_dec m → n = m.
Proof.
  intros E. apply (f_equal as_bytes) in E. unfold format_dec in E. rewrite !as_of_bytes in E.
  pose proof (parse_fmt_radix 10 (N.max n m + 1) false n ltac:(lia) ltac:(lia)) as Hn.
  pose proof (parse_fmt_radix 10 (N.max n m + 1) false m ltac:(lia) ltac:(lia)) as Hm.
  rewrite E in Hn. congruence.
Qed.

Lemma format_i64_inj x y : (0 ≤ x)%Z → (0 ≤ y)%Z → format_i64 x = format_i64 y → x = y.
Proof.
  intros Hx Hy. unfold format_i64. destruct (Z.ltb_spec x 0), (Z.ltb_spec y 0); try lia.
  intros E%format_dec_inj. lia.
Qed.

(** ** Keys *)

Section keys.
Context {K : Type} `{Red : RedisServer K, Txt : JsonText, Rfc : Rfc3339, Chr : Chrono}.

Lemma entry_key_inj (s : t K) x y : entry_key s x = entry_key s y → x = y.
Proof. unfold entry_key. intros E%(inj _). by apply (inj _) in E. Qed.

Lemma msgid_key_inj (s : t K) x y : msgid_key s x = msgid_key s y → x = y.
Proof. unfold msgid_key. intros E%(inj _). by apply (inj _) in E. Qed.

Lemma user_key_inj (s : t K) x y : user_key s x = user_key s y → x = y.
Proof. unfold user_key. intros E%(inj _). by apply (inj _) in E. Qed.

Lemma family_ne (p a b : string) : a ≠ b → p +:+ a ≠ p +:+ b.
Proof. intros Hne E%(inj _). done. Qed.

End keys.

(** Keys of different families, or of one family with different ids, are different. *)
Ltac key_ne :=
  first
    [ apply family_ne; discriminate
    | let E := fresh in intros E;
      first [apply entry_key_inj in E | apply msgid_key_inj in E | apply user_key_inj in E]; congruence ].

(** ** What updates leave *)

Lemma put_set_ne key s ks key' : key ≠ key' → put_set key s ks !! key' = ks !! key'.
Proof. intros. unfold put_set. case_decide; [by rewrite lookup_delete_ne|by rewrite lookup_insert_ne]. Qed.
Lemma put_zset_ne key z ks key' : key ≠ key' → put_zset key z ks !! key' = ks !! key'.
Proof. intros. unfold put_zset. case_decide; [by rewrite lookup_delete_ne|by rewrite lookup_insert_ne]. Qed.
Lemma set_at_put key s ks : set_at (put_set key s ks) key = Some s.
Proof.
  unfold set_at, put_set. case_decide; [by subst; rewrite lookup_delete_eq|by rewrite lookup_insert_eq].
Qed.
Lemma zset_at_put key z ks : zset_at (put_zset key z ks) key = Some z.
Proof.
  unfold zset_at, put_zset. case_decide; [by subst; rewrite lookup_delete_eq|by rewrite lookup_insert_eq].
Qed.

(** The types of a key depend on its value only. *)
Lemma views_same (ks ks' : keyspace) key :
  ks !! key = ks' !! key →
  int_at ks key = int_at ks' key ∧ hash_at ks key = hash_at ks' key ∧
  set_at ks key = set_at ks' key ∧ zset_at ks key = zset_at ks' key.
Proof. unfold int_at, hash_at, set_at, zset_at. by intros ->. Qed.

(** ** What the keys stand for *)

Section layout.
Context {K : Type} `{Red : RedisServer K, Txt : JsonText, Rfc : Rfc3339, Chr : Chrono}.

(** The hash of an entry. *)
Definition hash_of (h : gmap string string) (e : entry) : Prop :=
  h !! "dest_address" = Some (str_field (message e) "destination_addr") ∧
  h !! "message_id" = Some (message_id e) ∧
  h !! "message" = Some (json_to_string (message e)) ∧
  h !! "schedule_delivery_time" = Some (time_text (schedule e)) ∧
  h !! "validity_period" = Some (time_text (validity e)).

(** The keys stand for the entries [q], whose ids are at most [n]. *)
Record layout (s : t K) (ks : keyspace) (n : Z) (q : gmap Z entry) : Prop := {
  ly_counter : int_at ks (counter_key s) = Some n;
  ly_range : (0 ≤ n)%Z;
  ly_ids : ∀ id, is_Some (q !! id) → (0 < id ≤ n)%Z;
  ly_good : ∀ id e, q !! id = Some e → good e;
  ly_hashes : ∀ text, is_Some (hash_at ks (entry_key s text));
  ly_entry : ∀ id e, q !! id = Some e → ∃ h,
    hash_at ks (entry_key s (format_i64 id)) = Some h ∧ hash_of h e;
  ly_msgid : ∀ mid, ∃ ids, set_at ks (msgid_key s mid) = Some ids ∧
    ∀ text, text ∈ ids ↔ ∃ id e, text = format_i64 id ∧ q !! id = Some e ∧ message_id e = mid;
  ly_user : ∀ a, is_Some (set_at ks (user_key s a));
  ly_schedule : ∃ z, zset_at ks (schedule_key s) = Some z ∧
    ∀ text t, z !! text = Some t ↔ ∃ id e, text = format_i64 id ∧ q !! id = Some e ∧ schedule_score (schedule e) = t;
  ly_expiry : ∃ z, zset_at ks (expiry_key s) = Some z ∧
    ∀ text t, z !! text = Some t ↔ ∃ id e, text = format_i64 id ∧ q !! id = Some e ∧ validity e = Some t;
}.

(** The storage with the configuration of [s0]. *)
Record standing (s0 : t K) (s : t K) (n : Z) (q : gmap Z entry) : Prop := {
  st_reachable : reachable (client s);
  st_prefix : prefix s = prefix s0;
  st_default : default_validity_period s = default_validity_period s0;
  st_layout : layout s (keys (client s)) n q;
}.

Lemma layout_prefix s s' ks n q : prefix s = prefix s' → layout s ks n q → layout s' ks n q.
Proof.
  destruct s as [k p d], s' as [k' p' d']. cbn [prefix]. intros <- [].
  by split.
Qed.

Lemma queue_id_inj s ks n q id id' :
  layout s ks n q → is_Some (q !! id) → is_Some (q !! id') → format_i64 id = format_i64 id' → id = id'.
Proof. intros L H H' E. apply (ly_ids _ _ _ _ L) in H, H'. apply format_i64_inj in E; lia. Qed.

(** *** Commands of the storage *)

(** [s'] is [s] after commands that left the keys [ks]. *)
Record after (s s' : t K) (ks : keyspace) : Prop := {
  af_reachable : reachable (client s');
  af_prefix : prefix s' = prefix s;
  af_default : default_validity_period s' = default_validity_period s;
  af_keys : keys (client s') = ks;
}.

Lemma after_standing s0 s s' ks n q n' q' :
  standing s0 s n q → after s s' ks → layout s ks n' q' → standing s0 s' n' q'.
Proof.
  intros [Hr Hp Hd Hl] [Hr' Hp' Hd' <-] L. split; [done|congruence..|by apply (layout_prefix s)].
Qed.

Lemma after_trans s s1 s2 ks1 ks2 : after s s1 ks1 → after s1 s2 ks2 → after s s2 ks2.
Proof. intros [] []. split; congruence. Qed.

Lemma conn_step s :
  reachable (client s) → ∃ s', get_conn s = (Ok tt, s') ∧ after s s' (keys (client s)).
Proof.
  intros Hr. destruct (get_connection_law _ Hr) as (k & E & Hk & Hks).
  eexists. unfold get_conn, on_client. rewrite E. split; [done|]. by split.
Qed.

Lemma pipe_step us s ks :
  reachable (client s) → apply_updates (us s) (keys (client s)) = Some ks → ∃ s',
    run_pipe us s = (Ok tt, s') ∧ after s s' ks.
Proof.
  intros Hr Hu. destruct (pipe_law _ _ _ Hr Hu) as (k & E & Hk & Hks).
  eexists. unfold run_pipe, attempt, on_client, mbind, StateM_bind. rewrite E. split; [done|]. by split.
Qed.

Lemma hmget_step s key fields h values :
  reachable (client s) → hash_at (keys (client s)) (key s) = Some h → mapM (h !!.) fields = Some values → ∃ s',
    attempt (on_client (λ s, hmget (key s) fields)) s = (Ok (Ok values), s') ∧ after s s' (keys (client s)).
Proof.
  intros Hr Hh Hv. destruct (hmget_law _ fields _ _ Hr Hh) as (r & k & E & Hk & Hks & Hres).
  rewrite Hv in Hres. subst r. eexists. unfold attempt, on_client. rewrite E. split; [done|]. by split.
Qed.

Lemma scard_step s key ids :
  reachable (client s) → set_at (keys (client s)) (key s) = Some ids → ∃ s',
    attempt (on_client (λ s, scard (key s))) s = (Ok (Ok (Z.of_nat (size ids))), s') ∧
    after s s' (keys (client s)).
Proof.
  intros Hr Hh. destruct (scard_law _ _ _ Hr Hh) as (k & E & Hk & Hks).
  eexists. unfold attempt, on_client. rewrite E. split; [done|]. by split.
Qed.

Lemma smembers_step s key ids :
  reachable (client s) → set_at (keys (client s)) (key s) = Some ids → ∃ l s',
    on_client (λ s, smembers (key s)) s = (Ok l, s') ∧ l ≡ₚ elements ids ∧ after s s' (keys (client s)).
Proof.
  intros Hr Hh. destruct (smembers_law _ _ _ Hr Hh) as (l & k & E & Hk & Hks & Hl).
  eexists l, _. unfold on_client. rewrite E. split; [done|]. split; [done|]. by split.
Qed.

Lemma zrange_step s key max z :
  reachable (client s) → zset_at (keys (client s)) (key s) = Some z → ∃ l s',
    on_client (λ s, zrangebyscore (key s) max) s = (Ok l, s') ∧ up_to max z l ∧ after s s' (keys (client s)).
Proof.
  intros Hr Hh. destruct (zrangebyscore_law _ max _ _ Hr Hh) as (l & k & E & Hk & Hks & Hl).
  eexists l, _. unfold on_client. rewrite E. split; [done|]. split; [done|]. by split.
Qed.

(** *** Deleting an entry *)

Ltac others :=
  rewrite ?put_zset_ne, ?put_set_ne, ?lookup_delete_ne, ?lookup_insert_ne by key_ne; reflexivity.

(** A key that the updates since [ks] have not touched. *)
Ltac untouched ks :=
  match goal with
  | |- context [int_at ?ks' ?key] =>
      replace (int_at ks' key) with (int_at ks key) by (symmetry; apply views_same; others)
  | |- context [hash_at ?ks' ?key] =>
      replace (hash_at ks' key) with (hash_at ks key) by (symmetry; apply views_same; others)
  | |- context [set_at ?ks' ?key] =>
      replace (set_at ks' key) with (set_at ks key) by (symmetry; apply views_same; others)
  | |- context [zset_at ?ks' ?key] =>
      replace (zset_at ks' key) with (zset_at ks key) by (symmetry; apply views_same; others)
  end.

(** The keys after the first pipeline of [delete_entry]. *)
Definition without (s : t K) (text mid : string) (ids : gset string) (zs zx : gmap string Z)
    (ks : keyspace) : keyspace :=
  put_zset (expiry_key s) (delete text zx)
    (put_zset (schedule_key s) (delete text zs)
       (put_set (msgid_key s mid) (ids ∖ {[text]}) (delete (entry_key s text) ks))).

(** An index by a property [P] of the entries, without the entry [id]. *)
Lemma index_delete {A} (z : gmap string A) (P : entry → A → Prop) s ks n q id e :
  layout s ks n q → q !! id = Some e →
  (∀ text t, z !! text = Some t ↔ ∃ id e, text = format_i64 id ∧ q !! id = Some e ∧ P e t) →
  ∀ text t, delete (format_i64 id) z !! text = Some t
    ↔ ∃ id' e, text = format_i64 id' ∧ delete id q !! id' = Some e ∧ P e t.
Proof.
  intros L He Hz text t. rewrite lookup_delete_Some, Hz. split.
  - intros (Hne & id' & e' & -> & He' & Ht). exists id', e'. split; [done|]. split; [|done].
    apply lookup_delete_Some. split; [|done]. congruence.
  - intros (id' & e' & -> & [Hne He']%lookup_delete_Some & Ht). split; [|by exists id', e'].
    intros E. apply Hne. eapply (queue_id_inj s ks n q); [done|by eexists..|done].
Qed.

(** The entries of a message id, without the entry [id]. *)
Lemma msgid_without s ks n q id e ids zs zx mid :
  layout s ks n q → q !! id = Some e → set_at ks (msgid_key s (message_id e)) = Some ids → ∃ ids',
    set_at (without s (format_i64 id) (message_id e) ids zs zx ks) (msgid_key s mid) = Some ids' ∧
    ∀ text, text ∈ ids' ↔ ∃ id' e', text = format_i64 id' ∧ delete id q !! id' = Some e' ∧ message_id e' = mid.
Proof.
  intros L He Hids. unfold without. set (text := format_i64 id).
  destruct (ly_msgid _ _ _ _ L mid) as (ids0 & Hids0 & Hin).
  destruct (decide (mid = message_id e)) as [->|Hne].
  - rewrite Hids in Hids0. injection Hids0 as <-. exists (ids ∖ {[text]}). split.
    { rewrite <-(set_at_put (msgid_key s (message_id e)) (ids ∖ {[text]}) (delete (entry_key s text) ks)).
      apply views_same. by rewrite !put_zset_ne by key_ne. }
    intros text'. rewrite elem_of_difference, elem_of_singleton, Hin. split.
    + intros ((id' & e' & -> & He' & Hm) & Hne). exists id', e'. split; [done|]. split; [|done].
      apply lookup_delete_Some. split; [|done]. intros ->. done.
    + intros (id' & e' & -> & [Hne He']%lookup_delete_Some & Hm). split; [by exists id', e'|].
      intros E. apply Hne. eapply (queue_id_inj s ks n q); [done|by eexists..|done].
  - exists ids0. split; [by untouched ks|]. intros text'. rewrite Hin. split.
    + intros (id' & e' & -> & He' & Hm). exists id', e'. split; [done|]. split; [|done].
      apply lookup_delete_Some. split; [|done]. intros ->. congruence.
    + intros (id' & e' & -> & [_ He']%lookup_delete_Some & Hm). by exists id', e'.
Qed.

Lemma layout_without s ks n q id e ids zs zx :
  layout s ks n q → q !! id = Some e →
  set_at ks (msgid_key s (message_id e)) = Some ids →
  zset_at ks (schedule_key s) = Some zs → zset_at ks (expiry_key s) = Some zx →
  layout s (without s (format_i64 id) (message_id e) ids zs zx ks) n (delete id q).
Proof.
  intros L He Hids Hzs Hzx. unfold without. set (text := format_i64 id). split.
  - untouched ks. apply (ly_counter _ _ _ _ L).
  - apply (ly_range _ _ _ _ L).
  - intros id' [e' He']. apply lookup_delete_Some in He' as [_ He']. apply (ly_ids _ _ _ _ L). by eexists.
  - intros id' e' [_ He']%lookup_delete_Some. by apply (ly_good _ _ _ _ L id').
  - intros text'. destruct (decide (text' = text)) as [->|Hne].
    + unfold hash_at. rewrite !put_zset_ne, put_set_ne, lookup_delete_eq by key_ne. by eexists.
    + untouched ks. apply (ly_hashes _ _ _ _ L).
  - intros id' e' [Hne He']%lookup_delete_Some.
    assert (format_i64 id' ≠ text).
    { intros E. apply Hne. eapply (queue_id_inj s ks n q); [done|by eexists..|done]. }
    untouched ks. by apply (ly_entry _ _ _ _ L).
  - intros mid. by apply (msgid_without s ks n q id e ids zs zx mid).
  - intros a. untouched ks. apply (ly_user _ _ _ _ L).
  - exists (delete text zs). split.
    { replace (zset_at _ _) with (zset_at (put_zset (schedule_key s) (delete text zs) (put_set (msgid_key s (message_id e)) (ids ∖ {[text]}) (delete (entry_key s text) ks))) (schedule_key s)); [apply zset_at_put|].
      symmetry. apply views_same. by rewrite put_zset_ne by key_ne. }
    destruct (ly_schedule _ _ _ _ L) as (z & Hz & Hin). rewrite Hzs in Hz. injection Hz as <-.
    by apply (index_delete zs (λ e t, schedule_score (schedule e) = t) s ks n q id e).
  - exists (delete text zx). split; [apply zset_at_put|].
    destruct (ly_expiry _ _ _ _ L) as (z & Hz & Hin). rewrite Hzx in Hz. injection Hz as <-.
    by apply (index_delete zx (λ e t, validity e = Some t) s ks n q id e).
Qed.

(** The set of an id that has no entries left may go, and its user may forget it. *)
Lemma layout_forget s ks n q mid a users :
  layout s ks n q → set_at ks (msgid_key s mid) = Some ∅ →
  layout s (put_set (user_key s a) users (delete (msgid_key s mid) ks)) n q.
Proof.
  intros L Hmid. split; try apply L.
  - untouched ks. apply L.
  - intros text. untouched ks. apply (ly_hashes _ _ _ _ L).
  - intros id e He. untouched ks. by apply (ly_entry _ _ _ _ L).
  - intros mid'. destruct (decide (mid' = mid)) as [->|Hne].
    + destruct (ly_msgid _ _ _ _ L mid) as (ids & Hids & Hin).
      rewrite Hmid in Hids. injection Hids as <-. exists ∅. split; [|done].
      unfold set_at. by rewrite put_set_ne, lookup_delete_eq by key_ne.
    + untouched ks. apply (ly_msgid _ _ _ _ L).
  - intros a'. destruct (decide (a' = a)) as [->|Hne]; [by rewrite set_at_put|].
    untouched ks. apply (ly_user _ _ _ _ L).
  - untouched ks. apply (ly_schedule _ _ _ _ L).
  - untouched ks. apply (ly_expiry _ _ _ _ L).
Qed.

Lemma hash_of_values h e :
  hash_of h e →
  mapM (h !!.) ["dest_address"; "message_id"; "schedule_delivery_time"; "validity_period"]
  = Some [str_field (message e) "destination_addr"; message_id e; time_text (schedule e); time_text (validity e)].
Proof. intros (H1 & H2 & H3 & H4 & H5). cbn. by rewrite H1, H2, H4, H5. Qed.

Lemma apply_without s ks mid text ids zs zx :
  set_at ks (msgid_key s mid) = Some ids →
  zset_at ks (schedule_key s) = Some zs → zset_at ks (expiry_key s) = Some zx →
  apply_updates [Del (entry_key s text); SRem (msgid_key s mid) text;
                 ZRem (schedule_key s) text; ZRem (expiry_key s) text] ks
  = Some (without s text mid ids zs zx ks).
Proof.
  intros Hids Hzs Hzx. cbn [apply_updates apply_update mbind option_bind].
  untouched ks. rewrite Hids. cbn [mbind option_bind].
  untouched ks. rewrite Hzs. cbn [mbind option_bind].
  untouched ks. by rewrite Hzx.
Qed.

Lemma forget_step s0 s n q a mid :
  standing s0 s n q → ∃ s', forget_message_id a mid s = (Ok tt, s') ∧ standing s0 s' n q.
Proof.
  intros Hs. pose proof (st_layout _ _ _ _ Hs) as L. pose proof (st_reachable _ _ _ _ Hs) as R.
  destruct (ly_msgid _ _ _ _ L mid) as (ids & Hids & _).
  destruct (scard_step s (λ s, msgid_key s mid) ids R Hids) as (s1 & E1 & A1).
  assert (Hs1 : standing s0 s1 n q) by (by eapply after_standing).
  pose proof (st_layout _ _ _ _ Hs1) as L1. pose proof (st_reachable _ _ _ _ Hs1) as R1.
  unfold forget_message_id. unfold mbind at 1, StateM_bind at 1. rewrite E1.
  destruct (Z.eqb_spec (Z.of_nat (size ids)) 0) as [Hz|Hz]; [|by exists s1].
  assert (ids = ∅) as -> by (apply leibniz_equiv, size_empty_inv; lia).
  destruct (ly_user _ _ _ _ L1 a) as (users & Hu).
  assert (Hids1 : set_at (keys (client s1)) (msgid_key s1 mid) = Some ∅).
  { rewrite (af_keys _ _ _ A1), <-Hids. f_equal. unfold msgid_key. by rewrite (af_prefix _ _ _ A1). }
  destruct (pipe_step (λ s, [Del (msgid_key s mid); SRem (user_key s a) mid]) s1
    (put_set (user_key s1 a) (users ∖ {[mid]}) (delete (msgid_key s1 mid) (keys (client s1)))) R1) as (s2 & E2 & A2).
  { cbn [apply_updates apply_update mbind option_bind]. untouched (keys (client s1)). by rewrite Hu. }
  exists s2. split; [exact E2|]. eapply after_standing; [exact Hs1|exact A2|]. by apply layout_forget.
Qed.

(** The hash of an entry is read, and then the first pipeline of [delete_entry]. *)
Lemma unlink_step s0 s n q id e :
  standing s0 s n q → q !! id = Some e → ∃ s',
    run_pipe (λ s, [Del (entry_key s (format_i64 id)); SRem (msgid_key s (message_id e)) (format_i64 id);
                    ZRem (schedule_key s) (format_i64 id); ZRem (expiry_key s) (format_i64 id)]) s = (Ok tt, s') ∧
    standing s0 s' n (delete id q).
Proof.
  intros Hs He. pose proof (st_layout _ _ _ _ Hs) as L.
  destruct (ly_msgid _ _ _ _ L (message_id e)) as (ids & Hids & Hin).
  destruct (ly_schedule _ _ _ _ L) as (zs & Hzs & _).
  destruct (ly_expiry _ _ _ _ L) as (zx & Hzx & _).
  destruct (pipe_step (λ s, [Del (entry_key s (format_i64 id)); SRem (msgid_key s (message_id e)) (format_i64 id);
                        ZRem (schedule_key s) (format_i64 id); ZRem (expiry_key s) (format_i64 id)])
    s _ (st_reachable _ _ _ _ Hs) (apply_without s _ _ (format_i64 id) _ _ _ Hids Hzs Hzx)) as (s' & E & A).
  exists s'. split; [exact E|]. eapply after_standing; [exact Hs|exact A|]. by apply layout_without.
Qed.

Lemma delete_entry_step s0 s n q id e :
  standing s0 s n q → q !! id = Some e → ∃ s',
    delete_entry (format_i64 id) s = (Ok true, s') ∧ standing s0 s' n (delete id q).
Proof.
  intros Hs He. destruct (conn_step s (st_reachable _ _ _ _ Hs)) as (s1 & E1 & A1).
  assert (Hs1 : standing s0 s1 n q) by (eapply after_standing; [exact Hs|exact A1|apply (st_layout _ _ _ _ Hs)]).
  destruct (ly_entry _ _ _ _ (st_layout _ _ _ _ Hs1) id e He) as (h & Hh & Hof).
  destruct (hmget_step s1 (λ s, entry_key s (format_i64 id)) _ h _ (st_reachable _ _ _ _ Hs1) Hh
    (hash_of_values h e Hof)) as (s2 & E2 & A2).
  assert (Hs2 : standing s0 s2 n q) by (eapply after_standing; [exact Hs1|exact A2|apply (st_layout _ _ _ _ Hs1)]).
  destruct (unlink_step s0 s2 n q id e Hs2 He) as (s3 & E3 & Hs3).
  destruct (forget_step s0 s3 n _ (str_field (message e) "destination_addr") (message_id e) Hs3) as (s4 & E4 & Hs4).
  exists s4. split; [|done].
  unfold delete_entry. unfold mbind at 1, StateM_bind at 1. unfold attempt at 1. rewrite E1. cbn [is_ok negb].
  unfold mbind at 1, StateM_bind at 1. rewrite E2. unfold mbind, StateM_bind. by rewrite E3, E4.
Qed.

(** *** Deleting some entries *)

(** The entries of [q] without the ids of a list. *)
Definition without_ids (ids : list Z) (q : gmap Z entry) : gmap Z entry := foldr delete q ids.

Lemma lookup_without_ids ids q id : without_ids ids q !! id = if decide (id ∈ ids) then None else q !! id.
Proof.
  induction ids as [|i ids IH]; [done|]. cbn [without_ids foldr]. fold (without_ids ids q).
  destruct (decide (id = i)) as [->|Hne].
  - rewrite lookup_delete_eq, decide_True; [done|]. by apply elem_of_cons; left.
  - rewrite lookup_delete_ne, IH by done.
    destruct (decide (id ∈ ids)); [rewrite decide_True|rewrite decide_False]; try done;
      rewrite elem_of_cons; [by right|by intros [|]].
Qed.

Lemma without_ids_cons id ids q : id ∉ ids → without_ids ids (delete id q) = without_ids (id :: ids) q.
Proof.
  intros Hid. apply map_eq. intros id'. rewrite !lookup_without_ids.
  destruct (decide (id' = id)) as [->|Hne].
  - rewrite decide_False, lookup_delete_eq by done. rewrite decide_True; [done|]. by apply elem_of_cons; left.
  - rewrite lookup_delete_ne by done.
    destruct (decide (id' ∈ ids)); [rewrite decide_True|rewrite decide_False]; try done;
      rewrite elem_of_cons; [by right|by intros [|]].
Qed.

Lemma delete_entries_step s0 ids s n q :
  standing s0 s n q → NoDup ids → (∀ id, id ∈ ids → is_Some (q !! id)) → ∃ s',
    delete_entries (format_i64 <$> ids) s = (Ok tt, s') ∧ standing s0 s' n (without_ids ids q).
Proof.
  intros Hs Hnd. revert s q Hs. induction Hnd as [|id ids Hid Hnd IH]; intros s q Hs Hin.
  - exists s. by split.
  - destruct (Hin id) as [e He]; [by apply elem_of_cons; left|].
    destruct (delete_entry_step s0 s n q id e Hs He) as (s1 & E1 & Hs1).
    destruct (IH s1 (delete id q) Hs1) as (s2 & E2 & Hs2).
    { intros id' Hid'. rewrite lookup_delete_ne by congruence. apply Hin. by apply elem_of_cons; right. }
    exists s2. split; [|by rewrite <-without_ids_cons].
    unfold delete_entries in *. cbn [fmap list_fmap foldr]. unfold mbind, StateM_bind. by rewrite E1.
Qed.

Lemma cancel_entries_step s0 ids s n q :
  standing s0 s n q → NoDup ids → (∀ id, id ∈ ids → is_Some (q !! id)) → ∃ s',
    cancel_entries (format_i64 <$> ids) s = (Ok (bool_decide (ids ≠ [])), s') ∧
    standing s0 s' n (without_ids ids q).
Proof.
  intros Hs Hnd. revert s q Hs. induction Hnd as [|id ids Hid Hnd IH]; intros s q Hs Hin.
  - exists s. by split.
  - destruct (Hin id) as [e He]; [by apply elem_of_cons; left|].
    destruct (delete_entry_step s0 s n q id e Hs He) as (s1 & E1 & Hs1).
    destruct (IH s1 (delete id q) Hs1) as (s2 & E2 & Hs2).
    { intros id' Hid'. rewrite lookup_delete_ne by congruence. apply Hin. by apply elem_of_cons; right. }
    exists s2. split; [|by rewrite <-without_ids_cons].
    cbn [fmap list_fmap cancel_entries]. unfold mbind, StateM_bind.
    rewrite E1. fold (format_i64 <$> ids). by rewrite E2.
Qed.

(** *** Members of an index are ids of entries *)

Lemma index_ids (l : list string) (P : Z → Prop) :
  NoDup l → (∀ text, text ∈ l → ∃ id, text = format_i64 id ∧ P id) → ∃ ids,
    l = format_i64 <$> ids ∧ NoDup ids ∧ Forall P ids.
Proof.
  intros Hnd. induction Hnd as [|text l Ht Hnd IH]; intros Hl; [exists []; repeat constructor|].
  destruct (Hl text) as (id & -> & Hid); [by apply elem_of_cons; left|].
  destruct IH as (ids & -> & Hi & HP); [intros; apply Hl; by apply elem_of_cons; right|].
  exists (id :: ids). split; [done|]. split; [|by constructor].
  constructor; [|done]. intros Hin. apply Ht. by apply list_elem_of_fmap_2.
Qed.

(** The ids of the entries with a property, in some order. *)
Definition ids_of (P : entry → bool) (q : gmap Z entry) (ids : list Z) : Prop :=
  NoDup ids ∧ ∀ id, id ∈ ids ↔ ∃ e, q !! id = Some e ∧ P e = true.

Lemma index_members s ks n q (l : list string) (P : entry → bool) :
  layout s ks n q → NoDup l →
  (∀ text, text ∈ l ↔ ∃ id e, text = format_i64 id ∧ q !! id = Some e ∧ P e = true) → ∃ ids,
    l = format_i64 <$> ids ∧ ids_of P q ids.
Proof.
  intros L Hnd Hl.
  destruct (index_ids l (λ id, ∃ e, q !! id = Some e ∧ P e = true) Hnd) as (ids & -> & Hi & HP).
  { intros text. rewrite Hl. intros (id & e & -> & He). exists id. split; [done|]. by exists e. }
  exists ids. split; [done|]. split; [done|]. intros id. split.
  - intros Hid. rewrite Forall_forall in HP. by apply HP.
  - intros (e & He & Hp). assert (Hin : format_i64 id ∈ format_i64 <$> ids).
    { apply Hl. by exists id, e. }
    apply list_elem_of_fmap in Hin as (id' & E & Hid'). rewrite Forall_forall in HP.
    destruct (HP id' Hid') as (e' & He' & _).
    by rewrite (queue_id_inj s ks n q id id' L) by (done || by eexists).
Qed.

Lemma up_to_members max z l :
  up_to max z l → NoDup l ∧ ∀ text, text ∈ l ↔ ∃ t, z !! text = Some t ∧ (t ≤ max)%Z.
Proof.
  unfold up_to. intros Hl. split; [rewrite Hl; apply NoDup_fst_map_to_list|].
  intros text. rewrite Hl. split.
  - intros ([text' t] & -> & Hin)%list_elem_of_fmap. apply elem_of_map_to_list in Hin.
    apply map_lookup_filter_Some in Hin. by exists t.
  - intros (t & Ht & Hle). apply list_elem_of_fmap. exists (text, t). split; [done|].
    apply elem_of_map_to_list. by apply map_lookup_filter_Some.
Qed.

(** The entries with a property, in some order. *)
Definition entries_of (P : entry → bool) (q : gmap Z entry) (ps : list (Z * entry)) : Prop :=
  ps ≡ₚ map_to_list (filter (λ p, P p.2 = true) q).

Lemma elem_of_entries P q ps p : entries_of P q ps → p ∈ ps ↔ q !! p.1 = Some p.2 ∧ P p.2 = true.
Proof.
  intros Hps. rewrite Hps. destruct p as [id e]. rewrite elem_of_map_to_list, map_lookup_filter_Some. done.
Qed.

Lemma entries_nodup P q ps : entries_of P q ps → NoDup ps.*1.
Proof. intros Hps. rewrite Hps. apply NoDup_fst_map_to_list. Qed.

Lemma ids_entries P q ids : ids_of P q ids → ∃ ps, ids = ps.*1 ∧ entries_of P q ps.
Proof.
  intros [Hnd Hin].
  assert (Hps : ∃ ps : list (Z * entry), ids = ps.*1 ∧ Forall (λ p, q !! p.1 = Some p.2 ∧ P p.2 = true) ps).
  { assert (Hf : Forall (λ id, ∃ e, q !! id = Some e ∧ P e = true) ids).
    { apply Forall_forall. intros id. by apply Hin. }
    clear Hnd Hin. induction Hf as [|id ids (e & He & HP) _ IH]; [exists []; repeat constructor|].
    destruct IH as (ps & -> & Hps). exists ((id, e) :: ps). split; [done|]. by constructor. }
  destruct Hps as (ps & -> & Hps). exists ps. split; [done|].
  rewrite Forall_forall in Hps. apply NoDup_Permutation.
  - by eapply NoDup_fmap_1.
  - apply NoDup_map_to_list.
  - intros [id e]. rewrite elem_of_map_to_list, map_lookup_filter_Some. split; [apply Hps|].
    intros [He HP]. assert (Hid : id ∈ ps.*1) by (apply Hin; by exists e).
    apply list_elem_of_fmap in Hid as ([id' e'] & E & Hp). cbn in E. subst id'.
    destruct (Hps _ Hp) as [He' _]. cbn in *. congruence.
Qed.

(** Without the ids of the entries with a property is the filter. *)
Lemma without_ids_filter (R : entry → bool) q ids :
  (∀ id e, q !! id = Some e → id ∈ ids ↔ R e = true) →
  without_ids ids q = filter (λ p, R p.2 = false) q.
Proof.
  intros Hin. apply map_eq. intros id. rewrite lookup_without_ids.
  apply option_eq. intros e. rewrite map_lookup_filter_Some. cbn [snd].
  destruct (decide (id ∈ ids)) as [Hid|Hid].
  - split; [done|]. intros [He HR]. apply (Hin id e He) in Hid. congruence.
  - split; [|by intros [? _] ]. intros He. split; [done|].
    apply not_true_iff_false. intros HR. by apply Hid, (Hin id e He).
Qed.

End layout.
