(* ===== verification/RedisSave.v ===== *)
(** * Saving to Redis

    The keys after the commands of [save] stand for the map with one entry more. *)
From S2P Require Export RedisProps.
Import RedisMessageStorage.

Section save.
Context {K : Type} `{Red : RedisServer K, Txt : JsonText, Rfc : Rfc3339, Chr : Chrono}.

Lemma put_set_eq key x s ks : put_set key ({[x]} ∪ s) ks !! key = Some (RSet ({[x]} ∪ s)).
Proof. unfold put_set. rewrite decide_False by set_solver. by rewrite lookup_insert_eq. Qed.

(** An index by a property [P] of the entries, with a new entry. *)
Lemma index_insert {A} (z : gmap string A) (P : entry → A → Prop) (s : t K) ks n q e t :
  layout s ks n q → (∀ t', P e t' ↔ t' = t) →
  (∀ text t, z !! text = Some t ↔ ∃ id e, text = format_i64 id ∧ q !! id = Some e ∧ P e t) →
  ∀ text t', <[format_i64 (n + 1) := t]> z !! text = Some t'
    ↔ ∃ id e', text = format_i64 id ∧ <[(n + 1)%Z := e]> q !! id = Some e' ∧ P e' t'.
Proof.
  intros L HP Hz text t'. rewrite lookup_insert_Some, Hz. pose proof (ly_range _ _ _ _ L) as Hn. split.
  - intros [[<- <-]|(Hne & id & e' & -> & He' & Ht)].
    + exists (n + 1)%Z, e. rewrite lookup_insert_eq. split; [done|]. split; [done|]. by apply HP.
    + exists id, e'. split; [done|]. split; [|done]. rewrite lookup_insert_ne; [done|]. intros <-. done.
  - intros (id & e' & -> & He' & Ht). apply lookup_insert_Some in He' as [[<- ->]|[Hne He']].
    + left. split; [done|]. symmetry. by apply HP.
    + right. split; [|by exists id, e']. intros E. apply format_i64_inj in E; [congruence|lia|].
      assert (0 < id)%Z; [|lia]. apply (ly_ids _ _ _ _ L). by eexists.
Qed.

(** The fields of the hash of an entry. *)
Definition hash_fields (e : entry) : list (string * string) :=
  [("dest_address", str_field (message e) "destination_addr"); ("message_id", message_id e);
   ("message", json_to_string (message e)); ("schedule_delivery_time", time_text (schedule e));
   ("validity_period", time_text (validity e))].

Lemma hash_of_fields h e : hash_of (foldl (λ h p, <[p.1 := p.2]> h) h (hash_fields e)) e.
Proof.
  unfold hash_of, hash_fields. cbn [foldl fst snd].
  repeat split; repeat (rewrite lookup_insert_ne by discriminate); by rewrite lookup_insert_eq.
Qed.

(** The keys after [HSET] and the first pipeline. *)
Definition with_hash (s : t K) (n : Z) (e : entry) (h : gmap string string) (ks : keyspace) : keyspace :=
  <[entry_key s (format_i64 (n + 1)) := RHash (foldl (λ h p, <[p.1 := p.2]> h) h (hash_fields e))]>
    (<[counter_key s := RInt (n + 1)]> ks).

Definition with_sets (s : t K) (n : Z) (e : entry) (ids users : gset string) (ks : keyspace) : keyspace :=
  put_set (user_key s (str_field (message e) "destination_addr")) ({[message_id e]} ∪ users)
    (put_set (msgid_key s (message_id e)) ({[format_i64 (n + 1)]} ∪ ids) ks).

Definition with_times (s : t K) (n : Z) (e : entry) (zs zx : gmap string Z) (ks : keyspace) : keyspace :=
  let ks := put_zset (schedule_key s) (<[format_i64 (n + 1) := schedule_score (schedule e)]> zs) ks in
  match validity e with
  | Some t => put_zset (expiry_key s) (<[format_i64 (n + 1) := t]> zx) ks
  | None => ks
  end.

Section stored.
Variables (s : t K) (ks : keyspace) (n : Z) (q : gmap Z entry) (e : entry) (h : gmap string string)
  (ids users : gset string) (zs zx : gmap string Z).
Hypotheses (L : layout s ks n q) (Hg : good e)
  (Hids : set_at ks (msgid_key s (message_id e)) = Some ids)
  (Hzs : zset_at ks (schedule_key s) = Some zs) (Hzx : zset_at ks (expiry_key s) = Some zx).

Let ks' : keyspace := with_times s n e zs zx (with_sets s n e ids users (with_hash s n e h ks)).

(** A key that is not one of the six. *)
Lemma stored_untouched key :
  key ≠ counter_key s → key ≠ entry_key s (format_i64 (n + 1)) → key ≠ msgid_key s (message_id e) →
  key ≠ user_key s (str_field (message e) "destination_addr") → key ≠ schedule_key s → key ≠ expiry_key s →
  ks' !! key = ks !! key.
Proof.
  intros. unfold ks', with_times, with_sets, with_hash. cbv zeta.
  destruct (validity e); rewrite ?put_zset_ne, ?put_set_ne, ?lookup_insert_ne by congruence; done.
Qed.

Ltac stored :=
  unfold ks', with_times, with_sets, with_hash; cbv zeta;
  destruct (validity e); rewrite ?put_zset_ne, ?put_set_ne, ?lookup_insert_ne by key_ne.

Lemma stored_msgid mid : ∃ ids', set_at ks' (msgid_key s mid) = Some ids' ∧
  ∀ text, text ∈ ids' ↔ ∃ id e', text = format_i64 id ∧ <[(n + 1)%Z := e]> q !! id = Some e' ∧ message_id e' = mid.
Proof.
  pose proof (ly_range _ _ _ _ L) as Hn.
  assert (Hfresh : ∀ id e', q !! id = Some e' → <[(n + 1)%Z := e]> q !! id = Some e').
  { intros id e' He'. rewrite lookup_insert_ne; [done|].
    pose proof (ly_ids _ _ _ _ L id ltac:(by eexists)). lia. }
  destruct (ly_msgid _ _ _ _ L mid) as (ids0 & Hids0 & Hin).
  destruct (decide (mid = message_id e)) as [->|Hne].
  - rewrite Hids in Hids0. injection Hids0 as <-. exists ({[format_i64 (n + 1)]} ∪ ids). split.
    { unfold set_at. stored; by rewrite put_set_eq. }
    intros text. rewrite elem_of_union, elem_of_singleton, Hin. split.
    + intros [->|(id & e' & -> & He' & Hm)].
      * exists (n + 1)%Z, e. by rewrite lookup_insert_eq.
      * exists id, e'. split; [done|]. split; [by apply Hfresh|done].
    + intros (id & e' & -> & He' & Hm). apply lookup_insert_Some in He' as [[<- _]|[_ He'] ]; [by left|].
      right. by exists id, e'.
  - exists ids0. split.
    { rewrite <-Hids0. apply views_same. apply stored_untouched; key_ne. }
    intros text. rewrite Hin. split; intros (id & e' & -> & He' & Hm); exists id, e'; split; try done; split; try done.
    + by apply Hfresh.
    + apply lookup_insert_Some in He' as [[_ <-]|[_ He'] ]; [by subst|done].
Qed.

Lemma layout_stored : layout s ks' (n + 1) (<[(n + 1)%Z := e]> q).
Proof.
  pose proof (ly_range _ _ _ _ L) as Hn. split.
  - unfold int_at. stored; by rewrite lookup_insert_eq.
  - lia.
  - intros id [e' He']. apply lookup_insert_Some in He' as [[<- _]|[_ He'] ]; [lia|].
    pose proof (ly_ids _ _ _ _ L id ltac:(by eexists)). lia.
  - intros id e' He'. apply lookup_insert_Some in He' as [[_ <-]|[_ He'] ]; [done|by apply (ly_good _ _ _ _ L id)].
  - intros text. destruct (decide (text = format_i64 (n + 1))) as [->|Hne].
    + unfold hash_at. stored; rewrite lookup_insert_eq; by eexists.
    + replace (hash_at ks' (entry_key s text)) with (hash_at ks (entry_key s text)); [apply (ly_hashes _ _ _ _ L)|].
      symmetry. apply views_same. apply stored_untouched; key_ne.
  - intros id e' He'. apply lookup_insert_Some in He' as [[<- <-]|[Hne He'] ].
    + eexists. split; [unfold hash_at; stored; rewrite lookup_insert_eq; reflexivity|]. apply hash_of_fields.
    + replace (hash_at ks' (entry_key s (format_i64 id))) with (hash_at ks (entry_key s (format_i64 id)));
        [by apply (ly_entry _ _ _ _ L)|].
      symmetry. apply views_same. pose proof (ly_ids _ _ _ _ L id ltac:(by eexists)) as Hid.
      assert (format_i64 id ≠ format_i64 (n + 1)) by (intros E%format_i64_inj; lia).
      apply stored_untouched; key_ne.
  - apply stored_msgid.
  - intros a. destruct (decide (a = str_field (message e) "destination_addr")) as [->|Hne].
    + exists ({[message_id e]} ∪ users).
      unfold set_at. stored; by rewrite put_set_eq.
    + replace (set_at ks' (user_key s a)) with (set_at ks (user_key s a)); [apply (ly_user _ _ _ _ L)|].
      symmetry. apply views_same. apply stored_untouched; key_ne.
  - exists (<[format_i64 (n + 1) := schedule_score (schedule e)]> zs). split.
    + unfold ks', with_times. cbv zeta. destruct (validity e); [|apply zset_at_put].
      rewrite <-(zset_at_put (schedule_key s) (<[format_i64 (n + 1) := schedule_score (schedule e)]> zs)
        (with_sets s n e ids users (with_hash s n e h ks))).
      apply views_same. by rewrite put_zset_ne by key_ne.
    + destruct (ly_schedule _ _ _ _ L) as (z & Hz & Hin). rewrite Hzs in Hz. injection Hz as <-.
      apply (index_insert zs (λ e t, schedule_score (schedule e) = t) s ks n q e _ L); [|done].
      intros t'. by split.
  - destruct (ly_expiry _ _ _ _ L) as (z & Hz & Hin). rewrite Hzx in Hz. injection Hz as <-.
    destruct (validity e) as [vp|] eqn:Ev.
    + exists (<[format_i64 (n + 1) := vp]> zx).
      split; [unfold ks', with_times; rewrite Ev; apply zset_at_put|].
      apply (index_insert zx (λ e t, validity e = Some t) s ks n q e vp L); [|done].
      intros t'. rewrite Ev. split; [by intros [=]|by intros ->].
    + exists zx. split.
      { rewrite <-Hzx. apply views_same. unfold ks', with_times, with_sets, with_hash. rewrite Ev.
        by rewrite put_zset_ne, !put_set_ne, !lookup_insert_ne by key_ne. }
      intros text t'. rewrite Hin. split; intros (id & e' & -> & He' & Ht); exists id, e'; split; try done; split; try done.
      * rewrite lookup_insert_ne; [done|]. pose proof (ly_ids _ _ _ _ L id ltac:(by eexists)). lia.
      * apply lookup_insert_Some in He' as [[_ <-]|[_ He'] ]; [congruence|done].
Qed.

End stored.

(** *** The commands *)

Lemma incr_step (s : t K) key n :
  reachable (client s) → int_at (keys (client s)) (key s) = Some n → (n + 1 < 2 ^ 63)%Z → ∃ s',
    on_client (λ s, incr (key s)) s = (Ok (n + 1)%Z, s') ∧ after s s' (<[key s := RInt (n + 1)]> (keys (client s))).
Proof.
  intros Hr Hn Hb. destruct (incr_law _ _ _ Hr Hn Hb) as (k & E & Hk & Hks).
  eexists. unfold on_client. rewrite E. split; [done|]. by split.
Qed.

Lemma hset_step (s : t K) key values h :
  reachable (client s) → hash_at (keys (client s)) (key s) = Some h → values ≠ [] → ∃ s',
    on_client (λ s, hset (key s) values) s = (Ok tt, s') ∧
    after s s' (<[key s := RHash (foldl (λ h p, <[p.1 := p.2]> h) h values)]> (keys (client s))).
Proof.
  intros Hr Hh Hv. destruct (hset_law _ values _ _ Hr Hh Hv) as (k & E & Hk & Hks).
  eexists. unfold on_client. rewrite E. split; [done|]. by split.
Qed.

(** The same key in a later state. *)
Lemma after_keys (s s' : t K) ks :
  after s s' ks →
  (∀ x, entry_key s' x = entry_key s x) ∧ (∀ x, msgid_key s' x = msgid_key s x) ∧
  (∀ x, user_key s' x = user_key s x) ∧ counter_key s' = counter_key s ∧
  schedule_key s' = schedule_key s ∧ expiry_key s' = expiry_key s.
Proof.
  intros [_ Hp _ _]. unfold entry_key, msgid_key, user_key, counter_key, schedule_key, expiry_key.
  by rewrite Hp.
Qed.

Lemma pipe_after us s s1 ks ks' :
  after s s1 ks → apply_updates (us s) ks = Some ks' → us s1 = us s → ∃ s2,
    run_pipe us s1 = (Ok tt, s2) ∧ after s s2 ks'.
Proof.
  intros A Hu Hs. destruct (pipe_step us s1 ks' (af_reachable _ _ _ A)) as (s2 & E & A').
  { by rewrite Hs, (af_keys _ _ _ A). }
  exists s2. split; [done|]. by eapply after_trans.
Qed.

Ltac view ks :=
  match goal with
  | |- context [set_at ?ks' ?key] =>
      replace (set_at ks' key) with (set_at ks key)
        by (symmetry; apply views_same;
            rewrite ?put_zset_ne, ?put_set_ne, ?lookup_delete_ne, ?lookup_insert_ne by key_ne; reflexivity)
  | |- context [zset_at ?ks' ?key] =>
      replace (zset_at ks' key) with (zset_at ks key)
        by (symmetry; apply views_same;
            rewrite ?put_zset_ne, ?put_set_ne, ?lookup_delete_ne, ?lookup_insert_ne by key_ne; reflexivity)
  end.

(** The entry gets its id and its hash. *)
Lemma store_hash_step (s : t K) n e h :
  let ks := keys (client s) in
  reachable (client s) → int_at ks (counter_key s) = Some n → (n + 1 < 2 ^ 63)%Z →
  hash_at ks (entry_key s (format_i64 (n + 1))) = Some h → ∃ s1 s2 s3,
    get_conn s = (Ok tt, s1) ∧ on_client (λ s, incr (counter_key s)) s1 = (Ok (n + 1)%Z, s2) ∧
    on_client (λ s, hset (entry_key s (format_i64 (n + 1))) (hash_fields e)) s2 = (Ok tt, s3) ∧
    after s s3 (with_hash s n e h ks).
Proof.
  intros ks Hr Hn Hb Hh. destruct (conn_step s Hr) as (s1 & E1 & A1). fold ks in A1.
  destruct (after_keys _ _ _ A1) as (_ & _ & _ & Hc1 & _).
  destruct (incr_step s1 (λ s, counter_key s) n (af_reachable _ _ _ A1)) as (s2 & E2 & A2); [|done|].
  { by rewrite (af_keys _ _ _ A1), Hc1. }
  pose proof (after_trans _ _ _ _ _ A1 A2) as B2. cbn in B2. rewrite (af_keys _ _ _ A1), Hc1 in B2.
  destruct (after_keys _ _ _ B2) as (He2 & _).
  destruct (hset_step s2 (λ s, entry_key s (format_i64 (n + 1))) (hash_fields e) h (af_reachable _ _ _ B2))
    as (s3 & E3 & A3); [|done|].
  { cbn. rewrite (af_keys _ _ _ B2), He2, <-Hh. apply views_same. by rewrite lookup_insert_ne by key_ne. }
  pose proof (after_trans _ _ _ _ _ B2 A3) as B3. cbn in B3. rewrite (af_keys _ _ _ B2), He2 in B3.
  exists s1, s2, s3. by split_and!.
Qed.

(** The pipelines that put the entry into the sets and the sorted sets. *)
Lemma store_sets_step (s s3 : t K) n e h ids users ks :
  after s s3 (with_hash s n e h ks) →
  set_at ks (msgid_key s (message_id e)) = Some ids →
  set_at ks (user_key s (str_field (message e) "destination_addr")) = Some users → ∃ s4,
    run_pipe (λ s, [SAdd (msgid_key s (message_id e)) (format_i64 (n + 1));
                    SAdd (user_key s (str_field (message e) "destination_addr")) (message_id e)]) s3 = (Ok tt, s4) ∧
    after s s4 (with_sets s n e ids users (with_hash s n e h ks)).
Proof.
  intros A Hids Husers. eapply (pipe_after _ s s3 _ _ A).
  - unfold with_hash. cbn [apply_updates apply_update mbind option_bind].
    view ks. rewrite Hids. cbn [mbind option_bind]. view ks. by rewrite Husers.
  - destruct (after_keys _ _ _ A) as (_ & -> & Hu & _). by rewrite Hu.
Qed.

Lemma store_times_step (s s4 : t K) n e h ids users zs zx ks :
  let ks4 := with_sets s n e ids users (with_hash s n e h ks) in
  after s s4 ks4 → zset_at ks (schedule_key s) = Some zs → zset_at ks (expiry_key s) = Some zx → ∃ s5 s6,
    run_pipe (λ s, [ZAdd (schedule_key s) (format_i64 (n + 1)) (schedule_score (schedule e))]) s4 = (Ok tt, s5) ∧
    match validity e with
    | Some vp => run_pipe (λ s, [ZAdd (expiry_key s) (format_i64 (n + 1)) vp])
    | None => mret tt
    end s5 = (Ok tt, s6) ∧ after s s6 (with_times s n e zs zx ks4).
Proof.
  intros ks4 A Hzs Hzx.
  destruct (pipe_after (λ s, [ZAdd (schedule_key s) (format_i64 (n + 1)) (schedule_score (schedule e))]) s s4 _
      (put_zset (schedule_key s) (<[format_i64 (n + 1) := schedule_score (schedule e)]> zs) ks4) A) as (s5 & E5 & B5).
  { unfold ks4, with_sets, with_hash. cbn [apply_updates apply_update mbind option_bind]. view ks. by rewrite Hzs. }
  { by destruct (after_keys _ _ _ A) as (_ & _ & _ & _ & -> & _). }
  unfold with_times. cbv zeta. destruct (validity e) as [vp|]; [|by exists s5, s5].
  destruct (pipe_after (λ s, [ZAdd (expiry_key s) (format_i64 (n + 1)) vp]) s s5 _
      (put_zset (expiry_key s) (<[format_i64 (n + 1) := vp]> zx)
        (put_zset (schedule_key s) (<[format_i64 (n + 1) := schedule_score (schedule e)]> zs) ks4)) B5)
    as (s6 & E6 & B6).
  { unfold ks4, with_sets, with_hash. cbn [apply_updates apply_update mbind option_bind]. view ks. by rewrite Hzx. }
  { by destruct (after_keys _ _ _ B5) as (_ & _ & _ & _ & _ & ->). }
  exists s5, s6. by split_and!.
Qed.

Lemma store_entry_step s0 s n q e :
  standing s0 s n q → good e → (n + 1 < 2 ^ 63)%Z → ∃ s',
    store_entry (str_field (message e) "destination_addr") (message_id e) (message e) (schedule e) (validity e) s
      = (Ok tt, s') ∧
    standing s0 s' (n + 1) (<[(n + 1)%Z := e]> q).
Proof.
  intros Hs Hg Hb. pose proof (st_layout _ _ _ _ Hs) as L.
  destruct (ly_msgid _ _ _ _ L (message_id e)) as (ids & Hids & _).
  destruct (ly_user _ _ _ _ L (str_field (message e) "destination_addr")) as (users & Husers).
  destruct (ly_schedule _ _ _ _ L) as (zs & Hzs & _).
  destruct (ly_expiry _ _ _ _ L) as (zx & Hzx & _).
  destruct (ly_hashes _ _ _ _ L (format_i64 (n + 1))) as (h & Hh).
  destruct (store_hash_step s n e h (st_reachable _ _ _ _ Hs) (ly_counter _ _ _ _ L) Hb Hh)
    as (s1 & s2 & s3 & E1 & E2 & E3 & A3).
  destruct (store_sets_step s s3 n e h ids users _ A3 Hids Husers) as (s4 & E4 & A4).
  destruct (store_times_step s s4 n e h ids users zs zx _ A4 Hzs Hzx) as (s5 & s6 & E5 & E6 & A6).
  exists s6. split.
  - unfold store_entry, mbind, StateM_bind. rewrite E1, E2. cbv zeta. fold (hash_fields e). by rewrite E3, E4, E5.
  - eapply after_standing; [exact Hs|exact A6|]. by apply layout_stored.
Qed.

End save.
