(* ===== verification/RedisRefinement.v ===== *)
(** * The Redis storage refines a queue of messages

    The operations on a map from entry ids to messages, and the refinement: the Redis storage
    gives the same results and leaves keys that stand for the same map. *)
From S2P Require Export RedisSave.
Import RedisMessageStorage.

(** ** The specification *)

(** Expired for the cleaning: the time itself counts. *)
Definition lapsed (now : Z) (e : entry) : bool :=
  match validity e with Some t => (t <=? now)%Z | None => false end.

Definition has_id_of (c : Value) (e : entry) : bool :=
  bool_decide (message_id e = str_field c "message_id").

(** The last entry id given out, and the entries. *)
Abbreviation queue := (Z * gmap Z entry)%type.

Section spec.
Context `{Chrono}.
Variable default_validity : N.
Variable handler : Value → bool.

Definition redis_save (now : Z) (id : string) (m : Value) (q : queue) : ioresult unit * queue :=
  if is_empty_str (str_field m "destination_addr")
  then (io_err InvalidInput "Missing destination_addr in the message", q)
  else
    let r :=
      sched ← ok_option (get_schedule_delivery_time now m);
      if match sched with Some t => (t <? now)%Z | None => false end
      then io_err InvalidInput "schedule_delivery_time is in the past"
      else
        valid ← ok_option (get_validity_period now m default_validity);
        match sched, valid with
        | None, None => io_err InvalidInput "Message has neither schedule_delivery_time nor validity_period"
        | _, _ => Ok (mkEntry id m sched valid)
        end in
    match r with
    | Ok e => (Ok tt, (q.1 + 1, <[(q.1 + 1)%Z := e]> q.2)%Z)
    | Err e => (Err e, q)
    | Panic => (Panic, q)
    end.

(** What is left after the entries with a property are gone. *)
Definition leave (R : entry → bool) (q : queue) : queue := (q.1, filter (λ p, R p.2 = false) q.2).

(** The entries with a property. *)
Definition among (P : entry → bool) (q : queue) : list entry :=
  (map_to_list (filter (λ p, P p.2 = true) q.2)).*2.

Definition redis_op (o : op) (q : queue) : result * queue :=
  match o with
  | Save now id m => let '(r, q) := redis_save now id m q in (Done r, q)
  | CancelSm c =>
      if is_empty_str (str_field c "message_id")
      then (Answer (io_err InvalidInput "Missing message_id in the cancel_sm command"), q)
      else (Answer (Ok (bool_decide (among (has_id_of c) q ≠ []))), leave (has_id_of c) q)
  | ReplaceSm _ c =>
      if is_empty_str (str_field c "message_id")
      then (Answer (io_err InvalidInput "Missing message_id in the replace_sm command"), q)
      else (Answer (Ok false), q)
  | CleanTick now => (Done (Ok tt), leave (lapsed now) q)
  | DeliverTick now =>
      (Handed (Ok (message <$> among (λ e, due now e && negb (expired now e)) q)),
       leave (λ e, due now e && (expired now e || handler (message e))) q)
  end.

Fixpoint redis_run (ops : list op) (q : queue) : list result * queue :=
  match ops with
  | [] => ([], q)
  | o :: ops' =>
      let '(r, q) := redis_op o q in let '(rs, q) := redis_run ops' q in (r :: rs, q)
  end.
End spec.

Section refinement.
Context {K : Type} `{Red : RedisServer K, Txt : JsonText, Rfc : Rfc3339, Chr : Chrono}.

(** ** The indexes *)

Lemma due_score now e : (0 ≤ now)%Z → (schedule_score (schedule e) <=? now)%Z = due now e.
Proof. intros Hn. unfold due, schedule_score. destruct (schedule e); [done|]. by apply Z.leb_le. Qed.

Lemma schedule_members (s : t K) ks n q now z l :
  layout s ks n q → (0 ≤ now)%Z → zset_at ks (schedule_key s) = Some z → up_to now z l → ∃ ids,
    l = format_i64 <$> ids ∧ ids_of (due now) q ids.
Proof.
  intros L Hn Hz [Hnd Hl]%up_to_members. apply (index_members s ks n q l _ L Hnd).
  destruct (ly_schedule _ _ _ _ L) as (z' & Hz' & Hin). rewrite Hz in Hz'. injection Hz' as <-.
  intros text. rewrite Hl. split.
  - intros (t & Ht & Hle). apply Hin in Ht as (id & e & -> & He & <-).
    exists id, e. split; [done|]. split; [done|]. rewrite <-due_score by done. by apply Z.leb_le.
  - intros (id & e & -> & He & Hd). rewrite <-due_score in Hd by done. apply Z.leb_le in Hd.
    exists (schedule_score (schedule e)). split; [|done]. apply Hin. by exists id, e.
Qed.

Lemma expiry_members (s : t K) ks n q now z l :
  layout s ks n q → zset_at ks (expiry_key s) = Some z → up_to now z l → ∃ ids,
    l = format_i64 <$> ids ∧ ids_of (lapsed now) q ids.
Proof.
  intros L Hz [Hnd Hl]%up_to_members. apply (index_members s ks n q l _ L Hnd).
  destruct (ly_expiry _ _ _ _ L) as (z' & Hz' & Hin). rewrite Hz in Hz'. injection Hz' as <-.
  intros text. rewrite Hl. unfold lapsed. split.
  - intros (t & Ht & Hle). apply Hin in Ht as (id & e & -> & He & Hv).
    exists id, e. split; [done|]. split; [done|]. rewrite Hv. by apply Z.leb_le.
  - intros (id & e & -> & He & Hd). destruct (validity e) as [t|] eqn:Ev; [|done].
    apply Z.leb_le in Hd. exists t. split; [|done]. apply Hin. by exists id, e.
Qed.

Lemma msgid_members (s : t K) ks n q c ids l :
  layout s ks n q → set_at ks (msgid_key s (str_field c "message_id")) = Some ids → l ≡ₚ elements ids → ∃ ids',
    l = format_i64 <$> ids' ∧ ids_of (has_id_of c) q ids'.
Proof.
  intros L Hids Hl. apply (index_members s ks n q l _ L).
  - rewrite Hl. apply NoDup_elements.
  - destruct (ly_msgid _ _ _ _ L (str_field c "message_id")) as (ids' & Hids' & Hin).
    rewrite Hids in Hids'. injection Hids' as <-. intros text. rewrite Hl, elem_of_elements, Hin.
    unfold has_id_of. split; intros (id & e & -> & He & Hm); exists id, e; split; try done; split; try done.
    + by apply bool_decide_eq_true.
    + by apply bool_decide_eq_true in Hm.
Qed.

(** ** The two ticks *)

Lemma conn_standing s0 s n q :
  standing s0 s n q → ∃ s', get_conn s = (Ok tt, s') ∧ standing s0 s' n q.
Proof.
  intros Hs. destruct (conn_step s (st_reachable _ _ _ _ Hs)) as (s1 & E1 & A1). exists s1.
  split; [done|]. eapply after_standing; [exact Hs|exact A1|]. by apply (st_layout _ _ _ _ Hs).
Qed.

Lemma leave_standing s0 s n q ids R :
  standing s0 s n (without_ids ids q) → (∀ id e, q !! id = Some e → id ∈ ids ↔ R e = true) →
  standing s0 s n (leave R (n, q)).2.
Proof. intros Hs Hin. unfold leave. cbn [snd]. by rewrite <-(without_ids_filter R q ids). Qed.

Lemma ids_of_iff P q ids id e : ids_of P q ids → q !! id = Some e → id ∈ ids ↔ P e = true.
Proof.
  intros [_ Hin] He. rewrite Hin. split; [|by exists e]. intros (e' & He' & HP). congruence.
Qed.

Lemma ids_of_some P q ids id : ids_of P q ids → id ∈ ids → is_Some (q !! id).
Proof. intros [_ Hin] Hid. apply Hin in Hid as (e & He & _). by exists e. Qed.

Lemma clean_tick_step s0 s n q now :
  standing s0 s n q → ∃ s',
    tick_clean now s = (Ok tt, s') ∧ standing s0 s' n (leave (lapsed now) (n, q)).2.
Proof.
  intros Hs. destruct (conn_standing s0 s n q Hs) as (s1 & E1 & Hs1).
  destruct (ly_expiry _ _ _ _ (st_layout _ _ _ _ Hs1)) as (z & Hz & _).
  destruct (zrange_step s1 (λ s, expiry_key s) now z (st_reachable _ _ _ _ Hs1) Hz) as (l & s2 & E2 & Hl & A2).
  destruct (expiry_members s1 _ n q now z l (st_layout _ _ _ _ Hs1) Hz Hl) as (ids & -> & Hids).
  assert (Hs2 : standing s0 s2 n q).
  { eapply after_standing; [exact Hs1|exact A2|]. by apply (st_layout _ _ _ _ Hs1). }
  destruct (delete_entries_step s0 ids s2 n q Hs2 (proj1 Hids)) as (s3 & E3 & Hs3).
  { intros id. by apply (ids_of_some _ _ _ _ Hids). }
  exists s3. split.
  - unfold tick_clean, clean_expired_messages, mbind, StateM_bind, attempt. by rewrite E1, E2, E3.
  - eapply leave_standing; [exact Hs3|]. intros id e. by apply ids_of_iff.
Qed.

Lemma time_text_validity (e : entry) now :
  good e →
  negb (is_empty_str (time_text (validity e)))
    && match parse_from_rfc3339 (time_text (validity e)) with Some vp => (vp <? now)%Z | None => false end
  = expired now e.
Proof.
  intros Hg. unfold expired, time_text. destruct (validity e) as [t|] eqn:Ev; [|done].
  rewrite rfc3339_roundtrip by (by apply (good_validity _ Hg)).
  unfold is_empty_str. rewrite bool_decide_false by apply rfc3339_nonempty. done.
Qed.

Lemma read_entry_step s0 s n q now id e :
  standing s0 s n q → q !! id = Some e → ∃ s',
    read_entry now (format_i64 id) s
      = (Ok (if expired now e then None else Some (format_i64 id, message e)), s') ∧
    standing s0 s' n (if expired now e then delete id q else q).
Proof.
  intros Hs He. pose proof (st_layout _ _ _ _ Hs) as L.
  pose proof (ly_good _ _ _ _ L id e He) as Hg.
  destruct (ly_entry _ _ _ _ L id e He) as (h & Hh & H1 & H2 & H3 & H4 & H5).
  destruct (hmget_step s (λ s, entry_key s (format_i64 id)) ["message"; "validity_period"] h
    [json_to_string (message e); time_text (validity e)] (st_reachable _ _ _ _ Hs) Hh) as (s1 & E1 & A1).
  { cbn. by rewrite H3, H5. }
  assert (Hs1 : standing s0 s1 n q) by (by eapply after_standing).
  unfold read_entry. unfold mbind at 1, StateM_bind at 1. rewrite E1, time_text_validity by done.
  destruct (expired now e).
  - destruct (delete_entry_step s0 s1 n q id e Hs1 He) as (s2 & E2 & Hs2).
    exists s2. split; [|done]. unfold mbind, StateM_bind. by rewrite E2.
  - exists s1. split; [|done]. by rewrite json_from_to_string by apply Hg.
Qed.

Definition alive (now : Z) (ps : list (Z * entry)) : list (Z * entry) :=
  filter (λ p, expired now p.2 = false) ps.

Definition keyed (p : Z * entry) : string * Value := (format_i64 p.1, message p.2).

Lemma read_entries_step s0 now (ps : list (Z * entry)) s n q :
  standing s0 s n q → NoDup ps.*1 → (∀ p, p ∈ ps → q !! p.1 = Some p.2) → ∃ s',
    read_entries now (format_i64 <$> ps.*1) s = (Ok (keyed <$> alive now ps), s') ∧
    standing s0 s' n (without_ids (filter (λ p, expired now p.2 = true) ps).*1 q).
Proof.
  revert s q. induction ps as [|[id e] ps IH]; intros s q Hs Hnd Hps; [by exists s|].
  rewrite fmap_cons in Hnd. apply NoDup_cons in Hnd as [Hid Hnd]. cbn [fst] in Hid.
  assert (He : q !! id = Some e) by (apply (Hps (id, e)); by apply elem_of_cons; left).
  destruct (read_entry_step s0 s n q now id e Hs He) as (s1 & E1 & Hs1).
  destruct (IH s1 _ Hs1 Hnd) as (s2 & E2 & Hs2).
  { intros p Hp. destruct (expired now e); [|apply Hps; by apply elem_of_cons; right].
    rewrite lookup_delete_ne; [apply Hps; by apply elem_of_cons; right|].
    intros ->. apply Hid. by apply (list_elem_of_fmap_2 fst). }
  exists s2. split.
  - rewrite !fmap_cons. cbn [read_entries]. unfold mbind, StateM_bind. cbn [fst]. rewrite E1, E2.
    unfold alive. rewrite filter_cons. cbn [snd].
    destruct (expired now e); [by rewrite decide_False by done|by rewrite decide_True by done].
  - rewrite filter_cons. cbn [snd]. destruct (expired now e).
    + rewrite decide_True by done. rewrite fmap_cons. cbn [fst]. rewrite <-without_ids_cons; [done|].
      intros Hin. apply Hid. apply list_elem_of_fmap in Hin as (p & -> & [_ Hp]%list_elem_of_filter).
      by apply (list_elem_of_fmap_2 fst).
    + by rewrite decide_False by done.
Qed.

Lemma deliver_loop_step s0 handler (ps : list (Z * entry)) s n q :
  standing s0 s n q → NoDup ps.*1 → (∀ p, p ∈ ps → q !! p.1 = Some p.2) → ∃ s',
    deliver_loop handler (keyed <$> ps) s = (Ok (message <$> ps.*2), s') ∧
    standing s0 s' n (without_ids (filter (λ p, handler (message p.2) = true) ps).*1 q).
Proof.
  revert s q. induction ps as [|[id e] ps IH]; intros s q Hs Hnd Hps; [by exists s|].
  rewrite fmap_cons in Hnd. apply NoDup_cons in Hnd as [Hid Hnd]. cbn [fst] in Hid.
  assert (He : q !! id = Some e) by (apply (Hps (id, e)); by apply elem_of_cons; left).
  assert (H1 : ∃ s1, (if handler (message e) then delete_entry (format_i64 id) ≫= λ _, mret tt else mret tt) s
      = (Ok tt, s1) ∧ standing s0 s1 n (if handler (message e) then delete id q else q)).
  { destruct (handler (message e)); [|by exists s].
    destruct (delete_entry_step s0 s n q id e Hs He) as (s1 & E1 & Hs1). exists s1.
    split; [|done]. unfold mbind, StateM_bind. by rewrite E1. }
  destruct H1 as (s1 & E1 & Hs1).
  destruct (IH s1 _ Hs1 Hnd) as (s2 & E2 & Hs2).
  { intros p Hp. destruct (handler (message e)); [|apply Hps; by apply elem_of_cons; right].
    rewrite lookup_delete_ne; [apply Hps; by apply elem_of_cons; right|].
    intros ->. apply Hid. by apply (list_elem_of_fmap_2 fst). }
  exists s2. split.
  - rewrite !fmap_cons. cbn [keyed deliver_loop fst snd]. unfold mbind at 1, StateM_bind at 1. rewrite E1.
    unfold mbind, StateM_bind. by rewrite E2.
  - rewrite filter_cons. cbn [snd]. destruct (handler (message e)).
    + rewrite decide_True by done. rewrite fmap_cons. cbn [fst]. rewrite <-without_ids_cons; [done|].
      intros Hin. apply Hid. apply list_elem_of_fmap in Hin as (p & -> & [_ Hp]%list_elem_of_filter).
      by apply (list_elem_of_fmap_2 fst).
    + by rewrite decide_False by done.
Qed.

(** [ps] lists the entries with a property. *)
Definition lists (P : entry → bool) (q : gmap Z entry) (ps : list (Z * entry)) : Prop :=
  NoDup ps.*1 ∧ ∀ p, p ∈ ps ↔ q !! p.1 = Some p.2 ∧ P p.2 = true.

Lemma lists_filter P R q ps :
  lists P q ps → lists (λ e, P e && R e) q (filter (λ p, R p.2 = true) ps).
Proof.
  intros [Hnd Hin]. split.
  - clear Hin. induction ps as [|p ps IH]; [done|]. rewrite fmap_cons in Hnd.
    apply NoDup_cons in Hnd as [Hp Hnd]. rewrite filter_cons. case_decide; [|by apply IH].
    rewrite fmap_cons. apply NoDup_cons. split; [|by apply IH].
    intros Hp'. apply Hp. apply list_elem_of_fmap in Hp' as (p' & -> & [_ Hp']%list_elem_of_filter).
    by apply (list_elem_of_fmap_2 fst).
  - intros p. rewrite list_elem_of_filter, Hin, andb_true_iff. tauto.
Qed.

Lemma lists_ids P q ps id e : lists P q ps → q !! id = Some e → id ∈ ps.*1 ↔ P e = true.
Proof.
  intros [_ Hin] He. split.
  - intros (p & -> & Hp)%list_elem_of_fmap. apply Hin in Hp as [Hq HP]. congruence.
  - intros HP. apply (list_elem_of_fmap_2 fst ps (id, e)). by apply Hin.
Qed.

Lemma lists_without P q ps : lists P q ps → without_ids ps.*1 q = filter (λ p, P p.2 = false) q.
Proof. intros Hps. apply without_ids_filter. intros id e. by apply lists_ids. Qed.

Lemma lists_perm P q ps : lists P q ps → ps ≡ₚ map_to_list (filter (λ p, P p.2 = true) q).
Proof.
  intros [Hnd Hin]. apply NoDup_Permutation; [by eapply NoDup_fmap_1|apply NoDup_map_to_list|].
  intros [id e]. by rewrite elem_of_map_to_list, map_lookup_filter_Some, Hin.
Qed.

Lemma entries_lists P q ps : entries_of P q ps → lists P q ps.
Proof. intros Hps. split; [by eapply entries_nodup|]. intros p. by apply elem_of_entries. Qed.

(** Those that are due and alive, once the expired ones are gone. *)
Lemma lists_alive now q ps :
  lists (due now) q ps →
  lists (λ e, due now e && negb (expired now e)) q (alive now ps) ∧
  lists (due now) (without_ids (filter (λ p, expired now p.2 = true) ps).*1 q) (alive now ps).
Proof.
  intros Hps.
  assert (Ha : lists (λ e, due now e && negb (expired now e)) q (alive now ps)).
  { unfold alive. replace (filter (λ p, expired now p.2 = false) ps)
      with (filter (λ p, negb (expired now p.2) = true) ps); [by apply lists_filter|].
    apply list_filter_iff. intros p. by rewrite negb_true_iff. }
  split; [done|]. split; [apply Ha|]. intros p.
  rewrite (proj2 Ha p), (lists_without _ _ _ (lists_filter _ (expired now) _ _ Hps)).
  rewrite map_lookup_filter_Some. cbn [snd]. destruct (due now p.2), (expired now p.2); cbn [andb negb]; intuition.
Qed.

Lemma redis_fetch_step s0 s n q now :
  standing s0 s n q → (0 ≤ now)%Z → ∃ ps s',
    get_delivery_messages now s = (Ok (keyed <$> ps), s') ∧
    lists (λ e, due now e && negb (expired now e)) q ps ∧
    let q' := filter (λ p, due now p.2 && expired now p.2 = false) q in
    lists (due now) q' ps ∧ standing s0 s' n q'.
Proof.
  intros Hs Hn. destruct (conn_standing s0 s n q Hs) as (s1 & E1 & Hs1).
  destruct (ly_schedule _ _ _ _ (st_layout _ _ _ _ Hs1)) as (z & Hz & _).
  destruct (zrange_step s1 (λ s, schedule_key s) now z (st_reachable _ _ _ _ Hs1) Hz) as (l & s2 & E2 & Hl & A2).
  destruct (schedule_members s1 _ n q now z l (st_layout _ _ _ _ Hs1) Hn Hz Hl) as (ids & -> & Hids).
  assert (Hs2 : standing s0 s2 n q).
  { eapply after_standing; [exact Hs1|exact A2|]. by apply (st_layout _ _ _ _ Hs1). }
  apply ids_entries in Hids as (ps & -> & Hps). apply entries_lists in Hps.
  destruct (read_entries_step s0 now ps s2 n q Hs2 (proj1 Hps)) as (s3 & E3 & Hs3).
  { intros p Hp. by apply (proj2 Hps). }
  destruct (lists_alive now q ps Hps) as [Ha Ha'].
  rewrite (lists_without _ _ _ (lists_filter _ (expired now) _ _ Hps)) in Ha', Hs3.
  exists (alive now ps), s3. split; [|by split_and!].
  unfold get_delivery_messages. unfold mbind, StateM_bind. by rewrite E1, E2.
Qed.

Lemma deliver_tick_step s0 handler s n q now :
  standing s0 s n q → (0 ≤ now)%Z → ∃ l s',
    tick_deliver now handler s = (Ok l, s') ∧
    l ≡ₚ message <$> among (λ e, due now e && negb (expired now e)) (n, q) ∧
    standing s0 s' n (leave (λ e, due now e && (expired now e || handler (message e))) (n, q)).2.
Proof.
  intros Hs Hn. destruct (redis_fetch_step s0 s n q now Hs Hn) as (ps & s3 & E3 & Ha & Ha' & Hs3).
  destruct (deliver_loop_step s0 handler ps s3 n _ Hs3 (proj1 Ha')) as (s4 & E4 & Hs4).
  { intros p Hp. by apply (proj2 Ha'). }
  exists (message <$> ps.*2), s4. split; [|split].
  - unfold tick_deliver, mbind, StateM_bind, attempt. by rewrite E3.
  - unfold among. cbn [snd]. by rewrite (lists_perm _ _ _ Ha).
  - cbn [leave fst snd]. revert Hs4.
    rewrite (lists_without _ _ _ (lists_filter _ (λ e, handler (message e)) _ _ Ha')).
    rewrite map_filter_filter. intros Hs4.
    match type of Hs4 with standing _ _ _ ?x => replace (filter _ q) with x; [exact Hs4|] end.
    apply map_filter_ext. intros id e _. cbn [snd].
    destruct (due now e), (expired now e), (handler (message e)); cbn; intuition.
Qed.

(** ** Cancelling and replacing *)

Lemma redis_cancel_step s0 s n q c :
  standing s0 s n q → str_field c "message_id" ≠ "" → ∃ s',
    cancel_message c s = (Ok (bool_decide (among (has_id_of c) (n, q) ≠ [])), s') ∧
    standing s0 s' n (leave (has_id_of c) (n, q)).2.
Proof.
  intros Hs Hc. destruct (conn_standing s0 s n q Hs) as (s1 & E1 & Hs1).
  destruct (ly_msgid _ _ _ _ (st_layout _ _ _ _ Hs1) (str_field c "message_id")) as (z & Hz & _).
  destruct (smembers_step s1 (λ s, msgid_key s (str_field c "message_id")) z (st_reachable _ _ _ _ Hs1) Hz)
    as (l & s2 & E2 & Hl & A2).
  destruct (msgid_members s1 _ n q c z l (st_layout _ _ _ _ Hs1) Hz Hl) as (ids & -> & Hids).
  assert (Hs2 : standing s0 s2 n q).
  { eapply after_standing; [exact Hs1|exact A2|]. by apply (st_layout _ _ _ _ Hs1). }
  destruct (cancel_entries_step s0 ids s2 n q Hs2 (proj1 Hids)) as (s3 & E3 & Hs3).
  { intros id. by apply (ids_of_some _ _ _ _ Hids). }
  exists s3. split.
  - unfold cancel_message, is_empty_str. rewrite bool_decide_false by done.
    unfold mbind, StateM_bind. rewrite E1, E2, E3. do 2 f_equal. apply bool_decide_ext.
    apply ids_entries in Hids as (ps & -> & Hps). unfold among. cbn [snd]. unfold entries_of in Hps.
    assert (Hlen : length ps = length (map_to_list (filter (λ p : Z * entry, has_id_of c p.2 = true) q)))
      by (by rewrite Hps).
    destruct ps, (map_to_list _); done.
  - eapply leave_standing; [exact Hs3|]. intros id e. by apply ids_of_iff.
Qed.

Lemma replaced_message_object c m : ∃ m', replaced_message c (JObject m) = Ok (JObject m').
Proof.
  unfold replaced_message, copy_field.
  repeat (match goal with |- context [match get c ?k with _ => _ end] => destruct (get c k) end;
          cbn [index_set mbind outcome_bind]); by eexists.
Qed.

Lemma replace_entries_step s0 c ids s n q :
  standing s0 s n q → (∀ id, id ∈ ids → is_Some (q !! id)) → ∃ s',
    replace_entries c (format_i64 <$> ids) s = (Ok tt, s') ∧ standing s0 s' n q.
Proof.
  revert s. induction ids as [|id ids IH]; intros s Hs Hin; [by exists s|].
  destruct (Hin id) as [e He]; [by apply elem_of_cons; left|].
  pose proof (st_layout _ _ _ _ Hs) as L. pose proof (ly_good _ _ _ _ L id e He) as Hg.
  destruct (ly_entry _ _ _ _ L id e He) as (h & Hh & _ & _ & H3 & _).
  destruct (hmget_step s (λ s, entry_key s (format_i64 id)) ["message"] h
    [json_to_string (message e)] (st_reachable _ _ _ _ Hs) Hh) as (s1 & E1 & A1); [cbn; by rewrite H3|].
  assert (Hs1 : standing s0 s1 n q) by (by eapply after_standing).
  destruct (IH s1 Hs1) as (s2 & E2 & Hs2); [intros; apply Hin; by apply elem_of_cons; right|].
  exists s2. split; [|done]. cbn [fmap list_fmap replace_entries].
  unfold mbind at 1, StateM_bind at 1. rewrite E1, json_from_to_string by apply Hg.
  destruct (good_object _ Hg) as [m Hm]. rewrite Hm.
  destruct (replaced_message_object c m) as (m' & ->). unfold mbind, StateM_bind, lift. cbn. exact E2.
Qed.

Lemma redis_replace_step s0 s n q c :
  standing s0 s n q → str_field c "message_id" ≠ "" → ∃ s',
    replace_message c s = (Ok false, s') ∧ standing s0 s' n q.
Proof.
  intros Hs Hc. destruct (conn_standing s0 s n q Hs) as (s1 & E1 & Hs1).
  destruct (ly_msgid _ _ _ _ (st_layout _ _ _ _ Hs1) (str_field c "message_id")) as (z & Hz & _).
  destruct (smembers_step s1 (λ s, msgid_key s (str_field c "message_id")) z (st_reachable _ _ _ _ Hs1) Hz)
    as (l & s2 & E2 & Hl & A2).
  destruct (msgid_members s1 _ n q c z l (st_layout _ _ _ _ Hs1) Hz Hl) as (ids & -> & Hids).
  assert (Hs2 : standing s0 s2 n q).
  { eapply after_standing; [exact Hs1|exact A2|]. by apply (st_layout _ _ _ _ Hs1). }
  destruct (replace_entries_step s0 c ids s2 n q Hs2) as (s3 & E3 & Hs3).
  { intros id. by apply (ids_of_some _ _ _ _ Hids). }
  exists s3. split; [|done]. unfold replace_message, is_empty_str. rewrite bool_decide_false by done.
  unfold mbind, StateM_bind. by rewrite E1, E2, E3.
Qed.

(** ** Saving *)

(** The message can be stored, with times that can be compared. *)
Record storable (dflt : N) (now : Z) (m : Value) : Prop := {
  so_plain : plain json_depth m = true;
  so_schedule : ∀ t, get_schedule_delivery_time now m = Ok t → in_calendar t;
  so_validity : ∀ t, get_validity_period now m dflt = Ok t → in_calendar t;
}.

Lemma redis_save_step s0 s n q now id m :
  standing s0 s n q → storable (default_validity_period s0) now m → (n + 1 < 2 ^ 63)%Z → ∃ s',
    save now id m s = ((redis_save (default_validity_period s0) now id m (n, q)).1, s') ∧
    let q' := (redis_save (default_validity_period s0) now id m (n, q)).2 in standing s0 s' q'.1 q'.2.
Proof.
  intros Hs [Hp Hsc Hva] Hb. unfold save, redis_save. cbv zeta.
  destruct (is_empty_str (str_field m "destination_addr")) eqn:Ed; [by exists s|].
  rewrite (st_default _ _ _ _ Hs).
  destruct (ok_option (get_schedule_delivery_time now m)) as [sched|e|] eqn:Es; [|by exists s..].
  unfold mbind, StateM_bind, outcome_bind. cbn [lift].
  destruct (match sched with Some time => (time <? now)%Z | None => false end); [by exists s|].
  destruct (ok_option (get_validity_period now m _)) as [valid|e|] eqn:Ev; [|by exists s..].
  assert (Hg : good (mkEntry id m sched valid)).
  { split; cbn [message schedule validity].
    - done.
    - destruct m as [| | | | |m]; try done. by exists m.
    - intros t ->. apply Hsc. by eapply ok_option_some.
    - intros t ->. apply Hva. by eapply ok_option_some. }
  destruct (store_entry_step s0 s n q _ Hs Hg Hb) as (s' & E & Hs').
  cbn [message schedule validity message_id] in E.
  destruct sched, valid; [exists s'; split; [exact E|exact Hs']..|by exists s].
Qed.

(** ** The refinement *)

Definition run_redis (handler : Value → bool) (o : op) (s : t K) : result * t K :=
  match o with
  | Save now id m => let '(r, s) := save now id m s in (Done r, s)
  | CancelSm c => let '(r, s) := cancel_message c s in (Answer r, s)
  | ReplaceSm _ c => let '(r, s) := replace_message c s in (Answer r, s)
  | CleanTick now => let '(r, s) := tick_clean now s in (Done r, s)
  | DeliverTick now => let '(r, s) := tick_deliver now handler s in (Handed r, s)
  end.

Fixpoint run_redis_ops (handler : Value → bool) (ops : list op) (s : t K) : list result * t K :=
  match ops with
  | [] => ([], s)
  | o :: ops' =>
      let '(r, s) := run_redis handler o s in
      let '(rs, s) := run_redis_ops handler ops' s in (r :: rs, s)
  end.

(** What is saved can be stored, and the clock is past 1970. *)
Definition redis_op_ok (dflt : N) (o : op) : Prop :=
  match o with
  | Save now _ m => storable dflt now m
  | DeliverTick now => (0 ≤ now)%Z
  | _ => True
  end.

Lemma redis_op_step handler s0 s q o :
  standing s0 s q.1 q.2 → redis_op_ok (default_validity_period s0) o → (q.1 + 1 < 2 ^ 63)%Z →
  same_result (run_redis handler o s).1 (redis_op (default_validity_period s0) handler o q).1 ∧
  let q' := (redis_op (default_validity_period s0) handler o q).2 in
  standing s0 (run_redis handler o s).2 q'.1 q'.2 ∧ (q'.1 ≤ q.1 + 1)%Z.
Proof.
  intros Hs Ho Hb. destruct q as [n q]. cbn [fst snd] in Hs, Hb.
  assert (Hne : ∀ c k, is_empty_str (str_field c k) = false → str_field c k ≠ "").
  { intros c k. unfold is_empty_str. by intros ?%bool_decide_eq_false. }
  destruct o as [now id m|c|now c|now|now]; cbn [run_redis redis_op redis_op_ok] in *.
  - destruct (redis_save_step s0 s n q now id m Hs Ho Hb) as (s' & -> & Hs').
    destruct (redis_save _ now id m (n, q)) as [r q'] eqn:E. cbn [fst snd] in *. split_and!; [done..|].
    revert E. unfold redis_save. repeat (case_match; try (intros [= <- <-]; cbn; lia)).
  - destruct (is_empty_str (str_field c "message_id")) eqn:E.
    + unfold cancel_message. rewrite E. cbn. split_and!; [done..|lia].
    + destruct (redis_cancel_step s0 s n q c Hs (Hne _ _ E)) as (s' & -> & Hs').
      cbn. split_and!; [done..|lia].
  - destruct (is_empty_str (str_field c "message_id")) eqn:E.
    + unfold replace_message. rewrite E. cbn. split_and!; [done..|lia].
    + destruct (redis_replace_step s0 s n q c Hs (Hne _ _ E)) as (s' & -> & Hs').
      cbn. split_and!; [done..|lia].
  - destruct (clean_tick_step s0 s n q now Hs) as (s' & -> & Hs'). cbn [fst snd leave]. split_and!; [done..|lia].
  - destruct (deliver_tick_step s0 handler s n q now Hs Ho) as (l & s' & -> & Hl & Hs').
    cbn [fst snd leave same_result]. split_and!; [done..|lia].
Qed.

(** C7: the Redis storage is a queue. Over any sequence of operations, on any server that
    means what Redis documents, the results are those of the operations on a map from
    entry ids to messages, and the keys stand for the map they leave. In that map
    replace_sm changes nothing and is answered with false, and a message is handed over when
    it is due and has not expired, until the handler accepts it. *)
Theorem redis_refines_queue handler ops s0 s q :
  standing s0 s q.1 q.2 → Forall (redis_op_ok (default_validity_period s0)) ops →
  (q.1 + Z.of_nat (length ops) < 2 ^ 63)%Z →
  Forall2 same_result (run_redis_ops handler ops s).1
    (redis_run (default_validity_period s0) handler ops q).1 ∧
  let q' := (redis_run (default_validity_period s0) handler ops q).2 in
  standing s0 (run_redis_ops handler ops s).2 q'.1 q'.2.
Proof.
  intros Hs Ho. revert s q Hs. induction Ho as [|o ops Ho _ IH]; intros s q Hs Hb; [by split|].
  cbn [length] in Hb. cbn [run_redis_ops redis_run].
  destruct (redis_op_step handler s0 s q o Hs Ho) as (Hr & Hs' & Hn); [lia|].
  destruct (run_redis handler o s) as [r s1], (redis_op _ handler o q) as [r' q1]. cbn [fst snd] in *.
  destruct (IH s1 q1 Hs') as [Hrs Hs2]; [lia|].
  destruct (run_redis_ops handler ops s1), (redis_run _ handler ops q1). cbn [fst snd] in *.
  by split; [constructor|].
Qed.

End refinement.
