(* ===== verification/RedisWitnesses.v ===== *)
(** * A Redis server, and a run of the storage on it

    A keyspace in memory that meets the laws of [RedisServer], and the refinement at a
    concrete sequence of operations. *)
From S2P Require Import Witnesses SqlInstance RedisRefinement.
Import RedisMessageStorage.

Definition wrong_type {A} : outcome string A := Err "WRONGTYPE".

Definition rd_hmget (key : string) (fields : list string) (k : keyspace) :
    outcome string (list string) * keyspace :=
  (match hash_at k key with
   | Some h => match mapM (h !!.) fields with Some values => Ok values | None => Err "nil" end
   | None => wrong_type
   end, k).

Definition rd_hset (key : string) (values : list (string * string)) (k : keyspace) :
    outcome string unit * keyspace :=
  match hash_at k key with
  | Some h => (Ok tt, <[key := RHash (foldl (λ h p, <[p.1 := p.2]> h) h values)]> k)
  | None => (wrong_type, k)
  end.

Definition rd_incr (key : string) (k : keyspace) : outcome string Z * keyspace :=
  match int_at k key with
  | Some n => (Ok (n + 1)%Z, <[key := RInt (n + 1)]> k)
  | None => (wrong_type, k)
  end.

Definition rd_read {A B} (view : keyspace → string → option A) (f : A → B) (key : string) (k : keyspace) :
    outcome string B * keyspace :=
  (match view k key with Some a => Ok (f a) | None => wrong_type end, k).

Definition rd_pipe (us : list update) (k : keyspace) : outcome string unit * keyspace :=
  match apply_updates us k with Some k' => (Ok tt, k') | None => (wrong_type, k) end.

Definition rd_range (max : Z) (z : gmap string Z) : list string :=
  (map_to_list (filter (λ p, (p.2 ≤ max)%Z) z)).*1.

#[export, refine] Instance memory_redis : RedisServer keyspace := {
  keys k := k;
  reachable _ := True;
  get_connection k := (Ok tt, k);
  ping k := (Ok tt, k);
  hmget := rd_hmget;
  hset := rd_hset;
  incr := rd_incr;
  smembers := rd_read set_at elements;
  scard := rd_read set_at (λ s, Z.of_nat (size s));
  zrangebyscore key max := rd_read zset_at (rd_range max) key;
  pipe := rd_pipe;
}.
Proof.
  - intros k _. by exists k.
  - intros key fields k h _ Hh. unfold rd_hmget. rewrite Hh.
    destruct (mapM (h !!.) fields); eexists _, _; (split; [reflexivity|]); split_and!; try done. by eexists.
  - intros key values k h _ Hh _. unfold rd_hset. rewrite Hh. by eexists.
  - intros key k n _ Hn _. unfold rd_incr. rewrite Hn. by eexists.
  - intros key k s _ Hs. unfold rd_read. rewrite Hs. eexists _, _. split; [reflexivity|]. by split_and!.
  - intros key k s _ Hs. unfold rd_read. rewrite Hs. by eexists.
  - intros key max k z _ Hz. unfold rd_read. rewrite Hz. eexists _, _. split; [reflexivity|]. split_and!; try done. unfold up_to, rd_range. done.
  - intros us k ks _ Hu. unfold rd_pipe. rewrite Hu. by eexists.
Defined.

Definition redis_empty : t keyspace := mk ∅ "mq" 3600.

Definition redis_sms (sched text : string) : Value :=
  JObject [("destination_addr", JString "49"); ("schedule_delivery_time", JString sched);
           ("short_message", JString text)].

Definition redis_request (id : string) : Value :=
  JObject [("message_id", JString id); ("short_message", JString "hi")].

(** "m2" is for five minutes later; replacing "m1" has no effect. *)
Definition redis_ops : list op :=
  [Save 1000 "m1" (redis_sms "" "hello"); Save 1000 "m2" (redis_sms "000000000500000R" "later");
   Save 1000 "m3" (redis_sms "000000000500000R" "never"); ReplaceSm 2000 (redis_request "m1");
   CancelSm (redis_request "m3"); DeliverTick 3000; DeliverTick 301000; CleanTick 10000000].

Definition redis_results : list result :=
  [Done (Ok tt); Done (Ok tt); Done (Ok tt); Answer (Ok false); Answer (Ok true);
   Handed (Ok [redis_sms "" "hello"]); Handed (Ok [redis_sms "000000000500000R" "later"]); Done (Ok tt)].

Lemma redis_empty_standing : standing redis_empty redis_empty 0 ∅.
Proof.
  assert (Hnone : ∀ id e, (∅ : gmap Z entry) !! id = Some e → False) by (intros id e; by rewrite lookup_empty).
  split; [exact I|reflexivity..|]. split.
  - done.
  - done.
  - intros id [e He]. by apply Hnone in He.
  - intros id e He. by apply Hnone in He.
  - intros text. by eexists.
  - intros id e He. by apply Hnone in He.
  - intros mid. exists ∅. split; [done|]. intros text. split.
    + intros H. by apply elem_of_empty in H.
    + intros (id & e & _ & He & _). by apply Hnone in He.
  - intros a. by eexists.
  - exists ∅. split; [done|]. intros text x. rewrite lookup_empty. split; [done|].
    intros (id & e & _ & He & _). by apply Hnone in He.
  - exists ∅. split; [done|]. intros text x. rewrite lookup_empty. split; [done|].
    intros (id & e & _ & He & _). by apply Hnone in He.
Qed.

Lemma redis_storable now m :
  plain json_depth m = true →
  match get_schedule_delivery_time now m with Ok t => in_days t | _ => True end →
  match get_validity_period now m 3600 with Ok t => in_days t | _ => True end → storable 3600 now m.
Proof.
  intros Hp Hs Hv. split; [done|..].
  - intros x Hx. by rewrite Hx in Hs.
  - intros x Hx. by rewrite Hx in Hv.
Qed.

Lemma redis_ops_ok : Forall (redis_op_ok 3600) redis_ops.
Proof.
  unfold redis_ops. repeat (apply Forall_cons; split); try apply Forall_nil_2; cbn [redis_op_ok];
    try exact I; try lia;
    apply redis_storable; vm_compute; first [reflexivity|exact I|done].
Qed.

Lemma redis_refines_queue_witness :
  Forall2 same_result (run_redis_ops (λ _, true) redis_ops redis_empty).1 redis_results ∧
  standing redis_empty (run_redis_ops (λ _, true) redis_ops redis_empty).2 3 ∅.
Proof.
  assert (E : redis_run 3600 (λ _, true) redis_ops (0%Z, ∅) = (redis_results, (3%Z, ∅)))
    by (vm_compute; reflexivity).
  pose proof (redis_refines_queue (λ _, true) redis_ops redis_empty redis_empty (0%Z, ∅)
    redis_empty_standing redis_ops_ok ltac:(cbn; lia)) as H. cbn [default_validity_period redis_empty] in H.
  rewrite E in H. exact H.
Defined.
