(* ===== verification/StorageFactory.v ===== *)
(** * Choosing a storage (src/message_storage.rs, [create_message_storage])

    The storage of a configuration, and the in-memory storage when it cannot be set up. The
    trait object is a sum over the four implementations. *)
From S2P Require Export SqlStorage RedisStorage RabbitStorage MemoryStorageProps.

(** [Box<dyn MessageStorage>] *)
Inductive any_storage (D K B : Type) : Type :=
| InMemoryStorage (s : InMemoryMessageStorage.t)
| SqlStorage (s : SqlMessageStorage.t D)
| RedisStorage (s : RedisMessageStorage.t K)
| RabbitStorage (s : RabbitMqMessageStorage.t B).
Arguments InMemoryStorage {D K B}. Arguments SqlStorage {D K B}.
Arguments RedisStorage {D K B}. Arguments RabbitStorage {D K B}.

Section factory.
Context {D K B : Type} `{SqlDatabase D, RedisServer K, AmqpBroker B}.

(** What the connecting calls of sqlx, redis and lapin give. *)
Variable connect_sql : string → option N → outcome string D.
Variable open_redis : string → outcome string K.
Variable connect_amqp : string → string → outcome string B.

(** [match new(..) { Ok(s) => s, Err(e) => InMemoryMessageStorage::new(..) }] *)
Definition or_memory {A} (default_validity_period : N) (wrap : A → any_storage D K B) (r : ioresult A) :
    outcome string (any_storage D K B) :=
  match r with
  | Ok s => Ok (wrap s)
  | Err _ => Ok (InMemoryStorage (InMemoryMessageStorage.new default_validity_period))
  | Panic => Panic
  end.

Definition create_message_storage (mq_config : MessageStorageConfig.t) (default_validity_period : N) :
    outcome string (any_storage D K B) :=
  let sql db_path :=
    or_memory default_validity_period SqlStorage
      (SqlMessageStorage.new connect_sql db_path default_validity_period) in
  match mq_config with
  | MessageStorageConfig.Redis url key_prefix =>
      or_memory default_validity_period RedisStorage
        (RedisMessageStorage.new open_redis url key_prefix default_validity_period)
  | MessageStorageConfig.RabbitMQ url queue_name =>
      or_memory default_validity_period RabbitStorage
        (RabbitMqMessageStorage.new connect_amqp url queue_name default_validity_period)
  | MessageStorageConfig.Sqlite db_path => sql ("sqlite://" +:+ db_path)
  | MessageStorageConfig.Postgres url => sql url
  | MessageStorageConfig.MySQL url => sql url
  | MessageStorageConfig.InMemory => sql "sqlite::memory:"
  end.

(** The in-memory storage is only what is left when a connection fails: configured as such
    it is SQLite in memory, over a pool of one connection. *)
Lemma in_memory_is_sqlite dflt d n d' :
  connect_sql "sqlite::memory:" (Some 1%N) = Ok d →
  execute (create_table_ddl "sqlite::memory:") [] d = (Ok n, d') →
  create_message_storage MessageStorageConfig.InMemory dflt = Ok (SqlStorage (SqlMessageStorage.mk d' dflt)).
Proof.
  intros Hc He. unfold create_message_storage, SqlMessageStorage.new.
  replace (SqlMessageStorage.max_connections "sqlite::memory:") with (Some 1%N) by (vm_compute; reflexivity).
  rewrite Hc. cbn [map_err mbind outcome_bind]. by rewrite He.
Qed.

(** Whatever fails, there is a storage. *)
Lemma some_storage mq_config dflt :
  (∀ url n, connect_sql url n ≠ Panic) → (∀ text binds d, (execute text binds d).1 ≠ Panic) →
  (∀ url, open_redis url ≠ Panic) → (∀ k, (get_connection k).1 ≠ Panic) → (∀ k, (ping k).1 ≠ Panic) →
  (∀ url name, connect_amqp url name ≠ Panic) →
  ∃ s, create_message_storage mq_config dflt = Ok s.
Proof.
  intros Hsql Hex Hred Hconn Hping Hamqp.
  assert (Hm : ∀ A (wrap : A → any_storage D K B) r, r ≠ Panic → ∃ s, or_memory dflt wrap r = Ok s).
  { intros A wrap r Hr. destruct r; [by eexists..|done]. }
  assert (Hs : ∀ url, SqlMessageStorage.new connect_sql url dflt ≠ Panic).
  { intros url. unfold SqlMessageStorage.new.
    specialize (Hsql url (SqlMessageStorage.max_connections url)). destruct (connect_sql _ _) as [d|e|]; [|done..].
    cbn [map_err mbind outcome_bind]. specialize (Hex (create_table_ddl url) [] d).
    destruct (execute _ _ d) as [[n|e|] d']; done. }
  destruct mq_config; cbn [create_message_storage]; try (by apply Hm); apply Hm.
  - unfold RedisMessageStorage.new. specialize (Hred url). destruct (open_redis url) as [k|e|]; [|done..].
    cbn [map_err mbind outcome_bind]. specialize (Hconn k). destruct (get_connection k) as [[[]|e|] k']; try done.
    cbn [map_err mbind outcome_bind]. specialize (Hping k'). destruct (ping k') as [[[]|e|] k'']; done.
  - unfold RabbitMqMessageStorage.new. specialize (Hamqp url queue_name).
    by destruct (connect_amqp url queue_name).
Qed.

End factory.

(** ** The storage behind the trait object *)

(** The iteration order of the map of messages: arbitrary. *)
Class MessageOrder := {
  message_keys : InMemoryMessageStorage.t → list string;
  message_keys_iterate : ∀ s, iterates (message_keys s) s;
}.

(** The in-memory storage as the server uses it: a failed or panicking call leaves it alone. *)
Definition memory_save `{Chrono} (now : Z) (id : string) (m : Value) (s : InMemoryMessageStorage.t) :
    ioresult unit * InMemoryMessageStorage.t :=
  match InMemoryMessageStorage.save now id m s with
  | Ok s' => (Ok tt, s') | Err e => (Err e, s) | Panic => (Panic, s)
  end.

Definition memory_replace `{Chrono} (now : Z) (c : Value) (s : InMemoryMessageStorage.t) :
    ioresult bool * InMemoryMessageStorage.t :=
  match InMemoryMessageStorage.replace_message now c s with
  | Ok (b, s') => (Ok b, s') | Err e => (Err e, s) | Panic => (Panic, s)
  end.

Definition memory_cancel `{MessageOrder} (c : Value) (s : InMemoryMessageStorage.t) :
    ioresult bool * InMemoryMessageStorage.t :=
  let '(b, s') := InMemoryMessageStorage.cancel_message (message_keys s) c s in (Ok b, s').

(** The same computation on the storage inside. *)
Definition inside_storage {T U A} (wrap : U → T) (r : ioresult A * U) : ioresult A * T :=
  (r.1, wrap r.2).

#[export] Instance any_storage_methods {D K B} `{SqlDatabase D, RedisServer K, AmqpBroker B, JsonText,
    Rfc3339, Chrono, MessageOrder} : MessageStorage (any_storage D K B) := {
  st_save now id m s :=
    match s with
    | InMemoryStorage s => inside_storage InMemoryStorage (memory_save now id m s)
    | SqlStorage s => inside_storage SqlStorage (SqlMessageStorage.storage.(st_save) now id m s)
    | RedisStorage s => inside_storage RedisStorage (RedisMessageStorage.storage.(st_save) now id m s)
    | RabbitStorage s => inside_storage RabbitStorage (RabbitMqMessageStorage.storage.(st_save) now id m s)
    end;
  st_cancel c s :=
    match s with
    | InMemoryStorage s => inside_storage InMemoryStorage (memory_cancel c s)
    | SqlStorage s => inside_storage SqlStorage (SqlMessageStorage.storage.(st_cancel) c s)
    | RedisStorage s => inside_storage RedisStorage (RedisMessageStorage.storage.(st_cancel) c s)
    | RabbitStorage s => inside_storage RabbitStorage (RabbitMqMessageStorage.storage.(st_cancel) c s)
    end;
  st_replace now c s :=
    match s with
    | InMemoryStorage s => inside_storage InMemoryStorage (memory_replace now c s)
    | SqlStorage s => inside_storage SqlStorage (SqlMessageStorage.storage.(st_replace) now c s)
    | RedisStorage s => inside_storage RedisStorage (RedisMessageStorage.storage.(st_replace) now c s)
    | RabbitStorage s => inside_storage RabbitStorage (RabbitMqMessageStorage.storage.(st_replace) now c s)
    end;
}.
