(* ===== verification/Delivery.v ===== *)
(** * Delivery of stored messages

    The background task of a storage beside the server that set it up
    ([set_schedule_delivery_message_handler]): a tick takes the messages that are due out of
    the storage and hands each to the handler of the server (smsc_server.rs,
    [handle_schedule_delivery_message]), which forwards it to a connected client, and then
    tells the storage what became of it. [DeliveryLoop] is what the task asks of its storage;
    [WaitingQueue] is what a storage of a queue of messages promises, and the theorems on the
    server are proved against it. SqlDelivery.v and RedisDelivery.v show that the storages
    keep these promises. *)
From S2P Require Export ServerSteps QueueSpec.

(** ** The task *)

Class DeliveryLoop (S K : Type) := {
  (** [get_delivery_messages] *)
  dl_fetch : Z → S → ioresult (list (K * Value)) * S;
  (** The two branches after the handler. *)
  dl_accepted : K → S → ioresult unit * S;
  dl_refused : K → S → ioresult unit * S;
}.

(** What is left of the storage when all of [keys] were accepted, one after the other. *)
Fixpoint accept_all {S K} `{DeliveryLoop S K} (keys : list K) (s : S) : ioresult unit * S :=
  match keys with
  | [] => (Ok tt, s)
  | k :: rest =>
      match dl_accepted k s with
      | (Ok _, s) => accept_all rest s
      | (r, s) => (r, s)
      end
  end.

Section task.
Context {S K : Type} `{St : MessageStorage S, Dl : DeliveryLoop S K, B64 : Base64, Tlv : TlvOrder,
  Chr : Chrono, Reg : Regex, Gen : MessageIdGenerator, Ord : ClientOrder}.

Abbreviation M := (StateM (world S)).

(** [for (key, message) in values]; a panic of the handler ends the task. *)
Fixpoint deliver_values (env : Env) (values : list (K * Value)) : M unit :=
  match values with
  | [] => mret tt
  | (key, message) :: rest =>
      r ← attempt (handle_schedule_delivery_message env message);
      on_storage (match r with Ok _ => dl_accepted key | _ => dl_refused key end) ≫= λ _,
      deliver_values env rest
  end.

(** The delivery branch of the [select!]. *)
Definition delivery_tick (env : Env) : M unit :=
  values ← attempt (on_storage (dl_fetch (now env)));
  match values with
  | Ok values => deliver_values env values
  | _ => mret tt
  end.

(** ** What the handler does with one message *)

(** The commands that are forwarded; the others are dropped. *)
Definition forwards (message : Value) : bool :=
  match extract_command_id message with
  | Some (CommandId.SubmitSm | CommandId.DataSm) => true
  | _ => false
  end.

(** The first client for the address that takes the PDU. *)
Definition reached (env : Env) (c : ClientManager.t) (address : string) (b : bytes) :
    list (nat * bytes) :=
  match find (write_ok env) (ClientManager.get_writer client_iter address c) with
  | Some w => [(w, b)]
  | None => []
  end.

(** What is written for a message that is forwarded under number [n]. *)
Definition forwarded (env : Env) (c : ClientManager.t) (n : N) (message : Value) :
    list (nat * bytes) :=
  match get_str (as_deliver_sm n message) "destination_addr",
        from_json (as_deliver_sm n message) with
  | Some address, Ok m => reached env c address (SMPPMessage.to_vec m)
  | _, _ => []
  end.

(** What is written for messages one after the other, from number [n] on. *)
Fixpoint written (env : Env) (c : ClientManager.t) (n : N) (messages : list Value) :
    list (nat * bytes) :=
  match messages with
  | [] => []
  | m :: rest =>
      if forwards m then forwarded env c n m ++ written env c (cast_u32 (n + 1)) rest
      else written env c n rest
  end.

Fixpoint next_after (n : N) (messages : list Value) : N :=
  match messages with
  | [] => n
  | m :: rest => next_after (if forwards m then cast_u32 (n + 1) else n) rest
  end.

(** The deliver_sm made of the message can be encoded, whatever its number. *)
Definition encodable (message : Value) : Prop :=
  ∀ n, forwards message = true → ∃ m, from_json (as_deliver_sm n message) = Ok m.

(** The state after [sent] was written and [n] is the next number. *)
Definition handed_over (st : world S) (w : list (nat * bytes)) (n : N) (s : S) : world S :=
  mkWorld (clients st) n (id_counter st) s (sent st ++ w) (closed st) (spawned st) (responses st).

Lemma world_eta (st : world S) : handed_over st [] (next_sequence st) (storage st) = st.
Proof. unfold handed_over. rewrite app_nil_r. by destruct st. Qed.

Lemma handed_over_app st w n s w' n' s' :
  handed_over (handed_over st w n s) w' n' s' = handed_over st (w ++ w') n' s'.
Proof. unfold handed_over. cbn. by rewrite app_assoc. Qed.

Lemma client_send_reached env address b (st : world S) : ∃ r,
  attempt (client_send_message env address b) st
  = (Ok r, handed_over st (reached env (clients st) address b) (next_sequence st) (storage st)).
Proof.
  assert (Hkeep : handed_over st [] (next_sequence st) (storage st) = st) by apply world_eta.
  unfold attempt, client_send_message, reached.
  destruct (ClientManager.get_writer client_iter address (clients st)) as [|w ws]; cbn [find].
  - rewrite Hkeep. by eexists.
  - rewrite try_writers_spec. cbn [find].
    destruct (if write_ok env w then Some w else find (write_ok env) ws) as [w'|].
    + by eexists.
    + rewrite Hkeep. by eexists.
Qed.

(** The handler accepts every message it can encode, whether or not a client takes it. *)
Lemma handler_accepts env message (st : world S) :
  encodable message →
  handle_schedule_delivery_message env message st
  = (Ok tt, handed_over st (written env (clients st) (next_sequence st) [message])
              (next_after (next_sequence st) [message]) (storage st)).
Proof.
  intros He. unfold handle_schedule_delivery_message. cbn [written next_after].
  unfold forwards in *. specialize (He (next_sequence st)). unfold forwards in He.
  assert (Hnone : (Ok tt, st) = (Ok tt : ioresult unit, handed_over st [] (next_sequence st) (storage st)))
    by (by rewrite world_eta).
  destruct (extract_command_id message) as [c|]; [|exact Hnone].
  destruct c; try exact Hnone.
  all: destruct (He eq_refl) as (m & Hm); rewrite app_nil_r.
  all: unfold mbind, StateM_bind; cbn [next_sequence_number SequenceNumberAllocator.next].
  all: unfold forward_message_to_client, forwarded; rewrite Hm.
  all: set (st1 := mkWorld _ _ _ _ _ _ _ _).
  all: destruct (get_str (as_deliver_sm (next_sequence st) message) "destination_addr") as [a|];
    [|unfold attempt, mret, StateM_ret, handed_over; cbn; by rewrite app_nil_r].
  all: destruct (client_send_reached env a (SMPPMessage.to_vec m) st1) as [r Hr];
    unfold attempt at 1, mbind, StateM_bind; rewrite Hr; reflexivity.
Qed.

End task.

(** ** The interface of a queue of waiting messages *)

(** [keeps]: the state stands for a list of messages, in any order. [handed]: which of the due
    messages the storage hands over; those that are due and have not expired are among them.
    When some of them were accepted, the others and those that are not due are left. *)
Class WaitingQueue (S K : Type) `{Chrono, MessageStorage S, DeliveryLoop S K} := {
  keeps : S → list entry → Prop;
  clock : Z → Prop;
  savable_at : S → Z → Value → Prop;
  validity_default : S → N;
  handed : Z → entry → bool;
  keeps_perm : ∀ s q q', q ≡ₚ q' → keeps s q → keeps s q';
  handed_due : ∀ now e, handed now e = true → due now e = true;
  due_handed : ∀ now e, due now e = true → expired now e = false → handed now e = true;
  tick_law : ∀ s q now, keeps s q → clock now → ∃ (ps : list (K * entry)) s1,
    dl_fetch now s = (Ok ((λ p, (p.1, message p.2)) <$> ps), s1) ∧
    ps.*2 ≡ₚ filter (λ e, handed now e = true) q ∧
    ∀ pre suf, ps = pre ++ suf → ∃ s2, accept_all pre.*1 s1 = (Ok tt, s2) ∧
      keeps s2 (suf.*2 ++ filter (λ e, due now e = false) q);
  save_law : ∀ s q now id m s', keeps s q → savable_at s now m → st_save now id m s = (Ok tt, s') →
    ∃ q' e, keeps s' (e :: q') ∧ q' ⊆+ q ∧ message_id e = id ∧ message e = m ∧
      ok_option (E := string) (get_schedule_delivery_time now m) = (Ok (schedule e) : ioresult _) ∧
      (∀ t, validity e = Some t → get_validity_period now m (validity_default s) = Ok t ∨
                                  t = (now + Z.of_N (validity_default s) * 1000)%Z);
}.

Section queue.
Context {S K : Type} `{B64 : Base64, Tlv : TlvOrder, Reg : Regex, Gen : MessageIdGenerator,
  Ord : ClientOrder, Que : WaitingQueue S K}.

Abbreviation M := (StateM (world S)).

Lemma deliver_values_app env (pre suf : list (K * Value)) (st : world S) s :
  Forall encodable pre.*2 → accept_all pre.*1 (storage st) = (Ok tt, s) →
  deliver_values env (pre ++ suf) st
  = deliver_values env suf
      (handed_over st (written env (clients st) (next_sequence st) pre.*2)
         (next_after (next_sequence st) pre.*2) s).
Proof.
  revert st. induction pre as [|[k m] pre IH]; intros st He Ha.
  - cbn in Ha. injection Ha as <-. cbn [app fmap list_fmap written next_after]. by rewrite world_eta.
  - rewrite !fmap_cons in *. cbn [fst snd] in *. apply Forall_cons in He as [Hm He].
    cbn [accept_all] in Ha. destruct (dl_accepted k (storage st)) as [[[]|e|] s1] eqn:Ek; [|done..].
    cbn [app deliver_values]. unfold attempt at 1, mbind at 1, StateM_bind at 1.
    rewrite handler_accepts by done. unfold mbind, StateM_bind, on_storage at 1.
    set (st1 := handed_over st _ _ _). change (storage st1) with (storage st). rewrite Ek.
    change (mkWorld (clients st1) (next_sequence st1) (id_counter st1) s1 (sent st1) (closed st1)
              (spawned st1) (responses st1)) with
      (handed_over st (written env (clients st) (next_sequence st) [m])
         (next_after (next_sequence st) [m]) s1).
    rewrite IH; [|done|exact Ha]. rewrite handed_over_app. cbn [written next_after handed_over].
    destruct (forwards m); [by rewrite app_nil_r|done].
Qed.

Lemma fetched_encodable (f : entry → bool) q (ps : list (K * entry)) :
  ps.*2 ≡ₚ filter (λ e, f e = true) q → Forall (λ e, encodable (message e)) q →
  Forall (λ p, encodable (message p.2)) ps.
Proof.
  rewrite !Forall_forall. intros Hl He p Hp%(list_elem_of_fmap_2 snd).
  rewrite Hl in Hp. apply list_elem_of_filter in Hp as [_ Hp]. by apply He.
Qed.

Lemma tick_fetched env (st : world S) values s :
  dl_fetch (now env) (storage st) = (Ok values, s) →
  delivery_tick env st = deliver_values env values (handed_over st [] (next_sequence st) s).
Proof.
  intros E. unfold delivery_tick, mbind, StateM_bind, attempt, on_storage, handed_over. rewrite E.
  by rewrite app_nil_r.
Qed.

(** A tick of the background task: every message the storage hands over goes to the first
    client for its address that takes it, under a number of its own, and everything that was
    due is gone from the storage, whether or not a client took it. *)
Lemma delivery_tick_effect env (st : world S) q :
  keeps (storage st) q → clock (now env) → Forall (λ e, encodable (message e)) q → ∃ l s',
    l ≡ₚ message <$> filter (λ e, handed (now env) e = true) q ∧
    keeps s' (filter (λ e, due (now env) e = false) q) ∧
    delivery_tick env st
    = (Ok tt, handed_over st (written env (clients st) (next_sequence st) l)
                (next_after (next_sequence st) l) s').
Proof.
  intros Hq Hc He. destruct (tick_law _ _ _ Hq Hc) as (ps & s1 & Ef & Hl & Ha).
  destruct (Ha ps []) as (s2 & Ea & Hq2); [by rewrite app_nil_r|].
  exists (message <$> ps.*2), s2. split; [by rewrite Hl|]. split; [exact Hq2|].
  rewrite (tick_fetched _ _ _ _ Ef), <-(app_nil_r (_ <$> ps)).
  rewrite (deliver_values_app _ _ _ _ s2).
  - rewrite handed_over_app. cbn [app deliver_values]. by rewrite <-!list_fmap_compose.
  - apply (fetched_encodable _ _ _ Hl) in He. by rewrite <-list_fmap_compose, Forall_fmap.
  - rewrite <-list_fmap_compose. exact Ea.
Qed.

End queue.
