(* ===== verification/DeliveryProps.v ===== *)
(** * What becomes of a stored message

    Theorems on the delivery of stored messages, for every storage that keeps the promises of
    [WaitingQueue]: a message that is stored arrives when a client is there for it, is lost
    when none is, and a message that cannot be encoded stops the delivery of all. *)
From S2P Require Export Delivery.

(** Turning a message into a deliver_sm keeps its other fields. *)
Lemma get_as_deliver n v k :
  k ≠ "command_id" → k ≠ "sequence_number" → get (as_deliver_sm n v) k = get v k.
Proof. intros H1 H2. unfold as_deliver_sm. by rewrite !get_set_if_present_ne by done. Qed.

Section written.
Context {S : Type} `{St : MessageStorage S, B64 : Base64, Tlv : TlvOrder, Chr : Chrono, Reg : Regex,
  Gen : MessageIdGenerator, Ord : ClientOrder}.

(** A client that is there for an address. *)
Definition bound_for (env : Env) (c : ClientManager.t) (address : string) (w : nat) : Prop :=
  ∃ peer regex, c !! peer = Some (regex, w) ∧ re_match regex address = true ∧ write_ok env w = true.

Lemma reached_spec env c address b :
  match reached env c address b with
  | [] => ∀ w, ¬ bound_for env c address w
  | [x] => x.2 = b ∧ bound_for env c address x.1
  | _ => False
  end.
Proof.
  unfold reached. destruct (find _ _) as [w|] eqn:Ef.
  - apply find_some in Ef as [Hin Hok]. apply list_elem_of_In, elem_of_get_writer in Hin as (peer & regex & ? & ?).
    split; [done|]. by exists peer, regex.
  - intros w (peer & regex & Hc & Hm & Hok).
    pose proof (find_none _ _ Ef w) as Hno. rewrite Hno in Hok; [done|].
    apply list_elem_of_In, elem_of_get_writer. by exists peer, regex.
Qed.

(** Each forwarded message of the list is written, under some number. *)
Lemma written_in env c n l m :
  m ∈ l → forwards m = true → ∃ k, ∀ x, x ∈ forwarded env c k m → x ∈ written env c n l.
Proof.
  intros Hm Hf. revert n. induction l as [|m' l IH]; intros n; [by apply elem_of_nil in Hm|].
  cbn [written]. apply elem_of_cons in Hm as [<-|Hm].
  - rewrite Hf. exists n. intros x Hx. apply elem_of_app. by left.
  - destruct (forwards m'); [|by apply IH].
    destruct (IH Hm (cast_u32 (n + 1))) as [k Hk]. exists k. intros x Hx. apply elem_of_app. by right; apply Hk.
Qed.

(** What is written is the deliver_sm of one of the messages, to a client bound for its address. *)
Lemma written_from env c n l x :
  x ∈ written env c n l → ∃ m k p a, m ∈ l ∧ from_json (as_deliver_sm k m) = Ok p ∧
    get_str m "destination_addr" = Some a ∧ bound_for env c a x.1 ∧ x.2 = SMPPMessage.to_vec p.
Proof.
  revert n. induction l as [|m l IH]; intros n; cbn [written]; [by intros ?%elem_of_nil|]. intros Hx.
  assert (Hx' : x ∈ forwarded env c n m ∨ ∃ k, x ∈ written env c k l).
  { destruct (forwards m); [apply elem_of_app in Hx as [?|?]; [by left|right; by eexists]|right; by eexists]. }
  destruct Hx' as [Hf|[k Hk]].
  - unfold forwarded, get_str in Hf. rewrite get_as_deliver in Hf by done.
    destruct (get m "destination_addr" ≫= as_str) as [a|] eqn:Ea; [|by apply elem_of_nil in Hf].
    destruct (from_json _) as [p|e|] eqn:Ep; [|by apply elem_of_nil in Hf..].
    exists m, n, p, a. pose proof (reached_spec env c a (SMPPMessage.to_vec p)) as Hr.
    destruct (reached _ _ _ _) as [|y [|z r]]; [by apply elem_of_nil in Hf| |done].
    apply list_elem_of_singleton in Hf as ->. destruct Hr as [Hb Hw]. split_and!; [by left|done..].
  - destruct (IH k Hk) as (m' & n' & p & a & Hm & H). exists m', n', p, a. split; [by right|done].
Qed.

(** No number makes the deliver_sm of the message one that can be encoded. *)
Definition poisoned (m : Value) : Prop :=
  forwards m = true ∧ is_Some (get_str m "destination_addr") ∧
  ∀ n, is_ok (from_json (as_deliver_sm n m)) = false.

Lemma handler_panics env m (st : world S) :
  poisoned m → ∃ st', handle_schedule_delivery_message env m st = (Panic, st') ∧ storage st' = storage st.
Proof.
  intros (Hf & [a Ha] & Hp). unfold handle_schedule_delivery_message, forwards in *.
  assert (Hfwd : ∀ n (st1 : world S), forward_message_to_client env (as_deliver_sm n m) st1 = (Panic, st1)).
  { intros n st1. unfold forward_message_to_client, get_str in *. rewrite get_as_deliver, Ha by done.
    specialize (Hp n). by destruct (from_json _). }
  destruct (extract_command_id m) as [[]|]; try done.
  all: unfold mbind, StateM_bind, next_sequence_number, attempt; cbn [SequenceNumberAllocator.next].
  all: rewrite Hfwd; by eexists.
Qed.

End written.

Section theorems.
Context {S K : Type} `{B64 : Base64, Tlv : TlvOrder, Reg : Regex, Gen : MessageIdGenerator,
  Ord : ClientOrder, Que : WaitingQueue S K}.

(** A message that is answered as stored is stored, with its times. *)
Lemma store_keeps env id seq mid m r (st st1 : world S) q :
  keeps (storage st) q → savable_at (storage st) (now env) m →
  store_and_forward_message env id seq mid m st = (Ok (inl r), st1) → ∃ q1 e,
    keeps (storage st1) (e :: q1) ∧ q1 ⊆+ q ∧ message_id e = mid ∧ message e = m ∧
    ok_option (E := string) (get_schedule_delivery_time (now env) m) = (Ok (schedule e) : ioresult _) ∧
    (∀ t, validity e = Some t →
       get_validity_period (now env) m (validity_default (storage st)) = Ok t ∨
       t = (now env + Z.of_N (validity_default (storage st)) * 1000)%Z).
Proof.
  intros Hq Hsv Hst.
  assert (Hsave : st_save (now env) mid m (storage st) = (Ok tt, storage st1)).
  { revert Hst. unfold store_and_forward_message, mbind, StateM_bind, lift, attempt, on_storage, mret, StateM_ret.
    destruct (ok_option (get_schedule_delivery_time (now env) m)) as [sched|?|]; [|done..].
    destruct (match sched with Some t => (t <? now env)%Z | None => false end); [done|].
    destruct (ok_option (get_validity_period _ _ _)) as [valid|?|]; [|done..].
    destruct (match valid with Some t => (t <? now env)%Z | None => false end); [done|].
    destruct (match sched, valid with Some s, Some v => (v <? s)%Z | _, _ => false end); [done|].
    destruct (st_save (now env) mid m (storage st)) as [[[]|?|] s']; by intros [= _ <-]. }
  exact (save_law _ _ _ _ _ _ Hq Hsv Hsave).
Qed.

(** A message that is stored is written, at the first tick at which it is due and has not
    expired, to a client bound for its address, if there is one. *)
Lemma kept_arrives env (st : world S) e q a w :
  keeps (storage st) (e :: q) → clock (now env) → due (now env) e = true → expired (now env) e = false →
  encodable (message e) → Forall (λ e, encodable (message e)) q →
  forwards (message e) = true → get_str (message e) "destination_addr" = Some a →
  bound_for env (clients st) a w →
  ∃ st' w' n p, delivery_tick env st = (Ok tt, st') ∧
    from_json (as_deliver_sm n (message e)) = Ok p ∧ bound_for env (clients st) a w' ∧
    (w', SMPPMessage.to_vec p) ∈ drop (length (sent st)) (sent st') ∧
    keeps (storage st') (filter (λ e, due (now env) e = false) q).
Proof.
  intros Hh2 Hc Hd Hx He Hq2 Hf Ha Hw.
  destruct (delivery_tick_effect env st _ Hh2 Hc) as (l & s3 & Hl & Hs3 & Et); [by apply Forall_cons|].
  rewrite filter_cons, decide_False in Hs3 by (by rewrite Hd).
  assert (Hin : message e ∈ l).
  { rewrite Hl. apply list_elem_of_fmap_2, list_elem_of_filter.
    split; [by apply due_handed|by apply elem_of_cons; left]. }
  destruct (written_in env (clients st) (next_sequence st) l _ Hin Hf) as [n Hn].
  destruct (He n Hf) as [p Hp]. unfold forwarded, get_str in Hn, Ha. rewrite get_as_deliver, Ha, Hp in Hn by done.
  pose proof (reached_spec env (clients st) a (SMPPMessage.to_vec p)) as Hr.
  destruct (reached _ _ _ _) as [|x [|y r']]; [by destruct (Hr w)| |done]. destruct Hr as [Hx2 Hb].
  eexists _, x.1, n, p. split; [exact Et|]. split; [exact Hp|]. split; [exact Hb|].
  split; [|exact Hs3]. cbn [handed_over sent]. rewrite drop_app_length. apply Hn.
  rewrite <-Hx2. destruct x. by apply list_elem_of_singleton.
Qed.

(** C37: the handler reports success whether or not it reached anybody. Over any storage that
    keeps the promises of a [WaitingQueue], as the SQL and the Redis storage do: when a message
    falls due while no client is bound for its address, and the messages of the storage can be
    encoded, the tick succeeds, nothing that it writes is a message for that address, and the
    message is taken out of the storage. *)
Theorem nobody_bound_lost env (st : world S) q e a :
  keeps (storage st) q → clock (now env) → Forall (λ e, encodable (message e)) q →
  e ∈ q → due (now env) e = true → get_str (message e) "destination_addr" = Some a →
  (∀ w, ¬ bound_for env (clients st) a w) →
  ∃ st' w, delivery_tick env st = (Ok tt, st') ∧ sent st' = sent st ++ w ∧
    Forall (λ x, ∃ e' n p, e' ∈ q ∧ from_json (as_deliver_sm n (message e')) = Ok p ∧
      x.2 = SMPPMessage.to_vec p ∧ get_str (message e') "destination_addr" ≠ Some a) w ∧
    (e ∉ filter (λ e, due (now env) e = false) q) ∧
    keeps (storage st') (filter (λ e, due (now env) e = false) q).
Proof.
  intros Hq Hc He Hin Hd Ha Hno. destruct (delivery_tick_effect env st q Hq Hc He) as (l & s' & Hl & Hs' & Et).
  eexists _, _. split; [exact Et|]. split; [reflexivity|]. split_and!; [| |exact Hs'].
  - apply Forall_forall. intros x (m & n & p & a' & Hm & Hp & Ha' & Hb & Hx)%written_from.
    rewrite Hl in Hm. apply list_elem_of_fmap in Hm as (e' & -> & [_ Hin']%list_elem_of_filter).
    exists e', n, p. split_and!; [done..|]. rewrite Ha'. intros [= ->]. by apply (Hno x.1).
  - intros [Hf _]%list_elem_of_filter. congruence.
Qed.

(** C38: a stored message that cannot be encoded as a deliver_sm panics the task at the tick at which
    it is due, and is still stored: a restarted task meets it again. *)
Theorem poisoned_message_stays env (st : world S) q e :
  keeps (storage st) (e :: q) → clock (now env) → Forall (λ e, encodable (message e)) q →
  handed (now env) e = true → poisoned (message e) →
  ∃ st' q', delivery_tick env st = (Panic, st') ∧ keeps (storage st') (e :: q').
Proof.
  intros Hq Hc He Hh Hp. destruct (tick_law _ _ _ Hq Hc) as (ps & s1 & Ef & Hl & Ha).
  rewrite filter_cons, decide_True in Hl by done.
  assert (Hin : e ∈ ps.*2) by (rewrite Hl; by apply elem_of_cons; left).
  apply list_elem_of_fmap in Hin as ([k e'] & -> & Hin). cbn [snd] in *.
  apply list_elem_of_split in Hin as (pre & suf & ->).
  destruct (Ha pre ((k, e') :: suf) eq_refl) as (s2 & Ea & Hs2). cbn [fmap list_fmap app] in Hs2.
  assert (Hpre : Forall (λ p, encodable (message p.2)) (pre ++ suf)).
  { apply (fetched_encodable (handed (now env)) q); [|done].
    rewrite fmap_app, fmap_cons in Hl. cbn [snd] in Hl. rewrite <-Permutation_middle in Hl.
    apply Permutation_cons_inv in Hl. by rewrite fmap_app. }
  apply Forall_app in Hpre as [Hpre _].
  rewrite (tick_fetched _ _ _ _ Ef), fmap_app, fmap_cons.
  rewrite (deliver_values_app _ _ _ _ s2);
    [|by rewrite <-list_fmap_compose, Forall_fmap|by rewrite <-list_fmap_compose].
  rewrite handed_over_app. set (st2 := handed_over st _ _ _).
  destruct (handler_panics env (message e') st2 Hp) as (st3 & E3 & Hst3).
  eexists st3, _. split; [|rewrite Hst3; exact Hs2].
  cbn [deliver_values fst snd]. unfold mbind, StateM_bind, attempt. by rewrite E3.
Qed.

End theorems.
