(* ===== verification/SqlDelivery.v ===== *)
(** * Delivery from the SQL storage

    The background task of [SqlMessageStorage] as a [DeliveryLoop], and the table as a
    [WaitingQueue]. *)
From S2P Require Export DeliveryProps SqlRefinement.

#[export] Existing Instance SqlMessageStorage.storage.

Section instance.
Context {D : Type} `{Db : SqlDatabase D, Txt : JsonText, Rfc : Rfc3339, Chr : Chrono}.
Import SqlMessageStorage.

(** A message is deleted when the handler accepted it; a refusal is logged. *)
#[export] Instance sql_loop : DeliveryLoop (t D) Z := {
  dl_fetch := get_delivery_messages;
  dl_accepted id := (delete_message_by_id id ≫= λ _, mret tt : StateM (t D) unit);
  dl_refused _ := (mret tt : StateM (t D) unit);
}.

Lemma table_represents_perm dflt (s : t D) q q' : q ≡ₚ q' → represents dflt s q → represents dflt s q'.
Proof.
  intros Hp (zq & [[Hc (l & Hl & Hr)] Hd] & <-).
  symmetry in Hp. apply Permutation_map_inv in Hp as (zq' & -> & Hz).
  exists zq'. split; [|done]. split; [|done]. split; [done|].
  apply Forall2_flip in Hr. destruct (Permutation_Forall2 Hz Hr) as (l' & Hl' & Hr').
  exists l'. split; [by rewrite Hl, Hl'|]. by apply Forall2_flip.
Qed.

Lemma accept_all_step dflt ids (s : t D) zq :
  standing dflt s zq → ∃ s',
    accept_all ids s = (Ok tt, s') ∧
    standing dflt s' (filter (λ p, bool_decide (p.1 ∈ ids) = false) zq).
Proof.
  revert s zq. induction ids as [|id ids IH]; intros s zq Hs.
  - exists s. by rewrite filter_no_ids.
  - destruct (delete_id_step dflt s zq id Hs) as (n & s1 & E & Hs1).
    destruct (IH s1 _ Hs1) as (s2 & E2 & Hs2). exists s2. split.
    + cbn [accept_all dl_accepted sql_loop]. erewrite bind_ok; [exact E2|].
      unfold delete_message_by_id. erewrite bind_ok; [done|by apply attempt_ok].
    + rewrite list_filter_filter in Hs2. erewrite list_filter_iff; [exact Hs2|].
      intros x. rewrite !bool_decide_eq_false, not_elem_of_cons, Z.eqb_neq. tauto.
Qed.

(** What is left when [pre] of the due messages were accepted. *)
Lemma accepted_rest now (pre suf zq : list (Z * entry)) :
  NoDup zq.*1 → pre ++ suf ≡ₚ filter (λ p, due now p.2 = true) zq →
  filter (λ p, bool_decide (p.1 ∈ pre.*1) = false) zq ≡ₚ suf ++ filter (λ p, due now p.2 = false) zq.
Proof.
  intros Hnd Hp.
  assert (Hzq : zq ≡ₚ pre ++ (suf ++ filter (λ p, due now p.2 = false) zq)).
  { rewrite app_assoc, Hp. clear. induction zq as [|p zq IH]; [done|]. rewrite !filter_cons.
    destruct (due now p.2).
    - rewrite decide_True, decide_False by done. cbn [app]. by constructor.
    - rewrite decide_False, decide_True by done. rewrite <-Permutation_middle. by constructor. }
  revert Hzq. generalize (suf ++ filter (λ p, due now p.2 = false) zq). intros rest Hzq.
  rewrite Hzq, fmap_app, NoDup_app in Hnd. destruct Hnd as (_ & Hnd & _).
  rewrite Hzq, filter_app. clear Hzq Hp.
  assert (Hgone : ∀ l : list (Z * entry), (∀ p, p ∈ l → p.1 ∈ pre.*1) → filter (λ p, bool_decide (p.1 ∈ pre.*1) = false) l = []).
  { intros l. induction l as [|p l IH]; [done|]. intros Hl. rewrite filter_cons, decide_False.
    - apply IH. intros x Hx. apply Hl. by apply elem_of_cons; right.
    - rewrite bool_decide_eq_false. intros Hn. apply Hn, Hl. by apply elem_of_cons; left. }
  rewrite Hgone by (intros p; apply list_elem_of_fmap_2). cbn [app].
  replace (filter _ rest) with rest; [done|]. clear Hgone.
  assert (Hkeep : ∀ l : list (Z * entry), (∀ p, p ∈ l → p.1 ∉ pre.*1) → l = filter (λ p, bool_decide (p.1 ∈ pre.*1) = false) l).
  { intros l. induction l as [|p l IH]; [done|]. intros Hl. rewrite filter_cons, decide_True.
    - f_equal. apply IH. intros x Hx. apply Hl. by apply elem_of_cons; right.
    - rewrite bool_decide_eq_false. apply Hl. by apply elem_of_cons; left. }
  apply Hkeep. intros p Hp1 Hp2. apply (Hnd p.1 Hp2). by apply list_elem_of_fmap_2.
Qed.

(** The table keeps the promises of a queue of waiting messages. *)
#[export, refine] Instance sql_waiting : WaitingQueue (t D) Z := {
  keeps s q := represents (default_validity_period s) s q;
  clock := in_calendar;
  savable_at s now m := savable (default_validity_period s) now m;
  validity_default := default_validity_period;
  handed := due;
}.
Proof.
  - intros s q q'. apply table_represents_perm.
  - done.
  - done.
  - intros s q now (zq & Hs & <-) Hn.
    destruct (fetch_step _ s zq now Hn Hs) as (zs & s1 & E & Hzs & Hs1).
    exists zs, s1. split; [exact E|]. 
    split; [rewrite Hzs; apply reflexive_eq, (filter_values (due now) true zq)|].
    intros pre suf ->. destruct (accept_all_step _ pre.*1 s1 zq Hs1) as (s2 & E2 & Hs2).
    exists s2. split; [exact E2|]. assert (Hd : default_validity_period s2 = default_validity_period s) by apply Hs2.
    rewrite Hd. eapply table_represents_perm; [|by eexists].
    rewrite (accepted_rest now pre suf zq); [|by eapply tagged_ids, Hs|done].
    rewrite fmap_app. by rewrite (filter_values (due now) false zq).
  - intros s q now id m s' (zq & Hs & <-) Hm Hsave.
    destruct (save_step _ s zq now id m Hm Hs) as [Hr (zq' & Hs' & Hq')].
    change (save now id m s = (Ok tt, s')) in Hsave. rewrite Hsave in Hr, Hs'.
    cbn [fst snd] in *. assert (Hd : default_validity_period s' = default_validity_period s) by apply Hs'.
    revert Hr Hq'. unfold spec_save. cbv zeta. set (q0 := if (_ =? 1)%N then _ else zq.*2).
    destruct (is_empty_str _); [done|].
    destruct (ok_option (F := io_error) (get_schedule_delivery_time now m)) as [sched|e|] eqn:Es; cbn [mbind outcome_bind]; [|done..].
    destruct (match sched with Some t => (t <? now)%Z | None => false end); [done|].
    destruct (ok_option (F := io_error) (get_validity_period now m _)) as [valid|e|] eqn:Ev; cbn [mbind outcome_bind fst snd]; [|done..].
    intros _ Hq'. eexists q0, _. split.
    { rewrite Hd. eapply table_represents_perm; [|by exists zq'; split; [exact Hs'|exact Hq'] ].
      symmetry. apply Permutation_cons_append. }
    split.
    { unfold q0. destruct (_ =? 1)%N; [apply sublist_submseteq, sublist_filter|done]. }
    split; [done|]. split; [done|]. split; [done|]. cbn [validity]. intros t Ht.
    destruct sched as [t1|], valid as [t2|]; [left|done|left|right].
    + injection Ht as <-. by eapply ok_option_some.
    + injection Ht as <-. by eapply ok_option_some.
    + by injection Ht as <-.
Defined.

End instance.
