(* ===== verification/RedisDelivery.v ===== *)
(** * Delivery from the Redis storage

    The background task of [RedisMessageStorage] as a [DeliveryLoop], and its keys as a
    [WaitingQueue]. *)
From S2P Require Export DeliveryProps RedisRefinement.

#[export] Existing Instance RedisMessageStorage.storage.

Section instance.
Context {K : Type} `{Red : RedisServer K, Txt : JsonText, Rfc : Rfc3339, Chr : Chrono}.
Import RedisMessageStorage.

(** An entry is deleted when the handler accepted its message; a refusal is logged. *)
#[export] Instance redis_loop : DeliveryLoop (t K) string := {
  dl_fetch := get_delivery_messages;
  dl_accepted entry_id := (delete_entry entry_id ≫= λ _, mret tt : StateM (t K) unit);
  dl_refused _ := (mret tt : StateM (t K) unit);
}.

Lemma accept_all_delete ids (s : t K) r : delete_entries ids s = (Ok tt, r) → accept_all ids s = (Ok tt, r).
Proof.
  revert s. induction ids as [|id ids IH]; intros s; [done|].
  unfold delete_entries in *. cbn [foldr accept_all dl_accepted redis_loop].
  unfold mbind, StateM_bind. destruct (delete_entry id s) as [[b|e|] s1]; [|done..]. apply IH.
Qed.

(** The entries of a map once [pre] of those with a property are gone. *)
Lemma entries_split (P : entry → bool) (q q1 : gmap Z entry) (pre suf : list (Z * entry)) :
  lists P q1 (pre ++ suf) → (∀ id e, P e = false → q1 !! id = Some e ↔ q !! id = Some e) →
  (map_to_list (without_ids pre.*1 q1)).*2
  ≡ₚ suf.*2 ++ filter (λ e, P e = false) (map_to_list q).*2.
Proof.
  intros [Hnd Hin] Hq. rewrite <-(filter_values P false), <-fmap_app. apply Permutation_map.
  rewrite fmap_app, NoDup_app in Hnd. destruct Hnd as (_ & Hdis & Hnd).
  assert (Hpre : ∀ id e, (id, e) ∈ pre → q1 !! id = Some e ∧ P e = true).
  { intros id e He. apply (Hin (id, e)), elem_of_app. by left. }
  assert (Hsuf : ∀ id e, (id, e) ∈ suf → q1 !! id = Some e ∧ P e = true).
  { intros id e He. apply (Hin (id, e)), elem_of_app. by right. }
  apply NoDup_Permutation.
  - apply NoDup_map_to_list.
  - apply NoDup_app. split; [by eapply NoDup_fmap_1|]. split; [|apply NoDup_filter, NoDup_map_to_list].
    intros [id e] [_ HP]%Hsuf [HP' _]%list_elem_of_filter. cbn in HP'. congruence.
  - intros [id e]. rewrite elem_of_map_to_list, lookup_without_ids, elem_of_app, list_elem_of_filter.
    rewrite elem_of_map_to_list. cbn [snd]. case_decide as Hid.
    + split; [done|]. apply list_elem_of_fmap in Hid as ([id' e'] & -> & Hp). cbn [fst].
      destruct (Hpre _ _ Hp) as [He' HP']. intros [He|[HP He] ].
      * exfalso. apply (Hdis id'); [by apply (list_elem_of_fmap_2 fst _ (id', e'))|by apply (list_elem_of_fmap_2 fst _ (id', e))].
      * apply Hq in He; [|done]. simplify_eq. congruence.
    + split; [|intros [[He _]%Hsuf|[HP He] ]; [done|by apply Hq] ]. intros He. destruct (P e) eqn:EP.
      * left. assert (Hall : (id, e) ∈ pre ++ suf) by (by apply Hin).
        apply elem_of_app in Hall as [Hp|Hp]; [|done]. exfalso. apply Hid. by apply (list_elem_of_fmap_2 fst _ (id, e)).
      * right. split; [done|]. by apply Hq.
Qed.

Lemma standing_refl s0 (s : t K) n q : standing s0 s n q → standing s s n q.
Proof. by intros []. Qed.

(** The keys keep the promises of a queue of waiting messages. *)
#[export, refine] Instance redis_waiting : WaitingQueue (t K) string := {
  keeps s q := ∃ n m, standing s s n m ∧ q ≡ₚ (map_to_list m).*2;
  clock now := (0 ≤ now)%Z;
  savable_at s now m := storable (default_validity_period s) now m ∧
    ∀ n q, standing s s n q → (n + 1 < 2 ^ 63)%Z;
  validity_default := default_validity_period;
  handed now e := due now e && negb (expired now e);
}.
Proof.
  - intros s q q' Hp (n & m & Hs & Hq). exists n, m. by rewrite <-Hp.
  - intros now e. by intros [? _]%andb_prop.
  - intros now e -> ->. done.
  - intros s q now (n & m & Hs & Hq) Hn.
    destruct (redis_fetch_step s s n m now Hs Hn) as (ps & s1 & E & Ha & Hd & Hs1).
    exists ((λ p, (format_i64 p.1, p.2)) <$> ps), s1.
    split; [by rewrite <-list_fmap_compose|]. split.
    + rewrite <-list_fmap_compose, Hq. rewrite <-(filter_values (λ e, due now e && negb (expired now e)) true).
      change (snd ∘ _) with (snd : Z * entry → entry). apply Permutation_map.
      apply NoDup_Permutation; [by eapply NoDup_fmap_1, Ha|apply NoDup_filter, NoDup_map_to_list|].
      intros [id e]. rewrite (proj2 Ha), list_elem_of_filter, elem_of_map_to_list. cbn. tauto.
    + intros pre' suf' Hps. apply fmap_app_inv in Hps as (pre & suf & -> & -> & ->).
      destruct (delete_entries_step s pre.*1 s1 n _ Hs1) as (s2 & E2 & Hs2).
      { destruct Hd as [Hnd _]. rewrite fmap_app in Hnd. by apply NoDup_app in Hnd as [? _]. }
      { intros id ([id' e] & -> & Hp)%list_elem_of_fmap. exists e.
        apply (proj2 Hd (id', e)), elem_of_app. by left. }
      exists s2. split.
      * rewrite <-list_fmap_compose. apply accept_all_delete. by rewrite <-list_fmap_compose in E2.
      * eexists n, _. split; [by eapply standing_refl|]. rewrite <-list_fmap_compose.
        change (snd ∘ _) with (snd : Z * entry → entry). symmetry. rewrite Hq.
        apply entries_split; [exact Hd|]. intros id e He. rewrite map_lookup_filter_Some. cbn [snd].
        rewrite He. intuition.
  - intros s q now id m s' (n & q0 & Hs & Hq) [Hm Hb] Hsave.
    destruct (redis_save_step s s n q0 now id m Hs Hm (Hb _ _ Hs)) as (s'' & E & Hs').
    change (save now id m s = (Ok tt, s')) in Hsave. rewrite Hsave in E. injection E as Hr <-.
    revert Hr Hs'. unfold redis_save. cbv zeta. destruct (is_empty_str _); [done|].
    destruct (ok_option (F := io_error) (get_schedule_delivery_time now m)) as [sched|e|] eqn:Es; cbn [mbind outcome_bind]; [|done..].
    destruct (match sched with Some t => (t <? now)%Z | None => false end); [done|].
    destruct (ok_option (F := io_error) (get_validity_period now m _)) as [valid|e|] eqn:Ev; cbn [mbind outcome_bind]; [|done..].
    set (e := mkEntry id m sched valid).
    intros Hr Hs'. exists (map_to_list q0).*2, e.
    assert (Hnew : standing s s' (n + 1) (<[(n + 1)%Z := e]> q0)) by (destruct sched, valid; done).
    split.
    + eexists _, _. split; [by eapply standing_refl|]. rewrite map_to_list_insert; [done|].
      apply eq_None_not_Some. intros Hin. apply (ly_ids _ _ _ _ (st_layout _ _ _ _ Hs)) in Hin. lia.
    + split; [by rewrite Hq|]. split; [done|]. split; [done|]. split; [done|]. intros t Ht. left. cbn in Ht. subst valid.
      by eapply ok_option_some.
Defined.

End instance.
