(* ===== verification/DeliveryWitnesses.v ===== *)
(** * Concrete deliveries

    The theorems on the delivery of stored messages over the SQL storage at a small database,
    and a PDU whose delivery brings the background task down. *)
From S2P Require Import Witnesses SqlInstance SqlWitnesses SqlDelivery.

Definition sql_world (clients : ClientManager.t) (s : SqlMessageStorage.t memory_db) :
    world (SqlMessageStorage.t memory_db) := mkWorld clients 1 0 s [] [] [] [].

(** A client for "12345". *)
Definition client_12345 : ClientManager.t := {["10.0.0.2:2775" := ("12345", 8)]}.

Definition env_at (t : Z) : Env :=
  mkEnv server_config "10.0.0.1:4000" 7 t (λ _ _, false) (λ _, false)
    (λ _, io_err Other "no handler") (λ _, true) (λ _, None) (DistrubutionList.new ∅).

Lemma sql_world_empty c : keeps (storage (sql_world c sql_empty)) [].
Proof. apply sql_empty_represents. Qed.

Lemma submit_encodable : encodable submit_normal.
Proof. intros n _. eexists. vm_compute. reflexivity. Qed.

Lemma submit_savable : savable 3600 1000000 submit_normal.
Proof. apply sql_savable; [vm_compute; reflexivity|lia|vm_compute; exact I|vm_compute; exact I]. Qed.

Lemma bound_12345 t : bound_for (env_at t) client_12345 "12345" 8.
Proof. exists "10.0.0.2:2775", "12345". split; [reflexivity|]. split; reflexivity. Qed.

(** Stored at 1000 seconds and delivered one second later. *)
Definition stored_world : world (SqlMessageStorage.t memory_db) :=
  (store_and_forward_message (env_at 1000000) 4 9 "m1" submit_normal (sql_world ∅ sql_empty)).2.

Definition client_world : world (SqlMessageStorage.t memory_db) :=
  sql_world client_12345 (storage stored_world).

(** A message that is due while nobody is bound. *)
Definition held_world : world (SqlMessageStorage.t memory_db) := sql_world ∅ (storage stored_world).

Lemma held_one : ∃ e, keeps (storage held_world) [e] ∧ message e = submit_normal ∧ schedule e = None.
Proof.
  destruct (save_law (storage (sql_world ∅ sql_empty)) [] 1000000 "m1" submit_normal (storage held_world)
    (sql_world_empty ∅) submit_savable) as (q1 & e & Hh & Hsub & _ & Hm & Hsc & _).
  - vm_compute. reflexivity.
  - apply submseteq_nil_r in Hsub as ->. exists e. split; [exact Hh|]. split; [exact Hm|].
    vm_compute in Hsc. injection Hsc as Hs. exact (eq_sym Hs).
Qed.

Lemma nobody_bound_lost_witness : ∃ e st' w,
  keeps (storage held_world) [e] ∧ due 1001000 e = true ∧
  delivery_tick (env_at 1001000) held_world = (Ok tt, st') ∧ sent st' = sent held_world ++ w ∧
  Forall (λ x, ∃ e' n p, e' ∈ [e] ∧ from_json (as_deliver_sm n (message e')) = Ok p ∧
    x.2 = SMPPMessage.to_vec p ∧ get_str (message e') "destination_addr" ≠ Some "12345") w ∧
  keeps (storage st') [].
Proof.
  destruct held_one as (e & Hh & Hm & Hs).
  assert (Hd : due 1001000 e = true) by (unfold due; by rewrite Hs).
  destruct (nobody_bound_lost (env_at 1001000) held_world [e] e "12345" Hh)
    as (st' & w & Et & Hsent & Hw & _ & Hh').
  - change (in_days 1001000). split; lia.
  - apply Forall_cons. split; [rewrite Hm; apply submit_encodable|constructor].
  - left.
  - exact Hd.
  - rewrite Hm. vm_compute. reflexivity.
  - intros w (peer & regex & Hc & _). discriminate Hc.
  - exists e, st', w. rewrite filter_cons, decide_False in Hh' by (cbn; by rewrite Hd). by split_and!.
Defined.

(** ** A message that cannot be delivered

    A submit_sm whose source address is the letter a and nineteen bytes that are not UTF-8. *)
Definition poison_pdu : SMPPMessage.t :=
  let body := [x00; x00; x00; x61] ++ replicate 19 xff ++ [x00; x00; x00] ++ as_bytes "12345"
    ++ replicate 10 x00 ++ [x02; x68; x69] in
  SMPPMessage.mk (be_bytes 4 (16 + N.of_nat (length body)) ++ be_bytes 4 4 ++ be_bytes 4 0 ++ be_bytes 4 9 ++ body).

Definition poison_json : Value := Eval vm_compute in match to_json poison_pdu with Ok j => j | _ => JNull end.

Lemma poison_poisoned : to_json poison_pdu = Ok poison_json ∧ poisoned poison_json.
Proof.
  split; [vm_compute; reflexivity|]. split; [reflexivity|]. split; [by eexists|].
  intros n. vm_compute. reflexivity.
Qed.

Definition poisoned_world : world (SqlMessageStorage.t memory_db) :=
  sql_world client_12345
    (storage (store_and_forward_message (env_at 1000000) 4 9 "m1" poison_json (sql_world ∅ sql_empty)).2).

Lemma poisoned_message_stays_witness : ∃ e st' q',
  message e = poison_json ∧ keeps (storage poisoned_world) [e] ∧
  delivery_tick (env_at 1001000) poisoned_world = (Panic, st') ∧ keeps (storage st') (e :: q').
Proof.
  destruct (save_law (storage (sql_world ∅ sql_empty)) [] 1000000 "m1" poison_json (storage poisoned_world)
    (sql_world_empty ∅)) as (q1 & e & Hh & Hsub & _ & Hm & Hsc & _).
  - apply sql_savable; [vm_compute; reflexivity|lia|vm_compute; exact I|vm_compute; exact I].
  - vm_compute. reflexivity.
  - apply submseteq_nil_r in Hsub as ->.
    destruct (poisoned_message_stays (env_at 1001000) poisoned_world [] e Hh) as (st' & q' & Et & Hh').
    + change (in_days 1001000). split; lia.
    + constructor.
    + change (due 1001000 e = true). unfold due. vm_compute in Hsc. injection Hsc as Hs.
      change (schedule e) with (match e with mkEntry _ _ s _ => s end). by rewrite <-Hs.
    + rewrite Hm. apply poison_poisoned.
    + exists e, st', q'. by split_and!.
Defined.
