(* ===== verification/Submission.v ===== *)
(** * From submission to delivery

    A submit_sm in store-and-forward mode on its whole way through the server: the bytes that
    come in, the connection (Server.v), a storage that keeps the promises of [WaitingQueue]
    (Delivery.v), and the deliver_sm that goes out. *)
From S2P Require Export DeliveryProps Handshake.

(** The message that is handed to the storage: the submitted one, with the predefined text and
    the service type of the configuration where it asks for them, under a number of the
    server. *)
Definition submitted (env : Env) (n : N) (decoded_message : Value) : option Value :=
  match replace_sm_default_msg_id_with_predefined_message env decoded_message with
  | (Ok _, m) => Some (insert_in_object (set_service_type env m) "sequence_number" (jnum n))
  | _ => None
  end.

Lemma get_insert_in_object_ne v k x k' : k ≠ k' → get (insert_in_object v k x) k' = get v k'.
Proof. intros Hk. destruct v; try done. cbn. by apply jget_insert_ne. Qed.

(** Preparing a message leaves its other fields alone. *)
Lemma submitted_get env n j m k :
  submitted env n j = Some m →
  k ∉ ["sm_default_msg_id"; "short_message"; "service_type"; "sequence_number"] → get m k = get j k.
Proof.
  intros Hm Hk. rewrite !not_elem_of_cons in Hk. destruct Hk as (H1 & H2 & H3 & H4 & _).
  revert Hm. unfold submitted.
  destruct (replace_sm_default_msg_id_with_predefined_message env j) as [[u|e|] j1] eqn:E; [|done..].
  intros [= <-]. rewrite get_insert_in_object_ne by done. transitivity (get j1 k).
  - unfold set_service_type. repeat case_match; rewrite ?get_set_if_present_ne by done; done.
  - revert E. unfold replace_sm_default_msg_id_with_predefined_message, replace_message_with_predefined.
    intros E. repeat case_match; simplify_eq; rewrite ?get_set_if_present_ne by done; done.
Qed.

Lemma submitted_command env n j m :
  submitted env n j = Some m → extract_command_id m = extract_command_id j.
Proof.
  intros Hm. unfold extract_command_id. rewrite !(submitted_get _ _ _ _ _ Hm); [done|..];
    apply (bool_decide_unpack _); vm_compute; exact I.
Qed.

(** *** The command of the deliver_sm *)

Lemma as_deliver_command n m :
  is_Some (get m "command_id") → extract_command_id (as_deliver_sm n m) = Some CommandId.DeliverSm.
Proof.
  intros [x Hx]. destruct m as [| | | | |m]; try done. unfold extract_command_id, as_deliver_sm.
  rewrite get_set_if_present_ne by done. rewrite get_set_if_present, decide_True by done.
  cbn [get] in Hx. rewrite Hx. reflexivity.
Qed.

Section submission.
Context {S K : Type} `{B64 : Base64, Tlv : TlvOrder, Reg : Regex, Gen : MessageIdGenerator,
  Ord : ClientOrder, Que : WaitingQueue S K}.

(** The normal form of a deliver_sm is a deliver_sm. *)
Lemma normal_deliver v w :
  normalize_message v = Some w → extract_command_id v = Some CommandId.DeliverSm →
  extract_command_id w = Some CommandId.DeliverSm.
Proof.
  intros Hn Hc. destruct (from_json_normalizes v w Hn) as (m & Hm & Hj & _).
  destruct (to_json_header_get _ _ Hj) as (id & st & seq & F1 & _ & _ & F4 & _).
  unfold normalize_message in Hn. rewrite Hc in Hn. cbn [mbind option_bind] in Hn.
  destruct (header_number v "command_status") as [status|] eqn:Est; [|done].
  destruct (header_number v "sequence_number") as [sq|] eqn:Esq; [|done].
  destruct (from_json_layout v m _ status sq Hm Hc Est Esq) as [rest Hr].
  apply header_number_spec in Est as [_ Hst], Esq as [_ Hsq].
  destruct (layout_header m _ status sq rest _ (CommandId.as_u32_bound _) Hst Hsq Hr) as (G1 & _ & _).
  rewrite F4. rewrite F1 in G1. injection G1 as ->. reflexivity.
Qed.

(** The two answers of store-and-forward. *)
Lemma store_and_forward_answers env id seq mid m (st st1 : world S) r :
  store_and_forward_message env id seq mid m st = (Ok r, st1) →
  sent st1 = sent st ∧
  match r with
  | inl response => response = message_id_response id seq CommandStatus.EsmeRok mid
  | inr response => ∃ status reason,
      response = message_id_response id seq status reason ∧ status ≠ CommandStatus.EsmeRok
  end.
Proof.
  unfold store_and_forward_message, mbind, StateM_bind, lift, attempt, on_storage, mret, StateM_ret.
  destruct (ok_option (get_schedule_delivery_time (now env) m)) as [sched|?|]; [|done..].
  destruct (match sched with Some t => (t <? now env)%Z | None => false end);
    [by intros [= <- <-]; split; [|eexists _, _]|].
  destruct (ok_option (get_validity_period _ _ _)) as [valid|?|]; [|done..].
  destruct (match valid with Some t => (t <? now env)%Z | None => false end);
    [by intros [= <- <-]; split; [|eexists _, _]|].
  destruct (match sched, valid with Some s, Some v => (v <? s)%Z | _, _ => false end);
    [by intros [= <- <-]; split; [|eexists _, _]|].
  destruct (st_save (now env) mid m (storage st)) as [[[]|?|] s']; [| |done];
    intros [= <- <-]; (split; [done|]); [done|by eexists _, _].
Qed.

(** The status of a reply is read back from its bytes. *)
Lemma reply_status seq status mid b jr :
  (seq < 2 ^ 32)%N →
  encode_or_empty (message_id_response (CommandId.as_u32 CommandId.SubmitSm) seq status mid) = Ok b →
  to_json (SMPPMessage.mk b) = Ok jr → get_u64 jr "command_status" = Some (CommandStatus.as_u32 status).
Proof.
  intros Hseq Hb Hj.
  destruct (to_json_header_get _ _ Hj) as (id' & st' & seq' & F1 & F2 & _ & _ & F5 & _).
  unfold encode_or_empty, message_id_response in Hb.
  destruct (from_json _) as [[m]|e|] eqn:E; [|by injection Hb as <-|done].
  injection Hb as <-. unfold SMPPMessage.to_vec in *. cbn [SMPPMessage.message] in *.
  destruct (response_pdu_header (CommandId.as_u32 CommandId.SubmitSm) seq (CommandStatus.as_u32 status)
    [("message_id", JString mid)] CommandId.SubmitSmResp) with (SMPPMessage.mk m) as (_ & G2 & _);
    [done|by destruct status|exact Hseq| |done|exact E|].
  - intros k Hk Hin. cbn in Hin. apply list_elem_of_singleton in Hin as ->. revert Hk.
    apply (bool_decide_unpack ("message_id" ∉ header_keys)). vm_compute. exact I.
  - by rewrite F5, <-F2, G2.
Qed.

Lemma status_zero status : CommandStatus.as_u32 status = 0%N → status = CommandStatus.EsmeRok.
Proof. by destruct status. Qed.

Lemma respond_sent env label response (st st1 : world S) :
  respond env label response st = (Ok tt, st1) → ∃ b,
    encode_or_empty response = Ok b ∧ st1 = push_sent (writer env) b st.
Proof.
  unfold respond, mbind, StateM_bind, lift, relabel, send, write_to.
  destruct (encode_or_empty response) as [b|e|]; [|done..].
  destruct (write_ok env (writer env)); [|done]. intros [= <-]. by exists b.
Qed.

(** What the reply ESME_ROK to a submit_sm in store-and-forward mode stands for: the message is
    in the storage, under the id of the reply. *)
Lemma accepted_kept env j m (st st1 : world S) b jr q :
  extract_command_id j = Some CommandId.SubmitSm → submitted env (next_sequence st) j = Some m →
  is_my_request_address env (str_field m "destination_addr") = false →
  get_message_mode env m = MessageMode.StoreAndForward →
  keeps (storage st) q → savable_at (storage st) (now env) m →
  handle_message env j st = (Ok tt, st1) → sent st1 = sent st ++ [(writer env, b)] →
  to_json (SMPPMessage.mk b) = Ok jr → get_u64 jr "command_status" = Some 0%N → ∃ q1 e,
    keeps (storage st1) (e :: q1) ∧ q1 ⊆+ q ∧ message e = m ∧
    ok_option (E := string) (get_schedule_delivery_time (now env) m) = (Ok (schedule e) : ioresult _) ∧
    (∀ t, validity e = Some t →
       get_validity_period (now env) m (validity_default (storage st)) = Ok t ∨
       t = (now env + Z.of_N (validity_default (storage st)) * 1000)%Z) ∧
    encode_or_empty (message_id_response (CommandId.as_u32 CommandId.SubmitSm)
      (cast_u32 (u64_field j "sequence_number")) CommandStatus.EsmeRok (message_id e)) = Ok b.
Proof.
  intros Hc Hm Hmy Hmode Hq Hsv Hh Hsent Hj Hok.
  unfold handle_message in Hh. rewrite Hc in Hh. cbv zeta in Hh.
  set (seq := cast_u32 (u64_field j "sequence_number")) in *.
  assert (Hseq : (seq < 2 ^ 32)%N) by (unfold seq, cast_u32; by apply N.mod_lt).
  unfold handle_data_submit_sm in Hh. unfold submitted in Hm.
  destruct (generate (id_counter st) "msg-") as [mid c] eqn:Eg.
  unfold mbind, StateM_bind in Hh. unfold generate_id at 1 in Hh. rewrite Eg in Hh.
  destruct (replace_sm_default_msg_id_with_predefined_message env j) as [[u|e|] j1]; [|done..].
  injection Hm as Hm. unfold lift at 1 in Hh. unfold next_sequence_number in Hh at 1.
  cbn [SequenceNumberAllocator.next next_sequence] in Hh. rewrite Hm, Hmy, Hmode in Hh.
  set (st2 := mkWorld _ _ _ _ _ _ _ _) in Hh.
  destruct (store_and_forward_message env (CommandId.as_u32 CommandId.SubmitSm) seq mid m st2) as [r st3] eqn:Es.
  unfold fmap, StateM_fmap, mbind, StateM_bind in Hh. rewrite Es in Hh. destruct r as [r|e|]; [|done..].
  cbn [mret StateM_ret] in Hh. apply respond_sent in Hh as (b' & Hb & ->).
  destruct (store_and_forward_answers _ _ _ _ _ _ _ _ Es) as [Hs3 Hans].
  assert (b' = b) as ->.
  { cbn [push_sent sent] in Hsent. rewrite Hs3 in Hsent. cbn [st2 sent] in Hsent.
    apply app_inv_head in Hsent. by injection Hsent. }
  destruct r as [response|response]; cbn [either] in Hb.
  - destruct (store_keeps env _ _ _ _ _ st2 st3 q Hq Hsv Es) as (q1 & e & Hk & Hsub & Hid & Hme & Hsc & Hva).
    exists q1, e. split_and!; [exact Hk|done..|]. by rewrite Hid, <-Hans.
  - destruct Hans as (status & reason & -> & Hne). destruct Hne.
    pose proof (reply_status seq status reason b jr Hseq Hb Hj) as Hst. rewrite Hok in Hst.
    injection Hst as Hst. by apply status_zero.
Qed.

(** A message whose deliver_sm has a normal form, whatever its number. *)
Definition deliverable (m : Value) : Prop := ∀ n, is_Some (normalize_message (as_deliver_sm n m)).

(** C6: from the bytes of a submit_sm to the bytes of a deliver_sm. The storage keeps the
    promises of [WaitingQueue] and can take the message; the submit_sm is in store-and-forward
    mode and for an address that no handler of the server itself claims. A connection that
    receives it and answers it with ESME_ROK has the message in its storage, under the id of the
    answer. At the first tick at which it is due, when it was not cancelled before (it is still
    among the kept messages) and has not expired, when its deliver_sm is in the domain of the
    codecs and the other kept messages can be encoded, and when a client is bound for its
    address, a PDU is written to a client bound for its address that reads as the normal form of
    the message as a deliver_sm. (One other message that cannot be encoded stops the tick.) *)
Theorem submitted_message_arrives env pdu j m (st st1 : world S) b jr q :
  SmppMessageBuffer.framed (SMPPMessage.to_vec pdu) → to_json pdu = Ok j →
  extract_command_id j = Some CommandId.SubmitSm → submitted env (next_sequence st) j = Some m →
  is_my_request_address env (str_field j "destination_addr") = false →
  get_message_mode env j = MessageMode.StoreAndForward →
  keeps (storage st) q → savable_at (storage st) (now env) m →
  handle_message env j st = (Ok tt, st1) → sent st1 = sent st ++ [(writer env, b)] →
  to_json (SMPPMessage.mk b) = Ok jr → get_u64 jr "command_status" = Some 0%N →
  drain env 2 (SmppMessageBuffer.mk (SMPPMessage.to_vec pdu)) st = Some (Ok SmppMessageBuffer.new, st1) ∧
  ∃ q1 e, keeps (storage st1) (e :: q1) ∧ q1 ⊆+ q ∧ message e = m ∧
    encode_or_empty (message_id_response (CommandId.as_u32 CommandId.SubmitSm)
      (cast_u32 (u64_field j "sequence_number")) CommandStatus.EsmeRok (message_id e)) = Ok b ∧
    ok_option (E := string) (get_schedule_delivery_time (now env) m) = (Ok (schedule e) : ioresult _) ∧
    (∀ t, validity e = Some t →
       get_validity_period (now env) m (validity_default (storage st)) = Ok t ∨
       t = (now env + Z.of_N (validity_default (storage st)) * 1000)%Z) ∧
    ∀ env2 (st2 : world S) q2 a w,
      keeps (storage st2) (e :: q2) → clock (now env2) →
      due (now env2) e = true → expired (now env2) e = false →
      deliverable m → Forall (λ e, encodable (message e)) q2 →
      get_str j "destination_addr" = Some a → bound_for env2 (clients st2) a w →
      ∃ st3 w' n p jd, delivery_tick env2 st2 = (Ok tt, st3) ∧
        bound_for env2 (clients st2) a w' ∧
        (w', SMPPMessage.to_vec p) ∈ drop (length (sent st2)) (sent st3) ∧
        to_json p = Ok jd ∧ extract_command_id jd = Some CommandId.DeliverSm ∧
        normalize_message (as_deliver_sm n m) = Some jd ∧
        keeps (storage st3) (filter (λ e, due (now env2) e = false) q2).
Proof.
  intros Hf Hj Hc Hm Hmy Hmode Hq Hsv Hh Hsent Hjr Hok. split; [by eapply drain_one|].
  assert (Hget : ∀ k, k ∈ ["destination_addr"; "esm_class"; "command_id"] → get m k = get j k).
  { intros k Hk. apply (submitted_get _ _ _ _ _ Hm). revert k Hk. apply Forall_forall.
    apply (bool_decide_unpack _). vm_compute. exact I. }
  assert (Hid : is_Some (get m "command_id")).
  { rewrite Hget by (apply (bool_decide_unpack _); vm_compute; exact I).
    destruct (to_json_inv _ _ Hj) as (id & status & seq & _ & _ & m1 & _ & m2 & _ & _ & _ & _ & _ & _ & _ & _ & -> & Hkeep).
    cbn [get]. rewrite Hkeep by (apply (bool_decide_unpack _); vm_compute; exact I). by eexists. }
  assert (Hdst : get m "destination_addr" = get j "destination_addr") by (apply Hget; left).
  assert (Hesm : get m "esm_class" = get j "esm_class") by (apply Hget; right; left).
  assert (Hmy' : is_my_request_address env (str_field m "destination_addr") = false).
  { replace (str_field m "destination_addr") with (str_field j "destination_addr"); [exact Hmy|].
    unfold str_field, get_str. by rewrite Hdst. }
  assert (Hmode' : get_message_mode env m = MessageMode.StoreAndForward).
  { rewrite <-Hmode. unfold get_message_mode, u64_field, get_u64. by rewrite Hesm. }
  destruct (accepted_kept env j m st st1 b jr q Hc Hm Hmy' Hmode' Hq Hsv Hh Hsent Hjr Hok)
    as (q1 & e & Hk & Hsub & Hme & Hsc & Hva & Hb).
  exists q1, e. split_and!; [done..|]. intros env2 st2 q2 a w Hk2 Hcl Hd Hx Hdel Hq2 Ha Hw.
  assert (Henc : encodable m).
  { intros n _. destruct (Hdel n) as [jd Hn]. destruct (from_json_normalizes _ _ Hn) as (p & Hp & _).
    by exists p. }
  assert (Hfwd : Delivery.forwards m = true) by (unfold Delivery.forwards; by rewrite (submitted_command _ _ _ _ Hm), Hc).
  assert (Ha' : get_str m "destination_addr" = Some a) by (rewrite <-Ha; unfold get_str; by rewrite Hdst).
  rewrite <-Hme in Henc, Hfwd, Ha'.
  destruct (kept_arrives env2 st2 e q2 a w Hk2 Hcl Hd Hx Henc Hq2 Hfwd Ha' Hw)
    as (st3 & w' & n & p & Et & Hp & Hb' & Hin & Hk3).
  rewrite Hme in Hp. destruct (Hdel n) as [jd Hn].
  destruct (from_json_normalizes _ _ Hn) as (p' & Hp' & Hjd & _). rewrite Hp in Hp'. injection Hp' as <-.
  pose proof (normal_deliver _ _ Hn (as_deliver_command n m Hid)) as Hcd.
  exists st3, w', n, p, jd. repeat (split; [eassumption|]). exact Hk3.
Qed.

End submission.
