(* ===== verification/SubmissionWitnesses.v ===== *)
(** * A concrete submission

    A submit_sm comes in on a connection of a server over the SQL storage, is answered, and is
    delivered to a client that has bound in the meantime. *)
From S2P Require Import Witnesses SqlInstance SqlWitnesses SqlDelivery DeliveryWitnesses Submission.

Abbreviation sql_server := (world (SqlMessageStorage.t memory_db)).

Definition submission_env : Env := env_at 1000000.
Definition before_submission : sql_server := sql_world ∅ sql_empty.
Definition after_submission : sql_server :=
  (handle_message submission_env submit_normal before_submission).2.

(** The message as it is stored, under number 1, and the reply. *)
Definition submit_stored : Value := Eval vm_compute in default JNull (submitted submission_env 1 submit_normal).
Definition submit_reply : bytes := Eval vm_compute in default [] (snd <$> head (sent after_submission)).
Definition submit_reply_json : Value :=
  Eval vm_compute in match to_json (SMPPMessage.mk submit_reply) with Ok j => j | _ => JNull end.

Lemma stored_deliverable : deliverable submit_stored.
Proof. intros n. eexists. vm_compute. reflexivity. Qed.

Lemma stored_savable : savable 3600 1000000 submit_stored.
Proof. apply sql_savable; [vm_compute; reflexivity|lia|vm_compute; exact I|vm_compute; exact I]. Qed.

Lemma submitted_message_arrives_witness : ∃ st3 w' n p jd,
  delivery_tick (env_at 1001000) (sql_world client_12345 (storage after_submission)) = (Ok tt, st3) ∧
  bound_for (env_at 1001000) client_12345 "12345" w' ∧ (w', SMPPMessage.to_vec p) ∈ sent st3 ∧
  to_json p = Ok jd ∧ extract_command_id jd = Some CommandId.DeliverSm ∧
  normalize_message (as_deliver_sm n submit_stored) = Some jd.
Proof.
  destruct (submitted_message_arrives submission_env submit_pdu submit_normal submit_stored
    before_submission after_submission submit_reply submit_reply_json [])
    as (_ & q1 & e & Hk & Hsub & Hm & _ & Hsc & Hva & Hthen).
  - split; [vm_compute; lia|vm_compute; reflexivity].
  - vm_compute. reflexivity.
  - vm_compute. reflexivity.
  - vm_compute. reflexivity.
  - reflexivity.
  - vm_compute. reflexivity.
  - apply sql_world_empty.
  - apply stored_savable.
  - vm_compute. reflexivity.
  - vm_compute. reflexivity.
  - vm_compute. reflexivity.
  - vm_compute. reflexivity.
  - apply submseteq_nil_r in Hsub as ->.
    assert (Hsched : schedule e = None) by (vm_compute in Hsc; injection Hsc as Hs; exact (eq_sym Hs)).
    destruct (Hthen (env_at 1001000) (sql_world client_12345 (storage after_submission)) [] "12345" 8)
      as (st3 & w' & n & p & jd & E3 & Hb & Hin & Hp & Hc & Hn & _).
    + exact Hk.
    + change (in_days 1001000). split; lia.
    + change (due 1001000 e = true). unfold due. by rewrite Hsched.
    + change (expired 1001000 e = false). unfold expired. destruct (validity e) as [t|] eqn:Et; [|done].
      apply Z.ltb_ge. destruct (Hva t eq_refl) as [Ht|Ht]; [by vm_compute in Ht|].
      rewrite Ht. vm_compute. discriminate.
    + apply stored_deliverable.
    + constructor.
    + vm_compute. reflexivity.
    + apply bound_12345.
    + exists st3, w', n, p, jd. repeat (split; [eassumption|]). exact Hn.
Defined.
