(* ===== verification/TransactionProps.v ===== *)
(** * Transactions: who answers whom

    Theorems on the executions of Transactions.v: a request is answered once in every
    execution; the answer in transaction mode is the status some other connection sent under the
    number of the request, or a failure after the time ran out; a response that comes before
    anyone waits for it is lost; connections that wait for each other wait until then. *)
From S2P Require Export Transactions Submission.

Section props.
Context {S : Type} `{St : MessageStorage S, B64 : Base64, Tlv : TlvOrder, Chr : Chrono, Reg : Regex,
  Gen : MessageIdGenerator, Ord : ClientOrder}.

(** C8: in every execution every request is answered once: when its handler has ended with
    success, the last thing it did was to write the response, with the id of the request (bit 31
    set) and its sequence number, to its own connection; before that it forwarded deliver_sm PDUs
    and waited; a handler that failed answered nothing. The response is missing (the empty buffer
    is written) exactly for the requests whose response cannot be encoded, broadcast_sm,
    query_broadcast_sm, deliver_sm, alert_notification and outbind, and it may be missing for a
    submit_multi with more than 255 destinations. *)
Theorem request_answered_once (s0 : world S) es s j r c :
  execute (started s0) es = Some s → (j, r) ∈ history s →
  extract_command_id (job_message j) = Some c → CommandId.is_request c = true →
  has_command_id (job_message j) → write_ok (job_env j) (writer (job_env j)) = true →
  replied (writer (job_env j)) (answer_pdu (job_env j) c (job_message j)) (actions j) r.
Proof.
  intros Hrun Hin Hc Hr Hj Hw.
  refine (history_adequate
    (λ env v, extract_command_id v = Some c ∧ has_command_id v ∧ write_ok env (writer env) = true)
    (λ env v _, replied (writer env) (answer_pdu env c v)) _ s0 es s j r Hrun Hin _); [|done].
  intros env v st (Hc' & Hj' & Hw'). by apply handle_replied.
Qed.

(** ** The answer in transaction mode *)

(** Forwarded under the number [n] as a deliver_sm to a client that is there for its address,
    or to nobody when there is none. *)
Definition forwarded_to (env : Env) (c : ClientManager.t) (n : N) (m : Value) (fwd : list (nat * bytes)) : Prop :=
  match get_str m "destination_addr" with
  | Some a =>
      fwd = [] ∧ (∀ w, ¬ bound_for env c a w) ∨
      ∃ w p, bound_for env c a w ∧ from_json (as_deliver_sm n m) = Ok p ∧ fwd = [(w, SMPPMessage.to_vec p)]
  | None => fwd = []
  end.

(** The actions and the value of a transaction; a message that cannot be encoded panics. *)
Definition transacted (env : Env) (id seq : N) (mid : string) (m : Value) (st : world S) (l : list action)
    (r : ioresult (Value + Value)) : Prop :=
  l = [] ∧ r = Panic ∨ ∃ fwd answer, l = (Wrote <$> fwd) ++ [Answered (next_sequence st) answer] ∧
    forwarded_to env (clients st) (next_sequence st) m fwd ∧ r = Ok (transaction_answer id seq mid answer).

Lemma forward_as_deliver env n m (st st' : world S) r :
  attempt (forward_message_to_client env (as_deliver_sm n m)) st = (r, st') →
  ∃ new, sent st' = sent st ++ new ∧
    (new = [] ∧ r = Panic ∨ forwarded_to env (clients st) n m new ∧ r = Ok (Ok tt)).
Proof.
  unfold forward_message_to_client, attempt at 1, forwarded_to. intros Hf.
  unfold get_str in *. rewrite get_as_deliver in Hf by done.
  destruct (get m "destination_addr" ≫= as_str) as [a|].
  2: { injection Hf as <- <-. exists []. rewrite app_nil_r. split; [done|]. by right. }
  destruct (from_json (as_deliver_sm n m)) as [p|e|] eqn:Ep.
  2,3: injection Hf as <- <-; exists []; rewrite app_nil_r; split; [done|by left].
  destruct (client_send_reached env a (SMPPMessage.to_vec p) st) as [r1 Hr1].
  unfold mbind, StateM_bind in Hf. rewrite Hr1 in Hf. injection Hf as <- <-. eexists. split; [done|].
  right. split; [|done]. pose proof (reached_spec env (clients st) a (SMPPMessage.to_vec p)) as Hs.
  destruct (reached _ _ _ _) as [|[w b] [|y l]]; [by left| |done].
  destruct Hs as [Hb Hw]. cbn in Hb, Hw. subst b. right. by exists w, p.
Qed.

Lemma transaction_mode_transacted env id seq mid m (st : world S) :
  ends (transaction_mode env id seq mid m st) st (transacted env id seq mid m st).
Proof.
  eapply ends_silent; [reflexivity|done|]. apply ends_bind. set (st1 := mkWorld _ _ _ _ _ _ _ _).
  unfold atomic. destruct (attempt _ st1) as [r st2] eqn:E.
  destruct (forward_as_deliver _ _ _ _ _ _ E) as (new & Hs & Hr). exists new. split; [done|].
  destruct Hr as [[-> ->]|[Hf ->]]; [by left|]. apply always_bind, always_wait. intros v. apply always_ret.
  right. exists new, v. by rewrite app_nil_r.
Qed.

(** A submission in transaction mode. *)
Definition transaction_request (env : Env) (v : Value) (c : CommandId.t) : Prop :=
  extract_command_id v = Some c ∧ c ∈ [CommandId.SubmitSm; CommandId.DataSm] ∧
  is_my_request_address env (str_field v "destination_addr") = false ∧
  get_message_mode env v = MessageMode.Transaction.

(** Preparing a message keeps where it goes and how. *)
Lemma submitted_route env n0 v m :
  submitted env n0 v = Some m →
  str_field m "destination_addr" = str_field v "destination_addr" ∧
  get_message_mode env m = get_message_mode env v.
Proof.
  intros Hm. split.
  - unfold str_field, get_str. rewrite (submitted_get _ _ _ _ _ Hm); [done|].
    apply (bool_decide_unpack _). vm_compute. exact I.
  - unfold get_message_mode, u64_field, get_u64. rewrite (submitted_get _ _ _ _ _ Hm); [done|].
    apply (bool_decide_unpack _). vm_compute. exact I.
Qed.

(** The status that the submitter is told: ESME_RSUBMITFAIL when no response came in time, or
    else the status of the response, ESME_RUNKNOWNERR when it has none. *)
Definition answer_status (answer : option Value) : N :=
  match answer with
  | None => 0x45
  | Some x => cast_u32 (default 0xff%N (get_u64 x "command_status"))
  end.

(** The id that the message is given, and the number it is forwarded under: the first number
    is for the stored form of the message, the second for the deliver_sm. *)
Definition message_id_of (st : world S) : string := (generate (id_counter st) "msg-").1.
Definition forward_number (st : world S) : N := cast_u32 (next_sequence st + 1).

(** The bytes [b] are the response to the request [v] that came in in the state [st]. *)
Definition submit_reply (c : CommandId.t) (v : Value) (st : world S) (status : N) (b : bytes) : Prop :=
  let seq := cast_u32 (u64_field v "sequence_number") in
  SMPPMessage.get_command_id (SMPPMessage.mk b) = Some (N.lor 0x80000000 (CommandId.as_u32 c)) ∧
  SMPPMessage.get_command_status (SMPPMessage.mk b) = Some status ∧
  SMPPMessage.get_sequence_number (SMPPMessage.mk b) = Some seq ∧
  from_json (create_json_response (CommandId.as_u32 c) seq status [("message_id", JString (message_id_of st))])
  = Ok (SMPPMessage.mk b).

(** What the handler of [v], received in the state [st], does: it fails before it forwards
    anything, or it forwards the message, is given an answer and replies with its status. *)
Definition transaction_done (env : Env) (v : Value) (c : CommandId.t) (st : world S) (l : list action)
    (r : ioresult unit) : Prop :=
  l = [] ∧ r ≠ Ok tt ∨ ∃ m fwd answer own,
    submitted env (next_sequence st) v = Some m ∧
    forwarded_to env (clients st) (forward_number st) m fwd ∧
    l = (Wrote <$> fwd) ++ Answered (forward_number st) answer :: own ∧
    ((∃ b, own = [Wrote (writer env, b)] ∧ r = Ok tt ∧ submit_reply c v st (answer_status answer) b) ∨
     own = [] ∧ r ≠ Ok tt ∧ (write_ok env (writer env) = true → 65 < str_len (message_id_of st))).

Lemma transaction_answer_status id seq mid answer :
  either (transaction_answer id seq mid answer)
  = create_json_response id seq (answer_status answer) [("message_id", JString mid)].
Proof.
  destruct answer as [x|]; [|done]. unfold transaction_answer, either.
  change (CommandStatus.as_u32 CommandStatus.EsmeRUnknownErr) with 0xff%N. cbv zeta. by destruct (_ =? _)%N.
Qed.

Lemma answer_status_bound answer : (answer_status answer < 2 ^ 32)%N.
Proof. destruct answer as [x|]; [by apply N.mod_lt|done]. Qed.

(** The last step of the handler. *)
Lemma respond_reply env c v (st : world S) label status :
  c ∈ [CommandId.SubmitSm; CommandId.DataSm] → (status < 2 ^ 32)%N →
  always (atomic (respond env label (create_json_response (CommandId.as_u32 c)
      (cast_u32 (u64_field v "sequence_number")) status [("message_id", JString (message_id_of st))])) : Async S unit)
    (λ own r, (∃ b, own = [Wrote (writer env, b)] ∧ r = Ok tt ∧ submit_reply c v st status b) ∨
      own = [] ∧ r ≠ Ok tt ∧ (write_ok env (writer env) = true → 65 < str_len (message_id_of st))).
Proof.
  intros Hc Hst. set (seq := cast_u32 _). assert (Hseq : (seq < 2 ^ 32)%N) by (by apply N.mod_lt).
  assert (∃ cmd, CommandId.from_u32 (N.lor 0x80000000 (CommandId.as_u32 c)) = Some cmd ∧
    MESSAGE_COMMAND_FIELDS !! CommandId.as_u32 cmd = Some [("message_id", None)]) as (cmd & Hcmd & Hf).
  { rewrite !elem_of_cons, elem_of_nil in Hc. destruct Hc as [-> | [-> | [] ] ];
      eexists; split; vm_compute; reflexivity. }
  set (mid := message_id_of st). set (fields := [("message_id", JString mid)]).
  assert (Hk : ∀ k, k ∈ header_keys → k ∉ fields.*1).
  { intros k Hk Hin. cbn in Hin. apply list_elem_of_singleton in Hin as ->. revert Hk.
    apply (bool_decide_unpack ("message_id" ∉ header_keys)). vm_compute. exact I. }
  pose proof (CommandId.as_u32_bound c) as Hid.
  apply always_atomic. intros st1 r st2 Hr.
  unfold respond, mbind, StateM_bind, lift, relabel, send, write_to, encode_or_empty in Hr.
  destruct (from_json _) as [[b]|e|] eqn:Em.
  - unfold SMPPMessage.to_vec in Hr. cbn [SMPPMessage.message] in Hr.
    destruct (write_ok env (writer env)); injection Hr as <- <-.
    + exists [(writer env, b)]. split; [done|]. left. exists b. split_and!; [done..|].
      destruct (response_pdu_header _ seq status fields cmd Hid Hst Hseq Hk Hcmd _ Em) as (H1 & H2 & H3).
      by split_and!.
    + exists []. rewrite app_nil_r. split; [done|]. right. by split_and!.
  - exfalso. revert Em. apply (response_no_err _ seq status fields cmd Hid Hcmd).
    + apply NoDup_singleton.
    + apply Hk. apply (bool_decide_unpack _). vm_compute. exact I.
    + eexists. split; [exact Hf|]. split; (apply Forall_cons; split; [|by apply Forall_nil]).
      * eexists _, _. split; [vm_compute; reflexivity|]. split; [left|apply no_err_c_octet_str].
      * intros t Ht. vm_compute in Ht. discriminate Ht.
  - injection Hr as <- <-. exists []. rewrite app_nil_r. split; [done|]. right. split_and!; [done..|]. intros _.
    destruct (decide (65 < str_len mid)) as [Hl|Hl]; [done|exfalso].
    pose proof (message_id_encodes _ seq status mid cmd Hid Hst Hseq Hcmd Hf ltac:(lia)) as Hok.
    fold fields in Hok. by rewrite Em in Hok.
Qed.

Lemma handle_transaction env v c (st : world S) :
  transaction_request env v c → ends (handle env v st) st (transaction_done env v c st).
Proof.
  intros (Hc & Hsub & Hmy & Hmode).
  assert (Hh : handle env v = data_submit_sm (S := S) env (CommandId.as_u32 c)
                 (cast_u32 (u64_field v "sequence_number")) v).
  { unfold handle. rewrite Hc. set_unfold in Hsub. by destruct Hsub as [->|[->|[]]]. }
  rewrite Hh. unfold data_submit_sm.
  destruct (generate (id_counter st) "msg-") as [mid counter] eqn:Eg.
  assert (Hmid : mid = message_id_of st) by (unfold message_id_of; by rewrite Eg).
  eapply ends_silent; [unfold generate_id; by rewrite Eg|done|].
  destruct (replace_sm_default_msg_id_with_predefined_message env v) as [r1 v1] eqn:E1.
  destruct r1 as [u|e|].
  2,3: exists []; rewrite app_nil_r; split; [done|by left].
  eapply ends_silent; [reflexivity|done|]. cbv zeta.
  eapply (ends_silent _ _ _ (next_sequence st)); [reflexivity|done|]. cbv zeta.
  set (m := insert_in_object (set_service_type env v1) "sequence_number" (jnum (next_sequence st))).
  assert (Hm : submitted env (next_sequence st) v = Some m) by (unfold submitted; by rewrite E1).
  destruct (submitted_route _ _ _ _ Hm) as [Hd Hmo]. rewrite Hd, Hmy, Hmo, Hmode.
  set (st3 := mkWorld _ _ _ _ _ _ _ _).
  apply ends_bind, ends_bind. eapply ends_mono; [|apply transaction_mode_transacted].
  intros l r [[-> ->]|(fwd & answer & -> & Hf & ->)]; [by left|].
  apply always_ret. rewrite app_nil_r, transaction_answer_status, Hmid.
  eapply always_mono; [|apply respond_reply; [exact Hsub|apply answer_status_bound]].
  intros own r Hown. right. exists m, fwd, answer, own. split_and!; [done|exact Hf| |exact Hown].
  by rewrite <-app_assoc.
Qed.

(** C9: a submission in transaction mode whose handler succeeds was forwarded, under the second
    number that the shared counter gave after it came in, as a deliver_sm to a client that was
    there for its address (to nobody when there was none), and was answered with one response,
    under its own command and sequence number, whose status is the status of a deliver_sm_resp
    that another connection sent with that number, or, when none came in time, ESME_RSUBMITFAIL;
    in every execution. *)
Theorem transaction_answered (s0 : world S) es s j c :
  execute (started s0) es = Some s → (j, Ok tt) ∈ history s →
  transaction_request (job_env j) (job_message j) c →
  let st := job_start j in
  begun s0 es j ∧ ∃ m fwd answer b,
    submitted (job_env j) (next_sequence st) (job_message j) = Some m ∧
    forwarded_to (job_env j) (clients st) (forward_number st) m fwd ∧
    actions j = (Wrote <$> fwd) ++ [Answered (forward_number st) answer; Wrote (writer (job_env j), b)] ∧
    submit_reply c (job_message j) st (answer_status answer) b ∧
    ∀ x, answer = Some x → heard es (writer (job_env j)) (forward_number st) x.
Proof.
  intros Hrun Hin Ht st. subst st. split.
  { destruct (run_begun _ _ _ Hrun) as [_ Hb]. rewrite Forall_forall in Hb. apply (Hb _ Hin). }
  pose proof (history_adequate (λ env v, transaction_request env v c)
    (λ env v, transaction_done env v c) (λ env v st, handle_transaction env v c st) s0 es s j (Ok tt) Hrun Hin Ht)
    as [[_ Hno]|(m & fwd & answer & own & Hm & Hf & Hl & Hown)]; [done|].
  destruct Hown as [(b & -> & _ & Hb)|(_ & Hno & _)]; [|done].
  exists m, fwd, answer, b. split_and!; [done..|]. intros x ->.
  pose proof (system_history _ _ (run_sound _ _ _ Hrun)) as Hall. rewrite Forall_forall in Hall.
  apply (Hall _ Hin _ x). cbn. rewrite Hl. apply elem_of_app. right. by left.
Qed.

(** ** Who may answer *)

(** A submission in transaction mode to one address, whose own socket takes the reply. *)
Definition submits (j : job S) (c : CommandId.t) : Prop :=
  transaction_request (job_env j) (job_message j) c ∧
  write_ok (job_env j) (writer (job_env j)) = true ∧ str_len (message_id_of (job_start j)) ≤ 65.

(** The connection [i] has written one PDU, the reply to [j] with this status, and is free. *)
Definition told (s s' : sys S) (i : nat) (j : job S) (c : CommandId.t) (status : N) : Prop := ∃ b,
  sent (shared s') = sent (shared s) ++ [(i, b)] ∧
  submit_reply c (job_message j) (job_start j) status b ∧ connections s' !! i = None.

Lemma one_answer fwd m x own a n v l :
  (∀ n v, Answered n v ∉ own) → (Wrote <$> fwd) ++ Answered m x :: own = a ++ Answered n v :: l → own = l ∧ x = v.
Proof.
  intros Hno. revert a. induction fwd as [|f fwd IH]; intros [|y a]; cbn; intros Heq.
  - by injection Heq as -> -> ->.
  - exfalso. injection Heq as _ Ho. apply (Hno n v). rewrite Ho. apply elem_of_app. right. left.
  - discriminate Heq.
  - injection Heq as _ Heq. by apply (IH a).
Qed.

Lemma done_replies j c n v l r :
  submits j c → transaction_done (job_env j) (job_message j) c (job_start j) (actions j ++ Answered n v :: l) r →
  ∃ b, l = [Wrote (writer (job_env j), b)] ∧ r = Ok tt ∧
    submit_reply c (job_message j) (job_start j) (answer_status v) b.
Proof.
  intros (_ & Hw & Hlen) [[Hl _]|(m & fwd & answer & own & _ & _ & Hl & Hown)].
  { by destruct (actions j). }
  symmetry in Hl. assert (Hno : ∀ n v, Answered n v ∉ own).
  { intros n' v'. destruct Hown as [(b & -> & _)|[-> _]]; [|by apply not_elem_of_nil].
    by intros ?%list_elem_of_singleton. }
  destruct (one_answer _ _ _ _ _ _ _ _ Hno Hl) as [<- <-].
  destruct Hown as [(b & -> & -> & Hb)|(_ & _ & Hlong)]; [by exists b|]. specialize (Hlong Hw). lia.
Qed.

(** What a connection does with the answer of its channel. *)
Lemma resume_replies (s0 : world S) es s i w n j k c v (st : world S) :
  execute (started s0) es = Some s → connections s !! i = Some (Blocked w n j k) → submits j c →
  ∃ st' b, k v st = Ended (Ok tt) st' ∧ sent st' = sent st ++ [(i, b)] ∧
    submit_reply c (job_message j) (job_start j) (answer_status v) b.
Proof.
  intros Hrun Hi Hj.
  destruct (blocked_adequate (λ env v, transaction_request env v c) (λ env v, transaction_done env v c)
    (λ env v st, handle_transaction env v c st) s0 es s i w n j k Hrun Hi (proj1 Hj)) as [Hw Hk].
  specialize (Hk v st). destruct (k v st) as [r st'|n' st' k'].
  - destruct Hk as (new & Hs & Hq). destruct (done_replies j c n v _ r Hj Hq) as (b & Hb & -> & Hrep).
    destruct new as [|p [|? ?]]; [done| |done]. injection Hb as ->. exists st', b. by rewrite <-Hw.
  - exfalso. destruct Hk as (new & _ & Hk). destruct (ends_inhabited _ _ _ (Hk None st')) as (l & r & Hq).
    destruct (done_replies j c n v _ r Hj Hq) as (b & Hb & _). by destruct new as [|? [|]].
Qed.

(** C28: while a submission in transaction mode waits for the response with a number, the next
    deliver_sm_resp with that number that any other connection sends ends it: also when that
    connection never bound and the message was never forwarded to it. The submitter is sent one
    PDU, the response to its own request with the status of that deliver_sm_resp, and takes its
    next message. *)
Theorem any_response_is_taken (s0 : world S) es s i w n j k c env x :
  execute (started s0) es = Some s → connections s !! i = Some (Blocked w n j k) → submits j c →
  Channels.results (table s) !! w = None → connections s !! writer env = None →
  extract_command_id x = Some CommandId.DeliverSmResp → cast_u32 (u64_field x "sequence_number") = n →
  ∃ s1 s2, turn s (Receive env x) = Some s1 ∧ turn s1 (Resume i) = Some s2 ∧
    told s s2 i j c (cast_u32 (default 0xff%N (get_u64 x "command_status"))).
Proof.
  intros Hrun Hi Hj Hopen Hfree Hx Hn. pose proof (run_sound _ _ _ Hrun) as Hs.
  destruct (system_activity _ _ Hs i _ Hi) as (Hwi & _ & [Hw|(v & Hv & _)]); [|congruence].
  pose proof (system_served _ _ Hs w n Hw) as Ht.
  destruct (hand_over_noted env x (shared s) (table s) Hx) as [Hh _].
  cbn. rewrite Hfree, Hh. eexists. eexists. split; [done|]. cbn.
  rewrite lookup_delete_ne by (intros Heq; congruence). rewrite Hi.
  replace (hand_over x (table s)) with (Channels.response_received n x (table s))
    by (unfold hand_over; by rewrite Hx, Hn).
  unfold Channels.response_received. rewrite Ht, wake_results, decide_True by (split; [done|]; cbn; by exists n).
  split; [done|]. match goal with |- context [k (Some x) ?st1] => set (st := st1) end.
  destruct (resume_replies s0 es s i w n j k c (Some x) st Hrun Hi Hj) as (st' & b & -> & Hsent & Hb).
  exists b. split_and!; [exact Hsent|exact Hb|]. cbn. rewrite Hwi. apply lookup_delete_eq.
Qed.

(** ** Connections that wait for each other *)

(** The connections of [X] wait, each for the response with its number. *)
Definition waiting_for (X : gset nat) (num : nat → N) (s : sys S) : Prop := ∀ i, i ∈ X →
  ∃ w j k, connections s !! i = Some (Blocked w (num i) j k) ∧ Channels.results (table s) !! w = None.

(** Nobody outside [X] sends what they wait for or waits for it too, and no time runs out. *)
Definition left_alone (X : gset nat) (num : nat → N) (e : event) : Prop :=
  match e with
  | Receive env x => writer env ∈ X ∨ ∀ i, i ∈ X →
      extract_command_id x = Some CommandId.DeliverSmResp →
      cast_u32 (u64_field x "sequence_number") ≠ num i
  | Enroll _ n => ∀ i, i ∈ X → n ≠ num i
  | Expire i => i ∉ X
  | _ => True
  end.

Lemma open_channel es (s : sys S) i w n j k :
  sound_system es s → connections s !! i = Some (Blocked w n j k) →
  Channels.results (table s) !! w = None → Channels.waiting (table s) !! w = Some n.
Proof.
  intros Hs Hi Hr. destruct (system_activity _ _ Hs i _ Hi) as (_ & _ & [Hw|(v & Hv & _)]); congruence.
Qed.

(** The table of the next state is that of an event of the table, or the same. *)
Lemma table_event X num es (s : sys S) e s' i w n j k :
  sound_system es s → waiting_for X num s → left_alone X num e → turn s e = Some s' → i ∈ X →
  n = num i → connections s !! i = Some (Blocked w n j k) → Channels.results (table s) !! w = None →
  connections s' !! i = Some (Blocked w n j k) ∧
  (table s' = table s ∨ ∃ ev, table s' = TransactionResponseManager.step (table s) ev ∧ ¬ touches n w ev).
Proof.
  intros Hs HX Ha Ht Hin Hn Hi Hr.
  assert (Hother : ∀ i', connections s !! i' = None → i' ≠ i) by (intros i' Hi' ->; congruence).
  assert (Hset : ∀ j' m s1, connections s1 !! i = Some (Blocked w n j k) → writer (job_env j') ≠ i →
            connections (settle j' m s1) !! i = Some (Blocked w n j k) ∧ table (settle j' m s1) = table s1).
  { intros j' m s1 H1 Hne. split; [|by destruct m].
    destruct m as [[| |] st|n0 st k0]; cbn; rewrite ?lookup_delete_ne, ?lookup_insert_ne by done; done. }
  destruct e as [env v|i' number|i'|i'|env task|env m|env]; cbn in Ht, Ha.
  - destruct (connections s !! writer env) eqn:Ew; [done|]. injection Ht as <-.
    destruct (Hset (mkJob env v (shared s) []) (handle env v (shared s)) (set_table (hand_over v (table s)) s) Hi (Hother _ Ew))
      as [H1 ->].
    split; [done|]. unfold hand_over. destruct Ha as [Hx|Ha]; [by destruct (HX _ Hx) as (? & ? & ? & ? & _); congruence|].
    destruct (extract_command_id v) as [[]|]; try (left; done). right.
    eexists (Channels.Received _ v). split; [done|]. cbn. subst n. by apply Ha.
  - destruct (connections s !! i') as [[n' j' k'|w' n' j' k'|]|] eqn:Ei'; [|done..].
    case_decide; [|done]. injection Ht as <-. cbn. split.
    + rewrite lookup_insert_ne; [done|]. intros ->. congruence.
    + right. exists (Channels.Wait n'). split; [done|]. cbn. subst n' n. by apply Ha.
  - destruct (connections s !! i') as [[n' j' k'|w' n' j' k'|]|] eqn:Ei'; [done| |done..].
    case_decide; [|done]. injection Ht as <-. cbn. split; [done|]. right. exists (Channels.Timeout w').
    split; [done|]. cbn. intros ->. pose proof (system_distinct _ _ Hs i' i w n' n j' j k' k Ei' Hi). by subst i'.
  - destruct (connections s !! i') as [[n' j' k'|w' n' j' k'|]|] eqn:Ei'; [done| |done..].
    destruct (Channels.results (table s) !! w') as [v|] eqn:Er; [|done]. injection Ht as <-.
    destruct (system_activity _ _ Hs i' _ Ei') as [Hj' _].
    destruct (Hset (act [Answered n' v] j') (k' v (shared s)) s Hi) as [H1 H2]; [|split; [done|by left]].
    cbn. rewrite Hj'. intros ->. congruence.
  - destruct (spawned (shared s) !! task); [|done]. injection Ht as <-. split; [done|by left].
  - injection Ht as <-. split; [done|by left].
  - destruct (connections s !! writer env) eqn:Ew; [done|]. injection Ht as <-. cbn.
    rewrite lookup_insert_ne by (by apply Hother). split; [done|by left].
Qed.

Lemma waiting_turn X num es (s : sys S) e s' :
  sound_system es s → waiting_for X num s → left_alone X num e → turn s e = Some s' →
  waiting_for X num s' ∧ ∀ i, i ∈ X → connections s' !! i = connections s !! i.
Proof.
  intros Hs HX Ha Ht.
  assert (Hall : ∀ i, i ∈ X → ∃ w j k, connections s !! i = Some (Blocked w (num i) j k) ∧
            connections s' !! i = Some (Blocked w (num i) j k) ∧ Channels.results (table s') !! w = None).
  { intros i Hin. destruct (HX i Hin) as (w & j & k & Hi & Hr). exists w, j, k. split; [done|].
    destruct (table_event X num es s e s' i w (num i) j k Hs HX Ha Ht Hin eq_refl Hi Hr) as [Hi' Htab].
    split; [done|]. destruct Htab as [->|(ev & -> & Hno)]; [done|].
    pose proof (system_wf _ _ Hs) as Hwf. pose proof (system_served _ _ Hs) as Hsv.
    apply (wf_one _ (proj1 (step_inv _ ev Hwf Hsv))).
    exists (num i). apply step_other; [done|done| |done]. by eapply open_channel. }
  split; intros i Hin; destruct (Hall i Hin) as (w & j & k & Hi & Hi' & Hr); [by exists w, j, k|].
  by rewrite Hi, Hi'.
Qed.

(** What is told to a submitter whose time runs out. *)
Lemma expire_told (s0 : world S) es s i w n j k c :
  execute (started s0) es = Some s → connections s !! i = Some (Blocked w n j k) →
  Channels.results (table s) !! w = None → submits j c →
  ∃ s1 s2, turn s (Expire i) = Some s1 ∧ turn s1 (Resume i) = Some s2 ∧ told s s2 i j c 69.
Proof.
  intros Hrun Hi Hr Hj. pose proof (run_sound _ _ _ Hrun) as Hs.
  pose proof (open_channel _ _ _ _ _ _ _ Hs Hi Hr) as Hw.
  cbn. rewrite Hi, decide_True by done.
  eexists. eexists. split; [done|]. cbn. rewrite Hi. unfold TransactionResponseManager.timeout. rewrite Hw.
  pose proof (system_served _ _ Hs w n Hw) as Ht. rewrite wake_transactions, Ht.
  rewrite wake_results. rewrite decide_False.
  2: { intros [_ [m Hm]]. revert Hm. cbn. rewrite wake_waiting. by rewrite lookup_delete_eq. }
  cbn. rewrite wake_results, decide_True by (split; [done|]; by exists n).
  split; [done|].
  destruct (resume_replies s0 es s i w n j k c None (shared s) Hrun Hi Hj) as (st' & b & -> & Hsent & Hb).
  exists b. split_and!; [exact Hsent|exact Hb|]. cbn.
  destruct (system_activity _ _ Hs i _ Hi) as (-> & _). apply lookup_delete_eq.
Qed.

(** C20: connections whose transactions wait for one another wait until their time runs out. While
    the connections of a set wait, each for a response that nobody outside the set sends, and
    none of their times runs out, no sequence of turns moves any of them: a connection takes no
    message before its handler is done, so the responses that have come in stay unread. When the
    time of one that submitted a message to one address does run out, it is sent one PDU, the
    response to its own request with the status ESME_RSUBMITFAIL (69), although the others had
    the message. In particular a client that submits to itself. *)
Theorem crossing_transactions_wait (X : gset nat) num (s0 : world S) es0 s es s' :
  execute (started s0) es0 = Some s → waiting_for X num s →
  execute s es = Some s' → Forall (left_alone X num) es →
  waiting_for X num s' ∧ ∀ i, i ∈ X →
    connections s' !! i = connections s !! i ∧
    (∀ env x, writer env = i → turn s' (Receive env x) = None) ∧ turn s' (Resume i) = None ∧
    ∃ w j k, connections s !! i = Some (Blocked w (num i) j k) ∧ ∀ c, submits j c → ∃ s1 s2,
      turn s' (Expire i) = Some s1 ∧ turn s1 (Resume i) = Some s2 ∧ told s' s2 i j c 69.
Proof.
  intros Hrun0 HX Hex Hes. pose proof (run_sound _ _ _ Hrun0) as Hrun.
  assert (Hmain : sound_system (es0 ++ es) s' ∧ waiting_for X num s' ∧
            ∀ i, i ∈ X → connections s' !! i = connections s !! i).
  { clear - Hrun HX Hex Hes. revert es0 s Hrun HX Hex.
    induction Hes as [|e es He _ IH]; intros es0 s Hrun HX Hex.
    - injection Hex as <-. by rewrite app_nil_r.
    - cbn in Hex. destruct (turn s e) as [s1|] eqn:Et; [|done].
      destruct (waiting_turn X num es0 s e s1 Hrun HX He Et) as [HX1 Hsame].
      destruct (IH (es0 ++ [e]) s1 (system_step _ _ _ _ Hrun Et) HX1 Hex) as (H1 & H2 & H3).
      rewrite <-app_assoc in H1. split_and!; [done..|]. intros i Hi. by rewrite H3, Hsame. }
  destruct Hmain as (Hs' & HX' & Hsame). split; [done|]. intros i Hin.
  destruct (HX' i Hin) as (w & j & k & Hi & Hr). pose proof (open_channel _ _ _ _ _ _ _ Hs' Hi Hr) as Hw.
  split; [by apply Hsame|]. cbn. rewrite Hi, Hr. split_and!; [intros env x ->; by rewrite Hi|done|].
  exists w, j, k. split; [by rewrite <-Hsame|]. intros c Hj.
  destruct (expire_told s0 (es0 ++ es) s' i w (num i) j k c) as (s1 & s2 & E1 & E2 & Htold);
    [by rewrite run_app, Hrun0|done..|].
  cbn in E1. rewrite Hi, Hr in E1. by exists s1, s2.
Qed.

(** C40: a client that is faster than the server is not heard: when its response comes in after
    the message was forwarded and before the handler has reached the table, the response is
    dropped and the handler goes on to wait for it. Unless the same number is answered once more
    before the time runs out, the submitter of a message to one address is then sent the response
    to its request with the status ESME_RSUBMITFAIL (69). *)
Theorem prompt_response_lost (s0 : world S) es s i n j k env x c :
  execute (started s0) es = Some s → connections s !! i = Some (Parked n j k) → submits j c →
  Channels.transactions (table s) !! n = None → connections s !! writer env = None →
  extract_command_id x = Some CommandId.DeliverSmResp → cast_u32 (u64_field x "sequence_number") = n →
  ∃ s1 s2 s3 s4, turn s (Receive env x) = Some s1 ∧ turn s1 (Enroll i n) = Some s2 ∧
    waiting_for {[i]} (λ _, n) s2 ∧
    turn s2 (Expire i) = Some s3 ∧ turn s3 (Resume i) = Some s4 ∧ told s2 s4 i j c 69.
Proof.
  intros Hrun Hi Hj Hno Hfree Hx Hn. pose proof (system_wf _ _ (run_sound _ _ _ Hrun)) as Hwf.
  destruct (hand_over_noted env x (shared s) (table s) Hx) as [Hh _].
  assert (Ht : hand_over x (table s) = table s).
  { unfold hand_over, Channels.response_received. by rewrite Hx, Hn, Hno. }
  assert (E : ∃ s1 s2, turn s (Receive env x) = Some s1 ∧ turn s1 (Enroll i n) = Some s2 ∧
    connections s2 !! i = Some (Blocked (Channels.next (table s)) n j k) ∧
    Channels.results (table s2) !! Channels.next (table s) = None).
  { cbn. rewrite Hfree, Hh, Ht. eexists _, _. split; [done|]. cbn.
    rewrite lookup_delete_ne by (intros Heq; congruence). rewrite Hi, decide_True by done. split; [done|].
    cbn. split; [by rewrite lookup_insert_eq|].
    apply (wf_one _ (wf_insert n (table s) Hwf)). rewrite waiting_insert. by eexists. }
  destruct E as (s1 & s2 & E1 & E2 & Hi2 & Hr2).
  destruct (expire_told s0 (es ++ [Receive env x; Enroll i n]) s2 i (Channels.next (table s)) n j k c) as (s3 & s4 & E3 & E4 & Htold);
    [|exact Hi2|exact Hr2|exact Hj|].
  { rewrite run_app, Hrun. cbn [execute]. by rewrite E1, E2. }
  exists s1, s2, s3, s4. do 2 (split; [done|]). split; [|by split_and!].
  intros i' ->%elem_of_singleton. by eexists _, j, k.
Qed.

End props.
