(* ===== verification/TransactionWitnesses.v ===== *)
(** * Transactions between concrete connections

    Two connections of a server over the SQL storage: "100" on writer 7 and "12345" on writer 8
    submit to each other in transaction mode. *)
From S2P Require Import Witnesses SqlInstance SqlWitnesses SqlDelivery DeliveryWitnesses TransactionProps.

Abbreviation system := (sys (SqlMessageStorage.t memory_db)).

Definition env_of (peer : string) (w : nat) : Env :=
  mkEnv server_config peer w 1000000 (λ _ _, false) (λ _, false)
    (λ _, io_err Other "no handler") (λ _, true) (λ _, None) (DistrubutionList.new ∅).

Definition env7 : Env := env_of "10.0.0.1:4000" 7.
Definition env8 : Env := env_of "10.0.0.2:2775" 8.
Definition env9 : Env := env_of "10.0.0.3:2775" 9.

Definition two_clients : ClientManager.t :=
  {["10.0.0.1:4000" := ("100", 7); "10.0.0.2:2775" := ("12345", 8)]}.
Definition two_world : world (SqlMessageStorage.t memory_db) := sql_world two_clients sql_empty.

(** The submit_sm of Witnesses.v in transaction mode, to either. *)
Definition submit_to_addr (a : string) : Value := Eval vm_compute in
  set_if_present (set_if_present submit_normal "esm_class" (jnum 2)) "destination_addr" (JString a).
Definition to_12345 : Value := Eval vm_compute in submit_to_addr "12345".
Definition to_100 : Value := Eval vm_compute in submit_to_addr "100".

Definition deliver_resp (n status : N) : Value :=
  JObject (jextend
    [("command_id", jnum (CommandId.as_u32 CommandId.DeliverSmResp)); ("sequence_number", jnum n);
     ("command_status", jnum status); ("message_id", JString "")] []).

(** An execution, or what it is at its start. *)
Definition after (es : list event) : system := default (started two_world) (execute (started two_world) es).

Lemma after_executes es :
  match execute (started two_world) es with Some _ => true | None => false end = true →
  execute (started two_world) es = Some (after es).
Proof. unfold after. by destruct (execute (started two_world) es). Qed.

(** ** One transaction *)

Definition one_transaction : list event :=
  [Receive env7 to_12345; Enroll 7 2; Receive env8 (deliver_resp 2 0); Resume 7].

Definition done_job : job (SqlMessageStorage.t memory_db) := default (mkJob env7 JNull two_world []) (fst <$> last (history (after one_transaction))).

Lemma done_in_history : (done_job, Ok tt) ∈ history (after one_transaction).
Proof.
  assert (Hl : length (history (after one_transaction)) = 2) by (vm_compute; reflexivity).
  assert (Hr : snd <$> history (after one_transaction) = [Ok tt; Ok tt]) by (vm_compute; reflexivity).
  unfold done_job. destruct (history _) as [|[j1 r1] [|[j2 r2] [|]]]; try done.
  injection Hr as -> ->. right. by left.
Qed.

Lemma done_message : job_message done_job = to_12345 ∧ writer (job_env done_job) = 7 ∧
  job_start done_job = two_world.
Proof. split_and!; vm_compute; reflexivity. Qed.

Lemma request_answered_once_witness :
  replied 7 (response_pdu (CommandId.as_u32 CommandId.SubmitSm) 9) (actions done_job) (Ok tt : ioresult unit).
Proof.
  apply (request_answered_once two_world one_transaction (after one_transaction) done_job (Ok tt)
           CommandId.SubmitSm).
  - apply after_executes. vm_compute. reflexivity.
  - apply done_in_history.
  - vm_compute. reflexivity.
  - reflexivity.
  - rewrite (proj1 done_message). eexists. split; [reflexivity|]. vm_compute. by eexists.
  - vm_compute. reflexivity.
Defined.

Lemma transaction_answered_witness : ∃ m fwd answer b,
  submitted env7 1 to_12345 = Some m ∧ forwarded_to env7 two_clients 2 m fwd ∧
  actions done_job = (Wrote <$> fwd) ++ [Answered 2 answer; Wrote (7, b)] ∧
  submit_reply CommandId.SubmitSm to_12345 two_world (answer_status answer) b ∧
  ∀ x, answer = Some x → heard one_transaction 7 2 x.
Proof.
  apply (transaction_answered two_world one_transaction (after one_transaction) done_job CommandId.SubmitSm).
  - apply after_executes. vm_compute. reflexivity.
  - apply done_in_history.
  - rewrite (proj1 done_message). split_and!; [vm_compute; reflexivity|left| |]; vm_compute; reflexivity.
Defined.

(** ** A stranger *)

Definition submits_b (j : job (SqlMessageStorage.t memory_db)) (c : CommandId.t) : bool :=
  bool_decide (extract_command_id (job_message j) = Some c) &&
  bool_decide (c ∈ [CommandId.SubmitSm; CommandId.DataSm]) &&
  negb (is_my_request_address (job_env j) (str_field (job_message j) "destination_addr")) &&
  bool_decide (get_message_mode (job_env j) (job_message j) = MessageMode.Transaction) &&
  write_ok (job_env j) (writer (job_env j)) && Nat.leb (str_len (message_id_of (job_start j))) 65.

Lemma submits_b_spec j c : submits_b j c = true → submits j c.
Proof.
  unfold submits_b. intros [[[[[H1 H2]%andb_prop H3]%andb_prop H4]%andb_prop H5]%andb_prop H6]%andb_prop.
  apply bool_decide_eq_true in H1, H2, H4. apply negb_true_iff in H3. apply Nat.leb_le in H6. by split_and!.
Qed.

(** Connection [i] waits for the response with the number [n] to the submit_sm it received. *)
Definition is_waiting (s : system) (i : nat) (n : N) : bool :=
  match connections s !! i with
  | Some (Blocked w n' j _) =>
      (n' =? n)%N && bool_decide (Channels.results (table s) !! w = None) && submits_b j CommandId.SubmitSm
  | _ => false
  end.

Lemma is_waiting_spec s i n : is_waiting s i n = true → ∃ w j k,
  connections s !! i = Some (Blocked w n j k) ∧ Channels.results (table s) !! w = None ∧
  submits j CommandId.SubmitSm.
Proof.
  unfold is_waiting. destruct (connections s !! i) as [[|w n' j k|]|]; try done.
  intros [[->%N.eqb_eq Hr%bool_decide_eq_true_1]%andb_prop Hj%submits_b_spec]%andb_prop. by exists w, j, k.
Qed.

Definition one_waits : list event := [Receive env7 to_12345; Enroll 7 2].

(** Writer 9 has not bound and was sent nothing. *)
Lemma any_response_is_taken_witness : ∃ s1 s2 j,
  turn (after one_waits) (Receive env9 (deliver_resp 2 8)) = Some s1 ∧ turn s1 (Resume 7) = Some s2 ∧
  told (after one_waits) s2 7 j CommandId.SubmitSm 8.
Proof.
  destruct (is_waiting_spec (after one_waits) 7 2) as (w & j & k & Hi & Hr & Hj); [vm_compute; reflexivity|].
  destruct (any_response_is_taken two_world one_waits (after one_waits) 7 w 2 j k CommandId.SubmitSm env9
    (deliver_resp 2 8)) as (s1 & s2 & H1 & H2 & H3).
  - apply after_executes. vm_compute. reflexivity.
  - exact Hi.
  - exact Hj.
  - exact Hr.
  - vm_compute. reflexivity.
  - vm_compute. reflexivity.
  - vm_compute. reflexivity.
  - exists s1, s2, j. split; [exact H1|]. split; [exact H2|exact H3].
Defined.

(** ** Two transactions that cross *)

Definition crossing : list event :=
  [Receive env7 to_12345; Receive env8 to_100; Enroll 7 2; Enroll 8 4].
Definition meanwhile : list event := [Receive env9 (deliver_resp 7 0); Disconnect env9].
Definition number_of (i : nat) : N := if decide (i = 7) then 2 else 4.

Lemma same_job (s : system) i w n j k w' n' j' k' :
  connections s !! i = Some (Blocked w n j k) → connections s !! i = Some (Blocked w' n' j' k') → j = j'.
Proof. intros H1 H2. rewrite H1 in H2. by injection H2. Qed.

Lemma waits_then_told : ∀ i, i ∈ ({[7; 8]} : gset nat) → ∃ w j k,
  connections (after crossing) !! i = Some (Blocked w (number_of i) j k) ∧
  Channels.results (table (after crossing)) !! w = None ∧ submits j CommandId.SubmitSm.
Proof.
  intros i [->%elem_of_singleton| ->%elem_of_singleton]%elem_of_union;
    apply is_waiting_spec; vm_compute; reflexivity.
Qed.

Lemma crossing_transactions_wait_witness :
  waiting_for {[7; 8]} number_of (after (crossing ++ meanwhile)) ∧
  turn (after (crossing ++ meanwhile)) (Receive env8 (deliver_resp 2 0)) = None ∧
  turn (after (crossing ++ meanwhile)) (Resume 7) = None ∧
  ∃ j s1 s2, turn (after (crossing ++ meanwhile)) (Expire 7) = Some s1 ∧ turn s1 (Resume 7) = Some s2 ∧
    told (after (crossing ++ meanwhile)) s2 7 j CommandId.SubmitSm 69.
Proof.
  destruct (crossing_transactions_wait {[7; 8]} number_of two_world crossing (after crossing) meanwhile
    (after (crossing ++ meanwhile))) as [Hw Hall].
  - apply after_executes. vm_compute. reflexivity.
  - intros i Hi. destruct (waits_then_told i Hi) as (w & j & k & H1 & H2 & _). exists w, j, k. exact (conj H1 H2).
  - assert (H := after_executes (crossing ++ meanwhile)). rewrite run_app, after_executes in H.
    + apply H. vm_compute. reflexivity.
    + vm_compute. reflexivity.
  - repeat apply Forall_cons_2; [|exact I|constructor]. right.
    intros i [->%elem_of_singleton| ->%elem_of_singleton]%elem_of_union _; vm_compute; discriminate.
  - destruct (Hall 7 ltac:(set_solver)) as (_ & _ & H7 & w & j & k & Hi & Htold).
    destruct (Hall 8 ltac:(set_solver)) as (_ & H8 & _ & _).
    destruct (waits_then_told 7 ltac:(set_solver)) as (w' & j' & k' & Hi' & _ & Hj).
    rewrite <-(same_job _ _ _ _ _ _ _ _ _ _ Hi Hi') in Hj.
    split; [exact Hw|]. split; [by apply H8|]. split; [exact H7|]. exists j. apply Htold. exact Hj.
Defined.

(** ** A response that comes too soon *)

(** The message was forwarded to writer 8, which answers before the handler has the lock. *)
Definition one_parked : list event := [Receive env7 to_12345].

Definition is_parked (s : system) (i : nat) (n : N) : bool :=
  match connections s !! i with
  | Some (Parked n' j _) => (n' =? n)%N && submits_b j CommandId.SubmitSm
  | _ => false
  end.

Lemma is_parked_spec s i n : is_parked s i n = true → ∃ j k,
  connections s !! i = Some (Parked n j k) ∧ submits j CommandId.SubmitSm.
Proof.
  unfold is_parked. destruct (connections s !! i) as [[n' j k| |]|]; try done.
  intros [->%N.eqb_eq Hj%submits_b_spec]%andb_prop. by exists j, k.
Qed.

Lemma prompt_response_lost_witness : ∃ j s1 s2 s3 s4,
  turn (after one_parked) (Receive env8 (deliver_resp 2 0)) = Some s1 ∧ turn s1 (Enroll 7 2) = Some s2 ∧
  waiting_for {[7]} (λ _, 2%N) s2 ∧
  turn s2 (Expire 7) = Some s3 ∧ turn s3 (Resume 7) = Some s4 ∧ told s2 s4 7 j CommandId.SubmitSm 69.
Proof.
  destruct (is_parked_spec (after one_parked) 7 2) as (j & k & Hi & Hj); [vm_compute; reflexivity|].
  exists j. apply (prompt_response_lost two_world one_parked (after one_parked) 7 2 j k env8 (deliver_resp 2 0)
    CommandId.SubmitSm).
  - apply after_executes. vm_compute. reflexivity.
  - exact Hi.
  - exact Hj.
  - vm_compute. reflexivity.
  - vm_compute. reflexivity.
  - vm_compute. reflexivity.
  - vm_compute. reflexivity.
Defined.
