(* ===== verification/RestListeners.v ===== *)
(** * REST listeners (src/smsc_server/smsc_server.rs, src/smsc_client/smsc_client.rs)

    [start_rest_listener] of the server and [start_rest] of the client have one body: which
    addresses are bound, over TLS or not, and how the listeners are served. The network and
    the TLS library are parameters. *)
From S2P Require Export Config.

(** [TcpListener::bind] as a task sees it: answers that may change from call to call. *)
Class Network (T L : Type) := bind : string → T → ioresult L * T.

(** [Path::exists], and [RustlsConfig::from_pem_file] without its error. *)
Class TlsFiles (C : Type) := {
  file_exists : string → bool;
  from_pem_file : string → string → option C;
}.

(** A listener and how it is served. *)
Inductive rest_socket (L C : Type) : Type :=
| Plain (listener : L)
| Tls (listener : L) (rustls_config : C).
Arguments Plain {L C}. Arguments Tls {L C}.

(** What is served: the listeners of tasks of their own, and the plain one the caller serves
    itself; without one it waits forever. *)
Inductive rest_server (L C : Type) : Type :=
| NothingBound
| Serving (first : option L) (spawned : list (rest_socket L C)).
Arguments NothingBound {L C}. Arguments Serving {L C}.

Section rest.
Context {T L C : Type} `{Network T L, TlsFiles C}.

(** A certificate and a key that are files and load; anything less is served in plain text. *)
Definition tls_config (addr : RestAddressConfig.t) : option C :=
  match RestAddressConfig.cert_file addr, RestAddressConfig.key_file addr with
  | Some cert_file, Some key_file =>
      if file_exists cert_file && file_exists key_file then from_pem_file cert_file key_file
      else None
  | _, _ => None
  end.

(** The body of the loop over the addresses: one that cannot be bound is left out. *)
Definition bind_rest_address (addr : RestAddressConfig.t) (net : T) :
    option (rest_socket L C) * T :=
  let config := tls_config addr in
  let '(r, net) := bind (RestAddressConfig.address addr) net in
  (match r, config with
   | Ok listener, Some rustls_config => Some (Tls listener rustls_config)
   | Ok listener, None => Some (Plain listener)
   | _, _ => None
   end, net).

Fixpoint bind_rest_addresses (addrs : list RestAddressConfig.t) (net : T) :
    list (rest_socket L C) * T :=
  match addrs with
  | [] => ([], net)
  | addr :: rest =>
      let '(s, net) := bind_rest_address addr net in
      let '(ss, net) := bind_rest_addresses rest net in (option_list s ++ ss, net)
  end.

Definition plain_listener (s : rest_socket L C) : option L :=
  match s with Plain l => Some l | Tls _ _ => None end.
Definition is_tls (s : rest_socket L C) : bool :=
  match s with Plain _ => false | Tls _ _ => true end.

(** The TLS listeners are spawned first, then the plain ones but the first. *)
Definition serve_rest (sockets : list (rest_socket L C)) : rest_server L C :=
  let tls_configs := filter (λ s, is_tls s = true) sockets in
  match omap plain_listener sockets, tls_configs with
  | [], [] => NothingBound
  | first :: plain_listeners, _ => Serving (Some first) (tls_configs ++ (Plain <$> plain_listeners))
  | [], _ => Serving None tls_configs
  end.

Definition start_rest (addrs : list RestAddressConfig.t) (net : T) : rest_server L C * T :=
  let '(sockets, net) := bind_rest_addresses addrs net in (serve_rest sockets, net).

(** The sockets of a server, in the order they are started. *)
Definition sockets_of (r : rest_server L C) : list (rest_socket L C) :=
  match r with
  | NothingBound => []
  | Serving first spawned => spawned ++ option_list (Plain <$> first)
  end.

(** ** What is served *)

Lemma sockets_split (l : list (rest_socket L C)) :
  l ≡ₚ filter (λ s, is_tls s = true) l ++ (Plain <$> omap plain_listener l).
Proof.
  induction l as [|[a|a c] l IH]; [done| |].
  - rewrite filter_cons_False by done. cbn. by rewrite <-Permutation_middle, <-IH.
  - rewrite filter_cons_True by done. cbn. by rewrite <-IH.
Qed.

(** Every socket is served, once. *)
Lemma serve_rest_sockets sockets : sockets_of (serve_rest sockets) ≡ₚ sockets.
Proof.
  rewrite (sockets_split sockets) at 2. unfold serve_rest.
  destruct (omap plain_listener sockets) as [|first rest].
  - destruct (filter _ sockets); [done|]. cbn. by rewrite !app_nil_r.
  - cbn. rewrite <-app_assoc. f_equiv. apply Permutation_app_comm.
Qed.

Lemma nothing_bound sockets : serve_rest sockets = NothingBound ↔ sockets = [].
Proof.
  split; [|by intros ->]. intros Hs. pose proof (serve_rest_sockets sockets) as Hp.
  rewrite Hs in Hp. cbn in Hp. by apply Permutation_nil_l in Hp.
Qed.

(** The answer of the network to each address, in order. *)
Fixpoint bindings (addrs : list RestAddressConfig.t) (net : T) : list (ioresult L) :=
  match addrs with
  | [] => []
  | addr :: rest =>
      let '(r, net) := bind (RestAddressConfig.address addr) net in r :: bindings rest net
  end.

(** How an address is to be served once it is bound. *)
Definition socket_for (addr : RestAddressConfig.t) (r : ioresult L) : option (rest_socket L C) :=
  match r with
  | Ok l => Some (match tls_config addr with Some c => Tls l c | None => Plain l end)
  | _ => None
  end.

Lemma bind_rest_addresses_sockets addrs net :
  (bind_rest_addresses addrs net).1 = omap (λ p, socket_for p.1 p.2) (zip addrs (bindings addrs net)).
Proof.
  revert net. induction addrs as [|addr addrs IH]; intros net; [done|].
  cbn [bind_rest_addresses bindings]. unfold bind_rest_address.
  destruct (bind _ net) as [r net'] eqn:E. specialize (IH net').
  assert (Ho : match r, tls_config addr with
               | Ok l, Some c => Some (Tls l c) | Ok l, None => Some (Plain l) | _, _ => None
               end = socket_for addr r) by (unfold socket_for; by destruct r, (tls_config addr)).
  rewrite Ho. destruct (bind_rest_addresses addrs net') as [ss net'']. cbn in IH. subst ss.
  cbn. by destruct (socket_for addr r).
Qed.

(** Every configured address the network binds is served, once: over TLS when both files
    exist and load, in plain text otherwise. *)
Lemma rest_sockets addrs net :
  sockets_of (start_rest addrs net).1 ≡ₚ omap (λ p, socket_for p.1 p.2) (zip addrs (bindings addrs net)).
Proof.
  rewrite <-bind_rest_addresses_sockets. unfold start_rest.
  destruct (bind_rest_addresses addrs net) as [ss net']. apply serve_rest_sockets.
Qed.

(** Nothing is served exactly when no address is bound. *)
Lemma rest_nothing addrs net :
  (start_rest addrs net).1 = NothingBound ↔ Forall (λ b, is_ok b = false) (bindings addrs net).
Proof.
  unfold start_rest. pose proof (bind_rest_addresses_sockets addrs net) as Hs.
  destruct (bind_rest_addresses addrs net) as [ss net'] eqn:E. cbn in Hs |- *. subst ss.
  rewrite nothing_bound. clear E. revert net.
  induction addrs as [|addr addrs IH]; intros net; [by split; [constructor|]|].
  cbn. destruct (bind _ net) as [r net1] eqn:Eb. cbn. rewrite Forall_cons.
  destruct r as [l|e|]; cbn; [|rewrite IH; tauto..].
  split; [by destruct (tls_config addr)|by intros [? _]].
Qed.

End rest.
