(* ===== verification/IpWhitelists.v ===== *)
(** * IP whitelists (src/ip_whitelist.rs)

    The four whitelists as instances of one class, the file the in-memory one is loaded from,
    and the choice of a whitelist from the configuration. The database and the HTTP service
    are parameters, with what their statements mean as laws. *)
From S2P Require Export Server ConfigFiles.

(** The trait: both questions may fail, and may change what is behind the whitelist. *)
Class IpWhitelist (W : Type) := {
  is_empty : StateM W bool;
  is_allowed : string → StateM W bool;
}.

(** ** No whitelist *)

Inductive EmptyIpWhitelist : Type := NoFiltering.

#[export] Instance empty_whitelist : IpWhitelist EmptyIpWhitelist := {|
  is_empty := mret true;
  is_allowed _ := mret true;
|}.

(** ** In memory *)

(** [str::lines]: a line ends with a line feed, and a carriage return before it goes too. *)
Definition strip_cr (l : bytes) : bytes :=
  match reverse l with x0d :: r => reverse r | _ => l end.

Definition lines (l : bytes) : list bytes :=
  match reverse (split_on [x0a] l) with
  | [] => []
  | last :: ended => (strip_cr <$> reverse ended) ++ (if decide (last = []) then [] else [last])
  end.

(** The plain-text file: a line per address, comments and blank lines out. *)
Definition whitelist_lines (data : string) : list string :=
  of_bytes <$> filter (λ l, l ≠ [] ∧ starts_with (as_bytes "#") l = false)
                      (trim <$> lines (as_bytes data)).

Module MemoryIpWhitelist.
(** [locked]: the mutex is held. *)
Record t : Type := mk { ips : list string; locked : bool }.

Definition new (ips : list string) : t := mk ips false.

Section file.
Context `{JsonText, FromYaml (list string)}.
Variable read_to_string : string → ioresult string.

Definition invalid_data {A} (r : string + A) : ioresult A :=
  match r with inl e => io_err InvalidData e | inr a => Ok a end.

Definition load_from_file (path : string) (s : t) : ioresult t :=
  data ← read_to_string path;
  loaded ← (if is_json path then invalid_data (from_json_str data)
            else if is_yaml path then invalid_data (from_yaml_str data)
            else Ok (whitelist_lines data));
  if locked s then io_err Other "Failed to lock IPs during file load"
  else Ok (mk (ips s ++ loaded) false).
End file.

Definition is_empty : StateM t bool := λ s, (Ok (bool_decide (ips s = [])), s).

Definition is_allowed (ip : string) : StateM t bool := λ s,
  (if decide (ips s = []) then Ok true else Ok (bool_decide (ip ∈ ips s)), s).
End MemoryIpWhitelist.

#[export] Instance memory_whitelist : IpWhitelist MemoryIpWhitelist.t := {|
  is_empty := MemoryIpWhitelist.is_empty;
  is_allowed := MemoryIpWhitelist.is_allowed;
|}.

(** ** In a database *)

Definition create_whitelist_ddl : string :=
  "
            CREATE TABLE IF NOT EXISTS ip_whitelist (
                ip TEXT PRIMARY KEY
            )
            ".
Definition count_text : string := "SELECT COUNT(" +:+ "*" +:+ ") FROM ip_whitelist".
Definition select_ip_text : string := "SELECT ip FROM ip_whitelist WHERE ip = $1".

(** What the whitelist asks of sqlx, for a pool [D]. *)
Class WhitelistDatabase (D : Type) := {
  execute_text : string → D → outcome string unit * D;
  (** [query_as(text).fetch_one(pool)], a row of one [i64]. *)
  fetch_count : string → D → outcome string Z * D;
  (** [query(text).bind(value).fetch_optional(pool)] *)
  fetch_optional : string → string → D → outcome string (option string) * D;
  (** The column [ip] of the table. *)
  listed : D → list string;
  answering : D → Prop;
  fetch_count_law : ∀ d, answering d → ∃ d',
    fetch_count count_text d = (Ok (Z.of_nat (length (listed d))), d') ∧ answering d' ∧
    listed d' = listed d;
  fetch_optional_law : ∀ ip d, answering d → ∃ r d',
    fetch_optional select_ip_text ip d = (Ok r, d') ∧ answering d' ∧ listed d' = listed d ∧
    (is_Some r ↔ ip ∈ listed d);
}.

Section database.
Context {D : Type} `{WhitelistDatabase D}.

(** [connect] is [AnyPool::connect], after the drivers are installed. *)
Definition new_database_whitelist (connect : string → outcome string D) (url : string) : ioresult D :=
  pool ← map_err (IoError ConnectionRefused) (connect url);
  let '(r, pool) := execute_text create_whitelist_ddl pool in
  map_err (IoError Other) r ≫= λ _, Ok pool.

(** Every error of a query becomes an [Other]. *)
Definition on_table {A} (f : D → outcome string A * D) : StateM D A := λ d,
  let '(r, d') := f d in (map_err (IoError Other) r, d').

Definition database_is_empty : StateM D bool :=
  count ← on_table (fetch_count count_text); mret (count =? 0)%Z.

Definition database_is_allowed (ip : string) : StateM D bool :=
  count ← on_table (fetch_count count_text);
  if (count =? 0)%Z then mret true
  else row ← on_table (fetch_optional select_ip_text ip); mret (bool_decide (is_Some row)).

(** [DatabaseIpWhitelist]: the pool. *)
#[local] Instance database_whitelist : IpWhitelist D := {|
  is_empty := database_is_empty;
  is_allowed := database_is_allowed;
|}.
End database.

(** ** Behind HTTP *)

(** [reqwest::Client::get(url).send()] against a service in some state; [urlencode] is
    [urlencoding::encode]. *)
Class WhitelistService (V : Type) := {
  http_get : string → V → http_result * V;
  urlencode : string → string;
}.

Module HttpIpWhitelist.
Record t (V : Type) : Type := mk { base_url : string; service : V }.
Arguments mk {V}. Arguments base_url {V}. Arguments service {V}.

Section http.
Context {V : Type} `{WhitelistService V}.

Definition new (base_url : string) (service : V) : t V :=
  mk (of_bytes (trim_end_matches (as_bytes "/") (as_bytes base_url))) service.

Definition verify_url (s : t V) (ip : string) : string :=
  base_url s +:+ "/verify?ip=" +:+ urlencode ip.

(** Never empty: every address is verified. *)
Definition is_empty : StateM (t V) bool := mret false.

Definition is_allowed (ip : string) : StateM (t V) bool := λ s,
  let '(answer, service') := http_get (verify_url s ip) (service s) in
  (match answer with
   | HttpResponse true (Some val) => Ok (default false (get val "allowed" ≫= as_bool))
   | HttpResponse _ _ => Ok false
   | HttpFailed => io_err ConnectionRefused "request failed"
   end, mk (base_url s) service').

#[global] Instance http_whitelist : IpWhitelist (t V) := {|
  IpWhitelists.is_empty := is_empty;
  IpWhitelists.is_allowed := is_allowed;
|}.
End http.
End HttpIpWhitelist.

(** ** The configured whitelist *)

(** [Arc<dyn IpWhitelist>] *)
Inductive any_whitelist (D V : Type) : Type :=
| Unfiltered (w : EmptyIpWhitelist)
| InMemory (w : MemoryIpWhitelist.t)
| InDatabase (w : D)
| BehindHttp (w : HttpIpWhitelist.t V).
Arguments Unfiltered {D V}. Arguments InMemory {D V}. Arguments InDatabase {D V}.
Arguments BehindHttp {D V}.

(** A computation on a part of the state. *)
Definition inside {T U A} (wrap : U → T) (m : StateM U A) (u : U) : ioresult A * T :=
  let '(r, u') := m u in (r, wrap u').

Section factory.
Context {D V : Type} `{WhitelistDatabase D, WhitelistService V, JsonText, FromYaml (list string)}.
#[local] Existing Instance database_whitelist.
Variable read_to_string : string → ioresult string.
Variable connect : string → outcome string D.

Definition create_ip_whitelist (service : V) (config : IpWhitelistConfig.t) :
    ioresult (any_whitelist D V) :=
  match config with
  | IpWhitelistConfig.NoWhitelist => Ok (Unfiltered NoFiltering)
  | IpWhitelistConfig.Memory file ips =>
      let store := MemoryIpWhitelist.new ips in
      match file with
      | Some path => InMemory <$> MemoryIpWhitelist.load_from_file read_to_string path store
      | None => Ok (InMemory store)
      end
  | IpWhitelistConfig.Database url => InDatabase <$> new_database_whitelist connect url
  | IpWhitelistConfig.Http url => Ok (BehindHttp (HttpIpWhitelist.new url service))
  end.

(** Dispatch through the trait object. *)
Definition on_whitelist {A} (m : ∀ W `{IpWhitelist W}, StateM W A) : StateM (any_whitelist D V) A := λ w,
  match w with
  | Unfiltered w => inside Unfiltered (m _) w
  | InMemory w => inside InMemory (m _) w
  | InDatabase w => inside InDatabase (m _) w
  | BehindHttp w => inside BehindHttp (m _) w
  end.

#[global] Instance any_whitelist_whitelist : IpWhitelist (any_whitelist D V) := {|
  is_empty := on_whitelist (λ W _, is_empty);
  is_allowed ip := on_whitelist (λ W _, is_allowed ip);
|}.
End factory.

(** ** Admission *)

(** The check of [accept_loop] on a new connection: a whitelist that cannot say whether it is
    empty lets every address in, and an error on the address keeps it out; [None] is a panic. *)
Definition admitted {W} `{IpWhitelist W} (peer_ip : string) (w : W) : option bool * W :=
  let '(r, w) := is_empty w in
  match r with
  | Ok true | Err _ => (Some true, w)
  | Panic => (None, w)
  | Ok false =>
      let '(r, w) := is_allowed peer_ip w in
      (match r with Ok b => Some b | Err _ => Some false | Panic => None end, w)
  end.

(** ** Lists of addresses *)

(** The whitelists that are lists, and when they can be asked. *)
Definition listed_in {D V} `{WhitelistDatabase D} (w : any_whitelist D V) : option (list string) :=
  match w with
  | Unfiltered _ => Some []
  | InMemory w => Some (MemoryIpWhitelist.ips w)
  | InDatabase w => Some (listed w)
  | BehindHttp _ => None
  end.

Definition ready {D V} `{WhitelistDatabase D} (w : any_whitelist D V) : Prop :=
  match w with InDatabase d => answering d | _ => True end.

Definition on_list (l : list string) (ip : string) : bool :=
  bool_decide (l = []) || bool_decide (ip ∈ l).

Section lists.
Context {D V : Type} `{WhitelistDatabase D, WhitelistService V}.

Lemma on_table_count d : answering d → ∃ d',
  on_table (fetch_count count_text) d = (Ok (Z.of_nat (length (listed d))), d') ∧ answering d' ∧
  listed d' = listed d.
Proof.
  intros Hd. destruct (fetch_count_law d Hd) as (d' & Hc & Hd' & Hl). exists d'.
  unfold on_table. by rewrite Hc.
Qed.

(** Every whitelist that is a list decides by its list, an empty list admitting all. *)
Lemma admitted_by_list (w : any_whitelist D V) l ip :
  ready w → listed_in w = Some l → ∃ w',
    admitted ip w = (Some (on_list l ip), w') ∧ ready w' ∧ listed_in w' = Some l.
Proof.
  destruct w as [[]|[ips held]|d|]; intros Hw [= <-].
  - by exists (Unfiltered NoFiltering).
  - exists (InMemory (MemoryIpWhitelist.mk ips held)). unfold admitted, on_list. cbn.
    by destruct ips.
  - cbn in Hw. destruct (on_table_count d Hw) as (d1 & Hc & Hd1 & Hl1).
    destruct (on_table_count d1 Hd1) as (d2 & Hc2 & Hd2 & Hl2).
    destruct (fetch_optional_law ip d2 Hd2) as (r & d3 & Hf & Hd3 & Hl3 & Hr).
    rewrite Hl2, Hl1 in Hr.
    assert (Hsel : on_table (fetch_optional select_ip_text ip) d2 = (Ok r, d3))
      by (unfold on_table; by rewrite Hf).
    unfold admitted, on_list. cbn -[on_table].
    unfold inside, database_is_empty, database_is_allowed, mbind, StateM_bind. rewrite Hc.
    destruct (listed d) as [|x l] eqn:El; cbn -[on_table].
    + exists (InDatabase d1). cbn. by rewrite Hl1.
    + change (Z.of_nat (S (length l)) =? 0)%Z with false. unfold inside, database_is_allowed.
      unfold mbind, StateM_bind. rewrite Hc2, Hl1.
      change (Z.of_nat (length (x :: l)) =? 0)%Z with false.
      cbn -[on_table Z.of_nat]. rewrite Hsel. cbn. exists (InDatabase d3).
      rewrite (bool_decide_ext _ _ Hr). cbn. by rewrite Hl3, Hl2, Hl1.
Qed.
End lists.

(** ** The file of addresses *)

Definition file_line (ip : string) : bytes := as_bytes ip ++ [x0a].

(** The text with an address on each line. *)
Definition file_text (ips : list string) : string := of_bytes (concat (file_line <$> ips)).

(** An address as a file can hold it: no blank around it, no line end in it, not a comment. *)
Definition plain_line (ip : string) : Prop :=
  ip ≠ "" ∧ (x0a ∉ as_bytes ip) ∧ (x0d ∉ as_bytes ip) ∧ trim (as_bytes ip) = as_bytes ip ∧
  (starts_with (as_bytes "#") (as_bytes ip) = false).

Lemma split_go_line p rest fuel cur :
  x0a ∉ p → S (length p) ≤ fuel →
  split_go fuel [x0a] cur (p ++ x0a :: rest) =
    (reverse cur ++ p) :: split_go (fuel - S (length p)) [x0a] [] rest.
Proof.
  revert fuel cur.
  induction p as [|b p IH]; intros [|fuel] cur Hp Hf; cbn in Hf; try lia; cbn [split_go app];
    unfold starts_with.
  - rewrite bool_decide_true by (by exists rest). cbn. by rewrite drop_0, Nat.sub_0_r, app_nil_r.
  - apply not_elem_of_cons in Hp as [Hb Hp].
    rewrite bool_decide_false by (intros [k Hk]; by injection Hk as ->).
    rewrite IH, reverse_cons, <-app_assoc by (done || lia). done.
Qed.

Lemma split_go_lines l fuel :
  Forall (λ p, x0a ∉ p) l → length (concat ((λ p, p ++ [x0a]) <$> l)) ≤ fuel →
  split_go fuel [x0a] [] (concat ((λ p, p ++ [x0a]) <$> l)) = l ++ [[]].
Proof.
  intros Hl. revert fuel. induction Hl as [|p l Hp Hl IH]; intros fuel Hf; [by destruct fuel|].
  cbn in *. rewrite !length_app in Hf. cbn in Hf. rewrite <-app_assoc. cbn [app].
  rewrite split_go_line by (done || lia). cbn. f_equal. apply IH. lia.
Qed.

Lemma strip_cr_plain p : x0d ∉ p → strip_cr p = p.
Proof.
  intros Hp. unfold strip_cr. destruct (reverse p) as [|b r] eqn:E; [done|].
  destruct (decide (b = x0d)) as [->|Hb]; [|by destruct b].
  exfalso. apply Hp. rewrite <-elem_of_reverse, E. by left.
Qed.

(** Writing plain addresses a line each and reading the file gives them back, in order. *)
Lemma whitelist_lines_text ips :
  Forall plain_line ips → whitelist_lines (file_text ips) = ips.
Proof.
  intros Hips. unfold whitelist_lines, file_text, lines. rewrite as_of_bytes. unfold split_on.
  replace (file_line <$> ips) with ((λ p, p ++ [x0a]) <$> (as_bytes <$> ips))
    by (by rewrite <-list_fmap_compose).
  rewrite split_go_lines; [|apply Forall_fmap; eapply Forall_impl; [done|by intros ip (_ & ? & _)]|done].
  rewrite reverse_snoc, reverse_involutive. cbn. rewrite app_nil_r.
  induction Hips as [|ip ips (Hne & _ & Hcr & Ht & Hc) _ IH]; [done|].
  cbn [fmap list_fmap]. rewrite strip_cr_plain, Ht by done. rewrite filter_cons_True.
  - cbn. by rewrite of_as_bytes, IH.
  - split; [|done]. intros E. apply Hne. by rewrite <-(of_as_bytes ip), E.
Qed.

(** A text file adds its addresses to those of the configuration. *)
Lemma load_text_file `{JsonText, FromYaml (list string)} read_to_string path ips loaded :
  is_json path = false → is_yaml path = false → read_to_string path = Ok (file_text loaded) →
  Forall plain_line loaded →
  MemoryIpWhitelist.load_from_file read_to_string path (MemoryIpWhitelist.new ips) =
    Ok (MemoryIpWhitelist.mk (ips ++ loaded) false).
Proof.
  intros Hj Hy Hr Hl. unfold MemoryIpWhitelist.load_from_file. rewrite Hr. cbn.
  by rewrite Hj, Hy, whitelist_lines_text.
Qed.

(** ** Whitelists that fail *)

(** The two services fail in opposite ways: while the table cannot be counted every address
    is let in, and while the HTTP service does not answer every address is kept out. *)
Theorem failing_whitelists {D V} `{WhitelistDatabase D, WhitelistService V} ip :
  (∀ (d : D) e, (fetch_count count_text d).1 = Err e →
     (admitted ip (InDatabase d : any_whitelist D V)).1 = Some true) ∧
  (∀ s : HttpIpWhitelist.t V,
     (http_get (HttpIpWhitelist.verify_url s ip) (HttpIpWhitelist.service s)).1 = HttpFailed →
     (admitted ip (BehindHttp s : any_whitelist D V)).1 = Some false).
Proof.
  split.
  - intros d e Hd. destruct (fetch_count count_text d) as [r d'] eqn:E. cbn in Hd. subst r.
    unfold admitted. cbn. unfold inside, database_is_empty, on_table, mbind, StateM_bind. by rewrite E.
  - intros s Hs. destruct (http_get _ _) as [r v] eqn:E. cbn in Hs. subst r.
    unfold admitted. cbn. unfold inside, HttpIpWhitelist.is_allowed. by rewrite E.
Qed.
