(* ===== verification/IdGenerators.v ===== *)
(** * Message id generators (src/id_generator.rs)

    The three generators behind one class and their choice from the configuration. The
    counter of the first is in Handlers.v; UUIDs and the Redis server are parameters. A
    generator whose server does not answer panics. *)
From S2P Require Export Server Redis.

(** The trait: a generator has a state, and [Panic] is the end of the calling task. *)
Class IdGenerator (G : Type) := generate_with : string → StateM G string.

(** ** A counter of the process *)

#[export] Instance atomic_ids : IdGenerator N := λ prefix counter,
  let '(id, counter') := AtomicIdGenerator.generate prefix counter in (Ok id, counter').

(** ** UUIDs *)

Module UuidIdGenerator.
(** The draws of [Uuid::new_v4] that are to come, as texts. *)
Class Uuids (U : Type) := new_v4 : U → string * U.

Record t (U : Type) : Type := mk { draws : U }.
Arguments mk {U}. Arguments draws {U}.

Definition generate {U} `{Uuids U} (prefix : string) : StateM (t U) string := λ s,
  let '(uuid, u) := new_v4 (draws s) in (Ok (prefix +:+ uuid), mk u).

#[global] Instance uuid_ids {U} `{Uuids U} : IdGenerator (t U) := generate.
End UuidIdGenerator.

(** ** A counter in Redis *)

Module RedisIdGenerator.
(** [client] is the server as this process sees it. *)
Record t (K : Type) : Type := mk { client : K; key : string }.
Arguments mk {K}. Arguments client {K}. Arguments key {K}.

(** The reply of [INCR] as a [u64]; [None] is the error of the conversion. *)
Class ReplyAsU64 := {
  reply_as_u64 : Z → option N;
  reply_as_u64_law : ∀ z, (0 ≤ z < 2 ^ 63)%Z → reply_as_u64 z = Some (Z.to_N z);
}.

Section redis.
Context {K : Type} `{RedisServer K, ReplyAsU64}.

Definition new (open : string → outcome string K) (redis_url : string) (key : option string) :
    ioresult (t K) :=
  client ← map_err (λ e, IoError Other ("Redis connection error: " +:+ e)) (open redis_url);
  Ok (mk client (default "smpp:id_counter" key)).

(** [expect] on an error panics. *)
Definition expect {A} (f : K → outcome string A * K) : StateM (t K) A := λ s,
  let '(r, k) := f (client s) in
  (match r with Ok a => Ok a | Err _ | Panic => Panic end, mk k (key s)).

Definition generate (prefix : string) : StateM (t K) string := λ s,
  (expect get_connection ≫= λ _,
   expect (incr (key s)) ≫= λ reply,
   match reply_as_u64 reply with
   | Some n => mret (prefix +:+ format_hex false 12 n)
   | None => panics
   end) s.

#[global] Instance redis_ids : IdGenerator (t K) := generate.
End redis.
End RedisIdGenerator.

(** ** The configured generator *)

(** [Box<dyn MessageIdGenerator>] *)
Inductive any_generator (U K : Type) : Type :=
| Atomic (counter : N)
| Uuid (s : UuidIdGenerator.t U)
| Redis (s : RedisIdGenerator.t K).
Arguments Atomic {U K}. Arguments Uuid {U K}. Arguments Redis {U K}.

Definition within {T U A} (wrap : U → T) (m : StateM U A) (u : U) : ioresult A * T :=
  let '(r, u') := m u in (r, wrap u').

Section factory.
Context {U K : Type} `{UuidIdGenerator.Uuids U, RedisServer K, RedisIdGenerator.ReplyAsU64}.

(** [None] is the panic of [unwrap] when the Redis client cannot be opened. *)
Definition create_id_generator (open : string → outcome string K) (draws : U)
    (config : option IdGeneratorConfig.t) : option (any_generator U K) :=
  match default IdGeneratorConfig.default config with
  | IdGeneratorConfig.Atomic => Some (Atomic 1)
  | IdGeneratorConfig.Uuid => Some (Uuid (UuidIdGenerator.mk draws))
  | IdGeneratorConfig.Redis url key =>
      match RedisIdGenerator.new open url key with Ok g => Some (Redis g) | _ => None end
  end.

#[global] Instance any_generator_ids : IdGenerator (any_generator U K) := λ prefix g,
  match g with
  | Atomic counter => within Atomic (generate_with prefix) counter
  | Uuid s => within Uuid (generate_with prefix) s
  | Redis s => within Redis (generate_with prefix) s
  end.
End factory.

(** The ids of a sequence of requests, each with its prefix. *)
Fixpoint ids {G} `{IdGenerator G} (prefixes : list string) (g : G) : list (ioresult string) * G :=
  match prefixes with
  | [] => ([], g)
  | p :: rest =>
      let '(r, g) := generate_with p g in
      let '(rs, g) := ids rest g in (r :: rs, g)
  end.

(** ** The counter in Redis counts *)

Section counting.
Context {K : Type} `{RedisServer K, RedisIdGenerator.ReplyAsU64}.
Implicit Types s : RedisIdGenerator.t K.

(** The server answers, and the key holds the number [n]. *)
Definition counts s (n : Z) : Prop :=
  reachable (RedisIdGenerator.client s) ∧
  int_at (keys (RedisIdGenerator.client s)) (RedisIdGenerator.key s) = Some n.

Lemma redis_generate s n prefix :
  counts s n → (0 ≤ n)%Z → (n + 1 < 2 ^ 63)%Z → ∃ s',
    RedisIdGenerator.generate prefix s = (Ok (prefix +:+ format_hex false 12 (Z.to_N (n + 1))), s') ∧
    counts s' (n + 1) ∧ RedisIdGenerator.key s' = RedisIdGenerator.key s.
Proof.
  destruct s as [k key]. intros [Hr Hi] Hn Hb. cbn in Hr, Hi.
  destruct (get_connection_law k Hr) as (k1 & Hc & Hr1 & Hk1).
  destruct (incr_law key k1 n Hr1) as (k2 & Hin & Hr2 & Hk2); [by rewrite Hk1|done|].
  exists (RedisIdGenerator.mk k2 key).
  unfold RedisIdGenerator.generate, RedisIdGenerator.expect, mbind, StateM_bind. cbn.
  rewrite Hc. cbn. rewrite Hin. cbn. rewrite RedisIdGenerator.reply_as_u64_law by lia. split; [done|].
  split; [|done]. split; [done|]. cbn. rewrite Hk2. unfold int_at. by rewrite lookup_insert_eq.
Qed.

Definition redis_id (n : Z) (i : nat) (prefix : string) : ioresult string :=
  Ok (prefix +:+ format_hex false 12 (Z.to_N (n + 1 + Z.of_nat i))).

Lemma redis_ids_list prefixes s n :
  counts s n → (0 ≤ n)%Z → (n + Z.of_nat (length prefixes) < 2 ^ 63)%Z →
  (ids prefixes s).1 = imap (redis_id n) prefixes ∧
  counts (ids prefixes s).2 (n + Z.of_nat (length prefixes)).
Proof.
  revert s n. induction prefixes as [|p rest IH]; intros s n Hs Hn Hb; cbn [length] in Hb |- *.
  { split; [done|]. by rewrite Z.add_0_r. }
  destruct (redis_generate s n p Hs Hn) as (s' & Hg & Hs' & _); [lia|].
  destruct (IH s' (n + 1)%Z Hs') as [Hl Hc]; [lia..|].
  cbn [ids]. unfold generate_with at 1 2, RedisIdGenerator.redis_ids. rewrite Hg.
  destruct (ids rest s') as [rs g]. cbn in Hl, Hc |- *. split.
  - rewrite Hl. unfold redis_id at 2. cbn. rewrite Z.add_0_r. f_equal.
    apply imap_ext. intros i q _. unfold redis_id.
    replace (n + 1 + 1 + Z.of_nat i)%Z with (n + 1 + Z.of_nat (S i))%Z by lia. done.
  - replace (n + Z.of_nat (S (length rest)))%Z with (n + 1 + Z.of_nat (length rest))%Z by lia. done.
Qed.

(** Ids with one prefix are distinct, whichever processes ask for them, as long as the counter
    stays below 2{^63}: the count is in Redis and outlives them. *)
Lemma redis_ids_distinct k prefix s n :
  counts s n → (0 ≤ n)%Z → (n + Z.of_nat k < 2 ^ 63)%Z →
  NoDup (ids (replicate k prefix) s).1 ∧ Forall (λ r, is_ok r = true) (ids (replicate k prefix) s).1.
Proof.
  intros Hs Hn Hk. destruct (redis_ids_list (replicate k prefix) s n) as [-> _];
    [by rewrite ?length_replicate..|]. split.
  - apply NoDup_alt. intros i j r. rewrite !list_lookup_imap.
    destruct (replicate k prefix !! i) as [p|] eqn:Ei; [|done].
    destruct (replicate k prefix !! j) as [q|] eqn:Ej; [|done].
    apply lookup_replicate in Ei as [-> _], Ej as [-> _]. cbn. intros [= <-] Heq.
    injection Heq as Heq%string_app_inj%format_hex_inj. lia.
  - apply Forall_lookup. intros i r. rewrite list_lookup_imap.
    destruct (replicate k prefix !! i); [|done]. by intros [= <-].
Qed.

End counting.
