(* ===== verification/Alarm.v ===== *)
(** * Alarm notifiers (src/alarm.rs)

    The two notifiers of a client, their choice from the configuration, and what the
    reconnection loop of a connection (ClientLoop.v) leaves in the alarms table. The HTTP
    service and the database are parameters. *)
From S2P Require Export ClientLoopProps Server Database.

(** The trait: nothing is returned, errors are only logged. *)
Class AlarmNotifier (A : Type) := {
  raise_alarm : string → N → string → A → A;
  clear_alarm : string → N → string → A → A;
}.

(** ** HTTP *)

Module HttpAlarmNotifier.
(** [reqwest::Client::post(url).json(payload).send()] against a service in some state. *)
Class AlarmService (V : Type) := post_alarm : string → Value → V → http_result * V.

Record t (V : Type) : Type := mk { notify_url : string; alarm_id : string; service : V }.
Arguments mk {V}. Arguments notify_url {V}. Arguments alarm_id {V}. Arguments service {V}.

(** The fields of [json!]. *)
Definition payload (alarm_id status host : string) (port : N) (description : string) : Value :=
  JObject (jextend
    [("alarm_id", JString alarm_id); ("status", JString status); ("host", JString host);
     ("port", jnum port); ("description", JString description)] []).

Section http.
Context {V : Type} `{AlarmService V}.

Definition notify (status host : string) (port : N) (description : string) (s : t V) : t V :=
  let '(_, service') :=
    post_alarm (notify_url s) (payload (alarm_id s) status host port description) (service s) in
  mk (notify_url s) (alarm_id s) service'.

#[global] Instance http_notifier : AlarmNotifier (t V) := {|
  raise_alarm := notify "raised";
  clear_alarm := notify "cleared";
|}.
End http.
End HttpAlarmNotifier.

(** ** In a database *)

(** A row of the table, without its number and its time. *)
Record alarm_row : Type := mkAlarmRow {
  row_alarm_id : string;
  status : string;
  row_host : string;
  row_port : Z;
  row_description : string;
}.

Definition alarms_ddl : string :=
  "CREATE TABLE IF NOT EXISTS alarms (
                id INTEGER PRIMARY KEY,
                alarm_id TEXT NOT NULL,
                status TEXT NOT NULL,
                host TEXT NOT NULL,
                port INTEGER NOT NULL,
                description TEXT NOT NULL,
                created_at TEXT NOT NULL DEFAULT (strftime('%Y-%m-%dT%H:%M:%SZ', 'now'))
            )".

Definition insert_alarm_text : string :=
  "INSERT INTO alarms (alarm_id, status, host, port, description) VALUES ($1, $2, $3, $4, $5)".

(** What the notifier asks of sqlx. [any_connect drivers url] is [AnyPool::connect], which
    panics when no driver was installed. *)
Class AlarmDatabase (D : Type) := {
  any_connect : bool → string → outcome string D;
  execute_alarm : string → list sql_value → D → outcome string unit * D;
  alarm_rows : D → list alarm_row;
  writable : D → Prop;
  without_drivers : ∀ url, any_connect false url = Panic;
  insert_law : ∀ d id st host port description, writable d → (- 2 ^ 31 ≤ port < 2 ^ 31)%Z → ∃ d',
    execute_alarm insert_alarm_text [SText id; SText st; SText host; SInt port; SText description] d
      = (Ok tt, d') ∧ writable d' ∧
    alarm_rows d' = alarm_rows d ++ [mkAlarmRow id st host port description];
}.

(** [n as i32] *)
Definition as_i32 (n : N) : Z := ((Z.of_N n + 2 ^ 31) mod 2 ^ 32 - 2 ^ 31)%Z.

Lemma as_i32_small n : (n < 2 ^ 31)%N → as_i32 n = Z.of_N n.
Proof. intros Hn. unfold as_i32. rewrite Z.mod_small by lia. lia. Qed.

Module DatabaseAlarmNotifier.
Record t (D : Type) : Type := mk { pool : D; alarm_id : string }.
Arguments mk {D}. Arguments pool {D}. Arguments alarm_id {D}.

Section database.
Context {D : Type} `{AlarmDatabase D}.

(** [drivers]: [install_default_drivers] was called in the process. *)
Definition new (drivers : bool) (url alarm_id : string) : ioresult (t D) :=
  pool ← map_err (IoError ConnectionRefused) (any_connect drivers url);
  let '(r, pool) := execute_alarm alarms_ddl [] pool in
  map_err (IoError Other) r ≫= λ _, Ok (mk pool alarm_id).

Definition insert (st host : string) (port : N) (description : string) (s : t D) : t D :=
  let '(_, pool') := execute_alarm insert_alarm_text
    [SText (alarm_id s); SText st; SText host; SInt (as_i32 port); SText description] (pool s) in
  mk pool' (alarm_id s).

#[global] Instance database_notifier : AlarmNotifier (t D) := {|
  raise_alarm := insert "raised";
  clear_alarm := insert "cleared";
|}.
End database.
End DatabaseAlarmNotifier.

(** ** The configured notifier *)

(** [Arc<dyn AlarmNotifier>] *)
Inductive any_notifier (D V : Type) : Type :=
| Http (s : HttpAlarmNotifier.t V)
| InDatabase (s : DatabaseAlarmNotifier.t D).
Arguments Http {D V}. Arguments InDatabase {D V}.

Section factory.
Context {D V : Type} `{AlarmDatabase D, HttpAlarmNotifier.AlarmService V}.

Definition create_alarm_notifier (drivers : bool) (service : V) (config : AlarmConfig.t) :
    ioresult (any_notifier D V) :=
  match config with
  | AlarmConfig.Http notify_url alarm_id =>
      Ok (Http (HttpAlarmNotifier.mk notify_url alarm_id service))
  | AlarmConfig.Database url alarm_id =>
      InDatabase <$> DatabaseAlarmNotifier.new drivers url alarm_id
  end.

#[global] Instance any_notifier_notifier : AlarmNotifier (any_notifier D V) := {|
  raise_alarm host port description a :=
    match a with
    | Http s => Http (raise_alarm host port description s)
    | InDatabase s => InDatabase (raise_alarm host port description s)
    end;
  clear_alarm host port description a :=
    match a with
    | Http s => Http (clear_alarm host port description s)
    | InDatabase s => InDatabase (clear_alarm host port description s)
    end;
|}.
End factory.

(** ** The alarms of a connection *)

(** The notifications of the reconnection loop, handed to the notifier in turn. *)
Definition notify_all {A} `{AlarmNotifier A} (l : list Reconnection.alarm) (a : A) : A :=
  foldl (λ a n, match n with
                | Reconnection.RaiseAlarm host port description => raise_alarm host port description a
                | Reconnection.ClearAlarm host port description => clear_alarm host port description a
                end) a l.

(** The row of a notification. *)
Definition row_of (id : string) (n : Reconnection.alarm) : alarm_row :=
  match n with
  | Reconnection.RaiseAlarm host port d => mkAlarmRow id "raised" host (Z.of_N port) d
  | Reconnection.ClearAlarm host port d => mkAlarmRow id "cleared" host (Z.of_N port) d
  end.

Lemma parse_digits_lt radix bound l n :
  (0 < bound)%N → parse_digits radix bound l = Some n → (n < bound)%N.
Proof.
  intros Hb. unfold parse_digits. revert n. induction l as [|b l IH] using rev_ind; intros k.
  { by intros [= <-]. }
  rewrite fold_left_app. cbn. destruct (fold_left _ _ _) as [m|]; [|done].
  destruct (digit_val radix b) as [d|]; [|done].
  destruct (N.ltb_spec (m * radix + d) bound); [|done]. by intros [= <-].
Qed.

Lemma parse_u16_lt l n : parse_u16 l = Some n → (n < 2 ^ 16)%N.
Proof.
  unfold parse_u16, from_str_radix. intros H.
  repeat case_match; try done; by apply parse_digits_lt in H.
Qed.

Lemma parse_host_port_u16 address : ((parse_host_port address).2 < 2 ^ 16)%N.
Proof.
  unfold parse_host_port. destruct (rfind _ _); [|done]. cbn [snd].
  destruct (parse_u16 _) as [port|] eqn:E; [by eapply parse_u16_lt|done].
Qed.

Section connection.
Import Reconnection.

(** A notification about the configured peer. *)
Definition about (address : string) (n : alarm) : Prop :=
  match n with
  | RaiseAlarm host port _ | ClearAlarm host port _ => (host, port) = parse_host_port address
  end.

Lemma alarms_about display address notifier attempts :
  Forall (about address) (alarms (run display address (new notifier) attempts)).
Proof.
  induction attempts as [|a attempts IH] using rev_ind; [by constructor|].
  unfold run in *. rewrite foldl_app. cbn [foldl].
  set (s := foldl _ _ _) in *. clearbody s.
  unfold run_once, on_failed, on_bound, on_disconnected.
  destruct (parse_host_port address) as [host port] eqn:E.
  assert (Hadd : ∀ l n, Forall (about address) l → about address n → Forall (about address) (l ++ [n]))
    by (intros l n Hl Hn; by apply Forall_app_2; [|by constructor]).
  assert (Hr : ∀ d, about address (RaiseAlarm host port d)) by (intros d; cbn; by rewrite E).
  assert (Hc : ∀ d, about address (ClearAlarm host port d)) by (intros d; cbn; by rewrite E).
  destruct a as [e|r]; [by case_match; cbn; auto|].
  destruct s as [hn act l]. cbn in IH. destruct act, hn, r; cbn; auto.
Qed.

(** The rows of alternating notifications. *)
Lemma alternate_statuses id l active i r :
  alternate active l → (row_of id <$> l) !! i = Some r →
  status r = if xorb active (Nat.even i) then "raised" else "cleared".
Proof.
  revert active i. induction l as [|n l IH]; intros active i Hl Hi; [done|].
  destruct i as [|i]; [destruct n, Hl as [-> _]; by injection Hi as <-|].
  assert (He : Nat.even (S i) = negb (Nat.even i)) by (rewrite Nat.even_succ; by rewrite <-Nat.negb_even).
  destruct n, Hl as [-> Hl]; rewrite (IH _ _ Hl Hi), He; by destruct (Nat.even i).
Qed.

Lemma alternate_odd l : alternate false l → raised l = Nat.odd (length l).
Proof.
  induction l as [|n l IH] using rev_ind; [done|]. intros [Hl Hn]%alternate_app.
  unfold raised. rewrite last_snoc, length_app, Nat.add_1_r, Nat.odd_succ, <-Nat.negb_odd, <-IH by done.
  destruct l as [|m l]; [by destruct n, Hn|].
  destruct n, Hn as [Ha _]; cbn beta iota in *; by rewrite Ha.
Qed.

Context {D : Type} `{AlarmDatabase D}.

Lemma notify_all_rows address id l d :
  writable d → Forall (about address) l →
  alarm_rows (DatabaseAlarmNotifier.pool (notify_all l (DatabaseAlarmNotifier.mk d id)))
    = alarm_rows d ++ (row_of id <$> l).
Proof.
  intros Hd Hl. revert d Hd. induction Hl as [|n l Hn Hl IH]; intros d Hd; [by rewrite app_nil_r|].
  assert (Hp : ∀ host port, (host, port) = parse_host_port address → (port < 2 ^ 16)%N).
  { intros host port E. pose proof (parse_host_port_u16 address) as Hlt. by rewrite <-E in Hlt. }
  destruct n as [host port descr|host port descr]; cbn in Hn; specialize (Hp _ _ Hn);
    cbn [notify_all foldl raise_alarm clear_alarm DatabaseAlarmNotifier.database_notifier];
    unfold DatabaseAlarmNotifier.insert;
    cbn [DatabaseAlarmNotifier.pool DatabaseAlarmNotifier.alarm_id]; rewrite as_i32_small by lia;
    [destruct (insert_law d id "raised" host (Z.of_N port) descr Hd) as (d' & He & Hd' & Hr)
    |destruct (insert_law d id "cleared" host (Z.of_N port) descr Hd) as (d' & He & Hd' & Hr)];
    try lia; rewrite He; unfold notify_all in IH; rewrite IH by done; by rewrite Hr, <-app_assoc.
Qed.

(** C25: the alarms table tells the state of a connection: whatever its attempts to connect were,
    the rows its notifier adds are raised and cleared in turn, all about the configured host
    and port, and the alarm is on exactly when their number is odd. *)
Theorem alarm_table_alternates display address id attempts d :
  writable d →
  let s := run display address (new true) attempts in
  let d' := DatabaseAlarmNotifier.pool (notify_all (alarms s) (DatabaseAlarmNotifier.mk d id)) in
  ∃ added, alarm_rows d' = alarm_rows d ++ added ∧
    alarm_active s = Nat.odd (length added) ∧
    ∀ i r, added !! i = Some r →
      status r = (if Nat.even i then "raised" else "cleared") ∧ row_alarm_id r = id ∧
      row_host r = (parse_host_port address).1 ∧ row_port r = Z.of_N (parse_host_port address).2.
Proof.
  intros Hd s d'. pose proof (alarms_alternate display address true attempts) as [Hal Hact].
  pose proof (alarms_about display address true attempts) as Habout. fold s in Hal, Hact, Habout.
  exists (row_of id <$> alarms s). split_and!.
  - by apply (notify_all_rows address).
  - by rewrite length_fmap, Hact, alternate_odd.
  - intros i r Hi. split; [by apply (alternate_statuses id (alarms s) false)|].
    rewrite list_lookup_fmap in Hi. destruct (alarms s !! i) as [n|] eqn:En; [|done].
    injection Hi as <-. rewrite Forall_lookup in Habout. specialize (Habout i n En).
    destruct n; cbn in Habout |- *; by rewrite <-Habout.
Qed.
End connection.
