(* ===== verification/Listener.v ===== *)
(** * Accepting connections (src/smsc_server/smsc_server.rs)

    [start_listener] and [accept_loop]: the SMPP listeners of a server, the check of each new
    connection against the whitelist, and when the listener of the server ends. The sockets
    are parameters. *)
From S2P Require Export IpWhitelists RestListeners.

(** An accepted socket: its address, with and without the port, and what [peer_addr] says of
    it later. *)
Record peer : Type := mkPeer { peer_ip : string; peer_addr : option string }.

#[export] Instance peer_eq_dec : EqDecision peer.
Proof. solve_decision. Defined.

(** [SmscServerConnection::new]: the name of the connection in the tables of the server. *)
Definition connection_address (p : peer) : string := default "unknown" (peer_addr p).

(** ** The loops *)

(** What a call of [accept] gives on a listener. *)
Abbreviation accepted_socket := (outcome io_error peer).

(** [ended]: the listeners whose loop is over, with its result; [served]: the connections
    handed to tasks, with their listener. *)
Record listening (W : Type) : Type := mkListening {
  whitelist : W;
  ended : list (nat * ioresult unit);
  served : list (nat * peer);
}.
Arguments mkListening {W}. Arguments whitelist {W}. Arguments ended {W}. Arguments served {W}.

Definition has_ended (i : nat) (ended : list (nat * ioresult unit)) : bool :=
  bool_decide (i ∈ ended.*1).

Section accept.
Context {W : Type} `{IpWhitelist W}.

(** One turn of [accept_loop] on listener [i]; the whitelist is shared by the loops. *)
Definition accept_turn (s : listening W) (e : nat * accepted_socket) : listening W :=
  let '(i, socket) := e in
  if has_ended i (ended s) then s
  else match socket with
       | Ok p =>
           let '(allowed, w) := admitted (peer_ip p) (whitelist s) in
           match allowed with
           | Some true => mkListening w (ended s) (served s ++ [(i, p)])
           | Some false => mkListening w (ended s) (served s)
           | None => mkListening w (ended s ++ [(i, Panic)]) (served s)
           end
       | Err e => mkListening (whitelist s) (ended s ++ [(i, Err e)]) (served s)
       | Panic => mkListening (whitelist s) (ended s ++ [(i, Panic)]) (served s)
       end.

(** The loops of all listeners, over the sockets in the order they come in. *)
Definition accept_loops (w : W) (events : list (nat * accepted_socket)) : listening W :=
  foldl accept_turn (mkListening w [] []) events.
End accept.

(** [for handle in handles { handle.await.map_err(..)??; }]: the loops are awaited in order,
    so one that ended is seen only when the loops before it have ended well, which they do
    not; [None] is still waiting. *)
Fixpoint await_handles (results : list (option (ioresult unit))) : option (ioresult unit) :=
  match results with
  | [] => Some (Ok tt)
  | None :: _ => None
  | Some (Ok _) :: rest => await_handles rest
  | Some (Err e) :: _ => Some (Err e)
  | Some Panic :: _ => Some (io_err Other "task panicked")
  end.

Definition result_of {W} (s : listening W) (i : nat) : option (ioresult unit) :=
  match filter (λ p, p.1 = i) (ended s) with p :: _ => Some p.2 | [] => None end.

(** What [start_listener] returns with [n] listeners. *)
Definition listener_result {W} (n : nat) (s : listening W) : option (ioresult unit) :=
  await_handles (result_of s <$> seq 0 n).

(** ** The listener of a server *)

Section start.
Context {D V T L : Type} `{WhitelistDatabase D, WhitelistService V, JsonText, FromYaml (list string),
  Network T L}.
Variable read_to_string : string → ioresult string.
Variable connect : string → outcome string D.

(** Binding stops at the first address that fails. *)
Fixpoint bind_listeners (addresses : list string) (net : T) : ioresult (list L) * T :=
  match addresses with
  | [] => (Ok [], net)
  | addr :: rest =>
      let '(r, net) := bind addr net in
      match r with
      | Ok listener =>
          let '(ls, net) := bind_listeners rest net in ((listener ::.) <$> ls, net)
      | Err e => (Err e, net)
      | Panic => (Panic, net)
      end
  end.

(** [start_listener] up to the loops: the whitelist and the listeners. *)
Definition start_listener (service : V) (config : ServerConfig.t) (net : T) :
    ioresult (any_whitelist D V * list L) * T :=
  match create_ip_whitelist read_to_string connect service (ServerConfig.ip_whitelist config) with
  | Ok ip_whitelist =>
      let '(r, net) := bind_listeners (ServerConfig.listen_addresses config) net in
      (listeners ← r;
       if decide (listeners = []) then io_err InvalidInput "No listen addresses configured"
       else Ok (ip_whitelist, listeners), net)
  | Err e => (Err e, net)
  | Panic => (Panic, net)
  end.
End start.

(** ** Who is served *)

(** What comes in on listener [i]. *)
Definition events_of (i : nat) (events : list (nat * accepted_socket)) : list accepted_socket :=
  omap (λ e, if decide (e.1 = i) then Some e.2 else None) events.

(** The sockets accepted before [accept] fails. *)
Fixpoint before_failure (sockets : list accepted_socket) : list peer :=
  match sockets with
  | Ok p :: rest => p :: before_failure rest
  | _ => []
  end.

Definition served_on (i : nat) (served : list (nat * peer)) : list peer :=
  (filter (λ p, p.1 = i) served).*2.

Lemma served_on_snoc i j p l :
  served_on i (l ++ [(j, p)]) = served_on i l ++ (if decide (j = i) then [p] else []).
Proof.
  unfold served_on. rewrite filter_app, fmap_app. f_equal. rewrite filter_cons. cbn.
  by case_decide.
Qed.

Lemma has_ended_snoc i j r l : has_ended i (l ++ [(j, r)]) = has_ended i l || bool_decide (j = i).
Proof.
  unfold has_ended. rewrite fmap_app. cbn. rewrite <-bool_decide_or. apply bool_decide_ext.
  rewrite elem_of_app, list_elem_of_singleton. split; (intros [?|?]; [by left|by right]).
Qed.

Section guard.
Context {D V : Type} `{WhitelistDatabase D, WhitelistService V}.
#[local] Existing Instance any_whitelist_whitelist.
Implicit Types s : listening (any_whitelist D V).

(** What listener [i] will have served: the peers so far, then those on the list. *)
Definition expected (l : list string) (i : nat) (ended : list (nat * ioresult unit))
    (served : list (nat * peer)) (events : list (nat * accepted_socket)) : list peer :=
  served_on i served ++
  (if has_ended i ended then []
   else filter (λ p, on_list l (peer_ip p) = true) (before_failure (events_of i events))).

Lemma expected_ended l i j r e c events :
  (∀ p, e ≠ Ok p) → has_ended j c = false →
  expected l i c events ((j, e) :: r) = expected l i (c ++ [(j, Panic)]) events r ∧
  ∀ err, expected l i (c ++ [(j, Err err)]) events r = expected l i (c ++ [(j, Panic)]) events r.
Proof.
  intros He Hj. unfold expected. setoid_rewrite has_ended_snoc. split; [|done]. cbn.
  destruct (decide (j = i)) as [->|E].
  - rewrite Hj, bool_decide_true by done. destruct e as [p| |]; [by destruct (He p)|done..].
  - by rewrite (bool_decide_false (j = i)), orb_false_r by done.
Qed.

Lemma expected_accepted l i j p r c served :
  has_ended j c = false →
  expected l i c served ((j, Ok p) :: r)
    = expected l i c (served ++ (if on_list l (peer_ip p) then [(j, p)] else [])) r.
Proof.
  intros Hj. unfold expected. cbn. destruct (decide (j = i)) as [->|E].
  - rewrite Hj. cbn. destruct (on_list l (peer_ip p)); cbn; [|by rewrite app_nil_r].
    rewrite served_on_snoc, <-app_assoc. by rewrite (decide_True (P := i = i)) by done.
  - destruct (on_list l (peer_ip p)); [|by rewrite app_nil_r].
    by rewrite served_on_snoc, decide_False, app_nil_r by done.
Qed.

(** One turn keeps what is to be served on every listener. *)
Lemma accept_turn_expected l i s e events :
  ready (whitelist s) → listed_in (whitelist s) = Some l →
  let s' := accept_turn s e in
  ready (whitelist s') ∧ listed_in (whitelist s') = Some l ∧
  expected l i (ended s) (served s) (e :: events) = expected l i (ended s') (served s') events.
Proof.
  intros Hr Hl. destruct e as [j r], s as [w c served]. cbn in Hr, Hl.
  cbn [accept_turn ended Listener.served whitelist]. destruct (has_ended j c) eqn:Ej.
  { split_and!; [done..|]. unfold expected. cbn. case_decide as E; [|done]. subst j. by rewrite Ej. }
  destruct r as [p|err|].
  - destruct (admitted_by_list w l (peer_ip p) Hr Hl) as (w' & -> & Hr' & Hl').
    rewrite expected_accepted by done. destruct (on_list l (peer_ip p)); cbn;
      (split_and!; [done..|]); [done|by rewrite app_nil_r].
  - split_and!; [done..|]. cbn [ended Listener.served].
    destruct (expected_ended l i j events (Err err) c served) as [-> He]; [done..|]. symmetry. apply He.
  - split_and!; [done..|]. cbn [ended Listener.served].
    by destruct (expected_ended l i j events Panic c served) as [-> _].
Qed.

(** C14: with a whitelist that is a list (none, in memory, or a table that can be read), a
    listener serves exactly the peers on it, or all for an empty list, in the order they came
    in, until accepting fails on that listener. *)
Theorem whitelist_guards w l events i :
  ready w → listed_in w = Some l →
  served_on i (served (accept_loops w events))
    = filter (λ p, on_list l (peer_ip p) = true) (before_failure (events_of i events)).
Proof.
  intros Hr Hl. unfold accept_loops.
  change (filter (λ p, on_list l (peer_ip p) = true) (before_failure (events_of i events)))
    with (expected l i [] [] events).
  assert (Hg : ∀ s, ready (whitelist s) → listed_in (whitelist s) = Some l →
    served_on i (served (foldl accept_turn s events)) = expected l i (ended s) (served s) events).
  { induction events as [|e events IH]; intros s Hs Hls; cbn [foldl].
    - unfold expected. cbn. by destruct (has_ended i (ended s)); rewrite app_nil_r.
    - destruct (accept_turn_expected l i s e events Hs Hls) as (Hs' & Hls' & ->). by apply IH. }
  by apply (Hg (mkListening w [] [])).
Qed.
End guard.
