(* ===== verification/Metrics.v ===== *)
(** * Metrics (src/metrics.rs)

    The three metrics of the process, their registration and their text. The registry and the
    encoder of the prometheus crate are parameters. *)
From S2P Require Export ClientConnection.

(** The values: the submissions by status, the connections that are up, the PDUs received. *)
Record metrics : Type := mkMetrics {
  REST_SUBMIT_MESSAGES : gmap string N;
  SMSC_ACTIVE_CONNECTIONS : Z;
  SMSC_INBOUND_MESSAGES : N;
}.

Definition no_metrics : metrics := mkMetrics ∅ 0 0.

Definition metric_names : list string :=
  ["smpp_rest_submit_messages_total"; "smpp_smsc_active_connections"; "smpp_smsc_inbound_messages_total"].

(** [Registry] and [TextEncoder]. A name is registered once. *)
Class Prometheus (R : Type) := {
  register : string → R → outcome string R;
  encode_text : R → metrics → outcome string bytes;
  registered : R → list string;
  register_law : ∀ name r,
    match register name r with
    | Ok r' => (name ∉ registered r) ∧ registered r' = registered r ++ [name]
    | Err _ => name ∈ registered r
    | Panic => False
    end;
}.

Section registry.
Context {R : Type} `{Prometheus R}.

(** [unwrap] on each registration; [None] is its panic. *)
Fixpoint register_all (names : list string) (r : R) : option R :=
  match names with
  | [] => Some r
  | name :: rest => match register name r with Ok r' => register_all rest r' | _ => None end
  end.

Definition register_metrics (r : R) : option R := register_all metric_names r.

(** [encode(..).unwrap()], then [String::from_utf8(..).unwrap()]. *)
Definition render_metrics (r : R) (m : metrics) : option string :=
  match encode_text r m with
  | Ok buffer => if utf8_valid buffer then Some (of_bytes buffer) else None
  | _ => None
  end.

(** [GET /metrics] *)
Definition prometheus_metrics (r : R) (m : metrics) : option (N * string * string) :=
  (λ body, (200%N, "text/plain; version=0.0.4; charset=utf-8", body)) <$> render_metrics r m.

(** What the metrics are when connections with these states are all there is: no code counts
    submissions. *)
Definition metrics_of (connections : list SmscConnection.state) : metrics :=
  mkMetrics ∅ (foldr Z.add 0%Z (SmscConnection.active_connections <$> connections))
    (foldr N.add 0%N (SmscConnection.inbound_messages <$> connections)).

Lemma register_all_ok names r :
  NoDup names → (∀ n, n ∈ names → n ∉ registered r) →
  ∃ r', register_all names r = Some r' ∧ registered r' = registered r ++ names.
Proof.
  revert r. induction names as [|n names IH]; intros r Hnd Hr; [exists r; by rewrite app_nil_r|].
  apply NoDup_cons in Hnd as [Hn Hnd]. cbn. pose proof (register_law n r) as Hl.
  destruct (register n r) as [r1|e|]; [|by destruct (Hr n); [left|]|done].
  destruct Hl as [_ Hl]. destruct (IH r1 Hnd) as (r' & Hall & Hreg).
  - intros m Hm. rewrite Hl, elem_of_app, list_elem_of_singleton. intros [Hm'| ->]; [|done].
    destruct (Hr m); [by right|done].
  - exists r'. split; [done|]. by rewrite Hreg, Hl, <-app_assoc.
Qed.

(** The metrics are registered once: a second registration panics. *)
Lemma register_metrics_once r :
  registered r = [] → ∃ r', register_metrics r = Some r' ∧ register_metrics r' = None.
Proof.
  intros Hr. destruct (register_all_ok metric_names r) as (r' & Ho & Hr').
  { by apply (bool_decide_unpack (NoDup metric_names)); vm_compute. }
  { rewrite Hr. intros n _. apply not_elem_of_nil. }
  exists r'. split; [done|]. rewrite Hr in Hr'. cbn in Hr'. unfold register_metrics, metric_names.
  cbn [register_all]. pose proof (register_law "smpp_rest_submit_messages_total" r') as Hl.
  destruct (register _ r') as [r2|e|]; [|done..]. destruct Hl as [Hn _]. destruct Hn. rewrite Hr'. by left.
Qed.
End registry.
