(* ===== verification/RestApi.v ===== *)
(** * The REST interface of the client (src/smsc_client/smsc_client.rs, [start_rest])

    The routes of the router and what each makes of a request: the handlers of SmscClient.v
    behind their methods, paths and bodies. Matching paths, decoding percent escapes and
    refusing bodies that are not JSON is axum's, as its documentation says: 404 for no route,
    405 for no method, 400 or 415 for a body that is not JSON and 422 for one of another
    type. *)
From S2P Require Export SmscClient Metrics ConfigFiles.

(** ** Bodies (src/config.rs) *)

Definition de_create_request : decoder CreateSmppConnectionRequest.t := λ v,
  name ← field "name" de_string v; host ← field "host" de_string v;
  port ← field "port" (de_uint 16) v; id ← field "system_id" de_string v;
  pw ← field "password" de_string v; bind ← field_opt "bind_type" de_string v;
  ty ← field_opt "system_type" de_string v; rec ← field_opt "reconnect_enabled" de_bool v;
  ri ← field_opt "reconnect_interval" (de_uint 32) v;
  hb ← field_opt "heartbeat_interval" (de_uint 32) v;
  el ← field_opt "enquire_link_interval" (de_uint 32) v;
  tl ← field_opt "throughput_limit" (de_uint 32) v;
  Some (CreateSmppConnectionRequest.mk name host port id pw bind ty rec ri hb el tl).

Definition de_update_request : decoder UpdateSmppConnectionRequest.t := λ v,
  _ ← as_object v;
  name ← field_opt "name" de_string v; rec ← field_opt "reconnect_enabled" de_bool v;
  ri ← field_opt "reconnect_interval" (de_uint 32) v;
  hb ← field_opt "heartbeat_interval" (de_uint 32) v;
  Some (UpdateSmppConnectionRequest.mk name rec ri hb).

Definition de_add_smsc : decoder AddSmscRequest.t := λ v,
  bind ← field_or "bind_type" get_default_bind_type de_string v;
  t1 ← field_or "session_init_timer" get_default_session_init_timer (de_uint 32) v;
  t2 ← field_or "enquire_link_timer" get_default_enquire_link_timer (de_uint 32) v;
  t3 ← field_or "inactive_timer" get_default_inactive_timer (de_uint 32) v;
  t4 ← field_or "response_timer" get_default_response_timer (de_uint 32) v;
  a ← field "address" de_string v; id ← field "system_id" de_string v;
  pw ← field "password" de_string v; ty ← field_opt "system_type" de_string v;
  ton ← field_opt "addr_ton" (de_uint 8) v; npi ← field_opt "addr_npi" (de_uint 8) v;
  range ← field_opt "address_range" de_string v;
  version ← field_opt "interface_version" (de_uint 8) v;
  weight ← field_opt "weight" (de_uint 32) v;
  Some (AddSmscRequest.mk bind t1 t2 t3 t4 a id pw ty ton npi range version weight).

(** ** Routes *)

Inductive http_method : Type := GET | HEAD | POST | PUT | DELETE | OtherMethod.

#[export] Instance http_method_eq_dec : EqDecision http_method.
Proof. solve_decision. Defined.

(** A literal segment of a path, or [{connection_id}]. *)
Inductive segment : Type := Lit (s : string) | ConnectionId.

Inductive route : Type :=
| SmppApi
| GatewayStatus
| Connections
| ConnectionById
| RebindById
| LiveConnections
| MetricsText.

(** The arguments of [Router::route], with the methods each route has handlers for. *)
Definition routes : list (list segment * (route * list http_method)) :=
  [([Lit "v1"; Lit "smpp"], (SmppApi, [POST]));
   ([Lit "v1"; Lit "gateway"; Lit "status"], (GatewayStatus, [GET; HEAD]));
   ([Lit "v1"; Lit "gateway"; Lit "smpp"; Lit "connections"], (Connections, [GET; HEAD; POST]));
   ([Lit "v1"; Lit "gateway"; Lit "smpp"; Lit "connections"; ConnectionId], (ConnectionById, [PUT; DELETE]));
   ([Lit "v1"; Lit "gateway"; Lit "smpp"; Lit "connections"; ConnectionId; Lit "rebind"], (RebindById, [POST]));
   ([Lit "v1"; Lit "gateway"; Lit "smpp"; Lit "live-connections"], (LiveConnections, [GET; HEAD; POST]));
   ([Lit "metrics"], (MetricsText, [GET; HEAD]))].

(** A path, as its segments, against a pattern: the value of the parameter, if it has one. *)
Fixpoint match_path (pattern : list segment) (path : list string) : option (option string) :=
  match pattern, path with
  | [], [] => Some None
  | Lit s :: pattern, x :: path => if decide (s = x) then match_path pattern path else None
  | ConnectionId :: pattern, x :: path =>
      if decide (x = "") then None
      else match match_path pattern path with Some _ => Some (Some x) | None => None end
  | _, _ => None
  end.

Fixpoint find_route {Route} (rs : list (list segment * (Route * list http_method))) (path : list string) :
    option (Route * list http_method * option string) :=
  match rs with
  | [] => None
  | (pattern, r) :: rs =>
      match match_path pattern path with Some id => Some (r, id) | None => find_route rs path end
  end.

(** ** Requests and answers *)

(** [body]: the JSON value, or the status with which the extractor refuses the body. *)
Record request : Type := mkRequest {
  method : http_method;
  path : list string;
  body : N + Value;
}.

Inductive answer : Type :=
| JsonAnswer (status : N) (body : Value)
| TextAnswer (status : N) (content_type body : string)
| Rejected (status : N).

Section rest_api.
Context {R : Type} `{B64 : Base64, Tlv : TlvOrder, Gen : MessageIdGenerator, Pr : Prometheus R}.

(** [percent_decode] is the decoding of a path parameter by axum; [None]: not UTF-8. *)
Variable percent_decode : string → option string.

Abbreviation M := (AsyncM SmscClient.app answer).

Definition answered (m : AsyncM SmscClient.app Value) : M := v ← m; mret (JsonAnswer 200 v).

(** A handler that only looks at the state. *)
Definition looks (f : SmscClient.app → answer) : M := λ a, Some (Ok (f a), a).

(** A handler with a status and a body, that may change the state. *)
Definition changes (f : SmscClient.app → (N * Value) * SmscClient.app) : M := λ a,
  let '((status, v), a') := f a in Some (Ok (JsonAnswer status v), a').

(** The [Json] extractor: a value of another type is refused. *)
Definition with_json {A} (d : decoder A) (b : N + Value) (k : A → M) : M :=
  match b with
  | inl status => mret (Rejected status)
  | inr v => match d v with Some x => k x | None => mret (Rejected 422) end
  end.

(** The [Path] extractor. *)
Definition with_id (id : option string) (k : string → M) : M :=
  match id ≫= percent_decode with Some x => k x | None => mret (Rejected 400) end.

(** The handler of a route for a method it has. *)
Definition handler (env : nat → SmscConnection.Env) (uptime : N) (registry : R) (values : metrics)
    (r : route) (m : http_method) (id : option string) (b : N + Value) : M :=
  match r, m with
  | SmppApi, _ => with_json Some b (λ v, answered (SmscClient.smpp_api_handler env v))
  | GatewayStatus, _ => looks (λ a, JsonAnswer 200 (SmscClient.get_gateway_status uptime a))
  | Connections, POST =>
      with_json de_create_request b (λ req, changes (SmscClient.create_smpp_connection req))
  | Connections, _ => looks (λ a, JsonAnswer 200 (SmscClient.list_smpp_connections a))
  | ConnectionById, PUT =>
      with_id id (λ connection_id,
      with_json de_update_request b (λ req, changes (SmscClient.update_smpp_connection connection_id req)))
  | ConnectionById, _ =>
      with_id id (λ connection_id, changes (SmscClient.delete_smpp_connection connection_id))
  | RebindById, _ =>
      with_id id (λ connection_id, changes (SmscClient.rebind_smpp_connection connection_id))
  | LiveConnections, POST =>
      with_json de_add_smsc b (λ req, changes (SmscClient.add_live_smsc_connection req))
  | LiveConnections, _ => looks (λ a, JsonAnswer 200 (SmscClient.list_live_smsc_connections a))
  | MetricsText, _ =>
      match prometheus_metrics registry values with
      | Some (status, content_type, text) => mret (TextAnswer status content_type text)
      | None => λ a, Some (Panic, a)
      end
  end.

(** The router. *)
Definition dispatch (env : nat → SmscConnection.Env) (uptime : N) (registry : R) (values : metrics)
    (q : request) : M :=
  match find_route routes (path q) with
  | None => mret (Rejected 404)
  | Some (r, methods, id) =>
      if decide (method q ∈ methods)
      then handler env uptime registry values r (method q) id (body q)
      else mret (Rejected 405)
  end.

(** ** The methods *)

Lemma update_first_twice f connection_id l c l' :
  (∀ c, f (f c) = f c) →
  (∀ c, SmppConnectionInfo.connection_id (f c) = SmppConnectionInfo.connection_id c) →
  SmscClient.update_first f connection_id l = Some (c, l') →
  SmscClient.update_first f connection_id l' = Some (c, l').
Proof.
  intros Hf Hid. revert c l'. induction l as [|x l IH]; intros c l'; [done|]. cbn.
  case_decide as E.
  - intros [= <- <-]. cbn. by rewrite Hid, decide_True, Hf.
  - destruct (SmscClient.update_first f connection_id l) as [[c' l'']|] eqn:Eu; [|done].
    intros [= <- <-]. cbn. rewrite decide_False by done. by rewrite (IH _ _ eq_refl).
Qed.

Lemma update_info_twice req c :
  SmscClient.update_info req (SmscClient.update_info req c) = SmscClient.update_info req c.
Proof. by destruct req as [[] [] ? []], c. Qed.

Lemma put_twice connection_id req a :
  let r := SmscClient.update_smpp_connection connection_id req a in
  SmscClient.update_smpp_connection connection_id req r.2 = r.
Proof.
  cbv zeta. unfold SmscClient.update_smpp_connection at 2 3.
  destruct (SmscClient.update_first _ _ _) as [[conn l]|] eqn:E; cbn [snd].
  - unfold SmscClient.update_smpp_connection. destruct a as [st n m p rn]. cbn in E |- *.
    by rewrite (update_first_twice _ _ _ _ _ (update_info_twice req) (λ c, eq_refl) E).
  - unfold SmscClient.update_smpp_connection. by rewrite E.
Qed.

Lemma delete_twice connection_id a :
  let a' := (SmscClient.delete_smpp_connection connection_id a).2 in
  (SmscClient.delete_smpp_connection connection_id a').2 = a'.
Proof.
  destruct a as [st n m p rn]. cbn. unfold SmscClient.set_store. cbn. f_equal.
  rewrite list_filter_filter. apply list_filter_iff. tauto.
Qed.

(** A request that is refused, or only looks at the state, does so again. *)
Definition keeps_state (m : M) : Prop := ∀ a r a', m a = Some (r, a') → a' = a.

Lemma ret_inv x a r a' : (mret x : M) a = Some (r, a') → r = Ok x ∧ a' = a.
Proof. by intros [= <- <-]. Qed.

Lemma keeps_ret x : keeps_state (mret x).
Proof. by intros a r a' [= <- <-]. Qed.

Lemma keeps_looks f : keeps_state (looks f).
Proof. by intros a r a' [= <- <-]. Qed.

Lemma handler_get env uptime registry values r m id b :
  m = GET ∨ m = HEAD → r ∈ [GatewayStatus; Connections; LiveConnections; MetricsText] →
  keeps_state (handler env uptime registry values r m id b).
Proof.
  intros Hm Hr. rewrite !elem_of_cons, elem_of_nil in Hr.
  destruct Hr as [->|[->|[->|[->|[]]]]], Hm as [->| ->]; cbn [handler]; try apply keeps_looks;
    (destruct (prometheus_metrics registry values) as [[[]]|]; [apply keeps_ret|by intros a ? a' [= <- <-]]).
Qed.

(** The routes a method is for. *)
Definition routes_of (m : http_method) : list route :=
  omap (λ p, if decide (m ∈ p.2.2) then Some p.2.1 else None) routes.

Lemma find_route_in p r methods id m :
  find_route routes p = Some (r, methods, id) → m ∈ methods → r ∈ routes_of m.
Proof.
  unfold routes_of. generalize routes. intros rs Hf Hm. induction rs as [|[pattern q] rs IH]; [done|].
  cbn in Hf |- *. destruct (match_path pattern p) as [id'|].
  - injection Hf as -> <-. cbn. rewrite decide_True by done. by left.
  - specialize (IH Hf). case_decide; [by right|done].
Qed.

(** C22: the interface keeps what HTTP promises of its methods: GET and HEAD change nothing, a
    PUT that is repeated gets the same answer and changes nothing more, and neither does a
    repeated DELETE. *)
Theorem http_methods_honoured env uptime registry values q a r a' :
  dispatch env uptime registry values q a = Some (r, a') →
  (method q ∈ [GET; HEAD] → a' = a) ∧
  (method q = PUT → dispatch env uptime registry values q a' = Some (r, a')) ∧
  (method q = DELETE → ∃ r', dispatch env uptime registry values q a' = Some (r', a')).
Proof.
  unfold dispatch. destruct (find_route routes (path q)) as [[[ro methods] id]|] eqn:Ef.
  2: { intros [= <- <-]. split_and!; [done..|]. intros _. by eexists. }
  case_decide as Hm; [|intros [= <- <-]; split_and!; [done..|intros _; by eexists]].
  pose proof (find_route_in _ _ _ _ _ Ef Hm) as Hr. intros Hd. split_and!.
  - intros Hget. rewrite !elem_of_cons, elem_of_nil in Hget.
    assert (Hg : method q = GET ∨ method q = HEAD) by tauto.
    refine (handler_get _ _ _ _ _ _ _ _ Hg _ a r a' Hd).
    destruct Hg as [E|E]; rewrite E in Hr; exact Hr.
  - intros E. rewrite E in Hr, Hd |- *. change (ro ∈ [ConnectionById]) in Hr.
    apply list_elem_of_singleton in Hr as ->.
    cbn [handler] in Hd |- *. unfold with_id in *.
    destruct (id ≫= percent_decode) as [connection_id|]; [|by apply ret_inv in Hd as [-> ->]].
    unfold with_json in *. destruct (body q) as [status|v]; [by injection Hd as <- <-|].
    destruct (de_update_request v) as [req|]; [|by apply ret_inv in Hd as [-> ->]].
    unfold changes in *. pose proof (put_twice connection_id req a) as Hp. cbv zeta in Hp.
    destruct (SmscClient.update_smpp_connection connection_id req a) as [[status w] a1].
    injection Hd as <- <-. cbn [snd] in Hp. by rewrite Hp.
  - intros E. rewrite E in Hr, Hd |- *. change (ro ∈ [ConnectionById]) in Hr.
    apply list_elem_of_singleton in Hr as ->.
    cbn [handler] in Hd |- *. unfold with_id in *.
    destruct (id ≫= percent_decode) as [connection_id|]; [|apply ret_inv in Hd as [-> ->]; by eexists].
    unfold changes in *. pose proof (delete_twice connection_id a) as Hp. cbv zeta in Hp.
    destruct (SmscClient.delete_smpp_connection connection_id a) as [[status w] a1].
    injection Hd as <- <-. cbn [snd] in Hp.
    destruct (SmscClient.delete_smpp_connection connection_id a1) as [[status' w'] a2].
    cbn in Hp. subst a2. by eexists.
Qed.

End rest_api.
