(* ===== verification/Startup.v ===== *)
(** * Starting the program (src/main.rs, src/smsc_server/smsc_server.rs, src/smsc_client/smsc_client.rs)

    [main], from the arguments to the running server or client: the configuration is loaded,
    the services it names are built, the listeners are bound. What is outside the process (the
    files, the databases, Redis, the message broker, HTTP services, the network, the draws of
    UUIDs) is given by the parameters of the modules that use it. *)
From S2P Require Export StorageFactory IdGenerators Alarm Listener Metrics CommandLine SmscClient.

(** How a process ends, or what it has become. *)
Inductive process (A : Type) : Type :=
| Panicked
| Exited (status : N)
| Running (a : A).
Arguments Panicked {A}. Arguments Exited {A}. Arguments Running {A}.

(** [unwrap] on what a process needs. *)
Definition or_panic {A B} (o : option A) (k : A → process B) : process B :=
  match o with Some a => k a | None => Panicked end.

(** ** User authentication *)

(** [Arc<dyn UserAuthentication>] *)
Inductive any_authentication : Type :=
| HttpAuthentication (url : string)
| SimpleAuthentication (valid_users : gmap string string).

Definition authenticates (post : string → Value → http_result) (a : any_authentication)
    (system_id password : string) : bool :=
  match a with
  | HttpAuthentication url => HttpUserAuthentication.authenticate post url system_id password
  | SimpleAuthentication valid_users =>
      SimpleUserAuthentication.authenticate valid_users system_id password
  end.

Section users.
Context `{JsonText, FromYaml UsersConfig}.
Variable read_to_string : string → ioresult string.

(** The URL goes before the file; without either, or without a readable file, it panics. *)
Definition choose_authentication (c : UserAuthConfig.t) : option any_authentication :=
  match UserAuthConfig.auth_url c, UserAuthConfig.users_file c with
  | Some url, _ => Some (HttpAuthentication url)
  | None, Some file =>
      users_data ← load_users_config read_to_string file;
      Some (SimpleAuthentication (SimpleUserAuthentication.new
        ((λ u, (user_system_id u, user_password u)) <$> users users_data)))
  | None, None => None
  end.
End users.

(** The password of the last entry for a system id. *)
Definition last_password (l : list UserCredential) (system_id : string) : option string :=
  last (user_password <$> filter (λ u, user_system_id u = system_id) l).

Lemma new_users_lookup l system_id :
  SimpleUserAuthentication.new ((λ u, (user_system_id u, user_password u)) <$> l) !! system_id
    = last_password l system_id.
Proof.
  unfold SimpleUserAuthentication.new, last_password.
  induction l as [|u l IH] using rev_ind; [done|].
  rewrite fmap_app, foldl_app, filter_app, fmap_app. cbn.
  destruct (decide (user_system_id u = system_id)) as [<-|Hne]; cbn.
  - by rewrite lookup_insert_eq, last_snoc.
  - by rewrite lookup_insert_ne, IH, app_nil_r by done.
Qed.

Lemma users_authenticate post l system_id password :
  authenticates post
    (SimpleAuthentication (SimpleUserAuthentication.new ((λ u, (user_system_id u, user_password u)) <$> l)))
    system_id password = true ↔ last_password l system_id = Some password.
Proof.
  cbn. unfold SimpleUserAuthentication.authenticate. rewrite new_users_lookup.
  destruct (last_password l system_id) as [pw|]; [|done]. rewrite bool_decide_eq_true. naive_solver.
Qed.

(** ** Message handlers *)

(** [Box<dyn MessageHandler>] *)
Inductive any_handler : Type :=
| NoOp
| Composite (handlers : list HttpMessageHandler.t).

Definition choose_handler `{Regex} (configs : option (list RequestHandlerConfig)) : any_handler :=
  match configs with
  | Some configs => Composite (CompositeMessageHandler.create_request_handler configs)
  | None => NoOp
  end.

Definition is_my_request_address `{Regex} (h : any_handler) (address : string) : bool :=
  match h with
  | NoOp => NoOpMessageHandler.is_my_request_address address
  | Composite handlers => CompositeMessageHandler.is_my_request_address handlers address
  end.

Definition handle_request `{Regex} (post : string → Value → http_result) (h : any_handler)
    (decoded_message : Value) : ioresult Value * any_handler :=
  match h with
  | NoOp => (NoOpMessageHandler.handle_message decoded_message, h)
  | Composite handlers =>
      let '(r, handlers) := CompositeMessageHandler.handle_message post decoded_message handlers in
      (r, Composite handlers)
  end.

(** ** The server *)

Section server.
Context {D K B U WD V T L C : Type}
  `{SqlDatabase D, RedisServer K, AmqpBroker B, UuidIdGenerator.Uuids U, RedisIdGenerator.ReplyAsU64,
    WhitelistDatabase WD, WhitelistService V, Network T L, TlsFiles C, JsonText, Regex,
    FromYaml ServerConfig.t, FromYaml UsersConfig, FromYaml (list string)}.
Variable read_to_string : string → ioresult string.
Variable connect_sql : string → option N → outcome string D.
Variable connect_amqp : string → string → outcome string B.
Variable open_redis : string → outcome string K.
Variable connect_whitelist : string → outcome string WD.

(** [SmscServer]; its table of clients, its sequence numbers and its table of transactions
    start empty ([server_world]). *)
Record smsc_server : Type := mkSmscServer {
  server_config : ServerConfig.t;
  id_generator : any_generator U K;
  distribution_list : DistrubutionList.t;
  pending_messages : any_storage D K B;
}.

(** [SmscServer::new]; [None] is a panic. *)
Definition new_server (draws : U) (config : ServerConfig.t) : option smsc_server :=
  let default_validity_period := ServerConfig.get_default_validity_period config in
  let message_storage_config :=
    default MessageStorageConfig.InMemory (ServerConfig.message_store config) in
  match create_message_storage connect_sql open_redis connect_amqp message_storage_config
          default_validity_period with
  | Ok pending_messages =>
      id_generator ← create_id_generator open_redis draws (ServerConfig.id_generator config);
      Some (mkSmscServer config id_generator
        (match ServerConfig.distribution_list config with
         | Some dl => DistrubutionList.create_from dl
         | None => DistrubutionList.new ∅
         end) pending_messages)
  | _ => None
  end.

Lemma new_server_config draws config s : new_server draws config = Some s → server_config s = config.
Proof.
  unfold new_server. destruct (create_message_storage _ _ _ _ _); [|done..].
  destruct (create_id_generator _ _ _); [|done]. by intros [= <-].
Qed.

Definition server_world (s : smsc_server) : world (any_storage D K B) :=
  mkWorld ClientManager.new 0 0 (pending_messages s) [] [] [] [].

(** A server whose start does not return. [smpp_listener]: what became of the task that runs
    [start_listener]; its failure is only logged. *)
Record running_server : Type := mkRunningServer {
  server : smsc_server;
  user_authentication : any_authentication;
  message_handler : any_handler;
  smpp_listener : ioresult (any_whitelist WD V * list L);
  rest_listener : rest_server L C;
}.

(** [SmscServer::start]: the listener is a task of its own, and the REST server decides
    whether the call returns. Each of the two sees its own answers of the network. *)
Definition start (service : V) (s : smsc_server) (auth : any_authentication) (handler : any_handler)
    (smpp_net rest_net : T) : process running_server :=
  let smpp := (start_listener read_to_string connect_whitelist service (server_config s) smpp_net).1 in
  match (start_rest (ServerConfig.rest_addresses (server_config s)) rest_net).1 with
  | NothingBound => Exited 0
  | rest => Running (mkRunningServer s auth handler smpp rest)
  end.

Definition start_server (service : V) (draws : U) (smpp_net rest_net : T) (config_file : string) :
    process running_server :=
  or_panic (load_server_config read_to_string config_file) (λ config,
  or_panic (choose_authentication read_to_string (ServerConfig.user_auth config)) (λ auth,
  let message_handler := choose_handler (ServerConfig.request_handlers config) in
  or_panic (new_server draws config) (λ server,
  start service server auth message_handler smpp_net rest_net))).

(** The environment of a connection of a running server: what the peer, the sockets and the
    HTTP services do is its own. *)
Definition connection_env (post : string → Value → http_result) (r : running_server) (p : peer)
    (writer : nat) (now : Z) (write_ok : nat → bool) (wait_response : N → option Value) : Env :=
  mkEnv (server_config (server r)) (connection_address p) writer now
    (authenticates post (user_authentication r)) (is_my_request_address (message_handler r))
    (λ message, (handle_request post (message_handler r) message).1) write_ok wait_response
    (distribution_list (server r)).

(** [GET /v1/healthz] *)
Definition handle_healthz : Value := JObject [("status", JString "healthy")].

(** ** What a started server is *)

(** C17: the REST server decides how a server starts: with none of its REST addresses bound the
    process ends and reports success, whatever its SMPP listeners are; otherwise it runs, with
    a socket for each bound REST address, even when its SMPP listeners could not be bound. *)
Theorem server_runs_with_rest service draws smpp_net rest_net config_file config auth s :
  load_server_config read_to_string config_file = Some config →
  choose_authentication read_to_string (ServerConfig.user_auth config) = Some auth →
  new_server draws config = Some s →
  let addrs := ServerConfig.rest_addresses config in
  let bound : list (ioresult L) := bindings addrs rest_net in
  let started := start_server service draws smpp_net rest_net config_file in
  (Forall (λ b, is_ok b = false) bound → started = Exited 0) ∧
  (Exists (λ b, is_ok b = true) bound → ∃ r, started = Running r ∧
     sockets_of (rest_listener r) ≡ₚ omap (λ p, socket_for p.1 p.2) (zip addrs bound) ∧
     smpp_listener r = (start_listener read_to_string connect_whitelist service config smpp_net).1 ∧
     user_authentication r = auth ∧ server r = s).
Proof.
  intros Hc Ha Hs addrs bound started. unfold started, start_server. rewrite Hc. cbn [or_panic].
  rewrite Ha. cbn [or_panic]. rewrite Hs. cbn [or_panic].
  unfold start. rewrite (new_server_config _ _ _ Hs).
  pose proof (rest_sockets addrs rest_net) as Hp. pose proof (rest_nothing addrs rest_net) as Hn.
  fold addrs bound in Hp, Hn |- *. split.
  - intros Hf. by apply Hn in Hf as ->.
  - intros He. destruct (start_rest addrs rest_net).1 as [|first spawned] eqn:E.
    + exfalso. assert (Hf : Forall (λ b, is_ok b = false) bound) by by apply Hn.
      rewrite Forall_forall in Hf. apply Exists_exists in He as (b & Hb & Hok).
      by rewrite (Hf b Hb) in Hok.
    + by eexists.
Qed.

End server.

(** ** The client *)

Section client.
Context {K U AD AV T L C : Type}
  `{RedisServer K, UuidIdGenerator.Uuids U, RedisIdGenerator.ReplyAsU64, AlarmDatabase AD,
    HttpAlarmNotifier.AlarmService AV, Network T L, TlsFiles C, JsonText, Regex,
    FromYaml ClientConfig.t}.
Variable read_to_string : string → ioresult string.
Variable open_redis : string → outcome string K.

(** A client whose start does not return; [app] has its connections. *)
Record running_client : Type := mkRunningClient {
  client_config : ClientConfig.t;
  app : SmscClient.app;
  alarm_notifier : option (any_notifier AD AV);
  client_id_generator : any_generator U K;
  client_handler : any_handler;
  client_rest : rest_server L C;
}.

(** Nothing in the client installs the drivers of sqlx. *)
Definition drivers_installed : bool := false.

Definition choose_notifier (service : AV) (config : option AlarmConfig.t) :
    ioresult (option (any_notifier AD AV)) :=
  match config with
  | Some cfg => Some <$> create_alarm_notifier drivers_installed service cfg
  | None => Ok None
  end.

(** [start_rest] of the client: it returns only when nothing could be bound. *)
Definition start_client_rest (rest_addresses : list RestAddressConfig.t) (net : T) : rest_server L C :=
  (start_rest rest_addresses net).1.

(** [SmscClient::new] and [SmscClient::start]: the connections run as tasks of their own when
    the REST server is started. *)
Definition start_smsc_client (service : AV) (draws : U) (now : Z) (net : T) (config : ClientConfig.t) :
    ioresult (process running_client) :=
  let handler := choose_handler (ClientConfig.request_handlers config) in
  alarm_notifier ← choose_notifier service (ClientConfig.alarm_config config);
  match create_id_generator open_redis draws (ClientConfig.id_generator config) with
  | Some id_generator =>
      Ok match start_client_rest (ClientConfig.rest_addresses config) net with
         | NothingBound => Exited 0
         | rest => Running (mkRunningClient config (SmscClient.start config now) alarm_notifier
                              id_generator handler rest)
         end
  | None => Panic
  end.

(** An error of the start ends the process with status 1. *)
Definition start_client (service : AV) (draws : U) (now : Z) (net : T) (config_file : string) :
    process running_client :=
  or_panic (load_client_config read_to_string config_file) (λ config,
  match start_smsc_client service draws now net config with
  | Ok p => p
  | Err _ => Exited 1
  | Panic => Panicked
  end).

(** A client configured to keep its alarms in a database never starts: it panics before its
    first connection, as no sqlx driver is installed in it. *)
Theorem database_alarms_panic service draws now net config_file config url alarm_id :
  load_client_config read_to_string config_file = Some config →
  ClientConfig.alarm_config config = Some (AlarmConfig.Database url alarm_id) →
  start_client service draws now net config_file = Panicked.
Proof.
  intros Hc Ha. unfold start_client. rewrite Hc. cbn [or_panic]. unfold start_smsc_client.
  rewrite Ha. cbn [choose_notifier]. unfold create_alarm_notifier, DatabaseAlarmNotifier.new, drivers_installed.
  by rewrite without_drivers.
Qed.

End client.

(** ** The program *)

(** [main]: [parse] is what clap makes of the arguments, or the status it exits with, which is 2
    for a value it does not accept. A log file that cannot be opened is a panic. *)
Definition main {R F A : Type} `{Prometheus R, Tracing F} (registry : R) (parse : N + matches)
    (start_client start_server : string → process A) : process A :=
  or_panic (register_metrics registry) (λ _,
  match parse with
  | inl status => Exited status
  | inr m =>
      match args_of m with
      | None => Exited 2
      | Some args =>
          or_panic (init_logging (log_output args) (log_format args) (log_timestamp args) (log_level args)) (λ _,
          match app_config args with
          | Client config_file => start_client config_file
          | Server config_file => start_server config_file
          end)
      end
  end).

(** Without options for the log the program starts what the subcommand says. *)
Theorem main_without_log_options {R F A} `{Prometheus R, Tracing F} (registry : R) m
    (start_client start_server : string → process A) :
  registered registry = [] → (∀ k, value_of m k = None) →
  main registry (inr m) start_client start_server =
  match subcommand m with Client file => start_client file | Server file => start_server file end.
Proof.
  intros Hr Hm. unfold main. destruct (register_metrics_once registry Hr) as (r' & -> & _). cbn [or_panic].
  unfold args_of. rewrite !Hm. reflexivity.
Qed.
