(* ===== verification/ServerApi.v ===== *)
(** * The REST interface of the server (src/smsc_server/smsc_server.rs, [start_rest_listener])

    The two routes of the server behind their methods, and what a posted message does: a
    deliver_sm goes to a client bound for its address, anything else that can be encoded is
    dropped, and the answer is the same. Routing is as in RestApi.v. *)
From S2P Require Export RestApi Startup DeliveryProps.

Inductive server_route : Type := SubmitApi | Healthz.

Definition server_routes : list (list segment * (server_route * list http_method)) :=
  [([Lit "v1"; Lit "smpp"], (SubmitApi, [POST]));
   ([Lit "v1"; Lit "healthz"], (Healthz, [GET; HEAD]))].

Section server_api.
Context {S : Type} `{St : MessageStorage S, B64 : Base64, Tlv : TlvOrder, Chr : Chrono, Reg : Regex,
  Gen : MessageIdGenerator, Ord : ClientOrder}.

Definition server_handler (env : Server.Env) (r : server_route) (b : N + Value) : StateM (world S) answer :=
  match r, b with
  | SubmitApi, inr payload => JsonAnswer 200 <$> handle_rest_request env payload
  | SubmitApi, inl status => mret (Rejected status)
  | Healthz, _ => mret (JsonAnswer 200 handle_healthz)
  end.

Definition server_dispatch (env : Server.Env) (q : request) : StateM (world S) answer :=
  match find_route server_routes (path q) with
  | None => mret (Rejected 404)
  | Some (r, methods, _) =>
      if decide (method q ∈ methods) then server_handler env r (body q) else mret (Rejected 405)
  end.

Definition is_deliver (p : SMPPMessage.t) : bool :=
  match SMPPMessage.get_command_id p ≫= CommandId.from_u32 with
  | Some CommandId.DeliverSm => true
  | _ => false
  end.

(** The answer to a message that can be encoded. *)
Definition received : Value :=
  JObject [("message", JString "SMPP message received"); ("status", JString "ok")].

Lemma handle_rest_request_effect env v p (st : world S) :
  from_json v = Ok p →
  handle_rest_request env v st = (Ok received, handed_over st
    (if is_deliver p
     then reached env (clients st) (default "unknown" (get_str v "destination_addr")) (SMPPMessage.to_vec p)
     else []) (next_sequence st) (storage st)).
Proof.
  intros Hp. unfold handle_rest_request, is_deliver. rewrite Hp.
  destruct (SMPPMessage.get_command_id p ≫= CommandId.from_u32) as [c|]; [|by rewrite world_eta].
  destruct c; try by rewrite world_eta.
  destruct (client_send_reached env (default "unknown" (get_str v "destination_addr"))
    (SMPPMessage.to_vec p) st) as [r Hr]. unfold mbind, StateM_bind. by rewrite Hr.
Qed.

(** C39: A request that is not a deliver_sm for a client bound for its address changes nothing; one
    that is writes its PDU once, to such a client. The sender is told neither: whatever can be
    encoded is answered the same. *)
Theorem server_request env q (st st' : world S) r :
  server_dispatch env q st = (r, st') →
  (st' = st ∨ ∃ v p w, body q = inr v ∧ from_json v = Ok p ∧ is_deliver p = true ∧
     bound_for env (clients st) (default "unknown" (get_str v "destination_addr")) w ∧
     st' = handed_over st [(w, SMPPMessage.to_vec p)] (next_sequence st) (storage st)) ∧
  (∀ v p, method q = POST → path q = ["v1"; "smpp"] → body q = inr v → from_json v = Ok p →
     r = Ok (JsonAnswer 200 received) ∧
     (is_deliver p = true →
      (∃ w, bound_for env (clients st) (default "unknown" (get_str v "destination_addr")) w) →
      st' ≠ st)).
Proof.
  intros Hd. split.
  - unfold server_dispatch in Hd. destruct (find_route _ _) as [[[ro methods] id]|]; [|left; by injection Hd].
    case_decide; [|left; by injection Hd].
    destruct ro, (body q) as [status|v] eqn:Ev; cbn [server_handler] in Hd; try (left; by injection Hd).
    unfold fmap, StateM_fmap, mbind, StateM_bind in Hd.
    destruct (from_json v) as [p|e|] eqn:Ep.
    2,3: unfold handle_rest_request in Hd; rewrite Ep in Hd; left; by injection Hd.
    rewrite (handle_rest_request_effect _ _ _ _ Ep) in Hd. injection Hd as _ <-.
    destruct (is_deliver p) eqn:Edel; [|left; apply world_eta].
    pose proof (reached_spec env (clients st) (default "unknown" (get_str v "destination_addr"))
      (SMPPMessage.to_vec p)) as Hr.
    destruct (reached _ _ _ _) as [|[w b] [|y l]]; [left; apply world_eta| |done].
    destruct Hr as [Hb Hw]. cbn in Hb, Hw. subst b. right. by exists v, p, w.
  - intros v p Hm Hpath Hb Hp. unfold server_dispatch in Hd. rewrite Hm, Hpath, Hb in Hd.
    change (fmap (JsonAnswer 200) (handle_rest_request env v) st = (r, st')) in Hd.
    unfold fmap, StateM_fmap, mbind, StateM_bind in Hd.
    rewrite (handle_rest_request_effect _ _ _ _ Hp) in Hd. injection Hd as <- <-. split; [done|].
    intros Hdel [w Hw] Hsame. rewrite Hdel in Hsame.
    pose proof (reached_spec env (clients st) (default "unknown" (get_str v "destination_addr"))
      (SMPPMessage.to_vec p)) as Hr.
    destruct (reached _ _ _ _) as [|x l]; [by apply (Hr w)|].
    apply (f_equal (λ s, length (sent s))) in Hsame. cbn in Hsame. rewrite length_app in Hsame. cbn in Hsame. lia.
Qed.

End server_api.
