(* ===== verification/Login.v ===== *)
(** * Logging in

    A client and a server started from their configuration files: the bind handshake of
    Handshake.v, in the environment that Startup.v builds for a connection of a running
    server. *)
From S2P Require Export Startup Handshake.
Import SmscConnection.

Section login.
Context {D K B U WD V T L C : Type}
  `{Db : SqlDatabase D, Rd : RedisServer K, Br : AmqpBroker B, Uu : UuidIdGenerator.Uuids U,
    Ru : RedisIdGenerator.ReplyAsU64, Wd : WhitelistDatabase WD, Ws : WhitelistService V,
    Nw : Network T L, Tf : TlsFiles C, Txt : JsonText, Rfc : Rfc3339, Ys : FromYaml ServerConfig.t,
    Yu : FromYaml UsersConfig, Yl : FromYaml (list string), Mo : MessageOrder, B64 : Base64,
    Tlv : TlvOrder, Chr : Chrono, Reg : Regex, Gen : MessageIdGenerator, Ord : ClientOrder}.
Variable read_to_string : string → ioresult string.
Variable connect_sql : string → option N → outcome string D.
Variable connect_amqp : string → string → outcome string B.
Variable open_redis : string → outcome string K.
Variable connect_whitelist : string → outcome string WD.

Abbreviation running := (@running_server D K B U WD V L C).

(** What a running server takes from its file: the configuration and the users. *)
Lemma running_from_file service draws smpp_net rest_net config_file config l file (r : running) :
  load_server_config read_to_string config_file = Some config →
  ServerConfig.user_auth config = UserAuthConfig.mk (Some file) None →
  load_users_config read_to_string file = Some (mkUsersConfig l) →
  start_server read_to_string connect_sql connect_amqp open_redis connect_whitelist service draws
    smpp_net rest_net config_file = Running r →
  server_config (server r) = config ∧
  ∀ post id pw, authenticates post (user_authentication r) id pw = true ↔ last_password l id = Some pw.
Proof.
  intros Hc Hu Hl. unfold start_server. rewrite Hc. cbn [or_panic].
  unfold choose_authentication. rewrite Hu. cbn [UserAuthConfig.auth_url UserAuthConfig.users_file].
  rewrite Hl. cbn [mbind option_bind or_panic users].
  destruct (new_server _ _ _ _ _) as [s0|] eqn:Es; [|done]. cbn [or_panic].
  assert (Hconf : server_config s0 = config) by by eapply new_server_config.
  unfold start. destruct (start_rest _ _).1; [done|]. intros [= <-]. cbn [server user_authentication].
  split; [done|]. intros post id pw. apply users_authenticate.
Qed.

(** C10: logging in with the users file: on any connection of a server started from a
    configuration that names a users file and no service to ask, and whose socket takes writes,
    the bind a client builds from its own configuration, with a system id of at most 16 bytes,
    is answered with one PDU, and the bind loop of the client ends with
    success exactly when the last entry of the file for its system id has its password. *)
Theorem login post service draws smpp_net rest_net config_file config l file r
    p w now write_ok wait c (s : state) (st : Server.world (any_storage D K B)) :
  load_server_config read_to_string config_file = Some config →
  ServerConfig.user_auth config = UserAuthConfig.mk (Some file) None →
  load_users_config read_to_string file = Some (mkUsersConfig l) →
  start_server read_to_string connect_sql connect_amqp open_redis connect_whitelist service draws
    smpp_net rest_net config_file = Running (r : running) →
  config_ok (SmscConnection.config c) → (next_sequence s < 2 ^ 32)%N →
  str_len (SmscConnectionConfig.system_id (SmscConnection.config c)) ≤ 16 → write_ok w = true →
  let env := connection_env post r p w now write_ok wait in
  let known := last_password l (SmscConnectionConfig.system_id (SmscConnection.config c)) in
  ∃ m s' reply st',
    create_bind_message c s = Some (Ok m, s') ∧
    Server.sent st' = Server.sent st ++ [(w, reply)] ∧
    ((N.of_nat (SMPPMessage.len m) < 2 ^ 32)%N →
     Server.drain env 2 (SmppMessageBuffer.mk (SMPPMessage.to_vec m)) st
     = Some (Ok SmppMessageBuffer.new, st')) ∧
    ((N.of_nat (length reply) < 2 ^ 32)%N →
     ∀ timer reads, concat reads.*2 = reply → Forall (λ r, r.1 < timer * 1000)%N reads →
     bind_loop timer (prod_map id ReadBytes <$> reads) SmppMessageBuffer.new
     = Some (if decide (known = Some (SmscConnectionConfig.password (SmscConnection.config c)))
             then Ok tt else io_err Other "Bind failed", SmppMessageBuffer.new)).
Proof.
  intros Hc Hu Hl Hrun Hok Hseq Hlen Hw env known.
  destruct (running_from_file _ _ _ _ _ _ _ _ _ Hc Hu Hl Hrun) as [_ Hauth].
  destruct (bind_exchange env c s st Hok Hseq Hlen Hw) as (m & s' & reply & st' & E & Hsent & _ & Hd & Hb).
  exists m, s', reply, st'. split_and!; [done..|]. intros Hr timer reads Hreads Htimes.
  rewrite (Hb Hr timer reads Hreads Htimes). f_equal. f_equal.
  specialize (Hauth post (SmscConnectionConfig.system_id (SmscConnection.config c))
    (SmscConnectionConfig.password (SmscConnection.config c))).
  change (Server.authenticate env) with (authenticates post (user_authentication r)).
  case_decide as Ek; [by rewrite (proj2 Hauth Ek)|].
  destruct (authenticates _ _ _ _); [|done]. by destruct Ek; apply Hauth.
Qed.

End login.
