(* ===== verification/StartupWitnesses.v ===== *)
(** * The theorems on starting the program at concrete inputs

    Files on a disk of four names, a network that binds every address but one, tables kept in
    lists: the theorems of the modules on starting apply to them. *)
From S2P Require Import ClientWitnesses SqlInstance SqlWitnesses RedisWitnesses RabbitWitnesses Login ServerApi DeliveryWitnesses.

(** ** The world outside *)

(** A table of addresses; every query is answered. *)
#[export, refine] Instance listed_addresses : WhitelistDatabase (list string) := {
  execute_text _ d := (Ok tt, d);
  fetch_count _ d := (Ok (Z.of_nat (length d)), d);
  fetch_optional _ ip d := (Ok (if decide (ip ∈ d) then Some ip else None), d);
  listed d := d;
  answering _ := True;
}.
Proof.
  - intros d _. by exists d.
  - intros ip d _. exists (if decide (ip ∈ d) then Some ip else None), d. split_and!; [done..|].
    by case_decide as E; (split; [intros Hs|intros Hs]); try done; destruct Hs.
Defined.

(** A service that is down. *)
#[export] Instance down_service : WhitelistService unit := {
  http_get _ s := (HttpFailed, s);
  urlencode s := s;
}.

(** A table of alarms; the drivers must be there. *)
#[export, refine] Instance listed_alarms : AlarmDatabase (list alarm_row) := {
  any_connect drivers _ := if drivers then Ok [] else Panic;
  execute_alarm text binds d :=
    match binds with
    | [SText id; SText st; SText host; SInt port; SText description] =>
        (Ok tt, d ++ [mkAlarmRow id st host port description])
    | _ => (Ok tt, d)
    end;
  alarm_rows d := d;
  writable _ := True;
}.
Proof.
  - done.
  - intros d id st host port description _ _. by eexists.
Defined.

#[export] Instance no_alarm_service : HttpAlarmNotifier.AlarmService unit := λ _ _ s, (HttpFailed, s).

(** Listeners are numbered; port 80 is taken. *)
#[export] Instance numbered : Network nat nat := λ address n,
  if ends_with (as_bytes ":80") (as_bytes address) then (io_err Other "in use", n) else (Ok n, S n).

#[export] Instance no_certificates : TlsFiles unit := {
  file_exists _ := false;
  from_pem_file _ _ := None;
}.

#[export] Instance numbered_uuids : UuidIdGenerator.Uuids N := λ n, (format_dec n, (n + 1)%N).

#[export, refine] Instance replies : RedisIdGenerator.ReplyAsU64 := {
  reply_as_u64 z := if (0 <=? z)%Z then Some (Z.to_N z) else None;
}.
Proof. intros z Hz. by rewrite (proj2 (Z.leb_le 0 z)) by lia. Defined.

#[export] Instance no_yaml {A} : FromYaml A := λ _, inl "no YAML".

#[export, refine] Instance order_of_map : MessageOrder := { message_keys := mem_keys }.
Proof. exact mem_keys_iterates. Defined.

(** ** The files *)

Definition rest_value (address : string) : Value := JObject [("address", JString address)].

Definition server_value (rest_address : string) : Value :=
  JObject
    [("interface_version", jnum 52);
     ("ip_whitelist", JObject [("file", JString "ips.txt"); ("type", JString "memory")]);
     ("listen_addresses", JArray [JString "0.0.0.0:2775"]);
     ("rest_addresses", JArray [rest_value rest_address]);
     ("user_auth", JObject [("users_file", JString "users.json")])].

Definition users_value : Value :=
  JObject [("users", JArray [JObject [("password", JString "old"); ("system_id", JString "esme")];
                             JObject [("password", JString "secret"); ("system_id", JString "esme")]])].

Definition client_value : Value :=
  JObject
    [("alarm_config", JObject [("type", JString "database"); ("url", JString "sqlite://alarms.db")]);
     ("connections", JArray [])].

Definition disk (path : string) : ioresult string :=
  match str_match
    [("server.json", json_to_string (server_value "0.0.0.0:3000"));
     ("taken.json", json_to_string (server_value "0.0.0.0:80"));
     ("users.json", json_to_string users_value); ("client.json", json_to_string client_value);
     ("ips.txt", file_text ["10.0.0.1"; "10.0.0.2"])] path with
  | Some data => Ok data
  | None => io_err NotFound "no such file"
  end.

Definition no_database {A} (_ : string) (_ : option N) : outcome string A := Err "refused".
Definition no_broker {A} (_ _ : string) : outcome string A := Err "refused".
Definition no_server {A} (_ : string) : outcome string A := Err "refused".

Abbreviation test_server := (@running_server memory_db keyspace memory_broker N (list string) unit nat unit).

Definition start_test (config_file : string) : process test_server :=
  start_server disk no_database no_broker no_server no_server tt 0%N 0 10 config_file.

Definition loaded_server : ServerConfig.t :=
  Eval vm_compute in default Witnesses.server_config (load_server_config disk "server.json").
Definition taken_server : ServerConfig.t :=
  Eval vm_compute in default Witnesses.server_config (load_server_config disk "taken.json").

Lemma loads_server : load_server_config disk "server.json" = Some loaded_server.
Proof. vm_compute. reflexivity. Qed.
Lemma loads_taken : load_server_config disk "taken.json" = Some taken_server.
Proof. vm_compute. reflexivity. Qed.

(** ** The theorems *)

Definition peer_at (ip : string) : peer := mkPeer ip (Some (ip +:+ ":4000")).

Definition incoming : list (nat * accepted_socket) :=
  [(0, Ok (peer_at "10.0.0.1")); (0, Ok (peer_at "10.9.9.9")); (1, Ok (peer_at "10.0.0.2"));
   (0, io_err Other "too many files"); (0, Ok (peer_at "10.0.0.2"))].

Lemma whitelist_guards_witness :
  served_on 0 (Listener.served (accept_loops
    (InDatabase ["10.0.0.1"; "10.0.0.2"] : any_whitelist (list string) unit) incoming))
  = [peer_at "10.0.0.1"].
Proof.
  rewrite (whitelist_guards _ ["10.0.0.1"; "10.0.0.2"]); [|done..]. vm_compute. reflexivity.
Defined.

Definition attempts : list Reconnection.attempt :=
  [Reconnection.NotBound (IoError TimedOut "timed out"); Reconnection.WasBound (Ok tt)].

Lemma alarm_table_alternates_witness : ∃ added,
  DatabaseAlarmNotifier.pool (notify_all
    (Reconnection.alarms (Reconnection.run err_msg "smsc:2775" (Reconnection.new true) attempts))
    (DatabaseAlarmNotifier.mk ([] : list alarm_row) "id")) = added ∧
  ∀ i r, added !! i = Some r →
    status r = (if Nat.even i then "raised" else "cleared") ∧ row_alarm_id r = "id" ∧
    row_host r = "smsc" ∧ row_port r = 2775%Z.
Proof.
  destruct (alarm_table_alternates (D := list alarm_row) err_msg "smsc:2775" "id" attempts [])
    as (added & E & _ & H); [exact I|].
  exists added. split; [exact E|]. intros i r Hi. destruct (H i r Hi) as (H1 & H2 & H3 & H4).
  split_and!; [done..| |].
  - rewrite H3. vm_compute. reflexivity.
  - rewrite H4. vm_compute. reflexivity.
Defined.

Lemma loaded_configs_typed_witness :
  server_typed (default Witnesses.server_config (load_server_config disk "server.json")).
Proof.
  apply (loaded_configs_typed disk "server.json"); [vm_compute; reflexivity|]. vm_compute. reflexivity.
Defined.

Definition the_users : any_authentication :=
  SimpleAuthentication (SimpleUserAuthentication.new [("esme", "old"); ("esme", "secret")]).

Definition the_server (c : ServerConfig.t) : @smsc_server memory_db keyspace memory_broker N :=
  mkSmscServer c (Uuid (UuidIdGenerator.mk 0%N)) (DistrubutionList.new ∅)
    (InMemoryStorage (InMemoryMessageStorage.new 3600)).

(** The REST port of the one server is free, that of the other is taken. *)
Lemma server_runs_with_rest_witness :
  start_test "taken.json" = Exited 0 ∧
  ∃ r, start_test "server.json" = Running r ∧ sockets_of (rest_listener r) ≡ₚ [Plain 10].
Proof.
  split.
  - apply (server_runs_with_rest disk no_database no_broker no_server no_server tt 0%N 0 10
      "taken.json" taken_server the_users (the_server taken_server) loads_taken).
    + vm_compute. reflexivity.
    + vm_compute. reflexivity.
    + by repeat constructor.
  - destruct (server_runs_with_rest disk no_database no_broker no_server no_server tt 0%N 0 10
      "server.json" loaded_server the_users (the_server loaded_server) loads_server)
      as [_ Hr]; [vm_compute; reflexivity..|].
    destruct Hr as (r & E & Hs & _); [by left|]. exists r. split; [exact E|].
    rewrite Hs. vm_compute. reflexivity.
Defined.

Lemma database_alarms_panic_witness :
  start_client (AD := list alarm_row) disk (K := keyspace) no_server tt 0%N 0 0 "client.json" = Panicked.
Proof.
  refine (database_alarms_panic disk no_server tt 0%N 0 0 "client.json"
    (ClientConfig.mk "transceiver" [] [] None None
       (Some (AlarmConfig.Database "sqlite://alarms.db" "smsc_connection_failure")) None 30 30 300 30)
    "sqlite://alarms.db" "smsc_connection_failure" _ _); vm_compute; reflexivity.
Defined.

Definition the_running : test_server :=
  mkRunningServer (the_server loaded_server) the_users NoOp
    (Ok (InMemory (MemoryIpWhitelist.mk ["10.0.0.1"; "10.0.0.2"] false), [0]))
    (Serving (Some 10) []).

(** The client of ClientWitnesses.v logs in with the second of the two passwords. *)
Lemma login_witness : ∃ m s' reply (st' : world (any_storage memory_db keyspace memory_broker)),
  SmscConnection.create_bind_message client_params open_conn = Some (Ok m, s') ∧
  Server.sent st' = [(7, reply)] ∧
  ((N.of_nat (length reply) < 2 ^ 32)%N →
   ∀ timer reads, concat reads.*2 = reply → Forall (λ r, r.1 < timer * 1000)%N reads →
   SmscConnection.bind_loop timer (prod_map id SmscConnection.ReadBytes <$> reads) SmppMessageBuffer.new
   = Some (Ok tt, SmppMessageBuffer.new)).
Proof.
  destruct (login disk no_database no_broker no_server no_server (λ _ _, HttpFailed) tt 0%N 0 10
    "server.json" loaded_server [mkUserCredential "esme" "old"; mkUserCredential "esme" "secret"]
    "users.json" the_running (peer_at "10.0.0.1") 7 0 (λ _, true) (λ _, None) client_params open_conn
    (server_world (the_server loaded_server)))
    as (m & s' & reply & st' & E & Hs & _ & Hb).
  - exact loads_server.
  - reflexivity.
  - vm_compute. reflexivity.
  - vm_compute. reflexivity.
  - exact client_params_ok.
  - reflexivity.
  - vm_compute. repeat constructor.
  - reflexivity.
  - exists m, s', reply, st'. split_and!; [exact E|exact Hs|exact Hb].
Defined.

(** ** The REST interface *)

#[export, refine] Instance listed_metrics : Prometheus (list string) := {
  register name r := if decide (name ∈ r) then Err "duplicate" else Ok (r ++ [name]);
  encode_text _ _ := Ok [];
  registered r := r;
}.
Proof. intros name r. by case_decide. Defined.

Definition one_connection : SmscClient.app :=
  SmscClient.set_store
    [SmppConnectionInfo.mk "smpp_conn-1" "a" "smsc" 2775 "esme" "transceiver" "disconnected" true 30]
    one_app.

Definition put_request : request :=
  mkRequest PUT ["v1"; "gateway"; "smpp"; "connections"; "smpp_conn-1"]
    (inr (JObject [("name", JString "b")])).

Lemma http_methods_honoured_witness : ∃ r a',
  dispatch (R := list string) Some client_envs 7 [] no_metrics put_request one_connection = Some (r, a') ∧
  SmppConnectionInfo.name <$> SmscClient.smpp_connections_store a' = ["b"] ∧
  dispatch (R := list string) Some client_envs 7 [] no_metrics put_request a' = Some (r, a').
Proof.
  destruct (dispatch (R := list string) Some client_envs 7 [] no_metrics put_request one_connection)
    as [[r a']|] eqn:E; [|vm_compute in E; discriminate].
  exists r, a'. split; [exact eq_refl|].
  destruct (http_methods_honoured (R := list string) Some client_envs 7 [] no_metrics put_request
    one_connection r a' E) as (_ & Hput & _).
  split; [|exact (Hput eq_refl)].
  vm_compute in E. injection E as _ Ha. rewrite <-Ha. reflexivity.
Defined.

(** ** Failing services *)

(** A table whose database is gone. *)
Inductive lost : Type := Lost.

#[export, refine] Instance lost_table : WhitelistDatabase lost := {
  execute_text _ d := (Err "gone", d);
  fetch_count _ d := (Err "gone", d);
  fetch_optional _ _ d := (Err "gone", d);
  listed _ := [];
  answering _ := False;
}.
Proof. all: by intros. Defined.

(** *** A deliver_sm posted to the server *)

Definition posted : Value := Eval vm_compute in as_deliver_sm 9 submit_normal.
Definition posted_pdu : SMPPMessage.t :=
  Eval vm_compute in match from_json posted with Ok m => m | _ => SMPPMessage.mk [] end.

Lemma server_request_witness :
  (server_dispatch (env_at 1000000) (mkRequest POST ["v1"; "smpp"] (inr posted))
    (sql_world client_12345 sql_empty)).1 = Ok (JsonAnswer 200 received) ∧
  (server_dispatch (env_at 1000000) (mkRequest POST ["v1"; "smpp"] (inr posted))
    (sql_world client_12345 sql_empty)).2 ≠ sql_world client_12345 sql_empty.
Proof.
  destruct (server_request (env_at 1000000) (mkRequest POST ["v1"; "smpp"] (inr posted))
    (sql_world client_12345 sql_empty) _ _ (surjective_pairing _)) as [_ Hanswer].
  destruct (Hanswer posted posted_pdu) as [Hr Hst]; [reflexivity|reflexivity|reflexivity|vm_compute; reflexivity|].
  split; [exact Hr|]. apply Hst; [vm_compute; reflexivity|]. exists 8. apply bound_12345.
Defined.

Lemma failing_whitelists_witness :
  (admitted "10.9.9.9" (InDatabase Lost : any_whitelist lost unit)).1 = Some true ∧
  (admitted "10.9.9.9" (BehindHttp (HttpIpWhitelist.new "http://wl/" tt) : any_whitelist lost unit)).1
    = Some false.
Proof.
  destruct (failing_whitelists (D := lost) (V := unit) "10.9.9.9") as [Hd Hh]. split.
  - by apply (Hd Lost "gone").
  - by apply Hh.
Defined.
